(* ===== verification/_CoqProject ===== *)
-Q . S2P
Prelude.v
GoStr.v
GoBytes.v
JsonText.v
Regex.v
AtSyntax.v
Base64.v
Refs.v
Bfe.v
Mapper.v
MessageDB.v
Lifecycle.v
RateLimit.v
Processor.v
Dependencies.v
Identity.v
RecordFetch.v
Deferred.v
Bridge.v
Codec.v
Stream.v
Mux.v
Session.v
SessionProofs.v
SessionCalls.v
Boxstream.v
Tid.v
PublishQueue.v
Tangle.v
Roomstate.v
Ebt.v
Bencode.v
RepoTree.v
Backfill.v
AtIndexDB.v
AtIndex.v
AtIndexProofs.v
AtSubscribe.v
Firehose.v
Crypto.v
Bendy.v
Formats.v
Legacy.v
Feedlog.v
FeedManager.v
Publisher.v
Runtime.v
RoomDB.v
RoomDBProofs.v
RoomDBSpec.v
RoomHandlers.v
RoomAuth.v
RoomConn.v
FollowerTracker.v
ReverseText.v
ReverseDB.v
ReverseSync.v
MemberIngest.v
ReverseProofs.v
ReverseCalls.v
ReverseEcho.v
Scenarios.v
ProtocolScenarios.v
StorageScenarios.v
ReverseScenarios.v
AtScenarios.v
PipelineScenarios.v
SessionScenarios.v
RoomScenarios.v
