(* ===== verification/Prelude.v ===== *)
(** * The AT Protocol / SSB bridge: verification development (root file)

    The program (Go, src/) mirrors accounts of the AT Protocol into Secure
    Scuttlebutt feeds. This development models the core logic of its two halves,
    the bridge and the SSB stack, and proves what makes them correct.

    ** The bridge

    Commits arrive from the AT Protocol firehose; the bridge processor maps each
    record to an SSB message, resolves the references it contains, and publishes
    it on the feed of the account, keeping one row per record in the messages
    table. The files, in the order of the calls:

    - Mapper (internal/mapper/mapper.go): one record into an SSB message map, rich
      text, placeholders of unresolved references, sanitizing before publishing.
      The JSON decoding of a record into its struct is the class [RecordDecoder].
    - MessageDB (internal/db/messages.go, db.go): the rows, the statements run on
      them, and the class [MessageStore] with its laws, against which the
      processor is proved and which the table implements.
    - Lifecycle (internal/bridge/processor_lifecycle.go): the world of the
      processor (store, log of the publisher, clock, resolver state) and the
      publish lifecycle of one mapped message.
    - RateLimit, Processor (internal/bridge/processor.go): the limiters, commits,
      record events, deletes, hydration of dependencies.
    - Dependencies (internal/bridge/dependencies.go): [EnsureRecord], mutually
      recursive with the processor through a callback; [ensure] ties the knot with
      a fuel of one unit per level of the call stack. [MaxDependencyDepth] is 16,
      so 17 levels suffice, which [ensure_record_terminates] proves: any larger
      fuel gives the same result.
    - Deferred (internal/bridge/processor.go): the deferred, expiry and retry runs.
      The fuel of the cascade is the number of candidates plus one, enough since a
      candidate is attempted once ([resolve_deferred_terminates]).
    - Bridge (cmd/bridge-cli/app.go): the wiring, and the theorems over every
      history of calls: the log stays clean, the rows stay well formed from any
      well-formed table on, the fetches of a top-level record stay bounded. What the
      reverse sync and ResetMessageForRetry write into the same table is not of that
      form, and is stated beside it.
    - PublishQueue (internal/publishqueue/publisher.go): lanes of publish requests
      as a step relation; order per DID and draining. A send on a lane that was
      closed panics.
    - Tid (pkg/atproto/syntax/tid.go): timestamp identifiers and their clock.

    ** The SSB stack

    - Refs, Bfe (internal/ssb/refs/refs.go, internal/ssb/bfe/bfe.go): references
      and their binary encodings, over Base64 (encoding/base64).
    - Boxstream (internal/ssb/secretstream/boxstream/boxstream.go): the encrypted
      framing; the cipher is the class [SecretBox] with its laws. The specification
      [expected] of the reader looks at sizes only; [reader_refines_sizes] is the
      refinement.
    - Codec (internal/ssb/muxrpc/codec/codec.go): MuxRPC packets, written, read
      from a stream, and decoded incrementally.
    - Stream (internal/ssb/muxrpc/stream.go, stream_conn.go): the sources and sinks of
      a session and the connection over a pair of them. The buffer of a source is
      proved to be a queue of frames ([source_is_a_queue]). The loop of a connection's
      reader takes one unit of fuel per frame that waits, and two more.
    - Mux, Session (internal/ssb/muxrpc/muxrpc.go): handlers and manifests, requests on
      a heap of pointers, packets, calls, and the goroutines as a step relation.
    - JsonText (encoding/json): which texts are JSON, what an envelope with a bare quote
      is not, and the text of a quoted string.
    - SessionProofs, SessionCalls: frames reach the stream of their number; a call is
      answered over both sessions of a connection with what the handler returned; the
      calls that wait for ever when a reader ends, the errors that are taken for
      answers, and the two calls that one number can name.
    - Ebt (internal/ssb/replication/ebt.go): replication frontiers, the duplex
      handler and the history streams. The fuel of a history stream is its number
      of turns: 24 turns exhaust the minute of waiting.
    - Tangle (internal/ssb/message/tangle/order.go): topological order of threads.
    - Roomstate (internal/ssb/roomstate/roomstate.go and the streams of
      internal/ssb/muxrpc/handlers/room): attendants, endpoints and aliases of a
      room; a step relation interleaves the operations with the deliveries.
    - RoomDB (internal/ssb/roomdb/sqlite/sqlite.go): members, aliases, invites, denied
      keys, tokens, passwords and snapshots, tables with the constraints of their
      schema. RoomDBProofs: a service is a sequence of statements, each of which keeps
      the constraints. RoomDBSpec: invites are used once, tokens are a map.
    - RoomHandlers (internal/ssb/muxrpc/handlers/room, internal/room/runtime.go): the
      calls of a room and the life of a connection. RoomAuth: what a call may
      change, table by table ([authorized]); reading before the first change is passed
      over with [after_reads]. RoomConn: connections, calls and database operations as
      a step relation; the attendants are the connected peers that were members when
      they connected.

    ** Messages, logs and the runtime

    - Bencode, Bendy (internal/ssb/message/bencode, bendy): the encoding and the
      messages of metafeeds. The decoder's fuel is twice the input's length, enough
      for its two mutual calls per byte ([decode_terminates]).
    - Crypto: the interfaces of ed25519 and SHA-256 with their laws.
    - Formats (internal/ssb/formats/registry.go): feed and message formats.
    - Legacy (internal/ssb/message/legacy): classic messages, how they are printed,
      signed, cut apart and verified; encoding/json is the class [JSON]. The fuel of
      the printer is the length of its input ([pretty_print_total]).
    - Feedlog (internal/ssb/feedlog): the tables of feeds, messages and the receive
      log; [db_ok] is their invariant.
    - FeedManager (internal/ssb/sbot/feed_manager_adapter.go): what replication
      reads and appends; what is stored is served, forged messages included.
    - Publisher (internal/ssb/publisher): [chain] is the specification of a feed,
      signed messages numbered from one that name each other; publishing extends it,
      whichever statement fails ([Faults]), but for the read of the last row, whose
      failure restarts the feed.
    - Runtime (internal/bots, internal/ssbruntime): the feeds of the bridged
      identities, proved to be chains over every history of publishes in which no such
      read fails.

    ** The reverse direction

    Messages of SSB feeds that act for AT Protocol accounts are mirrored as records
    (internal/bridge/reverse_sync.go, internal/db/reverse_sync.go).

    - ReverseText: JSON values as the code reads them, the text of a post, its
      facets, and why they are well placed.
    - ReverseDB: mappings of feeds to accounts and the rows of mirrored messages.
    - ReverseSync: credentials, the plan for a message, uploads, creation and
      deletion of records, retries, batches over the receive log. A batch is
      structural in the number of messages it may still take. Database, server and
      blob store fail where the environment says so.
    - ReverseProofs: what final rows are worth: a message is mirrored at most once,
      whatever is processed between; batches skip nothing, rows stay well formed, and
      one message that does not decode stops the sync.
    - ReverseCalls: what one message makes the sync ask of the server: for whose
      account, which record, which deletion.
    - ReverseEcho: a mirrored record is passed over by the forward processor.

    ** The repository index

    In indexed mode the firehose does not feed the processor directly: the index
    (internal/atindex/service.go) keeps the records of the followed repositories
    and a log of their changes, and the bridge consumes the log.

    - Regex, AtSyntax (pkg/atproto/syntax/syntax.go): regular expressions with a
      matcher by derivatives, proved to decide their language; DIDs, handles, NSIDs,
      record keys and AT-URIs.
    - RecordFetch (internal/bridge/dependencies.go, pkg/atproto/atproto.go): how the
      dependency resolver fetches a record, and under what name it is filed.
    - RepoTree (pkg/atproto/repo/repo.go): the search tree of a repository. Its fuel
      is the number of blocks plus one, enough since no block contains itself
      ([repo_reads_terminate]).
    - AtIndexDB (internal/db/atproto.go): the tables of the index.
    - AtIndex: commits, identity and account events, the commit buffer, backfills and
      the worker. A backfill is split where it waits for the network, so histories
      interleave it with the other calls.
    - AtIndexProofs: the log is the history of the record table, but for one record per
      failed statement; outside the finish of a backfill records change by commits in
      step only; what backfills leave behind. An upsert and the append of its event are
      one step that only a failure splits.
    - AtSubscribe: subscriptions as a step relation over writers, the goroutine and
      its consumer: with one writer a subscriber sees the log, with two it may not;
      what overflows and refusals lose.

    ** Ways in and out

    - Firehose (internal/firehose/client.go, pkg/atproto/firehose): frames, their
      dispatch to a handler, reconnecting with a backoff, where a client starts. A
      stream is the list of what arrives; the loop takes a fuel of one unit per
      attempt, and the theorems hold for every fuel, since the loop need not end.
    - Identity (pkg/atproto/identity/identity.go, internal/backfill/pds.go): DIDs,
      handles, the host of a repository, the classification of failures.
    - Backfill (internal/backfill/backfill.go): the records of one repository handed
      to a processor. [plan] is the specification: what is done with each record,
      decided by repository and filter alone.
    - FollowerTracker (internal/bridge/follower_tracker.go): announcements, their
      debounced loop and its rate limit, as a step relation. The channel of the
      announcements holds a hundred and drops what comes after.
    - MemberIngest (cmd/bridge-cli/room_member_ingest.go): the histories of peers
      written to the logs, and why a peer can post as anyone.

    ** Conventions

    A Go call returns a [result]: a value, an error (its message) or a panic.
    Stateful code is in the monad [M W] of functions on a world [W], which keeps
    the changes made before an error. Strings and byte slices are GoStr and
    GoBytes; machine integers are [Z] with the wrap-around written out where the
    code can reach it. Code outside src/ (SQL engine, ciphers, JSON decoders of
    generated structs, clocks, network) is an argument or a class whose laws are
    its documented behaviour. Map iteration order is an argument where it matters.
    Logging and metrics are left out.

    Scenarios, ProtocolScenarios, StorageScenarios, ReverseScenarios, AtScenarios,
    PipelineScenarios, SessionScenarios and RoomScenarios instantiate every class
    with concrete functions, apply the theorems with hypotheses at concrete inputs and run the behaviours that need a
    particular sequence of events.

    ** Not modelled

    HTTP servers, templates, command line tools and process wiring; SQL statements
    other than those of the messages table, the reverse sync, the index and the room;
    sockets, the HTTP side of a room and the client end of its tunnels;
    the secret handshake and key derivation, which only call cryptographic
    libraries; generated record types and query wrappers. *)
From stdpp Require Export base gmap strings list numbers.
From Stdlib Require Export Lia.

(** ** Go results

    A Go call of the modelled code ends in one of three ways: it returns a
    value, it returns a non-nil [error] (kept as its message), or it panics. *)
Inductive result (A : Type) : Type :=
| Ok (a : A)
| Err (e : string)
| Panic.
Arguments Ok {A} a.
Arguments Err {A} e.
Arguments Panic {A}.

Definition result_bind {A B} (r : result A) (k : A → result B) : result B :=
  match r with
  | Ok a => k a
  | Err e => Err e
  | Panic => Panic
  end.

(** [fmt.Errorf("ctx: %w", err)]: wraps the message of a returned error. *)
Definition wrap {A} (ctx : string) (r : result A) : result A :=
  match r with
  | Err e => Err (ctx +:+ e)
  | r => r
  end.

Definition is_ok {A} (r : result A) : bool :=
  match r with Ok _ => true | _ => false end.

#[global] Instance result_mret : MRet result := @Ok.
#[global] Instance result_mbind : MBind result := λ A B k r, result_bind r k.

(** ** Stateful Go code

    A method that reads and writes the world [W] and may fail. *)
Definition M (W A : Type) : Type := W → result A * W.

#[global] Instance M_mret {W} : MRet (M W) := λ A a w, (Ok a, w).
#[global] Instance M_mbind {W} : MBind (M W) := λ A B k m w,
  match m w with
  | (Ok a, w') => k a w'
  | (Err e, w') => (Err e, w')
  | (Panic, w') => (Panic, w')
  end.

Definition mfail {W A} (e : string) : M W A := λ w, (Err e, w).
Definition mlift {W A} (r : result A) : M W A := λ w, (r, w).
(** Runs [m] and hands the caller what it returned, [err] included: the Go
    pattern [x, err := m()] without an early return. A panic still unwinds. *)
Definition mtry {W A} (m : M W A) : M W (result A) := λ w,
  match m w with
  | (Panic, w') => (Panic, w')
  | (r, w') => (Ok r, w')
  end.
(** [fmt.Errorf("ctx: %w", err)] on the error of [m]. *)
Definition mwrap {W A} (ctx : string) (m : M W A) : M W A := λ w,
  match m w with (r, w') => (wrap ctx r, w') end.
Definition mget {W} : M W W := λ w, (Ok w, w).
Definition mmodify {W} (f : W → W) : M W unit := λ w, (Ok tt, f w).

(** A method that touches one component of a product of states. *)
Definition on_fst {W V A} (m : M W A) : M (W * V) A := λ w,
  let r := m w.1 in (r.1, (r.2, w.2)).
Definition on_snd {W V A} (m : M V A) : M (W * V) A := λ w,
  let r := m w.2 in (r.1, (w.1, r.2)).

(** ** Automation *)

(** Destructs the scrutinee of a [match] or [if] of the goal or a hypothesis. *)
Ltac break_match :=
  match goal with
  | |- context [match ?e with _ => _ end] => destruct e eqn:?
  | H : context [match ?e with _ => _ end] |- _ => destruct e eqn:?
  end.
Ltac break_goal :=
  match goal with
  | |- context [match ?e with _ => _ end] => destruct e eqn:?
  end.

(** Splits every conjunction and existential of the context. *)
Ltac crush_hyps := repeat (destruct_and? || destruct_or? || simplify_eq).

Create HintDb go discriminated.

(** ** Generic lemmas *)
Lemma result_bind_ok {A B} (r : result A) (k : A → result B) b :
  r ≫= k = Ok b ↔ ∃ a, r = Ok a ∧ k a = Ok b.
Proof. destruct r; simpl; naive_solver. Qed.

Lemma wrap_ok {A} ctx (r : result A) a : wrap ctx r = Ok a ↔ r = Ok a.
Proof. destruct r; simpl; naive_solver. Qed.

Lemma wrap_panic {A} ctx (r : result A) : wrap ctx r = Panic ↔ r = Panic.
Proof. destruct r; simpl; naive_solver. Qed.

Lemma mbind_run {W A B} (m : M W A) (k : A → M W B) w r w1 : m w = (r, w1) →
  mbind k m w = match r with Ok a => k a w1 | Err e => (Err e, w1) | Panic => (Panic, w1) end.
Proof. intros Hm. unfold mbind, M_mbind. rewrite Hm. by destruct r. Qed.
Lemma mbind_ok {W A B} (m : M W A) (k : A → M W B) w b w' :
  (mbind k m) w = (Ok b, w') ↔ ∃ a w1, m w = (Ok a, w1) ∧ k a w1 = (Ok b, w').
Proof. unfold mbind, M_mbind. destruct (m w) as [[] ?]; naive_solver. Qed.

Lemma mwrap_ok {W A} pre (m : M W A) w a w' : mwrap pre m w = (Ok a, w') ↔ m w = (Ok a, w').
Proof. unfold mwrap. destruct (m w) as [r w1]. destruct r; simpl; naive_solver. Qed.
Lemma mlift_ok {W A} (r : result A) (w : W) a w' :
  mlift r w = (Ok a, w') ↔ r = Ok a ∧ w' = w.
Proof. unfold mlift. naive_solver. Qed.

Lemma mtry_not_err {W A} (m : M W A) w e w' : mtry m w ≠ (Err e, w').
Proof. unfold mtry. by destruct (m w) as [[] ?]. Qed.
Lemma mbind_err {W A B} (m : M W A) (k : A → M W B) w e w' :
  (mbind k m) w = (Err e, w') ↔
    m w = (Err e, w') ∨ ∃ a w1, m w = (Ok a, w1) ∧ k a w1 = (Err e, w').
Proof. unfold mbind, M_mbind. destruct (m w) as [[] ?]; naive_solver. Qed.
Lemma mbind_inv {W A B} (m : M W A) (k : A → M W B) w r w' : mbind k m w = (r, w') →
  (∃ a w1, m w = (Ok a, w1) ∧ k a w1 = (r, w')) ∨ (∃ e, m w = (Err e, w') ∧ r = Err e) ∨ m w = (Panic, w') ∧ r = Panic.
Proof.
  unfold mbind, M_mbind. destruct (m w) as [[a|e|] w1]; [by left; eauto|intros [= <- <-]; right; left; eauto|intros [= <- <-]; auto].
Qed.
Lemma mwrap_err {W A} pre (m : M W A) w e w' :
  mwrap pre m w = (Err e, w') ↔ ∃ e', m w = (Err e', w') ∧ e = pre +:+ e'.
Proof. unfold mwrap. destruct (m w) as [r w1]. destruct r; simpl; naive_solver. Qed.
Lemma on_fst_err {W V A} (m : M W A) (w : W * V) e w' :
  on_fst m w = (Err e, w') ↔ m w.1 = (Err e, w'.1) ∧ w'.2 = w.2.
Proof.
  unfold on_fst. destruct (m w.1) as [r w1] eqn:E, w' as [w2 v2]. simpl. naive_solver.
Qed.
Lemma on_fst_ok {W V A} (m : M W A) (w : W * V) a w' :
  on_fst m w = (Ok a, w') ↔ m w.1 = (Ok a, w'.1) ∧ w'.2 = w.2.
Proof.
  unfold on_fst. destruct (m w.1) as [r w1] eqn:E, w' as [w2 v2]. simpl. naive_solver.
Qed.

#[export] Hint Rewrite @wrap_ok @result_bind_ok @mbind_ok @mwrap_ok @mlift_ok : go.

(** ** Invariants of stateful code

    [hoare I m Q]: [m] keeps the invariant [I] however it ends, and a result it
    returns satisfies [Q]. *)
Definition hoare {W A} (I : W → Prop) (m : M W A) (Q : A → Prop) : Prop :=
  ∀ w, I w → I (m w).2 ∧ ∀ a, (m w).1 = Ok a → Q a.

Section Hoare.
Context {W : Type} (I : W → Prop).

Lemma hoare_ret {A} (a : A) (Q : A → Prop) : Q a → hoare I (mret a) Q.
Proof. intros Ha w Hw. split; [done|]. by intros a' [= <-]. Qed.
Lemma hoare_fail {A} e (Q : A → Prop) : hoare I (mfail e) Q.
Proof. by intros w Hw. Qed.
Lemma hoare_lift {A} (r : result A) (Q : A → Prop) :
  (∀ a, r = Ok a → Q a) → hoare I (mlift r) Q.
Proof. by intros Hr w Hw. Qed.
Lemma hoare_bind {A B} (m : M W A) (k : A → M W B) Q R :
  hoare I m Q → (∀ a, Q a → hoare I (k a) R) → hoare I (mbind k m) R.
Proof.
  intros Hm Hk w Hw. destruct (Hm w Hw) as [HI HQ]. unfold mbind, M_mbind.
  destruct (m w) as [[a|e|] w'] eqn:E; simpl in *; [|done|done].
  apply (Hk a); [by apply HQ|done].
Qed.
Lemma hoare_try {A} (m : M W A) Q :
  hoare I m Q → hoare I (mtry m) (λ r, ∀ a, r = Ok a → Q a).
Proof.
  intros Hm w Hw. destruct (Hm w Hw) as [HI HQ]. unfold mtry.
  destruct (m w) as [[a|e|] w'] eqn:E; simpl in *; split; try done; intros r [= <-]; eauto.
Qed.
Lemma hoare_wrap {A} ctx (m : M W A) Q : hoare I m Q → hoare I (mwrap ctx m) Q.
Proof.
  intros Hm w Hw. destruct (Hm w Hw) as [HI HQ]. unfold mwrap.
  destruct (m w) as [r w'] eqn:E; simpl in *. split; [done|]. intros a. rewrite wrap_ok. auto.
Qed.
Lemma hoare_on_fst {V A} (K : V → Prop) (m : M W A) Q :
  hoare I m Q → hoare (λ w : W * V, I w.1 ∧ K w.2) (on_fst m) Q.
Proof. intros Hm [w v] [Hw Hv]. destruct (Hm w Hw). by split_and!. Qed.
Lemma hoare_on_snd {V A} (K : V → Prop) (m : M W A) Q :
  hoare I m Q → hoare (λ w : V * W, K w.1 ∧ I w.2) (on_snd m) Q.
Proof. intros Hm [v w] [Hv Hw]. destruct (Hm w Hw). by split_and!. Qed.
Lemma hoare_weaken {A} (m : M W A) (Q R : A → Prop) :
  hoare I m Q → (∀ a, Q a → R a) → hoare I m R.
Proof. intros Hm HQ w Hw. destruct (Hm w Hw). eauto. Qed.
End Hoare.

(** Two programs that cannot be told apart from the worlds of [I], which they
    keep; [Q] holds of what they return. *)
Definition agree {W A} (I : W → Prop) (m1 m2 : M W A) (Q : A → Prop) : Prop :=
  (∀ w, I w → m1 w = m2 w) ∧ hoare I m1 Q.

Section Agree.
Context {W : Type} (I : W → Prop).

Lemma agree_refl {A} (m : M W A) Q : hoare I m Q → agree I m m Q.
Proof. done. Qed.
Lemma agree_bind {A B} (m1 m2 : M W A) (k1 k2 : A → M W B) Q R :
  agree I m1 m2 Q → (∀ a, Q a → agree I (k1 a) (k2 a) R) →
  agree I (mbind k1 m1) (mbind k2 m2) R.
Proof.
  intros [Hm Hh] Hk. split.
  - intros w Hw. unfold mbind, M_mbind. rewrite <-(Hm w Hw). destruct (Hh w Hw) as [HI HQ].
    destruct (m1 w) as [[a|e|] w'] eqn:E; simpl in *; [|done|done]. apply Hk; auto.
  - eapply hoare_bind; [exact Hh|]. intros a Ha. by apply Hk.
Qed.
Lemma agree_try {A} (m1 m2 : M W A) Q :
  agree I m1 m2 Q → agree I (mtry m1) (mtry m2) (λ r, ∀ a, r = Ok a → Q a).
Proof.
  intros [Hm Hh]. split; [|by apply hoare_try]. intros w Hw. unfold mtry. by rewrite Hm.
Qed.
Lemma agree_wrap {A} pre (m1 m2 : M W A) Q :
  agree I m1 m2 Q → agree I (mwrap pre m1) (mwrap pre m2) Q.
Proof.
  intros [Hm Hh]. split; [|by apply hoare_wrap]. intros w Hw. unfold mwrap. by rewrite Hm.
Qed.
Lemma agree_weaken {A} (m1 m2 : M W A) (Q R : A → Prop) :
  agree I m1 m2 Q → (∀ a, Q a → R a) → agree I m1 m2 R.
Proof. intros [Hm Hh] HQ. split; [done|]. by eapply hoare_weaken. Qed.
End Agree.

(** One step of a proof that a program keeps an invariant. *)
Ltac hoare_step :=
  match goal with
  | |- hoare _ (mret _) _ => apply hoare_ret
  | |- hoare _ (mfail _) _ => apply hoare_fail
  | |- hoare _ (mlift _) _ => apply hoare_lift
  | |- hoare _ (mwrap _ _) _ => apply hoare_wrap
  | |- hoare _ (match ?e with _ => _ end) _ => destruct e eqn:?
  end.
