(* ===== verification/GoStr.v ===== *)
(** * Go strings

    A Go string is a sequence of bytes: it is a Rocq [string], one [ascii] per
    byte. This file models the functions of Go's [strings], [strconv] and [fmt]
    the bridge calls on them, with the lemmas the components share. *)
From S2P Require Import Prelude.
From Stdlib Require Export Ascii.
From Stdlib Require DecimalString DecimalN.
#[local] Open Scope string_scope.
#[local] Open Scope list_scope.
#[local] Open Scope nat_scope.

Notation to_l := String.list_ascii_of_string.
Notation of_l := String.string_of_list_ascii.

Lemma to_of_l l : to_l (of_l l) = l.
Proof. apply String.list_ascii_of_string_of_list_ascii. Qed.
Lemma of_to_l s : of_l (to_l s) = s.
Proof. apply String.string_of_list_ascii_of_string. Qed.

(** ** Bytes as numbers *)
Definition ord (c : ascii) : Z := Z.of_N (N_of_ascii c).
Definition chr (z : Z) : ascii := ascii_of_N (Z.to_N (z mod 256)).

Lemma ord_bound c : (0 ≤ ord c < 256)%Z.
Proof. unfold ord. pose proof (N_ascii_bounded c). lia. Qed.

Lemma chr_ord c : chr (ord c) = c.
Proof.
  unfold chr. pose proof (ord_bound c). rewrite Z.mod_small by lia.
  unfold ord. rewrite N2Z.id. apply ascii_N_embedding.
Qed.

Lemma ord_chr z : (0 ≤ z < 256)%Z → ord (chr z) = z.
Proof.
  intros H. unfold chr, ord. rewrite Z.mod_small by lia.
  rewrite N_ascii_embedding by lia. lia.
Qed.

Lemma ord_inj c d : ord c = ord d → c = d.
Proof. intros H. by rewrite <-(chr_ord c), <-(chr_ord d), H. Qed.

(** ** White space

    [unicode.IsSpace] on the UTF-8 encodings of its runes: the six ASCII
    spaces, U+0085, U+00A0, U+1680, U+2000 to U+200A, U+2028, U+2029, U+202F,
    U+205F and U+3000. *)
Definition ws1 (a : ascii) : bool :=
  let x := ord a in bool_decide (x = 32 ∨ 9 ≤ x ≤ 13)%Z.
Definition ws2 (a b : ascii) : bool :=
  let x := ord a in let y := ord b in
  bool_decide (x = 194 ∧ (y = 133 ∨ y = 160))%Z.
Definition ws3 (a b c : ascii) : bool :=
  let x := ord a in let y := ord b in let z := ord c in
  bool_decide
    ((x = 225 ∧ y = 154 ∧ z = 128) ∨
     (x = 226 ∧ y = 128 ∧ (128 ≤ z ≤ 138 ∨ z = 168 ∨ z = 169 ∨ z = 175)) ∨
     (x = 226 ∧ y = 129 ∧ z = 159) ∨
     (x = 227 ∧ y = 128 ∧ z = 128))%Z.

(** [strings.TrimLeftFunc(s, unicode.IsSpace)]. *)
Fixpoint trim_left (l : list ascii) : list ascii :=
  match l with
  | [] => []
  | a :: l1 =>
      if ws1 a then trim_left l1
      else match l1 with
      | [] => l
      | b :: l2 =>
          if ws2 a b then trim_left l2
          else match l2 with
          | [] => l
          | c :: l3 => if ws3 a b c then trim_left l3 else l
          end
      end
  end.

(** The same on a reversed string: the last rune comes first, backwards. *)
Fixpoint trim_left_rev (l : list ascii) : list ascii :=
  match l with
  | [] => []
  | a :: l1 =>
      if ws1 a then trim_left_rev l1
      else match l1 with
      | [] => l
      | b :: l2 =>
          if ws2 b a then trim_left_rev l2
          else match l2 with
          | [] => l
          | c :: l3 => if ws3 c b a then trim_left_rev l3 else l
          end
      end
  end.

Definition trim_right (l : list ascii) : list ascii :=
  rev (trim_left_rev (rev l)).

(** [strings.TrimSpace]. *)
Definition TrimSpace (s : string) : string :=
  of_l (trim_right (trim_left (to_l s))).

(** A string that starts (ends, reversed) with no space is left alone. *)
Definition starts_ws (l : list ascii) : bool :=
  match l with
  | a :: l1 => ws1 a || match l1 with
    | b :: l2 => ws2 a b || match l2 with c :: _ => ws3 a b c | [] => false end
    | [] => false
    end
  | [] => false
  end.
Definition starts_ws_rev (l : list ascii) : bool :=
  match l with
  | a :: l1 => ws1 a || match l1 with
    | b :: l2 => ws2 b a || match l2 with c :: _ => ws3 c b a | [] => false end
    | [] => false
    end
  | [] => false
  end.

Lemma trim_left_id l : starts_ws l = false → trim_left l = l.
Proof.
  destruct l as [|a l1]; [done|]. simpl. intros [-> H]%orb_false_iff.
  destruct l1 as [|b l2]; [done|]. simpl in H. apply orb_false_iff in H as [-> H].
  destruct l2 as [|c l3]; [done|]. by rewrite H.
Qed.

Lemma trim_left_rev_id l : starts_ws_rev l = false → trim_left_rev l = l.
Proof.
  destruct l as [|a l1]; [done|]. simpl. intros [-> H]%orb_false_iff.
  destruct l1 as [|b l2]; [done|]. simpl in H. apply orb_false_iff in H as [-> H].
  destruct l2 as [|c l3]; [done|]. by rewrite H.
Qed.

Lemma trim_left_starts n l : length l ≤ n → starts_ws (trim_left l) = false.
Proof.
  revert l. induction n as [|n IH]; intros [|a l1] Hn; simpl in *; try lia; [done..|].
  destruct (ws1 a) eqn:E1; [apply IH; lia|].
  destruct l1 as [|b l2]; simpl; [by rewrite E1|].
  destruct (ws2 a b) eqn:E2; [apply IH; simpl in *; lia|].
  destruct l2 as [|c l3]; simpl; [by rewrite E1, E2|].
  destruct (ws3 a b c) eqn:E3; [apply IH; simpl in *; lia|].
  simpl. by rewrite E1, E2, E3.
Qed.

Lemma trim_left_rev_starts n l : length l ≤ n → starts_ws_rev (trim_left_rev l) = false.
Proof.
  revert l. induction n as [|n IH]; intros [|a l1] Hn; simpl in *; try lia; [done..|].
  destruct (ws1 a) eqn:E1; [apply IH; lia|].
  destruct l1 as [|b l2]; simpl; [by rewrite E1|].
  destruct (ws2 b a) eqn:E2; [apply IH; simpl in *; lia|].
  destruct l2 as [|c l3]; simpl; [by rewrite E1, E2|].
  destruct (ws3 c b a) eqn:E3; [apply IH; simpl in *; lia|].
  simpl. by rewrite E1, E2, E3.
Qed.

Lemma starts_ws_app l k : starts_ws (l ++ k) = false → starts_ws l = false.
Proof.
  destruct l as [|a [|b [|c l]]]; simpl; try done.
  - by intros [-> _]%orb_false_iff.
  - intros [-> [-> _]%orb_false_iff]%orb_false_iff. done.
Qed.

Lemma trim_left_rev_suffix n l :
  length l ≤ n → ∃ k, l = k ++ trim_left_rev l.
Proof.
  revert l. induction n as [|n IH]; intros [|a l1] Hn; simpl in *; try lia; try by exists [].
  destruct (ws1 a) eqn:E1.
  { destruct (IH l1) as [k Hk]; [lia|]. exists (a :: k). simpl. by rewrite <-Hk. }
  destruct l1 as [|b l2]; [by exists []|].
  destruct (ws2 b a) eqn:E2.
  { destruct (IH l2) as [k Hk]; [simpl in *; lia|]. exists (a :: b :: k). simpl. by rewrite <-Hk. }
  destruct l2 as [|c l3]; [by exists []|].
  destruct (ws3 c b a) eqn:E3; [|by exists []].
  destruct (IH l3) as [k Hk]; [simpl in *; lia|]. exists (a :: b :: c :: k). simpl. by rewrite <-Hk.
Qed.

Lemma trim_right_prefix l : ∃ k, l = trim_right l ++ k.
Proof.
  destruct (trim_left_rev_suffix (length (rev l)) (rev l)) as [k Hk]; [done|].
  exists (rev k). unfold trim_right. rewrite <-rev_app_distr, <-Hk. by rewrite rev_involutive.
Qed.

(** Trimming twice is trimming once. *)
Lemma TrimSpace_idemp s : TrimSpace (TrimSpace s) = TrimSpace s.
Proof.
  unfold TrimSpace. rewrite to_of_l.
  set (l := trim_left (to_l s)).
  assert (starts_ws l = false) as Hl by by eapply trim_left_starts.
  destruct (trim_right_prefix l) as [k Hk].
  rewrite (trim_left_id (trim_right l)).
  2:{ rewrite Hk in Hl. by eapply starts_ws_app. }
  f_equal. unfold trim_right at 1. unfold trim_right.
  rewrite rev_involutive. f_equal.
  apply trim_left_rev_id. by eapply trim_left_rev_starts.
Qed.

(** The bytes at both ends decide when trimming is the identity. *)
Lemma TrimSpace_id s :
  starts_ws (to_l s) = false →
  starts_ws_rev (rev (to_l s)) = false →
  TrimSpace s = s.
Proof.
  intros H1 H2. unfold TrimSpace, trim_right.
  rewrite trim_left_id by done. rewrite trim_left_rev_id by done.
  by rewrite rev_involutive, of_to_l.
Qed.

(** [strings.TrimSpace(s) == ""]. *)
Definition blank (s : string) : bool := bool_decide (TrimSpace s = "").

(** ** Prefixes, splitting and joining *)
Definition HasPrefix (s p : string) : bool := String.prefix p s.

(** [strings.TrimPrefix]. *)
Definition TrimPrefix (s p : string) : string :=
  if HasPrefix s p then String.substring (String.length p) (String.length s - String.length p) s
  else s.

(** [strings.TrimRight(s, "\n")]. *)
Fixpoint drop_while (f : ascii → bool) (l : list ascii) : list ascii :=
  match l with
  | a :: l' => if f a then drop_while f l' else l
  | [] => []
  end.
Definition TrimRight (f : ascii → bool) (s : string) : string :=
  of_l (rev (drop_while f (rev (to_l s)))).
Definition newline : ascii := "010"%char.
Arguments TrimSpace : simpl never.
Arguments blank : simpl never.
Arguments HasPrefix : simpl never.

(** The functions over the Unicode tables: [strings.ToLower], [strings.EqualFold]
    and [strconv.Quote]. *)
Class UnicodeCase := { ToLower : string → string; EqualFold : string → string → bool; Quote : string → string }.

(** [strings.Join]. *)
Definition Join (l : list string) (sep : string) : string := String.concat sep l.

Arguments Join : simpl never.

(** [strings.Split(s, sep)] for a one-byte separator. *)
Fixpoint split_go (c : ascii) (acc : string) (s : string) : list string :=
  match s with
  | EmptyString => [String.rev acc]
  | String a s' =>
      if Ascii.eqb a c then String.rev acc :: split_go c "" s'
      else split_go c (String a acc) s'
  end.
Definition Split (s : string) (c : ascii) : list string := split_go c "" s.

(** [strings.Index(s, sub)]: [None] for -1. *)
Definition Index (s sub : string) : option nat := String.index 0 sub s.
(** A string between double quotes, with nothing to escape in it. *)
Definition quote_char : string := String "034" EmptyString.
Definition quoted (s : string) : string := quote_char +:+ s +:+ quote_char.

Definition Contains (s sub : string) : bool := bool_decide (is_Some (Index s sub)).

(** [s[i:]]. *)
Definition slice_from (i : nat) (s : string) : string :=
  String.substring i (String.length s - i) s.

(** ** Decimal numbers *)

(** [strconv.FormatInt(n, 10)] and [%d]. *)
Definition itoaN (n : N) : string := DecimalString.NilEmpty.string_of_uint (N.to_uint n).
Definition itoa (z : Z) : string :=
  if bool_decide (z < 0)%Z then String "-" (itoaN (Z.to_N (- z))) else itoaN (Z.to_N z).

(** A non-empty string of decimal digits. *)
Definition parse_digits (s : string) : option N :=
  match s with
  | EmptyString => None
  | _ => N.of_uint <$> DecimalString.NilEmpty.uint_of_string s
  end.

Arguments itoaN : simpl never.
Arguments parse_digits : simpl never.

(** [strconv.ParseInt(s, 10, 64)]: an optional sign, digits, and the range of
    an int64. *)
Definition ParseInt (s : string) : option Z :=
  let mk (neg : bool) (d : string) :=
    n ← parse_digits d;
    let z := if neg then (- Z.of_N n)%Z else Z.of_N n in
    if bool_decide (- 2 ^ 63 ≤ z < 2 ^ 63)%Z then Some z else None in
  match s with
  | String "-" d => mk true d
  | String "+" d => mk false d
  | _ => mk false s
  end.

Lemma string_of_uint_nonempty d :
  d ≠ Decimal.Nil → DecimalString.NilEmpty.string_of_uint d ≠ "".
Proof. destruct d; simpl; congruence. Qed.

Lemma to_uint_nonnil n : N.to_uint n ≠ Decimal.Nil.
Proof.
  intros H. pose proof (DecimalN.Unsigned.of_to n) as Hn. rewrite H in Hn.
  destruct n; [discriminate H|]. discriminate Hn.
Qed.

Lemma parse_digits_itoaN n : parse_digits (itoaN n) = Some n.
Proof.
  unfold parse_digits, itoaN.
  destruct (DecimalString.NilEmpty.string_of_uint (N.to_uint n)) eqn:E.
  { exfalso. eapply string_of_uint_nonempty, E. apply to_uint_nonnil. }
  rewrite <-E, DecimalString.NilEmpty.usu. simpl. f_equal. apply DecimalN.Unsigned.of_to.
Qed.

Definition is_digit (c : ascii) : bool := bool_decide (48 ≤ ord c ≤ 57)%Z.

Lemma string_of_uint_digits d :
  Forall (λ c, is_digit c = true) (to_l (DecimalString.NilEmpty.string_of_uint d)).
Proof. induction d; simpl; constructor; done. Qed.

Lemma itoaN_digits n : Forall (λ c, is_digit c = true) (to_l (itoaN n)).
Proof. apply string_of_uint_digits. Qed.

Lemma itoaN_cons n : ∃ c s, itoaN n = String c s ∧ is_digit c = true.
Proof.
  pose proof (itoaN_digits n) as H. destruct (itoaN n) eqn:E.
  - exfalso. unfold itoaN in E. by eapply string_of_uint_nonempty, E; apply to_uint_nonnil.
  - inversion H; subst. eauto.
Qed.

Lemma digit_not_sign c : is_digit c = true → c ≠ "-"%char ∧ c ≠ "+"%char.
Proof.
  unfold is_digit. intros H%bool_decide_eq_true. split; intros ->; vm_compute in H; destruct H as [H _]; by apply H.
Qed.

Lemma ParseInt_itoa z : (- 2 ^ 63 ≤ z < 2 ^ 63)%Z → ParseInt (itoa z) = Some z.
Proof.
  intros Hz. unfold itoa. case_bool_decide.
  - unfold ParseInt. simpl. rewrite parse_digits_itoaN. simpl.
    rewrite Z2N.id by lia. rewrite bool_decide_eq_true_2 by lia. f_equal. lia.
  - destruct (itoaN_cons (Z.to_N z)) as (c & s & E & Hd).
    pose proof (digit_not_sign _ Hd) as [??].
    assert (ParseInt (itoaN (Z.to_N z)) =
      (n ← parse_digits (itoaN (Z.to_N z));
       if bool_decide (- 2 ^ 63 ≤ Z.of_N n < 2 ^ 63)%Z then Some (Z.of_N n) else None)) as ->.
    { rewrite E. unfold ParseInt. destruct c as [[] [] [] [] [] [] [] []]; done || congruence. }
    rewrite parse_digits_itoaN. simpl. rewrite Z2N.id by lia.
    by rewrite bool_decide_eq_true_2 by lia.
Qed.

(** ** Splitting what was joined *)
Fixpoint lacks (c : ascii) (s : string) : bool :=
  match s with
  | EmptyString => true
  | String a s' => negb (Ascii.eqb a c) && lacks c s'
  end.

Lemma string_app_cons a s t : String a s +:+ t = String a (s +:+ t).
Proof. done. Qed.

Lemma string_app_nil_l (s : string) : "" +:+ s = s.
Proof. done. Qed.

Lemma rev_app_twice s acc t : String.rev_app (String.rev_app s acc) t = String.rev_app acc (s +:+ t).
Proof. revert acc t. induction s as [|a s IH]; intros acc t; simpl; [done|]. by rewrite string_app_cons, IH. Qed.

Lemma string_app_nil_r (s : string) : s +:+ "" = s.
Proof. induction s as [|a s IH]; [done|]. by rewrite string_app_cons, IH. Qed.

Lemma string_app_assoc (a b c : string) : (a +:+ b) +:+ c = a +:+ (b +:+ c).
Proof. induction a as [|x a IH]; [done|]. by rewrite !string_app_cons, IH. Qed.

Lemma split_go_app c acc s t :
  lacks c s = true → split_go c acc (s +:+ t) = split_go c (String.rev_app s acc) t.
Proof.
  revert acc. induction s as [|a s IH]; intros acc; [done|].
  rewrite string_app_cons. simpl. rewrite andb_true_iff, negb_true_iff. intros [-> Hs]. by rewrite IH.
Qed.

Lemma rev_rev_app s : String.rev (String.rev_app s "") = s.
Proof. unfold String.rev. by rewrite rev_app_twice, string_app_nil_r. Qed.

Lemma split_join c l :
  l ≠ [] → Forall (λ s, lacks c s = true) l → Split (Join l (String c "")) c = l.
Proof.
  unfold Split, Join. intros Hl Hf. induction Hf as [|s l Hs Hf IH]; [done|].
  destruct l as [|s' l].
  - simpl. rewrite <-(string_app_nil_r s) at 1. rewrite split_go_app by done. simpl.
    by rewrite rev_rev_app.
  - change (String.concat (String c "") (s :: s' :: l)) with
      (s +:+ (String c "" +:+ String.concat (String c "") (s' :: l))).
    rewrite split_go_app by done.
    change (String c "" +:+ String.concat (String c "") (s' :: l)) with
      (String c (String.concat (String c "") (s' :: l))).
    cbn [split_go]. rewrite Ascii.eqb_refl, rev_rev_app. f_equal. by apply IH.
Qed.

Lemma lacks_app c s t : lacks c (s +:+ t) = lacks c s && lacks c t.
Proof. induction s as [|a s IH]; [done|]. rewrite string_app_cons. simpl. by rewrite IH, andb_assoc. Qed.

Lemma substring_all s : String.substring 0 (String.length s) s = s.
Proof. induction s as [|a s IH]; [done|]. simpl. by rewrite IH. Qed.
Lemma slice_from_app s t : slice_from (String.length s) (s +:+ t) = t.
Proof.
  unfold slice_from. induction s as [|a s IH].
  - simpl. rewrite Nat.sub_0_r. apply substring_all.
  - simpl. exact IH.
Qed.

(** ** Searching *)
Lemma index_skip a s sub :
  HasPrefix (String a s) sub = false → Index (String a s) sub = S <$> Index s sub.
Proof.
  unfold HasPrefix, Index. intros Hp. cbn [String.index]. rewrite Hp.
  by destruct (String.index 0 sub s).
Qed.
Lemma index_prefix s sub : sub ≠ "" → HasPrefix s sub = true → Index s sub = Some 0.
Proof.
  unfold HasPrefix, Index. intros Hs Hp. destruct s as [|a s].
  - by destruct sub.
  - cbn [String.index]. by rewrite Hp.
Qed.

Lemma to_l_app s t : to_l (s +:+ t) = to_l s ++ to_l t.
Proof. induction s as [|c s IH]; [done|]. rewrite string_app_cons. simpl. by rewrite IH. Qed.

(** ** Prefixes *)
Lemma HasPrefix_app p s : HasPrefix (p +:+ s) p = true.
Proof. unfold HasPrefix. induction p as [|a p IH]; [by destruct s|]. rewrite string_app_cons. simpl. by destruct (ascii_dec a a). Qed.
Lemma HasPrefix_inv s p : HasPrefix s p = true → ∃ t, s = p +:+ t.
Proof.
  unfold HasPrefix. revert s. induction p as [|a p IH]; intros s; [by exists s|].
  destruct s as [|b s]; [done|]. simpl. destruct (ascii_dec a b) as [->|]; [|done].
  intros [t ->]%IH. by exists t.
Qed.
Lemma TrimPrefix_app p s : TrimPrefix (p +:+ s) p = s.
Proof.
  unfold TrimPrefix. rewrite HasPrefix_app. apply (slice_from_app p s).
Qed.

(** ** Bytes that trimming leaves alone *)
Definition graphic (c : ascii) : Prop := (33 ≤ ord c ≤ 126)%Z.
Lemma ws1_graphic c : graphic c → ws1 c = false.
Proof. unfold graphic, ws1. intros. apply bool_decide_eq_false. lia. Qed.
Lemma starts_ws_graphic c l : graphic c → starts_ws (c :: l) = false.
Proof.
  intros Hc. pose proof Hc as Hc'. unfold graphic in Hc'. simpl. rewrite ws1_graphic by done. destruct l as [|b [|d l]]; [done|..]; unfold ws2, ws3; simpl;
    repeat rewrite bool_decide_eq_false_2 by lia; done.
Qed.
Lemma starts_ws_rev_graphic c l : graphic c → starts_ws_rev (c :: l) = false.
Proof.
  intros Hc. pose proof Hc as Hc'. unfold graphic in Hc'. simpl. rewrite ws1_graphic by done. destruct l as [|b [|d l]]; [done|..]; unfold ws2, ws3; simpl;
    repeat rewrite bool_decide_eq_false_2 by lia; done.
Qed.
(** The end of a string decides, if printable bytes precede it. *)
Lemma starts_ws_rev_app l k c : l ≠ [] → graphic c → starts_ws_rev l = false → starts_ws_rev (l ++ c :: k) = false.
Proof.
  intros Hl Hc H. unfold graphic in Hc. destruct l as [|a [|b [|d l]]]; [done|..]; simpl in *; try done.
  - rewrite orb_false_r in H. rewrite H. destruct k as [|e k]; unfold ws2, ws3; simpl; repeat rewrite bool_decide_eq_false_2 by lia; done.
  - rewrite orb_false_r in H. apply orb_false_iff in H as [-> ->]. unfold ws3; simpl. by rewrite bool_decide_eq_false_2 by lia.
Qed.
Lemma TrimSpace_graphic s : Forall graphic (to_l s) → TrimSpace s = s.
Proof.
  rewrite list.Forall_forall. intros Hs. apply TrimSpace_id.
  - destruct (to_l s) as [|c l]; [done|]. apply starts_ws_graphic, Hs. left.
  - destruct (rev (to_l s)) as [|c l] eqn:E; [done|]. apply starts_ws_rev_graphic, Hs.
    apply list_elem_of_In, in_rev. rewrite E. by left.
Qed.
Lemma trimmed_end s : TrimSpace s = s → starts_ws_rev (rev (to_l s)) = false.
Proof.
  intros <-. unfold TrimSpace, trim_right. rewrite to_of_l, rev_involutive. by eapply trim_left_rev_starts.
Qed.

(** ** Joining what was split *)
Lemma split_go_cons c acc s : ∃ x l, split_go c acc s = x :: l.
Proof. revert acc. induction s as [|a s IH]; intros acc; simpl; [by eauto|]. destruct (Ascii.eqb a c); eauto. Qed.
Lemma rev_app_append s a t : String.rev_app s a +:+ t = String.rev_app s (a +:+ t).
Proof. revert a. induction s as [|b s IH]; intros a; [done|]. simpl. by rewrite IH. Qed.
Lemma join_split_go c acc s : Join (split_go c acc s) (String c "") = String.rev_app acc s.
Proof.
  unfold Join. revert acc. induction s as [|a s IH]; intros acc; [done|].
  cbn [split_go]. destruct (Ascii.eqb a c) eqn:E; [|by rewrite IH]. apply Ascii.eqb_eq in E as ->.
  destruct (split_go_cons c "" s) as (x & l & Hx). specialize (IH ""). rewrite Hx in *.
  change (String.rev acc +:+ (String c "" +:+ String.concat (String c "") (x :: l)) = String.rev_app acc (String c s)).
  rewrite IH. unfold String.rev. by rewrite rev_app_append.
Qed.
Lemma join_split c s : Join (Split s c) (String c "") = s.
Proof. apply join_split_go. Qed.
Lemma lacks_rev_app c s t : lacks c (String.rev_app s t) = lacks c s && lacks c t.
Proof. revert t. induction s as [|a s IH]; intros t; [done|]. simpl. rewrite IH. simpl. destruct (lacks c s), (Ascii.eqb a c); done. Qed.
Lemma split_go_lacks c acc s : lacks c acc = true → Forall (λ x, lacks c x = true) (split_go c acc s).
Proof.
  assert (∀ x, lacks c x = true → lacks c (String.rev x) = true) as Hrev.
  { intros x Hx. unfold String.rev. by rewrite lacks_rev_app, Hx. }
  revert acc. induction s as [|a s IH]; intros acc Hacc; simpl; [by constructor; [apply Hrev|]|].
  destruct (Ascii.eqb a c) eqn:E; [constructor; auto|]. apply IH. simpl. by rewrite E.
Qed.
Lemma split_lacks c s : Forall (λ x, lacks c x = true) (Split s c).
Proof. by apply split_go_lacks. Qed.
Lemma lacks_not_elem c s : lacks c s = true → c ∉ to_l s.
Proof.
  induction s as [|a s IH]; simpl; [intros _; apply not_elem_of_nil|].
  rewrite andb_true_iff, negb_true_iff, Ascii.eqb_neq. intros [Ha Hs].
  rewrite elem_of_cons. intros [->|H]; [done|by apply IH].
Qed.

(** Trimming shortens. *)
Lemma trim_left_length l : (length (trim_left l) <= length l)%nat.
Proof.
  assert (∀ n l, (length l <= n)%nat → (length (trim_left l) <= length l)%nat) as H; [|by apply (H (length l))].
  clear l. induction n as [|n IH]; intros [|a l1] Hn; cbn [trim_left]; try (simpl in *; lia).
  cbn [length] in Hn. destruct (ws1 a); [specialize (IH l1 ltac:(lia)); simpl; lia|].
  destruct l1 as [|b l2]; [done|]. cbn [length] in Hn.
  destruct (ws2 a b); [specialize (IH l2 ltac:(lia)); simpl; lia|].
  destruct l2 as [|c l3]; [done|]. cbn [length] in Hn.
  destruct (ws3 a b c); [specialize (IH l3 ltac:(lia)); simpl; lia|done].
Qed.
