(* ===== verification/GoBytes.v ===== *)
(** * Go byte slices and machine integers

    A [[]byte] is a list of [ascii]. This file models the big-endian encodings of
    [encoding/binary] and the conversions between Go's fixed-width integers. *)
From stdpp Require Import sorting.
From S2P Require Import Prelude GoStr.
#[local] Open Scope list_scope.
#[local] Open Scope Z_scope.

Definition bytes : Type := list ascii.

(** [uint32(x)], [int32(x)], [uint64(x)]. *)
Definition uint32 (x : Z) : Z := x mod 2 ^ 32.
Definition int32 (x : Z) : Z :=
  let u := uint32 x in if bool_decide (u < 2 ^ 31) then u else u - 2 ^ 32.
Definition uint64 (x : Z) : Z := x mod 2 ^ 64.

Lemma uint32_bound x : 0 <= uint32 x < 2 ^ 32.
Proof. unfold uint32. by apply Z.mod_pos_bound. Qed.
Lemma uint32_small x : 0 <= x < 2 ^ 32 → uint32 x = x.
Proof. intros Hx. unfold uint32. by apply Z.mod_small. Qed.
Lemma int32_uint32 x : - 2 ^ 31 <= x < 2 ^ 31 → int32 (uint32 x) = x.
Proof.
  intros Hx. unfold int32. rewrite (uint32_small (uint32 x)) by apply uint32_bound.
  unfold uint32. destruct (decide (0 <= x)).
  - rewrite Z.mod_small by lia. case_bool_decide; lia.
  - replace (x mod 2 ^ 32) with (x + 2 ^ 32).
    + case_bool_decide; lia.
    + rewrite <-(Z.mod_small (x + 2 ^ 32) (2 ^ 32)) by lia.
      rewrite <-(Z_mod_plus_full x 1 (2 ^ 32)). f_equal; lia.
Qed.

(** [binary.BigEndian]: [n] bytes, most significant first. *)
Fixpoint be_enc (n : nat) (v : Z) : bytes :=
  match n with
  | O => []
  | S n => be_enc n (v / 256) ++ [chr v]
  end.
Definition be_dec (l : bytes) : Z := foldl (λ acc b, acc * 256 + ord b) 0 l.

Lemma be_enc_length n v : length (be_enc n v) = n.
Proof. revert v. induction n as [|n IH]; intros v; simpl; [done|]. rewrite length_app, IH. simpl. lia. Qed.

Lemma be_dec_snoc l b : be_dec (l ++ [b]) = be_dec l * 256 + ord b.
Proof. unfold be_dec. by rewrite foldl_app. Qed.

Lemma ord_chr_mod z : ord (chr z) = z mod 256.
Proof.
  unfold chr, ord. pose proof (Z.mod_pos_bound z 256 ltac:(lia)).
  rewrite N_ascii_embedding by lia. lia.
Qed.

Lemma be_dec_enc n v : 0 <= v < 256 ^ Z.of_nat n → be_dec (be_enc n v) = v.
Proof.
  revert v. induction n as [|n IH]; intros v Hv; simpl.
  - change (256 ^ Z.of_nat 0) with 1 in Hv. unfold be_dec. simpl. lia.
  - rewrite be_dec_snoc, ord_chr_mod, IH.
    + pose proof (Z.div_mod v 256 ltac:(lia)). lia.
    + rewrite Nat2Z.inj_succ, Z.pow_succ_r in Hv by lia. split.
      * apply Z.div_pos; lia.
      * apply Z.div_lt_upper_bound; lia.
Qed.

Lemma be_dec_bound l : 0 <= be_dec l < 256 ^ Z.of_nat (length l).
Proof.
  induction l as [|b l IH] using rev_ind; [by vm_compute|].
  rewrite be_dec_snoc, length_app. simpl. rewrite Nat.add_1_r, Nat2Z.inj_succ, Z.pow_succ_r by lia.
  pose proof (ord_bound b). nia.
Qed.

Lemma be_enc_dec l : be_enc (length l) (be_dec l) = l.
Proof.
  induction l as [|b l IH] using rev_ind; [done|].
  rewrite be_dec_snoc, length_app. simpl. rewrite Nat.add_1_r. simpl.
  pose proof (ord_bound b).
  replace ((be_dec l * 256 + ord b) / 256) with (be_dec l).
  - rewrite IH. do 2 f_equal. unfold chr.
    replace ((be_dec l * 256 + ord b) mod 256) with (ord b mod 256).
    + change (ascii_of_N (Z.to_N (ord b mod 256))) with (chr (ord b)). by rewrite chr_ord.
    + by rewrite Z.add_comm, Z_mod_plus_full.
  - rewrite Z.add_comm, Z.div_add by lia. rewrite Z.div_small by lia. lia.
Qed.

Lemma be_enc_inj n v v' :
  0 <= v < 256 ^ Z.of_nat n → 0 <= v' < 256 ^ Z.of_nat n → be_enc n v = be_enc n v' → v = v'.
Proof. intros Hv Hv' E. by rewrite <-(be_dec_enc n v), <-(be_dec_enc n v'), E. Qed.

(** Slices of a buffer that starts with a known field. *)
Lemma take_app_exact {A} (l k : list A) n : n = length l → take n (l ++ k) = l.
Proof. intros ->. apply take_app_length. Qed.
Lemma drop_app_exact {A} (l k : list A) n : n = length l → drop n (l ++ k) = k.
Proof. intros ->. apply drop_app_length. Qed.

(** [int64(x)] of an arithmetic result: two's complement wrap-around. *)
Definition int64 (x : Z) : Z :=
  let u := uint64 x in if bool_decide (u < 2 ^ 63) then u else u - 2 ^ 64.
Lemma int64_id x : - 2 ^ 63 <= x < 2 ^ 63 → int64 x = x.
Proof.
  intros Hx. unfold int64, uint64. destruct (decide (0 <= x)).
  - rewrite Z.mod_small by lia. case_bool_decide; lia.
  - replace (x mod 2 ^ 64) with (x + 2 ^ 64).
    + case_bool_decide; lia.
    + rewrite <-(Z.mod_small (x + 2 ^ 64) (2 ^ 64)) by lia.
      rewrite <-(Z_mod_plus_full x 1 (2 ^ 64)). f_equal; lia.
Qed.
Lemma int64_bound x : - 2 ^ 63 <= int64 x < 2 ^ 63.
Proof.
  unfold int64, uint64. pose proof (Z.mod_pos_bound x (2 ^ 64) ltac:(lia)). case_bool_decide; lia.
Qed.

(** ** The order of Go strings *)
Fixpoint bytes_ltb (a b : bytes) : bool :=
  match a, b with
  | [], [] => false
  | [], _ => true
  | _, [] => false
  | x :: a, y :: b =>
      bool_decide (ord x < ord y) || (bool_decide (ord x = ord y) && bytes_ltb a b)
  end.
Definition bytes_lt (a b : bytes) : Prop := bytes_ltb a b = true.
Definition bytes_le (a b : bytes) : Prop := bytes_ltb b a = false.
#[global] Instance bytes_lt_dec a b : Decision (bytes_lt a b).
Proof. unfold bytes_lt. apply _. Defined.

Lemma bytes_lt_cons x a y b :
  bytes_lt (x :: a) (y :: b) ↔ ord x < ord y ∨ (x = y ∧ bytes_lt a b).
Proof.
  unfold bytes_lt. simpl. rewrite orb_true_iff, andb_true_iff, !bool_decide_eq_true.
  split; [intros [?|[?%ord_inj ?]]; auto|intros [?|[-> ?]]; auto].
Qed.
Lemma bytes_lt_irrefl a : ¬ bytes_lt a a.
Proof. induction a as [|x a IH]; [done|]. rewrite bytes_lt_cons. intros [?|[_ ?]]; [lia|done]. Qed.
#[global] Instance bytes_lt_trans : Transitive bytes_lt.
Proof.
  intros a. induction a as [|x a IH]; intros [|y b] [|z c] H1 H2; try done.
  rewrite bytes_lt_cons in H1, H2 |- *. destruct H1 as [?|[-> ?]], H2 as [?|[-> ?]]; auto.
  - left. lia.
  - right. eauto.
Qed.
Lemma bytes_lt_total a b : bytes_lt a b ∨ a = b ∨ bytes_lt b a.
Proof.
  revert b. induction a as [|x a IH]; intros [|y b]; [by auto|by left|by right; right|].
  rewrite !bytes_lt_cons. destruct (Z.lt_total (ord x) (ord y)) as [?|[?%ord_inj|?]]; [auto| |auto].
  subst. destruct (IH b) as [?|[ -> |?]]; auto.
Qed.
Lemma bytes_ltb_ge a b : bytes_ltb a b = false ↔ bytes_lt b a ∨ a = b.
Proof.
  destruct (bytes_lt_total a b) as [H|[ -> |H]].
  - rewrite H. split; [done|]. intros [H'| ->]; [|by apply bytes_lt_irrefl in H].
    destruct (bytes_lt_irrefl a). by transitivity b.
  - split; [by auto|]. intros _. apply not_true_is_false, bytes_lt_irrefl.
  - split; [auto|]. intros _. apply not_true_is_false. intros H'. destruct (bytes_lt_irrefl a). by transitivity b.
Qed.
#[global] Instance bytes_le_trans : Transitive bytes_le.
Proof.
  intros a b c. unfold bytes_le. rewrite !bytes_ltb_ge. intros [H1| ->] [H2| ->]; auto.
  left. by transitivity b.
Qed.

(** ** sortStrings

    The exchange sort the message packages use on key lists. [pass] is the inner
    loop for one position: the smaller of the two elements stays at it. *)
Fixpoint pass (x : bytes) (l : list bytes) : bytes * list bytes :=
  match l with
  | [] => (x, [])
  | y :: l =>
      if bytes_ltb y x then let '(m, r) := pass y l in (m, x :: r)
      else let '(m, r) := pass x l in (m, y :: r)
  end.
Fixpoint exchange_sort (n : nat) (l : list bytes) : list bytes :=
  match n, l with
  | S n, x :: l => let '(m, r) := pass x l in m :: exchange_sort n r
  | _, _ => l
  end.
Definition sortStrings (l : list bytes) : list bytes := exchange_sort (length l) l.

Lemma pass_spec x l m r : pass x l = (m, r) → m :: r ≡ₚ x :: l ∧ Forall (bytes_le m) r.
Proof.
  revert x m r. induction l as [|y l IH]; intros x m r; cbn [pass]; [by intros [= <- <-]|].
  destruct (bytes_ltb y x) eqn:E.
  - destruct (pass y l) as [m' r'] eqn:Ep. intros [= <- <-]. destruct (IH _ _ _ Ep) as [Hp Hm].
    split; [by rewrite Permutation_swap, Hp|]. constructor; [|done].
    assert (m' = y ∨ m' ∈ l) as [ -> |Hin] by (apply elem_of_cons; rewrite <-Hp; left).
    + apply bytes_ltb_ge. auto.
    + assert (y ∈ m' :: r') as Hy by (rewrite Hp; left).
      apply elem_of_cons in Hy as [ -> |Hy]; [apply bytes_ltb_ge; auto|].
      rewrite list.Forall_forall in Hm. specialize (Hm y Hy). transitivity y; [done|]. apply bytes_ltb_ge. auto.
  - destruct (pass x l) as [m' r'] eqn:Ep. intros [= <- <-]. destruct (IH _ _ _ Ep) as [Hp Hm].
    split; [by rewrite Permutation_swap, Hp, Permutation_swap|]. constructor; [|done].
    assert (x ∈ m' :: r') as Hx by (rewrite Hp; left).
    apply elem_of_cons in Hx as [ -> |Hx]; [done|].
    rewrite list.Forall_forall in Hm. transitivity x; [by apply Hm|done].
Qed.

Lemma exchange_sort_spec n l : length l = n →
  exchange_sort n l ≡ₚ l ∧ StronglySorted bytes_le (exchange_sort n l).
Proof.
  revert l. induction n as [|n IH]; intros [|x l] Hl; try done; [by split; [|constructor]|].
  cbn [exchange_sort]. destruct (pass x l) as [m r] eqn:E. apply pass_spec in E as [Hp Hm].
  assert (length r = n) as Hr by (apply Permutation_length in Hp; simpl in Hp, Hl; lia).
  destruct (IH r Hr) as [Hp' Hs]. split; [by rewrite Hp'|]. constructor; [done|]. by rewrite Hp'.
Qed.
Lemma sortStrings_perm l : sortStrings l ≡ₚ l.
Proof. by apply exchange_sort_spec. Qed.
Lemma sortStrings_sorted l : StronglySorted bytes_le (sortStrings l).
Proof. by apply exchange_sort_spec. Qed.

(** A sorted list is what sorting it, or any shuffle of it, gives. *)
Lemma sortStrings_unique l k : l ≡ₚ k → sortStrings l = sortStrings k.
Proof.
  intros H. apply (StronglySorted_unique_strong bytes_le).
  - intros x1 x2 _ _ H1 H2. apply bytes_ltb_ge in H1 as [H1| ->]; [|done].
    unfold bytes_le in H2. unfold bytes_lt in H1. congruence.
  - apply sortStrings_sorted.
  - apply sortStrings_sorted.
  - by rewrite !sortStrings_perm.
Qed.
