(* ===== verification/JsonText.v ===== *)
(** * What counts as a JSON text

    [encoding/json] checks a text before it decodes it ([checkValid]): the grammar of
    JSON as its scanner accepts it, white space, escapes and numbers included. The
    limit on the nesting is left out, it only refuses more. *)
From S2P Require Import Prelude GoStr GoBytes.
#[local] Open Scope string_scope.
#[local] Open Scope list_scope.
#[local] Open Scope Z_scope.

Definition quote : ascii := "034"%char.
Definition backslash : ascii := "\"%char.
Definition is_space (c : ascii) : bool := bool_decide (c ∈ to_l " " ++ ["009"%char; "010"%char; "013"%char]).
Definition is_digit (c : ascii) : bool := bool_decide (c ∈ to_l "0123456789").
Definition is_hex (c : ascii) : bool := bool_decide (c ∈ to_l "0123456789abcdefABCDEF").
Definition is_control (c : ascii) : bool := bool_decide (Z.of_N (N_of_ascii c) < 32).

Fixpoint skip_space (l : bytes) : bytes :=
  match l with c :: rest => if is_space c then skip_space rest else l | [] => [] end.
Fixpoint skip_digits (l : bytes) : bytes :=
  match l with c :: rest => if is_digit c then skip_digits rest else l | [] => [] end.
Fixpoint skip_word (w l : bytes) : option bytes :=
  match w, l with
  | [], _ => Some l
  | a :: w, b :: l => if Ascii.eqb a b then skip_word w l else None
  | _, [] => None
  end.

(** The rest of a string, after its opening quote. *)
Fixpoint string_end (l : bytes) : option bytes :=
  match l with
  | [] => None
  | c :: l =>
      if Ascii.eqb c quote then Some l
      else if is_control c then None
      else if Ascii.eqb c backslash then
        match l with
        | e :: l =>
            if bool_decide (e ∈ [quote; backslash] ++ to_l "/bfnrt") then string_end l
            else if Ascii.eqb e "u"%char then
              match l with
              | a :: b :: c :: d :: l => if is_hex a && is_hex b && is_hex c && is_hex d then string_end l else None
              | _ => None
              end
            else None
        | [] => None
        end
      else string_end l
  end.

(** The rest of a number: its integer part, then a fraction, then an exponent. *)
Definition digits_end (l : bytes) : option bytes :=
  match l with c :: rest => if is_digit c then Some (skip_digits rest) else None | [] => None end.
Definition exponent_end (l : bytes) : option bytes :=
  match l with
  | c :: rest =>
      if bool_decide (c ∈ to_l "eE") then
        match rest with
        | s :: rest' => if bool_decide (s ∈ to_l "+-") then digits_end rest' else digits_end rest
        | [] => None
        end
      else Some l
  | [] => Some l
  end.
Definition fraction_end (l : bytes) : option bytes :=
  match l with
  | c :: rest => if Ascii.eqb c "."%char then digits_end rest ≫= exponent_end else exponent_end l
  | [] => Some l
  end.
Definition natural_end (l : bytes) : option bytes :=
  match l with
  | c :: rest => if Ascii.eqb c "0"%char then fraction_end rest else digits_end l ≫= fraction_end
  | [] => None
  end.
Definition number_end (l : bytes) : option bytes :=
  match l with
  | c :: rest => if Ascii.eqb c "-"%char then natural_end rest else natural_end l
  | [] => None
  end.

(** The rest of a value; of the members of an object and of the elements of an array,
    after the first. *)
Fixpoint value_end (fuel : nat) (l : bytes) {struct fuel} : option bytes :=
  match fuel with
  | O => None
  | S fuel =>
      match skip_space l with
      | [] => None
      | c :: rest =>
          if Ascii.eqb c "{"%char then
            match skip_space rest with
            | d :: rest' => if Ascii.eqb d "}"%char then Some rest' else member_end fuel (d :: rest')
            | [] => None
            end
          else if Ascii.eqb c "["%char then
            match skip_space rest with
            | d :: rest' => if Ascii.eqb d "]"%char then Some rest' else element_end fuel (d :: rest')
            | [] => None
            end
          else if Ascii.eqb c quote then string_end rest
          else if Ascii.eqb c "t"%char then skip_word (to_l "rue") rest
          else if Ascii.eqb c "f"%char then skip_word (to_l "alse") rest
          else if Ascii.eqb c "n"%char then skip_word (to_l "ull") rest
          else number_end (c :: rest)
      end
  end
with member_end (fuel : nat) (l : bytes) {struct fuel} : option bytes :=
  match fuel with
  | O => None
  | S fuel =>
      match skip_space l with
      | c :: rest =>
          if Ascii.eqb c quote then
            match skip_space <$> string_end rest with
            | Some (d :: rest) =>
                if Ascii.eqb d ":"%char then
                  match skip_space <$> value_end fuel rest with
                  | Some (d :: rest) =>
                      if Ascii.eqb d ","%char then member_end fuel rest
                      else if Ascii.eqb d "}"%char then Some rest
                      else None
                  | _ => None
                  end
                else None
            | _ => None
            end
          else None
      | [] => None
      end
  end
with element_end (fuel : nat) (l : bytes) {struct fuel} : option bytes :=
  match fuel with
  | O => None
  | S fuel =>
      match skip_space <$> value_end fuel l with
      | Some (d :: rest) =>
          if Ascii.eqb d ","%char then element_end fuel rest
          else if Ascii.eqb d "]"%char then Some rest
          else None
      | _ => None
      end
  end.

(** Every value consumes a character, and so does every member and element: twice the
    length is fuel enough. *)
Definition json_valid (l : bytes) : bool :=
  match value_end (S (2 * length l)) l with
  | Some rest => bool_decide (skip_space rest = [])
  | None => false
  end.

Example valid_texts : Forall (λ s, json_valid (to_l s) = true)
  ["{}"; " [1, -0.5e+3, true ,null] "; "[[],{}]"; "0"].
Proof. repeat constructor. Qed.
Example invalid_texts : Forall (λ s, json_valid (to_l s) = false)
  [""; "{"; "[1,]"; "01"; "1."; "truefalse"; "{}}"; "nul"].
Proof. repeat constructor. Qed.

(** ** Text between quotes *)
Definition plain (c : ascii) : bool :=
  negb (Ascii.eqb c quote) && negb (Ascii.eqb c backslash) && negb (is_control c).

Lemma string_end_plain s l : forallb plain s = true → string_end (s ++ quote :: l) = Some l.
Proof.
  induction s as [|c s IH]; [done|]. simpl. intros [Hc Hs]%andb_true_iff. unfold plain in Hc.
  destruct (Ascii.eqb c quote), (Ascii.eqb c backslash), (is_control c); try done. by apply IH.
Qed.

(** An object whose last value is a string that ends too early: what stands after its
    quote neither goes on with the object nor ends it. *)
Definition separates (c : ascii) : bool := is_space c || Ascii.eqb c ","%char || Ascii.eqb c "}"%char.
Lemma broken_member fuel k s c l : forallb plain k = true → forallb plain s = true → separates c = false →
  member_end fuel (quote :: k ++ quote :: to_l ":" ++ quote :: s ++ quote :: c :: l) = None.
Proof.
  intros Hk Hs Hc. unfold separates in Hc. apply orb_false_iff in Hc as [[Hsp Hco]%orb_false_iff Hcl].
  destruct fuel as [|[|fuel]]; [done| |]; simpl; rewrite string_end_plain by done; simpl; [done|].
  rewrite string_end_plain by done. simpl. by rewrite Hsp, Hco, Hcl.
Qed.

(** A member of an object with a text for a value, the text put between quotes as it is. *)
Definition text_field (name text : bytes) : bytes :=
  quote :: name ++ quote :: to_l ":" ++ quote :: text ++ [quote].

Lemma object_step fuel l : value_end (S fuel) (to_l "{" ++ quote :: l) = member_end fuel (quote :: l).
Proof. reflexivity. Qed.
Lemma member_step fuel k v l : forallb plain k = true → forallb plain v = true →
  member_end (S (S fuel)) (text_field k v ++ to_l "," ++ l) = member_end (S fuel) l.
Proof.
  intros Hk Hv. unfold text_field. rewrite <-app_comm_cons, <-app_assoc. cbn [member_end skip_space].
  change (is_space quote) with false. change (Ascii.eqb quote quote) with true. cbv iota.
  rewrite <-app_comm_cons, string_end_plain by done. cbn [fmap option_fmap option_map skip_space app to_l].
  change (is_space ":"%char) with false. change (Ascii.eqb ":" ":") with true. cbv iota.
  cbn [value_end skip_space]. change (is_space quote) with false. cbv iota.
  change (Ascii.eqb quote "{") with false. change (Ascii.eqb quote "[") with false. change (Ascii.eqb quote quote) with true. cbv iota.
  rewrite <-app_assoc. cbn [app]. by rewrite string_end_plain by done.
Qed.
(** An object of two texts, the second of them ended too early. *)
Lemma broken_object fuel k1 v1 k2 s c l : forallb plain k1 = true → forallb plain v1 = true → forallb plain k2 = true →
  forallb plain s = true → separates c = false →
  value_end fuel (to_l "{" ++ text_field k1 v1 ++ to_l "," ++ quote :: k2 ++ quote :: to_l ":" ++ quote :: s ++ quote :: c :: l) = None.
Proof.
  intros Hk1 Hv1 Hk2 Hs Hc. destruct fuel as [|fuel]; [done|]. unfold text_field at 1. rewrite <-app_comm_cons, object_step.
  change (quote :: ?a ++ ?b) with ((quote :: a) ++ b). 
  match goal with |- member_end _ (?a ++ ?b) = _ => change a with (text_field k1 v1) end.
  destruct fuel as [|[|fuel]]; [done| |rewrite member_step by done; by apply broken_member].
  unfold text_field. rewrite <-app_comm_cons, <-app_assoc. cbn [member_end skip_space].
  change (is_space quote) with false. change (Ascii.eqb quote quote) with true. cbv iota.
  by rewrite <-app_comm_cons, string_end_plain by done.
Qed.
