(* ===== verification/Regex.v ===== *)
(** * Regular expressions ([regexp])

    The expressions the code compiles, anchored at both ends: a pattern matches a
    string when the string is in its language. [MatchString] decides it with
    derivatives; [MatchString_spec] says that it does. *)
From S2P Require Import Prelude GoStr.
#[local] Open Scope string_scope.
#[local] Open Scope list_scope.

Inductive regex :=
| Void
| Eps
| Cls (f : ascii → bool)
| Seq (r s : regex)
| Alt (r s : regex)
| Star (r : regex).

(** [r?], [r+], [r{0,n}], a literal and a character class. *)
Definition Opt (r : regex) : regex := Alt Eps r.
Definition Plus (r : regex) : regex := Seq r (Star r).
Fixpoint Upto (n : nat) (r : regex) : regex :=
  match n with O => Eps | S n => Opt (Seq r (Upto n r)) end.
Definition Chr (c : ascii) : regex := Cls (Ascii.eqb c).
Definition Lit (s : string) : regex := foldr (λ c r, Seq (Chr c) r) Eps (to_l s).
Definition one_of (s : string) (c : ascii) : bool := bool_decide (c ∈ to_l s).

(** ** The language of an expression *)
Inductive matches : regex → list ascii → Prop :=
| MEps : matches Eps []
| MCls f c : f c = true → matches (Cls f) [c]
| MSeq r s u v : matches r u → matches s v → matches (Seq r s) (u ++ v)
| MAltL r s u : matches r u → matches (Alt r s) u
| MAltR r s u : matches s u → matches (Alt r s) u
| MStarNil r : matches (Star r) []
| MStarApp r u v : matches r u → matches (Star r) v → matches (Star r) (u ++ v).

(** ** Derivatives *)
Fixpoint nullable (r : regex) : bool :=
  match r with
  | Void | Cls _ => false
  | Eps | Star _ => true
  | Seq r s => nullable r && nullable s
  | Alt r s => nullable r || nullable s
  end.

(** Sequences and choices without the parts that match nothing. *)
Definition seq (r s : regex) : regex :=
  match r with Void => Void | Eps => s | _ => Seq r s end.
Definition alt (r s : regex) : regex :=
  match r, s with Void, _ => s | _, Void => r | _, _ => Alt r s end.

Fixpoint der (c : ascii) (r : regex) : regex :=
  match r with
  | Void | Eps => Void
  | Cls f => if f c then Eps else Void
  | Seq r s => if nullable r then alt (seq (der c r) s) (der c s) else seq (der c r) s
  | Alt r s => alt (der c r) (der c s)
  | Star r => seq (der c r) (Star r)
  end.

Fixpoint match_list (r : regex) (l : list ascii) : bool :=
  match l with [] => nullable r | c :: l => match_list (der c r) l end.
Definition MatchString (r : regex) (s : string) : bool := match_list r (to_l s).

(** ** Inversion of the language *)
Lemma matches_seq r s w : matches (Seq r s) w ↔ ∃ u v, w = u ++ v ∧ matches r u ∧ matches s v.
Proof. split; [inversion 1; subst; eauto|intros (u & v & -> & ? & ?); by constructor]. Qed.
Lemma matches_alt r s w : matches (Alt r s) w ↔ matches r w ∨ matches s w.
Proof. split; [inversion 1; subst; eauto|intros [?|?]; [by apply MAltL|by apply MAltR]]. Qed.
Lemma matches_void w : ¬ matches Void w.
Proof. inversion 1. Qed.
Lemma matches_eps w : matches Eps w ↔ w = [].
Proof. split; [by inversion 1|intros ->; constructor]. Qed.
Lemma matches_cls f w : matches (Cls f) w ↔ ∃ c, w = [c] ∧ f c = true.
Proof. split; [inversion 1; subst; eauto|intros (c & -> & ?); by constructor]. Qed.
Lemma matches_star_cons r c w :
  matches (Star r) (c :: w) ↔ ∃ u v, w = u ++ v ∧ matches r (c :: u) ∧ matches (Star r) v.
Proof.
  split.
  - remember (Star r) as e eqn:He. remember (c :: w) as x eqn:Hx. intros Hm. revert c w Hx.
    induction Hm as [|f d Hf|r1 r2 u v _ _ _ _|r1 r2 u _ _|r1 r2 u _ _|r'|r' u v Hu _ Hv IH]; intros c w Hx; try done; simplify_eq.
    destruct u as [|d u]; simplify_eq/=; eauto.
  - intros (u & v & -> & Hu & Hv). rewrite app_comm_cons. by constructor.
Qed.

(** Every byte of a match satisfies what the classes of the expression satisfy. *)
Fixpoint within (P : ascii → Prop) (r : regex) : Prop :=
  match r with
  | Void | Eps => True
  | Cls f => ∀ c, f c = true → P c
  | Seq r s | Alt r s => within P r ∧ within P s
  | Star r => within P r
  end.
Lemma within_matches P r w : matches r w → within P r → Forall P w.
Proof. induction 1; simpl; rewrite ?Forall_app; naive_solver. Qed.
Lemma within_upto P n r : within P r → within P (Upto n r).
Proof. induction n; simpl; auto. Qed.

Lemma matches_star_class f w : matches (Star (Cls f)) w ↔ Forall (λ c, f c = true) w.
Proof.
  split; [intros H; apply (within_matches _ _ _ H); by intros c Hc|].
  induction 1 as [|c w Hc _ IH]; [constructor|]. apply (MStarApp _ [c]); [by constructor|done].
Qed.
Lemma matches_upto_class f n w : matches (Upto n (Cls f)) w ↔ Forall (λ c, f c = true) w ∧ (List.length w ≤ n)%nat.
Proof.
  revert w. induction n as [|n IH]; intros w; simpl.
  - rewrite matches_eps. split; [intros ->; split; [constructor|simpl; lia]|]. intros [_ ?]. destruct w; simpl in *; [done|lia].
  - unfold Opt. rewrite matches_alt, matches_eps, matches_seq. split.
    + intros [->|(u & v & -> & (c & -> & Hc)%matches_cls & [Hv Hl]%IH)]; [split; [constructor|simpl; lia]|].
      split; [by constructor|simpl; lia].
    + destruct w as [|c w]; [by left|]. intros [Hw Hl]. inversion Hw; subst. right. exists [c], w.
      split_and!; [done|by constructor|apply IH; simpl in *; auto with lia].
Qed.
Lemma matches_lit s w : matches (Lit s) w ↔ w = to_l s.
Proof.
  unfold Lit. revert w. induction (to_l s) as [|c l IH]; intros w; simpl; [apply matches_eps|].
  rewrite matches_seq. split.
  - intros (u & v & -> & (d & -> & Hd)%matches_cls & ->%IH). by apply Ascii.eqb_eq in Hd as ->.
  - intros ->. exists [c], l. split_and!; [done|constructor; apply Ascii.eqb_refl|by apply IH].
Qed.

(** ** The matcher decides the language *)
Lemma nullable_spec r : nullable r = true ↔ matches r [].
Proof.
  induction r as [| |f|r IHr s IHs|r IHr s IHs|r IHr]; simpl.
  - split; [done|by intros ?%matches_void].
  - rewrite matches_eps. done.
  - rewrite matches_cls. naive_solver.
  - rewrite andb_true_iff, matches_seq, IHr, IHs. split; [intros [??]; by exists [], []|].
    by intros (u & v & [-> ->]%eq_sym%app_nil & ? & ?).
  - by rewrite orb_true_iff, matches_alt, IHr, IHs.
  - split; [constructor|done].
Qed.

Lemma matches_mk_seq r s w : matches (seq r s) w ↔ matches (Seq r s) w.
Proof.
  destruct r; try done; simpl; rewrite matches_seq.
  - split; [by intros ?%matches_void|by intros (? & ? & _ & ?%matches_void & _)].
  - setoid_rewrite matches_eps. split; [intros; by exists [], w|by intros (? & ? & -> & -> & ?)].
Qed.
Lemma matches_mk_alt r s w : matches (alt r s) w ↔ matches (Alt r s) w.
Proof.
  pose proof (matches_void w). rewrite matches_alt. destruct r, s; simpl; rewrite ?matches_alt; tauto.
Qed.

Lemma der_spec c r w : matches (der c r) w ↔ matches r (c :: w).
Proof.
  revert w. induction r as [| |f|r IHr s IHs|r IHr s IHs|r IHr]; intros w; simpl.
  - split; by intros ?%matches_void.
  - rewrite matches_eps. split; [by intros ?%matches_void|done].
  - rewrite matches_cls. destruct (f c) eqn:E; rewrite ?matches_eps.
    + split; [intros ->; eauto|by intros (d & [= <- ->] & ?)].
    + split; [by intros ?%matches_void|intros (d & [= <- ->] & ?); congruence].
  - assert (matches (Seq r s) (c :: w) ↔ matches (Seq (der c r) s) w ∨ matches r [] ∧ matches s (c :: w)) as ->.
    { rewrite !matches_seq. split.
      - intros ([|d u] & v & Heq & Hu & Hv); simplify_eq/=; [by right|left]. exists u, v. by rewrite IHr.
      - intros [(u & v & -> & Hu%IHr & Hv)|[Hr Hs]]; [by exists (c :: u), v|by exists [], (c :: w)]. }
    rewrite <-nullable_spec. destruct (nullable r); rewrite ?matches_mk_alt, ?matches_alt, matches_mk_seq, ?IHs; naive_solver.
  - rewrite matches_mk_alt, !matches_alt. by rewrite IHr, IHs.
  - rewrite matches_mk_seq, matches_seq, matches_star_cons. by setoid_rewrite IHr.
Qed.

Lemma MatchString_spec r s : MatchString r s = true ↔ matches r (to_l s).
Proof.
  unfold MatchString. revert r. induction (to_l s) as [|c l IH]; intros r; simpl; [apply nullable_spec|].
  by rewrite IH, der_spec.
Qed.
