(* ===== verification/AtSyntax.v ===== *)
(** * Identifiers of the AT Protocol (pkg/atproto/syntax/syntax.go)

    DIDs, handles, NSIDs, record keys and AT-URIs: the patterns, the parsers and
    the printing. A parser trims its input and returns the text itself. *)
From S2P Require Import Prelude GoStr Regex.
#[local] Open Scope string_scope.
#[local] Open Scope list_scope.
#[local] Open Scope Z_scope.

(** ** The patterns *)
Definition is_lower (c : ascii) : bool := bool_decide (97 <= ord c <= 122).
Definition is_upper (c : ascii) : bool := bool_decide (65 <= ord c <= 90).
Definition is_letter (c : ascii) : bool := is_lower c || is_upper c.
Definition is_alnum (c : ascii) : bool := is_letter c || is_digit c.
Definition or_one_of (f : ascii → bool) (s : string) (c : ascii) : bool := f c || one_of s c.

(** [[a-zA-Z0-9-]{0,61}[a-zA-Z0-9]], the rest of a name that has more than one character. *)
Definition name_rest : regex := Opt (Seq (Upto 61 (Cls (or_one_of is_alnum "-"))) (Cls is_alnum)).

Definition didRegex : regex :=
  Seq (Lit "did:") (Seq (Plus (Cls is_lower)) (Seq (Chr ":") (Seq (Star (Cls (or_one_of is_alnum "._:%-")))
    (Cls (or_one_of is_alnum "._-"))))).
Definition handleRegex : regex :=
  Seq (Plus (Seq (Cls is_alnum) (Seq name_rest (Chr ".")))) (Seq (Cls is_letter) name_rest).
Definition nsidRegex : regex :=
  Seq (Seq (Cls is_letter) name_rest)
    (Seq (Plus (Seq (Chr ".") (Seq (Cls is_alnum) name_rest)))
      (Seq (Chr ".") (Seq (Cls is_letter) (Opt (Upto 62 (Cls is_alnum)))))).
Definition key_char : ascii → bool := or_one_of is_alnum "_~.:-".
Definition recordKeyRegex : regex := Seq (Cls key_char) (Upto 511 (Cls key_char)).

(** The length of a string, [len(s)]. *)
Definition slen (s : string) : Z := Z.of_nat (String.length s).

(** [strings.SplitN(s, c, n)] for a positive [n]. *)
Fixpoint cut_at (c : ascii) (s : string) : option (string * string) :=
  match s with
  | EmptyString => None
  | String a s => if Ascii.eqb a c then Some ("", s)
                  else match cut_at c s with Some (x, y) => Some (String a x, y) | None => None end
  end.
Fixpoint SplitN (s : string) (c : ascii) (n : nat) : list string :=
  match n with
  | O => []
  | S O => [s]
  | S n => match cut_at c s with Some (x, y) => x :: SplitN y c n | None => [s] end
  end.

Section Syntax.
Context `{UnicodeCase}.

(** ** Parsers *)
Definition is_plc (raw : string) : bool :=
  bool_decide (slen raw = 32) && HasPrefix raw "did:plc:" && forallb is_alnum (to_l (slice_from 8 raw)).

Definition ParseDID (raw : string) : result string :=
  let raw := TrimSpace raw in
  if bool_decide (raw = "") then Err "invalid did: empty string"
  else if bool_decide (slen raw > 2048) then Err "invalid did: too long (max 2048 chars)"
  else if is_plc raw then Ok raw
  else if negb (MatchString didRegex raw) then Err ("invalid did " +:+ Quote raw +:+ ": doesn't match required format")
  else Ok raw.

Definition Method (d : string) : string :=
  match SplitN d ":" 3 with [_; m; _] => m | _ => "" end.

Definition ParseHandle (raw : string) : result string :=
  let raw := TrimSpace (ToLower raw) in
  if bool_decide (raw = "") then Err "invalid handle: empty string"
  else if bool_decide (slen raw > 253) then Err "invalid handle: too long (max 253 chars)"
  else if negb (MatchString handleRegex raw) then Err ("invalid handle " +:+ Quote raw +:+ ": doesn't match required format")
  else Ok raw.

Definition TLD (h : string) : string :=
  let parts := Split h "." in
  if bool_decide (Z.of_nat (length parts) < 2) then "" else default "" (list.last parts).
Definition AllowedTLD (h : string) : bool :=
  negb (bool_decide (TLD h ∈ ["local"; "arpa"; "invalid"; "localhost"; "internal"; "example"; "onion"; "alt"])).

Definition ParseNSID (raw : string) : result string :=
  let raw := TrimSpace raw in
  if bool_decide (raw = "") then Err "invalid nsid: empty string"
  else if bool_decide (slen raw > 317) then Err "invalid nsid: too long (max 317 chars)"
  else if negb (MatchString nsidRegex raw) then Err ("invalid nsid " +:+ Quote raw +:+ ": doesn't match required format")
  else Ok raw.

Definition ParseRecordKey (raw : string) : result string :=
  let raw := TrimSpace raw in
  if bool_decide (raw = "") then Err "invalid record key: empty string"
  else if bool_decide (raw = "." ∨ raw = "..") then Err ("invalid record key: " +:+ Quote raw +:+ " is reserved")
  else if bool_decide (slen raw > 512) then Err "invalid record key: too long (max 512 chars)"
  else if negb (MatchString recordKeyRegex raw) then Err ("invalid record key " +:+ Quote raw +:+ ": doesn't match required format")
  else Ok raw.

(** ** AT-URIs *)
Record ATURI := { Authority : string; Collection : string; RecordKey : string }.

(** [rest[:i]] for the first position [i] of a byte of [cs], if there is one. *)
Fixpoint before_any (cs : string) (s : string) : string :=
  match s with
  | EmptyString => ""
  | String a s => if one_of cs a then "" else String a (before_any cs s)
  end.

Definition check_authority (authorityRaw : string) : result unit :=
  if HasPrefix authorityRaw "did:" then _ ← ParseDID authorityRaw; mret tt
  else _ ← ParseHandle authorityRaw; mret tt.

(** The segments after the authority; [i] counts them. *)
Fixpoint path_segments (raw : string) (i : nat) (parts : list string) (collection rkey : string) : result (string * string) :=
  match parts with
  | [] => mret (collection, rkey)
  | part :: parts =>
      if bool_decide (part = "") then Err ("invalid at-uri " +:+ Quote raw +:+ ": empty path segment")
      else match i with
      | 0%nat => collection ← wrap ("invalid at-uri " +:+ Quote raw +:+ ": invalid collection: ") (ParseNSID part);
                 path_segments raw 1 parts collection rkey
      | 1%nat => rkey ← wrap ("invalid at-uri " +:+ Quote raw +:+ ": invalid record key: ") (ParseRecordKey part);
                 path_segments raw 2 parts collection rkey
      | _ => Err ("invalid at-uri " +:+ Quote raw +:+ ": too many path segments")
      end
  end.

Definition ParseATURI (raw : string) : result ATURI :=
  let raw := TrimSpace raw in
  if bool_decide (slen raw > 8192) then Err "invalid at-uri: too long (max 8192 chars)"
  else if negb (HasPrefix raw "at://") then Err ("invalid at-uri " +:+ Quote raw +:+ ": missing 'at://' prefix")
  else
    let rest := before_any "?#" (TrimPrefix raw "at://") in
    if bool_decide (rest = "") then Err ("invalid at-uri " +:+ Quote raw +:+ ": missing authority")
    else match Split rest "/" with
    | [] => Panic
    | authorityRaw :: path =>
        if bool_decide (authorityRaw = "") then Err ("invalid at-uri " +:+ Quote raw +:+ ": missing authority")
        else
          _ ← check_authority authorityRaw;
          p ← path_segments raw 0 path "" "";
          mret {| Authority := authorityRaw; Collection := p.1; RecordKey := p.2 |}
    end.

Definition ATURI_String (u : ATURI) : string :=
  let base := "at://" +:+ Authority u in
  let base := if bool_decide (Collection u = "") then base else base +:+ "/" +:+ Collection u in
  if bool_decide (RecordKey u = "") then base else base +:+ "/" +:+ RecordKey u.
Definition Normalize (u : ATURI) : ATURI := u.
End Syntax.
Arguments ParseDID : simpl never.
Arguments ParseHandle : simpl never.
Arguments ParseNSID : simpl never.
Arguments ParseRecordKey : simpl never.
Arguments ParseATURI : simpl never.
Arguments MatchString : simpl never.

(** ** The bytes the patterns allow *)
Definition plain (c : ascii) : Prop := 33 <= ord c <= 126 ∧ ord c ≠ 47 ∧ ord c ≠ 63 ∧ ord c ≠ 35.
Lemma plain_graphic c : plain c → graphic c.
Proof. unfold plain, graphic. lia. Qed.
Lemma lower_plain c : is_lower c = true → plain c.
Proof. unfold is_lower, plain. rewrite bool_decide_eq_true. lia. Qed.
Lemma letter_plain c : is_letter c = true → plain c.
Proof. unfold is_letter, is_upper, is_lower, plain. rewrite orb_true_iff, !bool_decide_eq_true. lia. Qed.
Lemma alnum_plain c : is_alnum c = true → plain c.
Proof. unfold is_alnum. rewrite orb_true_iff. intros [Hc|Hc]; [by apply letter_plain|]. revert Hc. unfold is_digit, plain. rewrite bool_decide_eq_true. lia. Qed.
Lemma or_one_of_plain f s c : (∀ c, f c = true → plain c) → Forall plain (to_l s) → or_one_of f s c = true → plain c.
Proof.
  unfold or_one_of, one_of. rewrite list.Forall_forall, orb_true_iff, bool_decide_eq_true. intros Hf Hs [?|?]; auto.
Qed.
Lemma lit_plain s : Forall plain (to_l s) → within plain (Lit s).
Proof. unfold Lit. induction 1 as [|c l Hc _ IH]; simpl; [done|]. split; [|done]. by intros d <-%Ascii.eqb_eq. Qed.

Ltac plain_list := repeat constructor; unfold plain; vm_compute; intuition congruence.
Ltac plain_class :=
  match goal with
  | |- within plain (Lit _) => apply lit_plain; plain_list
  | |- within plain (Chr _) => intros ? <-%Ascii.eqb_eq; unfold plain; vm_compute; intuition congruence
  | |- within plain (Upto _ _) => apply within_upto; plain_class
  | |- within plain (Cls is_lower) => exact lower_plain
  | |- within plain (Cls is_letter) => exact letter_plain
  | |- within plain (Cls is_alnum) => exact alnum_plain
  | |- within plain (Cls (or_one_of _ _)) => intros ?; apply or_one_of_plain; [exact alnum_plain|plain_list]
  | |- within plain (Seq _ _) => split; plain_class
  | |- within plain (Star ?r) => change (within plain r); plain_class
  | |- within plain Eps => exact I
  | |- within plain (Alt _ _) => split; plain_class
  | |- within plain _ => hnf; plain_class
  end.
Lemma did_plain d : matches didRegex (to_l d) → Forall plain (to_l d).
Proof. intros Hm. apply (within_matches _ _ _ Hm). unfold didRegex, Plus. plain_class. Qed.
Lemma nsid_plain d : matches nsidRegex (to_l d) → Forall plain (to_l d).
Proof. intros Hm. apply (within_matches _ _ _ Hm). unfold nsidRegex, Plus, name_rest, Opt. plain_class. Qed.
Lemma key_plain d : matches recordKeyRegex (to_l d) → Forall plain (to_l d).
Proof. intros Hm. apply (within_matches _ _ _ Hm). unfold recordKeyRegex, key_char. plain_class. Qed.
Lemma plain_trimmed s : Forall plain (to_l s) → TrimSpace s = s.
Proof. intros Hs. apply TrimSpace_graphic. eapply Forall_impl; [apply plain_graphic|exact Hs]. Qed.

(** A trimmed text is printable when it comes from a slash. *)
Lemma trim_after_slash a pre x : graphic a → x ≠ "" → TrimSpace x = x →
  TrimSpace (String a pre +:+ "/" +:+ x) = String a pre +:+ "/" +:+ x.
Proof.
  intros Ha Hx Ht. apply TrimSpace_id.
  - rewrite string_app_cons. by apply starts_ws_graphic.
  - rewrite !to_l_app, !rev_app_distr. simpl (to_l "/"). simpl (rev ["/"%char]). rewrite <-app_assoc. apply starts_ws_rev_app.
    + destruct x; [done|]. simpl. by destruct (rev (to_l x)).
    + unfold graphic. vm_compute. intuition congruence.
    + by apply trimmed_end.
Qed.

(** ** What the parsers accept *)
Section Specs.
Context `{UnicodeCase}.

Lemma length_to_l d : List.length (to_l d) = String.length d.
Proof. induction d; simpl; congruence. Qed.
Lemma didRegex_nonempty d : matches didRegex (to_l d) → d ≠ "".
Proof. intros Hm ->. apply matches_seq in Hm as (u & v & Hw & ->%matches_lit & _). done. Qed.
Lemma nsid_nonempty d : matches nsidRegex (to_l d) → d ≠ "".
Proof.
  intros Hm ->. apply matches_seq in Hm as (u & v & Hw & Hu & _). apply matches_seq in Hu as (x & y & -> & (c & -> & _)%matches_cls & _). done.
Qed.
Lemma key_matches d : matches recordKeyRegex (to_l d) ↔ d ≠ "" ∧ slen d <= 512 ∧ Forall (λ c, key_char c = true) (to_l d).
Proof.
  unfold recordKeyRegex, slen. rewrite matches_seq. split.
  - intros (u & v & Hw & (c & -> & Hc)%matches_cls & [Hv Hl]%matches_upto_class). destruct d as [|a d]; [done|]. simpl in Hw.
    simplify_eq. split_and!; [done| |by constructor]. simpl. rewrite length_to_l in Hl. lia.
  - intros (Hne & Hlen & Hf). destruct d as [|a d]; [done|]. inversion Hf; subst. exists [a], (to_l d).
    split_and!; [done|by constructor|]. apply matches_upto_class. split; [done|]. simpl in Hlen. rewrite length_to_l. lia.
Qed.

Lemma plc_matches d : is_plc d = true → matches didRegex (to_l d).
Proof.
  unfold is_plc. rewrite !andb_true_iff, bool_decide_eq_true. intros [[Hlen Hp] Hall].
  apply HasPrefix_inv in Hp as [t ->].
  assert (slice_from 8 ("did:plc:" +:+ t) = t) as Ht by apply (slice_from_app "did:plc:" t). rewrite Ht in Hall. clear Ht.
  assert (Hne : to_l t ≠ []). { intros E. rewrite <-(of_to_l t), E in Hlen. vm_compute in Hlen. congruence. }
  destruct (exists_last Hne) as (l & z & Hz). rewrite to_l_app, Hz. rewrite Hz in Hall.
  rewrite forallb_app in Hall. apply andb_true_iff in Hall as [Hl Hz'%andb_true_iff]. destruct Hz' as [Hz' _].
  apply matches_seq. exists (to_l "did:"), (to_l "plc:" ++ l ++ [z]). split; [done|]. split; [by apply matches_lit|].
  apply matches_seq. exists (to_l "plc"), (to_l ":" ++ l ++ [z]). split; [done|]. split.
  { apply matches_seq. exists ["p"%char], (to_l "lc"). split; [done|]. split; [by constructor|].
    apply matches_star_class. by repeat constructor. }
  constructor; [by constructor|]. constructor; [|constructor; unfold or_one_of; by rewrite Hz'].
  apply matches_star_class. apply list.Forall_forall. intros c Hc. unfold or_one_of.
  rewrite forallb_forall in Hl. rewrite Hl; [done|]. by apply list_elem_of_In.
Qed.

(** Without the fast path. *)
Lemma ParseDID_spec raw d :
  ParseDID raw = Ok d ↔ d = TrimSpace raw ∧ slen d <= 2048 ∧ MatchString didRegex d = true.
Proof.
  unfold ParseDID. split.
  - repeat case_bool_decide; try done. destruct (is_plc (TrimSpace raw)) eqn:Hp.
    + intros [= <-]. split_and!; [done|lia|]. by apply MatchString_spec, plc_matches.
    + destruct (MatchString didRegex (TrimSpace raw)) eqn:Hm; [|done]. intros [= <-]. split_and!; [done|lia|done].
  - intros (-> & Hl & Hm). pose proof Hm as Hne%MatchString_spec%didRegex_nonempty.
    rewrite bool_decide_eq_false_2 by done. rewrite bool_decide_eq_false_2 by lia. rewrite Hm. simpl. by destruct (is_plc _).
Qed.
Lemma ParseNSID_spec raw d :
  ParseNSID raw = Ok d ↔ d = TrimSpace raw ∧ slen d <= 317 ∧ MatchString nsidRegex d = true.
Proof.
  unfold ParseNSID. split.
  - repeat case_bool_decide; try done. destruct (MatchString nsidRegex (TrimSpace raw)) eqn:Hm; [|done].
    intros [= <-]. split_and!; [done|lia|done].
  - intros (-> & Hl & Hm). pose proof Hm as Hne%MatchString_spec%nsid_nonempty.
    rewrite bool_decide_eq_false_2 by done. rewrite bool_decide_eq_false_2 by lia. by rewrite Hm.
Qed.
Lemma ParseRecordKey_spec raw d :
  ParseRecordKey raw = Ok d ↔
  d = TrimSpace raw ∧ d ≠ "" ∧ d ≠ "." ∧ d ≠ ".." ∧ slen d <= 512 ∧ Forall (λ c, key_char c = true) (to_l d).
Proof.
  unfold ParseRecordKey. split.
  - repeat case_bool_decide; try done. destruct (MatchString recordKeyRegex (TrimSpace raw)) eqn:Hm; [|done].
    intros [= <-]. apply MatchString_spec, key_matches in Hm as (? & ? & ?). naive_solver.
  - intros (-> & Hne & H1 & H2 & Hl & Hf). rewrite bool_decide_eq_false_2 by done. rewrite bool_decide_eq_false_2 by naive_solver.
    rewrite bool_decide_eq_false_2 by lia.
    assert (MatchString recordKeyRegex (TrimSpace raw) = true) as -> by (by apply MatchString_spec, key_matches). done.
Qed.
End Specs.

(** ** AT-URIs: printing and parsing again *)
Section Uris.
Context `{UnicodeCase}.

Definition segs (u : ATURI) : list string :=
  (if bool_decide (Collection u = "") then [] else [Collection u]) ++
  (if bool_decide (RecordKey u = "") then [] else [RecordKey u]).
(** No byte that ends an authority. *)
Definition clean (s : string) : Prop := ∀ c, c ∈ to_l s → one_of "/?#" c = false.

(** The URIs that parsing returns, white space around the authority aside. *)
Definition valid (u : ATURI) : Prop :=
  Authority u ≠ "" ∧ clean (Authority u) ∧ is_ok (check_authority (Authority u)) = true ∧
  (Collection u = "" ∧ RecordKey u = "" ∨
   ParseNSID (Collection u) = Ok (Collection u) ∧ (RecordKey u = "" ∨ ParseRecordKey (RecordKey u) = Ok (RecordKey u))).

Lemma plain_clean s : Forall plain (to_l s) → clean s.
Proof.
  rewrite list.Forall_forall. intros Hs c Hc. apply Hs in Hc as (_ & H1 & H2 & H3). unfold one_of. apply bool_decide_eq_false.
  intros Hc. simpl in Hc. repeat apply elem_of_cons in Hc as [->|Hc]; try done. by apply not_elem_of_nil in Hc.
Qed.
Lemma clean_lacks s : clean s → lacks "/" s = true.
Proof.
  intros Hs. induction s as [|c s IH]; [done|]. simpl. rewrite IH.
  - pose proof (Hs c ltac:(left)) as Hc. rewrite andb_true_r. destruct (Ascii.eqb c "/") eqn:E; [|done].
    apply Ascii.eqb_eq in E as ->. by vm_compute in Hc.
  - intros d Hd. apply Hs. by right.
Qed.
Lemma before_any_id s : (∀ c, c ∈ to_l s → one_of "?#" c = false) → before_any "?#" s = s.
Proof.
  induction s as [|c s IH]; [done|]. intros Hs. simpl. rewrite (Hs c ltac:(left)). rewrite IH; [done|].
  intros d Hd. apply Hs. by right.
Qed.
Lemma before_any_lacks s c : c ∈ to_l (before_any "?#" s) → one_of "?#" c = false.
Proof.
  induction s as [|a s IH]; simpl; [by intros ?%not_elem_of_nil|]. destruct (one_of "?#" a) eqn:E; simpl; [by intros ?%not_elem_of_nil|].
  by intros [->|?]%elem_of_cons; auto.
Qed.
Lemma before_any_length s : slen (before_any "?#" s) <= slen s.
Proof. unfold slen. induction s as [|a s IH]; simpl; [lia|]. destruct (one_of _ a); simpl; lia. Qed.
Lemma slen_app s t : slen (s +:+ t) = slen s + slen t.
Proof. unfold slen. rewrite <-!length_to_l, to_l_app, length_app. lia. Qed.
Lemma join_cons c x y l : Join (x :: y :: l) (String c "") = x +:+ String c (Join (y :: l) (String c "")).
Proof. done. Qed.
Lemma join_elem x l c a : x ∈ l → a ∈ to_l x → a ∈ to_l (Join l (String c "")).
Proof.
  induction l as [|y l IH]; [by intros ?%not_elem_of_nil|]. intros Hx Ha. destruct l as [|z l].
  - by apply list_elem_of_singleton in Hx as ->.
  - rewrite join_cons, to_l_app. apply elem_of_app. apply elem_of_cons in Hx as [->|Hx]; [by left|right].
    simpl. right. by apply IH.
Qed.
Lemma one_of_cons a s c : one_of (String a s) c = bool_decide (c = a) || one_of s c.
Proof. unfold one_of. simpl. rewrite <-bool_decide_or. apply bool_decide_ext. by rewrite elem_of_cons. Qed.

Lemma print_join u : (Collection u = "" → RecordKey u = "") → ATURI_String u = "at://" +:+ Join (Authority u :: segs u) "/".
Proof.
  unfold ATURI_String, segs. intros Hu. destruct (bool_decide (Collection u = "")) eqn:Hc, (bool_decide (RecordKey u = "")) eqn:Hk; simpl.
  - done.
  - apply bool_decide_eq_true in Hc. apply bool_decide_eq_false in Hk. by apply Hu in Hc.
  - by rewrite join_cons, string_app_assoc.
  - rewrite !join_cons. rewrite !string_app_assoc. done.
Qed.
Lemma join_clean l : Forall clean l → ∀ c, c ∈ to_l (Join l "/") → one_of "?#" c = false.
Proof.
  induction 1 as [|x l Hx _ IH]; [by intros c ?%not_elem_of_nil|]. intros c Hc.
  assert (∀ c, one_of "/?#" c = false → one_of "?#" c = false) as Hw.
  { intros d. rewrite one_of_cons. by intros [_ ?]%orb_false_iff. }
  destruct l as [|y l]; [by apply Hw, Hx|]. rewrite join_cons, to_l_app in Hc. simpl in Hc.
  apply elem_of_app in Hc as [Hc|[->|Hc]%elem_of_cons]; [by apply Hw, Hx|done|by apply IH].
Qed.

Lemma nsid_clean d : ParseNSID d = Ok d → d ≠ "" ∧ TrimSpace d = d ∧ clean d.
Proof.
  intros (Hd & _ & Hm)%ParseNSID_spec. apply MatchString_spec in Hm. split_and!; [by apply nsid_nonempty|done|].
  by apply plain_clean, nsid_plain.
Qed.
Lemma key_clean d : ParseRecordKey d = Ok d → d ≠ "" ∧ TrimSpace d = d ∧ clean d.
Proof.
  intros (Hd & Hne & _ & _ & Hl & Hf)%ParseRecordKey_spec. split_and!; [done..|]. apply plain_clean, key_plain. by apply key_matches.
Qed.

Lemma valid_path u : valid u → Collection u = "" → RecordKey u = "".
Proof. intros (_ & _ & _ & [[_ ?]|[(Hne & _)%nsid_clean _]]) Hc; done. Qed.
Lemma path_segments_print raw u : valid u → path_segments raw 0 (segs u) "" "" = Ok (Collection u, RecordKey u).
Proof.
  intros (_ & _ & _ & Hv). unfold segs. destruct Hv as [[-> ->]|[Hc Hk]]; [done|].
  pose proof (nsid_clean _ Hc) as (Hne & _ & _). rewrite (bool_decide_eq_false_2 (Collection u = "")) by done. simpl app.
  destruct Hk as [->|Hk].
  - simpl. rewrite bool_decide_eq_false_2 by done. rewrite Hc. done.
  - pose proof (key_clean _ Hk) as (Hkne & _ & _). rewrite (bool_decide_eq_false_2 (RecordKey u = "")) by done. simpl.
    rewrite bool_decide_eq_false_2 by done. rewrite Hc. simpl. rewrite bool_decide_eq_false_2 by done. rewrite Hk. done.
Qed.
Lemma segs_clean u : valid u → Forall (λ x, x ≠ "" ∧ TrimSpace x = x ∧ clean x) (segs u).
Proof.
  intros (_ & _ & _ & Hv). unfold segs. destruct Hv as [[-> ->]|[Hc Hk]]; [constructor|].
  apply nsid_clean in Hc as Hc'. destruct Hk as [Hk|Hk]; [|apply key_clean in Hk as Hk']; repeat case_bool_decide; try done; repeat constructor; naive_solver.
Qed.
Lemma join_snoc l x c : l ≠ [] → Join (l ++ [x]) (String c "") = Join l (String c "") +:+ String c x.
Proof.
  induction l as [|y l IH]; [done|]. intros _. destruct l as [|z l]; [done|]. simpl app. rewrite !join_cons.
  simpl app in IH. rewrite IH by done. by rewrite string_app_assoc.
Qed.
Lemma print_trimmed u : valid u → TrimSpace (Authority u) = Authority u → TrimSpace (ATURI_String u) = ATURI_String u.
Proof.
  intros Hv Ht. rewrite print_join by by apply valid_path. pose proof (segs_clean u Hv) as Hs. destruct Hv as (Hne & _).
  assert (graphic "a") as Ha by (unfold graphic; vm_compute; intuition congruence).
  destruct (segs u) as [|y l _] eqn:Hsegs using rev_ind.
  - exact (trim_after_slash "a" "t:/" (Authority u) Ha Hne Ht).
  - apply Forall_app in Hs as [_ Hy]. inversion Hy as [|? ? (Hyne & Hyt & _)]; subst.
    rewrite app_comm_cons, join_snoc by done. change (String "/" y) with ("/" +:+ y). rewrite <-string_app_assoc.
    exact (trim_after_slash "a" ("t://" +:+ Join (Authority u :: l) "/") y Ha Hyne Hyt).
Qed.

(** Printed and parsed again. *)
Lemma parse_print u : valid u → TrimSpace (Authority u) = Authority u → slen (ATURI_String u) <= 8192 →
  ParseATURI (ATURI_String u) = Ok u.
Proof.
  intros Hv Ht Hlen. unfold ParseATURI. rewrite print_trimmed by done. rewrite bool_decide_eq_false_2 by lia.
  pose proof (segs_clean u Hv) as Hs. pose proof (valid_path u Hv) as Hp. pose proof Hv as (Hne & Hc & Hok & _).
  assert (Hcl : Forall clean (Authority u :: segs u)).
  { constructor; [done|]. eapply Forall_impl; [|exact Hs]. by intros x (_ & _ & ?). }
  rewrite print_join by done. rewrite HasPrefix_app, TrimPrefix_app. simpl negb. cbv iota.
  rewrite before_any_id by by apply join_clean.
  rewrite split_join; [|done|].
  2:{ eapply Forall_impl; [|exact Hcl]. intros x. apply clean_lacks. }
  assert (Join (Authority u :: segs u) "/" ≠ "") as Hj.
  { destruct (Authority u) as [|a s]; [done|]. by destruct (segs u). }
  rewrite bool_decide_eq_false_2 by done. rewrite bool_decide_eq_false_2 by done.
  destruct (check_authority (Authority u)) as [[]|?|] eqn:Hauth; try done. rewrite path_segments_print by done. simpl. by destruct u.
Qed.

(** What parsing returns. *)
Lemma path_segments_ok raw path c k : path_segments raw 0 path "" "" = Ok (c, k) →
  (path = [] ∧ c = "" ∧ k = "") ∨
  (∃ p, path = [p] ∧ ParseNSID p = Ok c ∧ k = "") ∨
  (∃ p q, path = [p; q] ∧ ParseNSID p = Ok c ∧ ParseRecordKey q = Ok k).
Proof.
  destruct path as [|p path]; simpl; [intros [= <- <-]; auto|]. case_bool_decide; [done|].
  intros (d & Hd%wrap_ok & Hr)%result_bind_ok. destruct path as [|q path]; simpl in Hr.
  { injection Hr as <- <-. right. left. by exists p. }
  case_bool_decide; [done|]. apply result_bind_ok in Hr as (e & He%wrap_ok & Hr). destruct path as [|r path]; simpl in Hr.
  { injection Hr as <- <-. right. right. by exists p, q. }
  by case_bool_decide.
Qed.
Lemma ParseNSID_trim p c : ParseNSID p = Ok c → c = TrimSpace p ∧ ParseNSID c = Ok c.
Proof. rewrite !ParseNSID_spec. intros (-> & ? & ?). by rewrite TrimSpace_idemp. Qed.
Lemma ParseRecordKey_trim p c : ParseRecordKey p = Ok c → c = TrimSpace p ∧ ParseRecordKey c = Ok c.
Proof. rewrite !ParseRecordKey_spec. intros (-> & ?). by rewrite TrimSpace_idemp. Qed.
Lemma trim_slen s : slen (TrimSpace s) <= slen s.
Proof.
  unfold slen. rewrite <-!length_to_l. unfold TrimSpace. rewrite to_of_l.
  destruct (trim_right_prefix (trim_left (to_l s))) as [k Hk]. pose proof (trim_left_length (to_l s)).
  apply (f_equal List.length) in Hk. rewrite length_app in Hk. lia.
Qed.
Lemma join_slen l k : Forall2 (λ x y, slen x <= slen y) l k → slen (Join l "/") <= slen (Join k "/").
Proof.
  induction 1 as [|x y l k Hxy Hlk IH]; [done|]. inversion Hlk; subst; [done|]. rewrite !join_cons, !slen_app. unfold slen in *. simpl in *. lia.
Qed.

Lemma ParseATURI_ok raw u : ParseATURI raw = Ok u → valid u ∧ slen (ATURI_String u) <= 8192.
Proof.
  unfold ParseATURI. case_bool_decide; [done|]. destruct (HasPrefix (TrimSpace raw) "at://") eqn:Hp; [|done]. simpl negb. cbv iota.
  apply HasPrefix_inv in Hp as [full Hfull]. assert (slen "at://" + slen full <= 8192) as Hlen by (rewrite <-slen_app, <-Hfull; lia). rewrite Hfull, TrimPrefix_app.
  pose proof (before_any_length full) as Hbl. pose proof (before_any_lacks full) as Hbc. set (rest := before_any "?#" full) in *.
  case_bool_decide; [done|]. pose proof (join_split "/" rest) as Hj. pose proof (split_lacks "/" rest) as Hsl.
  destruct (Split rest "/") as [|a path] eqn:Hsplit; [done|]. case_bool_decide; [done|].
  intros ([] & Hauth & ([c k] & Hpath & [= <-])%result_bind_ok)%result_bind_ok.
  assert (clean a) as Hca.
  { intros d Hd. rewrite one_of_cons. apply orb_false_iff. split.
    - apply bool_decide_eq_false. intros ->. inversion Hsl; subst. by eapply lacks_not_elem.
    - apply Hbc. rewrite <-Hj. eapply join_elem; [left|done]. }
  apply path_segments_ok in Hpath as Hpath'.
  assert (valid {| Authority := a; Collection := c; RecordKey := k |}) as Hv.
  { split_and!; simpl; [done|done|by rewrite Hauth|]. destruct Hpath' as [(_ & -> & ->)|[(p & _ & [_ ?]%ParseNSID_trim & ->)|
      (p & q & _ & [_ ?]%ParseNSID_trim & [_ ?]%ParseRecordKey_trim)]]; auto. }
  split; [done|]. rewrite print_join by by apply valid_path. rewrite slen_app.
  cbn [Authority]. enough (slen (Join (a :: segs {| Authority := a; Collection := c; RecordKey := k |}) "/") <= slen rest) by lia.
  rewrite <-Hj. apply join_slen. constructor; [lia|]. unfold segs. simpl.
  destruct Hpath' as [(-> & -> & ->)|[(p & -> & [Hc Hc']%ParseNSID_trim & ->)|(p & q & -> & [Hc Hc']%ParseNSID_trim & [Hk Hk']%ParseRecordKey_trim)]].
  - constructor.
  - apply nsid_clean in Hc' as (Hne & _). rewrite bool_decide_eq_false_2 by done. subst c. simpl. repeat constructor. apply trim_slen.
  - apply nsid_clean in Hc' as (Hne & _). apply key_clean in Hk' as (Hkne & _). rewrite !bool_decide_eq_false_2 by done.
    subst c k. simpl. repeat constructor; apply trim_slen.
Qed.
End Uris.

(** ** Properties *)
Section Properties.
Context `{UnicodeCase}.

(** A parsed AT-URI is printed as text that parses to the same URI: fragments,
    queries and the white space around the parts are gone after one pass, unless
    white space was left around the authority. *)
Theorem aturi_roundtrip raw u :
  ParseATURI raw = Ok u → TrimSpace (Authority u) = Authority u → ParseATURI (ATURI_String (Normalize u)) = Ok u.
Proof. intros [Hv Hl]%ParseATURI_ok Ht. by apply parse_print. Qed.

(** The fast path for [did:plc] identifiers accepts only what the pattern accepts:
    a DID parses as it does without the fast path. *)
Theorem did_fast_path raw :
  ParseDID raw =
  let raw := TrimSpace raw in
  if bool_decide (raw = "") then Err "invalid did: empty string"
  else if bool_decide (slen raw > 2048) then Err "invalid did: too long (max 2048 chars)"
  else if MatchString didRegex raw then Ok raw
  else Err ("invalid did " +:+ Quote raw +:+ ": doesn't match required format").
Proof.
  unfold ParseDID. cbv zeta. repeat case_bool_decide; try done. destruct (is_plc (TrimSpace raw)) eqn:Hp.
  - apply plc_matches, MatchString_spec in Hp. by rewrite Hp.
  - by destruct (MatchString didRegex (TrimSpace raw)).
Qed.
End Properties.
