(* ===== verification/Base64.v ===== *)
(** * encoding/base64

    The padded standard encoding ([StdEncoding]), its raw variant without padding
    and the URL alphabet, as the references of internal/ssb/refs use them.
    Decoding is the lenient one of Go: line breaks are skipped and the unused low
    bits of the last digit are ignored. *)
From S2P Require Import Prelude GoStr GoBytes.
#[local] Open Scope list_scope.
#[local] Open Scope Z_scope.

Record alphabet := { chars : string; padded : bool }.
Definition letters : string := "ABCDEFGHIJKLMNOPQRSTUVWXYZabcdefghijklmnopqrstuvwxyz0123456789"%string.
Definition StdEncoding : alphabet := {| chars := (letters +:+ "+/")%string; padded := true |}.
Definition URLEncoding : alphabet := {| chars := (letters +:+ "-_")%string; padded := true |}.
Definition RawStdEncoding : alphabet := {| chars := (letters +:+ "+/")%string; padded := false |}.

Definition pad : ascii := "="%char.
Definition digit (a : alphabet) (v : Z) : ascii := nth (Z.to_nat (v mod 64)) (to_l (chars a)) pad.
Definition value (a : alphabet) (c : ascii) : option Z :=
  Z.of_nat ∘ fst <$> list_find (c =.) (to_l (chars a)).

(** [EncodeToString] *)
Fixpoint encode (a : alphabet) (l : bytes) : list ascii :=
  match l with
  | [] => []
  | [x] =>
      let v := ord x * 65536 in
      [digit a (v / 262144); digit a (v / 4096)] ++ (if padded a then [pad; pad] else [])
  | [x; y] =>
      let v := ord x * 65536 + ord y * 256 in
      [digit a (v / 262144); digit a (v / 4096); digit a (v / 64)] ++ (if padded a then [pad] else [])
  | x :: y :: z :: l =>
      let v := ord x * 65536 + ord y * 256 + ord z in
      digit a (v / 262144) :: digit a (v / 4096) :: digit a (v / 64) :: digit a v :: encode a l
  end.
Definition EncodeToString (a : alphabet) (l : bytes) : string := of_l (encode a l).

(** [DecodeString]: quantum by quantum, over the input without line breaks. *)
Definition one_byte (p q : Z) : bytes := [chr ((p * 262144 + q * 4096) / 65536)].
Definition two_bytes (p q r : Z) : bytes :=
  let v := p * 262144 + q * 4096 + r * 64 in [chr (v / 65536); chr (v / 256)].
Definition three_bytes (p q r s : Z) : bytes :=
  let v := p * 262144 + q * 4096 + r * 64 + s in [chr (v / 65536); chr (v / 256); chr v].

Fixpoint decode (a : alphabet) (l : list ascii) : option bytes :=
  match l with
  | [] => Some []
  | [c; d] =>
      if padded a then None else p ← value a c; q ← value a d; Some (one_byte p q)
  | [c; d; e] =>
      if padded a then None
      else p ← value a c; q ← value a d; r ← value a e; Some (two_bytes p q r)
  | c :: d :: e :: f :: rest =>
      p ← value a c; q ← value a d;
      match value a e, value a f with
      | Some r, Some s => out ← decode a rest; Some (three_bytes p q r s ++ out)
      | Some r, None =>
          if padded a && bool_decide (f = pad) && bool_decide (rest = [])
          then Some (two_bytes p q r) else None
      | None, _ =>
          if padded a && bool_decide (e = pad) && bool_decide (f = pad) && bool_decide (rest = [])
          then Some (one_byte p q) else None
      end
  | _ => None
  end.
Definition line_break (c : ascii) : bool := bool_decide (c = "010"%char) || bool_decide (c = "013"%char).
Definition DecodeString (a : alphabet) (s : string) : option bytes :=
  decode a (List.filter (λ c, negb (line_break c)) (to_l s)).

(** ** Alphabets *)
Definition plain (c : ascii) : bool :=
  negb (line_break c) && negb (bool_decide (c = "."%char)) && negb (ws1 c) && bool_decide (ord c < 128).
Class Alphabet (a : alphabet) := {
  value_digits : Forall (λ v, value a (digit a v) = Some v) (seqZ 0 64);
  value_pad : value a pad = None;
  chars_plain : Forall (λ c, plain c = true) (pad :: to_l (chars a));
}.
Ltac alphabet_laws := split; [apply (bool_decide_unpack _); vm_compute; exact I|vm_compute; reflexivity|apply (bool_decide_unpack _); vm_compute; exact I].
#[export] Instance std_alphabet : Alphabet StdEncoding.
Proof. alphabet_laws. Qed.
#[export] Instance url_alphabet : Alphabet URLEncoding.
Proof. alphabet_laws. Qed.
#[export] Instance raw_alphabet : Alphabet RawStdEncoding.
Proof. alphabet_laws. Qed.

(** The four digits of a 24 bit group. *)
Lemma digits_of v : 0 <= v < 2 ^ 24 →
  (v / 262144) mod 64 * 262144 + (v / 4096) mod 64 * 4096 + (v / 64) mod 64 * 64 + v mod 64 = v.
Proof. change (2 ^ 24) with 16777216. intros Hv. Z.to_euclidean_division_equations. lia. Qed.
Lemma digits_high v : 0 <= v < 2 ^ 24 → v mod 64 = 0 →
  (v / 262144) mod 64 * 262144 + (v / 4096) mod 64 * 4096 + (v / 64) mod 64 * 64 = v.
Proof. intros Hv E. pose proof (digits_of v Hv). lia. Qed.
Lemma digits_top v : 0 <= v < 2 ^ 24 → v mod 4096 = 0 →
  (v / 262144) mod 64 * 262144 + (v / 4096) mod 64 * 4096 = v.
Proof. change (2 ^ 24) with 16777216. intros Hv E. Z.to_euclidean_division_equations. lia. Qed.
Lemma chr_eq v c : v mod 256 = ord c → chr v = c.
Proof. intros E. apply ord_inj. by rewrite ord_chr_mod. Qed.

Section RoundTrip.
Context (a : alphabet) {ok : Alphabet a}.

Lemma value_digit v : value a (digit a v) = Some (v mod 64).
Proof.
  pose proof value_digits as H. rewrite list.Forall_forall in H.
  pose proof (Z.mod_pos_bound v 64 ltac:(lia)).
  rewrite <-(H (v mod 64)) by (apply elem_of_seqZ; lia).
  unfold digit. by rewrite Zmod_mod.
Qed.

Lemma list3_ind (P : bytes → Prop) :
  P [] → (∀ x, P [x]) → (∀ x y, P [x; y]) → (∀ x y z l, P l → P (x :: y :: z :: l)) → ∀ l, P l.
Proof. intros H0 H1 H2 H3. fix IH 1. intros [|x [|y [|z l]]]; [apply H0|apply H1|apply H2|apply H3, IH]. Qed.

Lemma one_byte_digits x : let v := ord x * 65536 in
  one_byte ((v / 262144) mod 64) ((v / 4096) mod 64) = [x].
Proof.
  intros v. pose proof (ord_bound x). unfold one_byte, v. f_equal. apply chr_eq.
  rewrite digits_top by (lia || (Z.to_euclidean_division_equations; lia)). rewrite Z.div_mul by lia. apply Z.mod_small. lia.
Qed.
Lemma two_bytes_digits x y : let v := ord x * 65536 + ord y * 256 in
  two_bytes ((v / 262144) mod 64) ((v / 4096) mod 64) ((v / 64) mod 64) = [x; y].
Proof.
  intros v. pose proof (ord_bound x). pose proof (ord_bound y). unfold two_bytes, v.
  rewrite digits_high by (lia || (Z.to_euclidean_division_equations; lia)).
  f_equal; [|f_equal]; apply chr_eq; Z.to_euclidean_division_equations; lia.
Qed.
Lemma three_bytes_digits x y z : let v := ord x * 65536 + ord y * 256 + ord z in
  three_bytes ((v / 262144) mod 64) ((v / 4096) mod 64) ((v / 64) mod 64) (v mod 64) = [x; y; z].
Proof.
  intros v. pose proof (ord_bound x). pose proof (ord_bound y). pose proof (ord_bound z).
  unfold three_bytes, v. rewrite digits_of by lia.
  f_equal; [|f_equal; [|f_equal]]; apply chr_eq; Z.to_euclidean_division_equations; lia.
Qed.

Lemma decode_encode l : decode a (encode a l) = Some l.
Proof.
  induction l as [|x|x y|x y z l IH] using list3_ind; [done| | |].
  - cbn [encode]. destruct (padded a) eqn:Hp; cbn [app decode]; rewrite ?Hp, ?value_digit; cbn [mbind option_bind].
    + rewrite value_pad. simpl. by rewrite one_byte_digits.
    + by rewrite one_byte_digits.
  - cbn [encode]. destruct (padded a) eqn:Hp; cbn [app decode]; rewrite ?Hp, !value_digit; cbn [mbind option_bind].
    + rewrite value_pad. simpl. by rewrite two_bytes_digits.
    + by rewrite two_bytes_digits.
  - cbn [encode decode]. rewrite !value_digit. cbn [mbind option_bind]. rewrite IH. cbn [mbind option_bind].
    by rewrite three_bytes_digits.
Qed.

Lemma digit_elem v : digit a v ∈ pad :: to_l (chars a).
Proof.
  unfold digit. destruct (nth_in_or_default (Z.to_nat (v mod 64)) (to_l (chars a)) pad) as [H|H].
  - right. by apply list_elem_of_In.
  - rewrite H. left.
Qed.
Lemma digit_plain v : plain (digit a v) = true.
Proof. pose proof chars_plain as H. rewrite list.Forall_forall in H. apply H, digit_elem. Qed.

Lemma encode_plain l : Forall (λ c, plain c = true) (encode a l).
Proof.
  induction l as [|x|x y|x y z l IH] using list3_ind; cbn [encode]; [constructor| | |].
  - constructor; [apply digit_plain|]. constructor; [apply digit_plain|]. destruct (padded a); repeat constructor.
  - do 3 (constructor; [apply digit_plain|]). destruct (padded a); repeat constructor.
  - do 4 (constructor; [apply digit_plain|]). done.
Qed.

Lemma plain_filter l : Forall (λ c, plain c = true) l → List.filter (λ c, negb (line_break c)) l = l.
Proof.
  induction 1 as [|c l Hc _ IH]; [done|]. simpl. unfold plain in Hc.
  destruct (line_break c); [done|]. simpl. by rewrite IH.
Qed.

(** What is encoded decodes to the same bytes. *)
Lemma decode_string_encode l : DecodeString a (EncodeToString a l) = Some l.
Proof.
  unfold DecodeString, EncodeToString. rewrite to_of_l, plain_filter by apply encode_plain.
  apply decode_encode.
Qed.
End RoundTrip.
