(* ===== verification/Refs.v ===== *)
(** * SSB references (internal/ssb/refs/refs.go)

    Feed, message and blob references: a 32 byte key or hash with the name of its
    algorithm, printed as sigil, base64 and suffix. *)
From S2P Require Import Prelude GoStr GoBytes Base64.
#[local] Open Scope string_scope.
#[local] Open Scope list_scope.

Definition ErrInvalidFeedRef : string := "refs: invalid feed ref".
Definition ErrInvalidMessageRef : string := "refs: invalid message ref".
Definition ErrInvalidBlobRef : string := "refs: invalid blob ref".
Definition SigilFeed : ascii := "@".
Definition SigilMessage : ascii := "%".
Definition SigilBlob : ascii := "&".

(** [RefAlgo] and [RefAlgoMessage] are strings. *)
Definition RefAlgoFeedSSB1 : string := "ed25519".
Definition RefAlgoFeedBendyButt : string := "bendybutt-v1".
Definition RefAlgoFeedGabby : string := "gabbygrove-v1".
Definition RefAlgoFeedBamboo : string := "bamboo".
Definition RefAlgoFeedIndexed : string := "indexed-v1".
Definition feed_algos : list string :=
  [RefAlgoFeedSSB1; RefAlgoFeedBendyButt; RefAlgoFeedGabby; RefAlgoFeedBamboo; RefAlgoFeedIndexed].
Definition RefAlgoMessageSSB1 : string := "sha256".
Definition message_algos : list string :=
  [RefAlgoMessageSSB1; "bendybutt-v1"; "gabbygrove-v1"; "bamboo"; "indexed-v1"].

Record FeedRef := { f_algo : string; f_id : bytes }.
Record MessageRef := { m_algo : string; m_hash : bytes }.
Record BlobRef := { b_hash : bytes }.
#[export] Instance FeedRef_eq_dec : EqDecision FeedRef.
Proof. solve_decision. Defined.

(** [sigil + base64.StdEncoding.EncodeToString(id) + "." + suffix] *)
Definition print_ref (sigil : ascii) (id : bytes) (suffix : string) : string :=
  String sigil (EncodeToString StdEncoding id +:+ "." +:+ suffix).
Definition feed_string (f : FeedRef) : string := print_ref SigilFeed (f_id f) (f_algo f).
Definition message_string (m : MessageRef) : string := print_ref SigilMessage (m_hash m) (m_algo m).
Definition blob_string (b : BlobRef) : string := print_ref SigilBlob (b_hash b) "sha256".

Definition feed_Equal (f g : FeedRef) : bool :=
  bool_decide (f_algo f = f_algo g) && bool_decide (f_id f = f_id g).

Definition NewFeedRef (id : bytes) (algo : string) : result FeedRef :=
  if bool_decide (length id ≠ 32) then Err ErrInvalidFeedRef else Ok {| f_algo := algo; f_id := id |}.
Definition NewMessageRef (hash : bytes) (algo : string) : result MessageRef :=
  if bool_decide (length hash ≠ 32) then Err ErrInvalidMessageRef
  else Ok {| m_algo := algo; m_hash := hash |}.
Definition NewBlobRef (hash : bytes) : result BlobRef :=
  if bool_decide (length hash ≠ 32) then Err ErrInvalidBlobRef else Ok {| b_hash := hash |}.

(** [s[1:]] of a trimmed string of at least two bytes that starts with the
    sigil. *)
Definition after_sigil (sigil : ascii) (s : string) : option string :=
  match TrimSpace s with
  | String c (String _ _ as rest) => if bool_decide (c = sigil) then Some rest else None
  | _ => None
  end.

(** [strings.LastIndex(s, ".")], and the two sides of it when it is positive. *)
Definition LastIndex (c : ascii) (l : list ascii) : option nat :=
  (λ p, length l - 1 - fst p) <$> list_find (c =.) (rev l).
Definition suffix_split (s : string) : option (string * string) :=
  match LastIndex "." (to_l s) with
  | Some (S i) => Some (of_l (take (S i) (to_l s)), of_l (drop (S (S i)) (to_l s)))
  | _ => None
  end.

Definition decode_feed (s algo : string) : result FeedRef :=
  match DecodeString StdEncoding s with
  | Some data => NewFeedRef data algo
  | None => Err ErrInvalidFeedRef
  end.
Definition ParseFeedRef (s : string) : result FeedRef :=
  match after_sigil SigilFeed s with
  | None => Err ErrInvalidFeedRef
  | Some s =>
      match suffix_split s with
      | None => decode_feed s RefAlgoFeedSSB1
      | Some (s, algoStr) =>
          if bool_decide (algoStr ∈ feed_algos) then decode_feed s algoStr else Err ErrInvalidFeedRef
      end
  end.
Definition ParseFeedRefB64 (s : string) : result FeedRef := decode_feed s RefAlgoFeedSSB1.

Definition decode_message (s algo : string) : result MessageRef :=
  match DecodeString StdEncoding s with
  | Some data => NewMessageRef data algo
  | None => Err ErrInvalidMessageRef
  end.
Definition ParseMessageRef (s : string) : result MessageRef :=
  match after_sigil SigilMessage s with
  | None => Err ErrInvalidMessageRef
  | Some s =>
      match suffix_split s with
      | None => decode_message s RefAlgoMessageSSB1
      | Some (s, algoStr) =>
          if bool_decide (algoStr ∈ message_algos) then decode_message s algoStr
          else Err ErrInvalidMessageRef
      end
  end.

Definition decode_blob (s : string) : result BlobRef :=
  match DecodeString StdEncoding s with
  | Some data => NewBlobRef data
  | None =>
      match DecodeString RawStdEncoding s with
      | Some data => NewBlobRef data
      | None => Err ErrInvalidBlobRef
      end
  end.
Definition ParseBlobRef (s : string) : result BlobRef :=
  match after_sigil SigilBlob s with
  | None => Err ErrInvalidBlobRef
  | Some s => decode_blob (match suffix_split s with Some (s, _) => s | None => s end)
  end.

(** ** Printed references *)

(** A suffix that survives printing: no dot, and no white space at its end. *)
Definition plain_suffix (suffix : string) : bool :=
  lacks "." suffix && negb (starts_ws_rev (rev (to_l (String "." suffix)))).


Lemma LastIndex_app c l k : c ∉ k → LastIndex c (l ++ c :: k) = Some (length l).
Proof.
  intros Hk. unfold LastIndex. change (c :: k) with ([c] ++ k).
  rewrite !rev_app_distr, <-app_assoc. rewrite list_find_app_r.
  - cbn [app rev list_find]. rewrite decide_True by done.
    simpl. f_equal. rewrite !length_app, length_rev. simpl. lia.
  - apply list_find_None. rewrite list.Forall_forall. intros d Hd <-. apply Hk.
    apply list_elem_of_In, in_rev, list_elem_of_In. exact Hd.
Qed.

Lemma suffix_split_app p suffix : p ≠ "" → lacks "." suffix = true →
  suffix_split (p +:+ "." +:+ suffix) = Some (p, suffix).
Proof.
  intros Hp Hs. unfold suffix_split. rewrite to_l_app.
  change (to_l ("." +:+ suffix)) with ("."%char :: to_l suffix).
  rewrite LastIndex_app by by apply lacks_not_elem.
  destruct (length (to_l p)) as [|n] eqn:Hn; [by destruct p|]. rewrite <-Hn.
  replace (S (length (to_l p))) with (length (to_l p) + 1) by lia.
  rewrite take_app_length, drop_app_add. cbn [drop]. rewrite drop_0, !of_to_l. reflexivity.
Qed.

Lemma encode_nonempty id : id ≠ [] → EncodeToString StdEncoding id ≠ "".
Proof.
  unfold EncodeToString. destruct id as [|x [|y [|z id]]]; [done| | |];
    intros _; cbn [encode padded StdEncoding app String.string_of_list_ascii]; discriminate.
Qed.

(** The bytes of a multi-byte space are not ASCII. *)
Lemma ws2_false a b : (ord a < 128 ∨ ord b < 128)%Z → ws2 a b = false.
Proof. intros H. unfold ws2. apply bool_decide_eq_false_2. lia. Qed.
Lemma ws3_false a b c : (ord a < 128 ∨ ord b < 128 ∨ ord c < 128)%Z → ws3 a b c = false.
Proof. intros H. unfold ws3. apply bool_decide_eq_false_2. lia. Qed.

Lemma starts_ws_plain c l : plain c = true → starts_ws (c :: l) = false.
Proof.
  unfold plain. rewrite !andb_true_iff, !negb_true_iff. intros [[_ H1] H2%bool_decide_eq_true].
  cbn [starts_ws]. rewrite H1. destruct l as [|b [|d l]]; cbn; [done|..].
  - by rewrite ws2_false by lia.
  - by rewrite ws2_false, ws3_false by lia.
Qed.

(** What precedes a dot cannot make the end of a string white space. *)
Lemma starts_ws_rev_dot k l :
  starts_ws_rev (k ++ ["."%char]) = false → starts_ws_rev (k ++ "."%char :: l) = false.
Proof.
  assert (ord "." < 128)%Z by done.
  destruct k as [|x [|y [|z k]]]; cbn [app starts_ws_rev]; [|..|done].
  - intros _. destruct l as [|a [|b l]]; [done|..]; by rewrite ws2_false, ?ws3_false by lia.
  - intros [-> _]%orb_false_iff. rewrite ws2_false by lia.
    destruct l as [|b l]; [done|]. by rewrite ws3_false by lia.
  - done.
Qed.

(** A printed reference has no white space at its ends and survives
    [after_sigil]. *)
Lemma trim_print sigil id suffix : plain sigil = true → plain_suffix suffix = true →
  TrimSpace (print_ref sigil id suffix) = print_ref sigil id suffix.
Proof.
  intros Hsig [Hl Hw]%andb_true_iff. apply negb_true_iff in Hw. unfold print_ref. apply TrimSpace_id.
  - by apply starts_ws_plain.
  - cbn [String.list_ascii_of_string rev]. rewrite to_l_app.
    change (to_l ("." +:+ suffix)) with ("."%char :: to_l suffix).
    change (rev (to_l (String "." suffix))) with (rev (to_l suffix) ++ ["."%char]) in Hw.
    rewrite rev_app_distr. cbn [rev]. rewrite <-!app_assoc. by apply starts_ws_rev_dot.
Qed.
Lemma after_sigil_print sigil id suffix :
  plain sigil = true → id ≠ [] → plain_suffix suffix = true →
  after_sigil sigil (print_ref sigil id suffix) = Some (EncodeToString StdEncoding id +:+ "." +:+ suffix).
Proof.
  intros Hsig Hid Hs. unfold after_sigil. rewrite trim_print by done. unfold print_ref.
  pose proof (encode_nonempty id Hid). destruct (EncodeToString StdEncoding id) as [|c e] eqn:E; [done|].
  rewrite string_app_cons. by rewrite bool_decide_eq_true_2.
Qed.

Lemma split_print id suffix : id ≠ [] → plain_suffix suffix = true →
  suffix_split (EncodeToString StdEncoding id +:+ "." +:+ suffix) =
  Some (EncodeToString StdEncoding id, suffix).
Proof.
  intros Hid [Hl _]%andb_true_iff. apply suffix_split_app; [by apply encode_nonempty|done].
Qed.
Lemma id_nonempty (id : bytes) : length id = 32 → id ≠ [].
Proof. by destruct id. Qed.

(** ** Round trips *)
Lemma decode_feed_algo s algo f : decode_feed s algo = Ok f → f_algo f = algo.
Proof. unfold decode_feed, NewFeedRef. intros H. by repeat (case_match; simplify_eq/=). Qed.
Lemma decode_message_algo s algo m : decode_message s algo = Ok m → m_algo m = algo.
Proof. unfold decode_message, NewMessageRef. intros H. by repeat (case_match; simplify_eq/=). Qed.

(** A feed reference printed with [String] parses back to itself exactly when
    its algorithm is one of the five the parser knows: [NewFeedRef] accepts any
    algorithm name, [ParseFeedRef] does not. *)
Theorem feed_ref_roundtrip (f : FeedRef) :
  length (f_id f) = 32 → (ParseFeedRef (feed_string f) = Ok f ↔ f_algo f ∈ feed_algos).
Proof.
  intros Hlen. split.
  - unfold ParseFeedRef. destruct (after_sigil _ _); [|done].
    destruct (suffix_split _) as [[? algo]|]; [case_bool_decide; [|done]|];
      intros ->%decode_feed_algo; [done|left].
  - intros Ha. pose proof (id_nonempty _ Hlen).
    assert (plain_suffix (f_algo f) = true) as Hs.
    { revert Ha. generalize (f_algo f). apply list.Forall_forall. by repeat constructor. }
    unfold ParseFeedRef, feed_string. rewrite after_sigil_print by done.
    rewrite split_print by done. rewrite bool_decide_eq_true_2 by done. unfold decode_feed.
    rewrite decode_string_encode by apply _. unfold NewFeedRef.
    rewrite bool_decide_eq_false_2 by (intros H'; by apply H'). by destruct f.
Qed.

(** Message references round trip under the same condition. *)
Theorem message_ref_roundtrip (m : MessageRef) :
  length (m_hash m) = 32 → (ParseMessageRef (message_string m) = Ok m ↔ m_algo m ∈ message_algos).
Proof.
  intros Hlen. split.
  - unfold ParseMessageRef. destruct (after_sigil _ _); [|done].
    destruct (suffix_split _) as [[? algo]|]; [case_bool_decide; [|done]|];
      intros ->%decode_message_algo; [done|left].
  - intros Ha. pose proof (id_nonempty _ Hlen).
    assert (plain_suffix (m_algo m) = true) as Hs.
    { revert Ha. generalize (m_algo m). apply list.Forall_forall. by repeat constructor. }
    unfold ParseMessageRef, message_string. rewrite after_sigil_print by done.
    rewrite split_print by done. rewrite bool_decide_eq_true_2 by done. unfold decode_message.
    rewrite decode_string_encode by apply _. unfold NewMessageRef.
    rewrite bool_decide_eq_false_2 by (intros H'; by apply H'). by destruct m.
Qed.

(** [ParseBlobRef] reads the hash of a printed blob reference whatever its
    algorithm suffix says: a reference with an unknown or empty algorithm is
    taken for a sha256 blob. *)
Theorem blob_ref_any_suffix (b : BlobRef) (suffix : string) :
  length (b_hash b) = 32 → plain_suffix suffix = true →
  ParseBlobRef (print_ref SigilBlob (b_hash b) suffix) = Ok b.
Proof.
  intros Hlen Hs. pose proof (id_nonempty _ Hlen). unfold ParseBlobRef.
  rewrite after_sigil_print, split_print by done. unfold decode_blob.
  rewrite decode_string_encode by apply _. unfold NewBlobRef.
  rewrite bool_decide_eq_false_2 by (intros H'; by apply H'). by destruct b.
Qed.
