(* ===== verification/Bfe.v ===== *)
(** * Binary field encodings (internal/ssb/bfe/bfe.go)

    The two byte type and format prefix of feeds, messages, blobs, signatures and
    generic values in metafeed messages. *)
From S2P Require Import Prelude GoStr GoBytes.
#[local] Open Scope string_scope.
#[local] Open Scope list_scope.

Definition ErrInvalidBFE : string := "bfe: invalid BFE encoding".
Definition ErrInvalidFormat : string := "bfe: unknown format".

Definition TypeFeed : Z := 0.
Definition TypeMessage : Z := 1.
Definition TypeBlob : Z := 2.
Definition TypeSignature : Z := 4.
Definition TypeGeneric : Z := 6.

Definition FeedFormatCodes : gmap string Z := list_to_map
  [("ed25519", 0%Z); ("gabbygrove-v1", 1%Z); ("bamboo", 2%Z); ("bendybutt-v1", 3%Z);
   ("buttwoo-v1", 4%Z); ("indexed-v1", 5%Z)].
Definition FeedFormatCodesReverse : gmap Z string := list_to_map
  [(0%Z, "ed25519"); (1%Z, "gabbygrove-v1"); (2%Z, "bamboo"); (3%Z, "bendybutt-v1");
   (4%Z, "buttwoo-v1"); (5%Z, "indexed-v1")].
Definition MessageFormatCodes : gmap string Z := list_to_map
  [("sha256", 0%Z); ("gabbygrove-v1", 1%Z); ("cloaked", 2%Z); ("bamboo", 3%Z);
   ("bendybutt-v1", 4%Z); ("buttwoo-v1", 5%Z); ("indexed-v1", 6%Z)].
Definition MessageFormatCodesReverse : gmap Z string := list_to_map
  [(0%Z, "sha256"); (1%Z, "gabbygrove-v1"); (2%Z, "cloaked"); (3%Z, "bamboo");
   (4%Z, "bendybutt-v1"); (5%Z, "buttwoo-v1"); (6%Z, "indexed-v1")].
Definition GenericFormatCodes : gmap string Z := list_to_map
  [("string-UTF8", 0%Z); ("boolean", 1%Z); ("nil", 2%Z); ("any-bytes", 3%Z)].

(** Reading a missing key of a Go map gives the zero value. *)
Definition code_of (codes : gmap string Z) (name : string) : Z := default 0%Z (codes !! name).
(** [b[i]]; the callers have checked the length. *)
Definition byte_at (b : bytes) (i : nat) : Z := default 0%Z (ord <$> b !! i).

Definition EncodeFeed (algo : string) (pubKey : bytes) : bytes :=
  let formatCode := code_of FeedFormatCodes algo in
  let formatCode := if bool_decide (formatCode = 0%Z) && negb (bool_decide (algo = "ed25519"))
                    then 0%Z else formatCode in
  [chr TypeFeed; chr formatCode] ++ pubKey.
Definition DecodeFeed (b : bytes) : result (string * bytes) :=
  if bool_decide (length b < 34) then Err ErrInvalidBFE
  else if negb (bool_decide (byte_at b 0 = TypeFeed)) then Err ErrInvalidBFE
  else match FeedFormatCodesReverse !! byte_at b 1 with
       | None => Err ErrInvalidFormat
       | Some algo => Ok (algo, take 32 (drop 2 b))
       end.

Definition EncodeMessage (algo : string) (hash : bytes) : bytes :=
  let formatCode := code_of MessageFormatCodes algo in
  let formatCode := if bool_decide (formatCode = 0%Z) && negb (bool_decide (algo = "sha256"))
                    then 0%Z else formatCode in
  [chr TypeMessage; chr formatCode] ++ hash.
Definition DecodeMessage (b : bytes) : result (string * bytes) :=
  if bool_decide (length b < 34) then Err ErrInvalidBFE
  else if negb (bool_decide (byte_at b 0 = TypeMessage)) then Err ErrInvalidBFE
  else match MessageFormatCodesReverse !! byte_at b 1 with
       | None => Err ErrInvalidFormat
       | Some algo => Ok (algo, take 32 (drop 2 b))
       end.

Definition EncodeBlob (hash : bytes) : bytes := [chr TypeBlob; chr 0] ++ hash.
Definition DecodeBlob (b : bytes) : result bytes :=
  if bool_decide (length b < 34) then Err ErrInvalidBFE
  else if negb (bool_decide (byte_at b 0 = TypeBlob)) then Err ErrInvalidBFE
  else if negb (bool_decide (byte_at b 1 = 0%Z)) then Err ErrInvalidFormat
  else Ok (take 32 (drop 2 b)).

Definition EncodeSignature (sig : bytes) : bytes := [chr TypeSignature; chr 0] ++ sig.
Definition DecodeSignature (b : bytes) : result bytes :=
  if bool_decide (length b < 66) then Err ErrInvalidBFE
  else if negb (bool_decide (byte_at b 0 = TypeSignature)) then Err ErrInvalidBFE
  else if negb (bool_decide (byte_at b 1 = 0%Z)) then Err ErrInvalidFormat
  else Ok (take 64 (drop 2 b)).

Definition EncodeNil : bytes := [chr TypeGeneric; chr 2].
Definition EncodeString (s : bytes) : bytes :=
  [chr TypeGeneric; chr (code_of GenericFormatCodes "string-UTF8")] ++ s.
Definition DecodeString (b : bytes) : result bytes :=
  if bool_decide (length b < 2) then Err ErrInvalidBFE
  else if negb (bool_decide (byte_at b 0 = TypeGeneric))
          || negb (bool_decide (byte_at b 1 = code_of GenericFormatCodes "string-UTF8"))
  then Err ErrInvalidFormat
  else Ok (drop 2 b).

(** ** Round trips *)
(** The tables of codes are inverse to each other. *)
Definition inverse_tables (codes : gmap string Z) (names : gmap Z string) : Prop :=
  map_Forall (λ name code, names !! code = Some name ∧ (0 <= code < 256)%Z) codes.
Lemma feed_tables : inverse_tables FeedFormatCodes FeedFormatCodesReverse.
Proof. apply (bool_decide_unpack _). by vm_compute. Qed.
Lemma message_tables : inverse_tables MessageFormatCodes MessageFormatCodesReverse.
Proof. apply (bool_decide_unpack _). by vm_compute. Qed.

Lemma code_name codes names algo : inverse_tables codes names → is_Some (codes !! algo) →
  names !! (code_of codes algo) = Some algo ∧ (0 <= code_of codes algo < 256)%Z.
Proof. intros H [c Hc]. unfold code_of. rewrite Hc. exact (H algo c Hc). Qed.

Lemma byte_at_1 a c (l : bytes) : (0 <= c < 256)%Z → byte_at ([chr a; chr c] ++ l) 1 = c.
Proof. intros Hc. unfold byte_at. cbn. by apply ord_chr. Qed.
Lemma code_unchanged (z : Z) (c : bool) : (if bool_decide (z = 0%Z) && c then 0%Z else z) = z.
Proof. case_bool_decide; by destruct c. Qed.

(** What [EncodeFeed] writes, read back: the key is kept, and the algorithm when
    it has a code. *)
Lemma decode_encode_feed algo pubKey : length pubKey = 32 →
  DecodeFeed (EncodeFeed algo pubKey) =
  Ok (if bool_decide (is_Some (FeedFormatCodes !! algo)) then algo else "ed25519", pubKey).
Proof.
  intros Hl. unfold DecodeFeed, EncodeFeed.
  rewrite code_unchanged.
  rewrite length_app, Hl. cbn [length Nat.add]. rewrite bool_decide_eq_false_2 by lia.
  rewrite bool_decide_eq_true_2 by done. cbn [negb].
  case_bool_decide as Hs.
  - destruct (code_name _ _ algo feed_tables Hs) as [Hn Hb]. rewrite byte_at_1 by done. rewrite Hn.
    cbn [app drop]. by rewrite drop_0, firstn_all2 by lia.
  - unfold code_of. destruct (FeedFormatCodes !! algo) eqn:E; [by destruct Hs|].
    rewrite byte_at_1 by (cbn; lia). cbn [default]. cbn [app drop].
    rewrite drop_0, firstn_all2 by lia. reflexivity.
Qed.

(** A feed encoding decodes to the same algorithm and key exactly when the
    algorithm has a format code; the encoder writes any other algorithm as
    ed25519 instead of failing. *)
Theorem feed_bfe_roundtrip (algo : string) (pubKey : bytes) :
  length pubKey = 32 →
  (DecodeFeed (EncodeFeed algo pubKey) = Ok (algo, pubKey) ↔ is_Some (FeedFormatCodes !! algo)) ∧
  (FeedFormatCodes !! algo = None → DecodeFeed (EncodeFeed algo pubKey) = Ok ("ed25519", pubKey)).
Proof.
  intros Hl. rewrite decode_encode_feed by done. split.
  - case_bool_decide as Hs; [done|]. split; [|done]. intros [= <-]. by eexists.
  - intros E. rewrite bool_decide_eq_false_2; [done|]. rewrite E. by intros [? ?].
Qed.

Lemma decode_encode_message algo hash : length hash = 32 →
  DecodeMessage (EncodeMessage algo hash) =
  Ok (if bool_decide (is_Some (MessageFormatCodes !! algo)) then algo else "sha256", hash).
Proof.
  intros Hl. unfold DecodeMessage, EncodeMessage.
  rewrite code_unchanged.
  rewrite length_app, Hl. cbn [length Nat.add]. rewrite bool_decide_eq_false_2 by lia.
  rewrite bool_decide_eq_true_2 by done. cbn [negb].
  case_bool_decide as Hs.
  - destruct (code_name _ _ algo message_tables Hs) as [Hn Hb]. rewrite byte_at_1 by done. rewrite Hn.
    cbn [app drop]. by rewrite drop_0, firstn_all2 by lia.
  - unfold code_of. destruct (MessageFormatCodes !! algo) eqn:E; [by destruct Hs|].
    rewrite byte_at_1 by (cbn; lia). cbn [default]. cbn [app drop].
    rewrite drop_0, firstn_all2 by lia. reflexivity.
Qed.

(** The other encodings are injective as the decoders read them: messages
    with a known algorithm, blobs and signatures of their fixed sizes, and
    strings of any length. *)
Theorem bfe_roundtrips (algo : string) (hash sig s : bytes) :
  length hash = 32 → length sig = 64 → is_Some (MessageFormatCodes !! algo) →
  DecodeMessage (EncodeMessage algo hash) = Ok (algo, hash) ∧
  DecodeBlob (EncodeBlob hash) = Ok hash ∧
  DecodeSignature (EncodeSignature sig) = Ok sig ∧
  DecodeString (EncodeString s) = Ok s.
Proof.
  intros Hh Hs Ha. split_and!.
  - rewrite decode_encode_message by done. by rewrite bool_decide_eq_true_2.
  - unfold DecodeBlob, EncodeBlob. rewrite length_app, Hh. cbn -[take].
    by rewrite drop_0, firstn_all2 by lia.
  - unfold DecodeSignature, EncodeSignature. rewrite length_app, Hs. cbn -[take].
    by rewrite drop_0, firstn_all2 by lia.
  - unfold DecodeString, EncodeString. by destruct s.
Qed.
