(* ===== verification/Mapper.v ===== *)
(** * Record mapping ([internal/mapper/mapper.go])

    The translation of one AT Protocol record into an SSB message map, the
    resolution of its [_atproto_*] placeholders, and the two checks made before
    publishing. The JSON decoding of a record into its Go struct (package
    [encoding/json] over [pkg/atproto/appbsky]) is a parameter. *)
From stdpp Require Import sorting.
From S2P Require Import Prelude GoStr.
#[local] Open Scope string_scope.
#[local] Open Scope list_scope.
#[local] Open Scope nat_scope.

(** ** Dynamic values

    The dynamic types a [map[string]interface{}] of the mapper can hold. *)
Inductive value : Type :=
| VNil
| VBool (b : bool)
| VInt (z : Z)
| VStr (s : string)
| VStrs (l : list string)                (* []string *)
| VMap (m : gmap string value)           (* map[string]interface{} *)
| VMaps (l : list (gmap string value))   (* []map[string]interface{} *)
| VList (l : list value).                (* []interface{} *)

Abbreviation msg := (gmap string value).

(** [fmt.Sprint] of a dynamic value; Go prints the keys of a map in order. *)
Definition str_leb (a b : string) : bool :=
  match String.compare a b with Gt => false | _ => true end.
Fixpoint insert_entry (k v : string) (l : list (string * string)) : list (string * string) :=
  match l with
  | [] => [(k, v)]
  | (k', v') :: l' => if str_leb k k' then (k, v) :: l else (k', v') :: insert_entry k v l'
  end.
Definition sprint_entries (l : list (string * string)) : string :=
  "map[" +:+ Join ((λ '(k, v), k +:+ ":" +:+ v) <$> l) " " +:+ "]".
Fixpoint Sprint (v : value) : string :=
  match v with
  | VNil => "<nil>"
  | VBool b => if b then "true" else "false"
  | VInt z => itoa z
  | VStr s => s
  | VStrs l => "[" +:+ Join l " " +:+ "]"
  | VMap m => sprint_entries (map_fold (λ k v acc, insert_entry k (Sprint v) acc) [] m)
  | VMaps l => "[" +:+ Join (map (λ m, sprint_entries
      (map_fold (λ k v acc, insert_entry k (Sprint v) acc) [] m)) l) " " +:+ "]"
  | VList l => "[" +:+ Join (map Sprint l) " " +:+ "]"
  end.

(** [v, ok := m[k].(string)] and [v, ok := m[k].(map[string]interface{})]. *)
Definition str_at (m : msg) (k : string) : option string :=
  match m !! k with Some (VStr s) => Some s | _ => None end.
Definition map_at (m : msg) (k : string) : option msg :=
  match m !! k with Some (VMap x) => Some x | _ => None end.
(** [m[k]], nil when absent. *)
Definition get (m : msg) (k : string) : value := default VNil (m !! k).

Definition asString (raw : value) : string :=
  match raw with VNil => "" | v => Sprint v end.

(** ** The record structs the mapper reads *)
Record RepoStrongRef := { Uri : string }.
Record RichtextFacet_Features_Elem := {
  RichtextFacet_Link : option string;      (* .Uri *)
  RichtextFacet_Mention : option string;   (* .Did *)
  RichtextFacet_Tag : option string        (* .Tag *)
}.
Record RichtextFacet := {
  Index_ : option (Z * Z);                 (* ByteStart, ByteEnd *)
  Features : list (option RichtextFacet_Features_Elem)
}.
Record FeedPost_ReplyRef := { Root : option RepoStrongRef; Parent : option RepoStrongRef }.
Record EmbedRecord := { Record_ : option RepoStrongRef }.
Record EmbedRecordWithMedia := { MediaRecord : option EmbedRecord }.
Record FeedPost_Embed := {
  EmbedRecord_ : option EmbedRecord;
  EmbedRecordWithMedia_ : option EmbedRecordWithMedia
}.
Record FeedPost := {
  Text : string;
  Facets : list (option RichtextFacet);
  Tags : list string;
  Reply : option FeedPost_ReplyRef;
  Embed : option FeedPost_Embed
}.
Record ActorProfile := { DisplayName : option string; Description : option string }.
Record listRecord := { list_Name : string; list_Purpose : string; list_Description : string }.
Record listItemRecord := { item_List : string; item_Subject : string }.
Record threadgateRecord := { gate_Post : string; gate_Allow : list value }.

(** ** Mentions *)
Definition appendUniqueMention (mentions : list msg) (seen : gset string) (mention : msg)
    : list msg * gset string :=
  let link := TrimSpace (asString (get mention "link")) in
  if bool_decide (link = "") then (mentions, seen)
  else
    let key := link +:+ "|" +:+ TrimSpace (asString (get mention "name")) in
    if bool_decide (key ∈ seen) then (mentions, seen)
    else (mentions ++ [mention], {[key]} ∪ seen).

Definition mk_mention (link name : string) : msg :=
  {[ "link" := VStr link; "name" := VStr name ]}.

Definition appendFacetFeature (segment : string) (st : list msg * gset string)
    (feature : option RichtextFacet_Features_Elem) : list msg * gset string :=
  let '(mentions, seen) := st in
  match feature with
  | None => st
  | Some f =>
      match RichtextFacet_Mention f, RichtextFacet_Tag f with
      | Some did, _ => appendUniqueMention mentions seen (mk_mention did segment)
      | None, Some t =>
          let tag := TrimSpace (TrimPrefix t "#") in
          if bool_decide (tag = "") then st
          else
            let name := if blank segment then "#" +:+ tag else segment in
            appendUniqueMention mentions seen (mk_mention ("#" +:+ tag) name)
      | None, None => st
      end
  end.

Definition appendFacetMentions (mentions : list msg) (seen : gset string)
    (segment : string) (facet : RichtextFacet) : list msg * gset string :=
  foldl (appendFacetFeature segment) (mentions, seen) (Features facet).

Fixpoint rewrite_features (segment : string)
    (fs : list (option RichtextFacet_Features_Elem)) : string :=
  match fs with
  | [] => segment
  | f :: fs' =>
      match (f ≫= RichtextFacet_Link : option string) with
      | None => rewrite_features segment fs'
      | Some u =>
          let uri := TrimSpace u in
          if bool_decide (uri = "") || bool_decide (TrimSpace segment = uri) then segment
          else "[" +:+ segment +:+ "](" +:+ uri +:+ ")"
      end
  end.
Definition rewriteFacetSegment (segment : string) (facet : RichtextFacet) : string :=
  rewrite_features segment (Features facet).

(** ** Rich text *)
Record textFacet := { start : Z; end_ : Z; facet : RichtextFacet }.

Definition textFacet_le (a b : textFacet) : Prop :=
  (start a < start b ∨ (start a = start b ∧ end_ a ≤ end_ b))%Z.
#[global] Instance textFacet_le_dec a b : Decision (textFacet_le a b).
Proof. unfold textFacet_le. apply _. Defined.

Definition ranged_facets (facets : list (option RichtextFacet)) : list textFacet :=
  omap (λ f, facet0 ← f; '(s, e) ← Index_ facet0;
             Some {| start := s; end_ := e; facet := facet0 |}) facets.

(** [textBytes[i:j]]. *)
Definition bytes_range (text : list ascii) (i j : Z) : list ascii :=
  take (Z.to_nat j - Z.to_nat i) (drop (Z.to_nat i) text).

Record rich_state := {
  rs_builder : list ascii; rs_mentions : list msg; rs_seen : gset string; rs_prev : Z
}.
Definition rich_step (textBytes : list ascii) (st : rich_state) (current : textFacet)
    : rich_state :=
  if bool_decide (start current < rs_prev st)%Z || bool_decide (start current < 0)%Z
     || bool_decide (end_ current < start current)%Z
     || bool_decide (Z.of_nat (length textBytes) < end_ current)%Z
  then st
  else
    let segment := of_l (bytes_range textBytes (start current) (end_ current)) in
    let '(mentions, seen) :=
      appendFacetMentions (rs_mentions st) (rs_seen st) segment (facet current) in
    {| rs_builder := rs_builder st
         ++ bytes_range textBytes (rs_prev st) (start current)
         ++ to_l (rewriteFacetSegment segment (facet current));
       rs_mentions := mentions; rs_seen := seen; rs_prev := end_ current |}.

Definition appendTag (st : list msg * gset string) (t : string) : list msg * gset string :=
  let '(mentions, seen) := st in
  let tag := TrimSpace (TrimPrefix t "#") in
  if bool_decide (tag = "") then st
  else appendUniqueMention mentions seen (mk_mention ("#" +:+ tag) ("#" +:+ tag)).

Definition rewriteRichText (text : string) (facets : list (option RichtextFacet))
    (tags : list string) : string * list msg :=
  let textBytes := to_l text in
  let ranged := merge_sort textFacet_le (ranged_facets facets) in
  let st := foldl (rich_step textBytes)
    {| rs_builder := []; rs_mentions := []; rs_seen := ∅; rs_prev := 0 |} ranged in
  let builder := rs_builder st
    ++ bytes_range textBytes (rs_prev st) (Z.of_nat (length textBytes)) in
  let '(mentions, _) := foldl appendTag (rs_mentions st, rs_seen st) tags in
  (of_l builder, mentions).

Definition quoteSubjectURI (embed : option FeedPost_Embed) : string :=
  match embed with
  | None => ""
  | Some e =>
      match (r ← EmbedRecord_ e; Record_ r) with
      | Some r => TrimSpace (Uri r)
      | None =>
          match (w ← EmbedRecordWithMedia_ e; r ← MediaRecord w; Record_ r) with
          | Some r => TrimSpace (Uri r)
          | None => ""
          end
      end
  end.

(** ** Mapping a record *)
Definition RecordTypePost := "app.bsky.feed.post".
Definition RecordTypeLike := "app.bsky.feed.like".
Definition RecordTypeRepost := "app.bsky.feed.repost".
Definition RecordTypeFollow := "app.bsky.graph.follow".
Definition RecordTypeBlock := "app.bsky.graph.block".
Definition RecordTypeProfile := "app.bsky.actor.profile".
Definition RecordTypeList := "app.bsky.graph.list".
Definition RecordTypeListItem := "app.bsky.graph.listitem".
Definition RecordTypeThreadgate := "app.bsky.feed.threadgate".

(** [json.Unmarshal] of a record body into the struct of its collection. A
    like or a repost may lack its [subject]: the pointer is then nil. *)
Class RecordDecoder := {
  decodePost : string → result FeedPost;
  decodeSubject : string → result (option RepoStrongRef);  (* like, repost *)
  decodeGraphSubject : string → result string;             (* follow, block *)
  decodeProfile : string → result ActorProfile;
  decodeList : string → result listRecord;
  decodeListItem : string → result listItemRecord;
  decodeThreadgate : string → result threadgateRecord
}.

Section MapRecord.
Context `{RecordDecoder}.

Definition opt_insert (k : string) (v : option value) (m : msg) : msg :=
  match v with Some x => <[k := x]> m | None => m end.

Definition mapPost (rawJSON : string) : result msg :=
  post ← decodePost rawJSON;
  let '(text, mentions) := rewriteRichText (Text post) (Facets post) (Tags post) in
  let res : msg := {[ "type" := VStr "post"; "text" := VStr text ]} in
  let res := opt_insert "mentions"
    (match mentions with [] => None | _ => Some (VMaps mentions) end) res in
  let res := opt_insert "_atproto_reply_root"
    (r ← Reply post; u ← Root r; Some (VStr (Uri u))) res in
  let res := opt_insert "_atproto_reply_parent"
    (r ← Reply post; u ← Parent r; Some (VStr (Uri u))) res in
  let quoteURI := quoteSubjectURI (Embed post) in
  Ok (opt_insert "_atproto_quote_subject"
    (if bool_decide (quoteURI = "") then None else Some (VStr quoteURI)) res).

(** [like.Subject.Uri] dereferences the pointer without a nil check. *)
Definition mapLike (rawJSON : string) : result msg :=
  like ← decodeSubject rawJSON;
  match like with
  | None => Panic
  | Some subject =>
      Ok {[ "type" := VStr "vote";
            "vote" := VMap {[ "value" := VInt 1; "expression" := VStr "Like" ]};
            "_atproto_subject" := VStr (Uri subject) ]}
  end.

Definition mapRepost (rawJSON : string) : result msg :=
  repost ← decodeSubject rawJSON;
  match repost with
  | None => Panic
  | Some subject =>
      Ok {[ "type" := VStr "repost"; "_atproto_repost_subject" := VStr (Uri subject) ]}
  end.

Definition mapFollow (rawJSON : string) : result msg :=
  subject ← decodeGraphSubject rawJSON;
  Ok {[ "type" := VStr "contact"; "following" := VBool true; "blocking" := VBool false;
        "_atproto_contact" := VStr subject ]}.

Definition mapBlock (rawJSON : string) : result msg :=
  subject ← decodeGraphSubject rawJSON;
  Ok {[ "type" := VStr "contact"; "following" := VBool false; "blocking" := VBool true;
        "_atproto_contact" := VStr subject ]}.

Definition mapProfile (atDID rawJSON : string) : result msg :=
  profile ← decodeProfile rawJSON;
  let res : msg := {[ "type" := VStr "about"; "_atproto_about_did" := VStr atDID ]} in
  let res := opt_insert "name" (VStr <$> DisplayName profile) res in
  Ok (opt_insert "description" (VStr <$> Description profile) res).

Definition mapList (rawJSON : string) : result msg :=
  list ← decodeList rawJSON;
  Ok {[ "type" := VStr "list"; "name" := VStr (list_Name list);
        "purpose" := VStr (list_Purpose list);
        "description" := VStr (list_Description list) ]}.

Definition mapListItem (rawJSON : string) : result msg :=
  item ← decodeListItem rawJSON;
  Ok {[ "type" := VStr "listitem"; "_atproto_list" := VStr (item_List item);
        "_atproto_contact" := VStr (item_Subject item) ]}.

Definition mapThreadgate (rawJSON : string) : result msg :=
  gate ← decodeThreadgate rawJSON;
  Ok {[ "type" := VStr "threadgate"; "_atproto_subject" := VStr (gate_Post gate);
        "allow" := VList (gate_Allow gate) ]}.

Definition MapRecord (recordType atDID rawJSON : string) : result msg :=
  if bool_decide (recordType = RecordTypePost) then mapPost rawJSON
  else if bool_decide (recordType = RecordTypeLike) then mapLike rawJSON
  else if bool_decide (recordType = RecordTypeRepost) then mapRepost rawJSON
  else if bool_decide (recordType = RecordTypeFollow) then mapFollow rawJSON
  else if bool_decide (recordType = RecordTypeBlock) then mapBlock rawJSON
  else if bool_decide (recordType = RecordTypeProfile) then mapProfile atDID rawJSON
  else if bool_decide (recordType = RecordTypeList) then mapList rawJSON
  else if bool_decide (recordType = RecordTypeListItem) then mapListItem rawJSON
  else if bool_decide (recordType = RecordTypeThreadgate) then mapThreadgate rawJSON
  else Err ("unsupported record type: " +:+ recordType).
End MapRecord.

(** ** Resolving the placeholders *)
Definition normalizedMentions (raw : value) : list msg :=
  match raw with
  | VMaps l => l
  | VList l => omap (λ v, match v with VMap m => Some m | _ => None end) l
  | _ => []
  end.

Definition appendMarkdownBlock (text block : string) : string :=
  let text := TrimRight (Ascii.eqb newline) text in
  let block := TrimSpace block in
  if bool_decide (block = "") then text
  else if bool_decide (text = "") then block
  else text +:+ of_l [newline; newline] +:+ block.

(** [if uri, ok := msg[key].(string); ok { if ref := lookup(uri); ref != "" { f } }]. *)
Definition resolve_key (lookup : string → string) (key : string) (f : string → msg → msg)
    (m : msg) : msg :=
  match str_at m key with
  | Some uri => let ref := lookup uri in if bool_decide (ref = "") then m else f ref m
  | None => m
  end.

Definition resolve_to (field key : string) (ref : string) (m : msg) : msg :=
  delete key (<[field := VStr ref]> m).

Definition resolve_parent (ref : string) (m : msg) : msg :=
  let m := resolve_to "branch" "_atproto_reply_parent" ref m in
  match str_at m "root" with
  | Some ssbRoot =>
      if bool_decide (ssbRoot = "") then m
      else
        let tangles := default ∅ (map_at m "tangles") in
        <["tangles" := VMap (<["comment" := VMap {[ "root" := VStr ssbRoot;
                                                   "previous" := VStrs [ref] ]}]> tangles)]> m
  | None => m
  end.

Definition resolve_subject (ref : string) (m : msg) : msg :=
  let m := match map_at m "vote" with
           | Some v => <["vote" := VMap (<["link" := VStr ref]> v)]> m
           | None => m
           end in
  delete "_atproto_subject" m.

Definition resolve_quote (ref : string) (m : msg) : msg :=
  let '(mentions, _) := appendUniqueMention (normalizedMentions (get m "mentions")) ∅
    (mk_mention ref "quoted post") in
  let m := <["mentions" := VMaps mentions]> m in
  let m := <["text" := VStr (appendMarkdownBlock (asString (get m "text"))
    ("[quoted post](" +:+ ref +:+ ")"))]> m in
  delete "_atproto_quote_subject" m.

Definition resolve_mention (lookupDID : string → string) (mention : msg) : option msg :=
  let link := default "" (str_at mention "link") in
  if HasPrefix link "did:" then
    let ssbFeed := lookupDID link in
    if bool_decide (ssbFeed = "") then None else Some (<["link" := VStr ssbFeed]> mention)
  else Some mention.

Definition resolve_mentions (lookupDID : string → string) (m : msg) : msg :=
  match omap (resolve_mention lookupDID) (normalizedMentions (get m "mentions")) with
  | [] => delete "mentions" m
  | resolved => <["mentions" := VMaps resolved]> m
  end.

Definition ReplaceATProtoRefs (m : msg) (lookupURI lookupDID : string → string) : msg :=
  let m := resolve_key lookupURI "_atproto_reply_root"
             (resolve_to "root" "_atproto_reply_root") m in
  let m := resolve_key lookupURI "_atproto_list" (resolve_to "list" "_atproto_list") m in
  let m := resolve_key lookupURI "_atproto_reply_parent" resolve_parent m in
  let m := resolve_key lookupURI "_atproto_subject" resolve_subject m in
  let m := resolve_key lookupURI "_atproto_quote_subject" resolve_quote m in
  let m := resolve_key lookupDID "_atproto_contact"
             (resolve_to "contact" "_atproto_contact") m in
  let m := resolve_key lookupDID "_atproto_about_did"
             (resolve_to "about" "_atproto_about_did") m in
  let m := resolve_key lookupURI "_atproto_repost_subject"
             (resolve_to "repost" "_atproto_repost_subject") m in
  resolve_mentions lookupDID m.

(** ** The checks before publishing *)
Definition internal_key (k : string) : bool := HasPrefix k "_atproto_".

Definition SanitizeForPublish (m : msg) : msg :=
  filter (λ kv, internal_key kv.1 = false) m.

Definition ReadyForPublish (m : msg) : bool :=
  let msgType := default "" (str_at m "type") in
  if bool_decide (msgType = "contact") then
    negb (blank (default "" (str_at m "contact")))
  else if bool_decide (msgType = "vote") then
    match map_at m "vote" with
    | None => false
    | Some vote => negb (blank (default "" (str_at vote "link")))
    end
  else true.

Definition unresolved_keys : list string :=
  [ "_atproto_reply_root"; "_atproto_reply_parent"; "_atproto_subject";
    "_atproto_quote_subject"; "_atproto_contact"; "_atproto_list";
    "_atproto_about_did"; "_atproto_repost_subject" ].

Definition unresolved_entry (m : msg) (key : string) : option string :=
  raw ← m !! key;
  if blank (Sprint raw) then None else Some (key +:+ "=" +:+ Sprint raw).

Definition UnresolvedATProtoRefs (m : msg) : list string :=
  omap (unresolved_entry m) unresolved_keys.

(** ** What resolution leaves behind *)

(** A placeholder update: it removes its own placeholder and changes no other
    internal field. *)
Record framed (key : string) (f : string → msg → msg) : Prop := {
  framed_self r m : f r m !! key = None;
  framed_other r m k : internal_key k = true → k ≠ key → f r m !! k = m !! k
}.

Lemma lookup_field_ne (m : msg) field k v :
  internal_key field = false → internal_key k = true → <[field := v]> m !! k = m !! k.
Proof. intros ? ?. apply lookup_insert_ne. congruence. Qed.

Lemma framed_resolve_to field key :
  internal_key field = false → framed key (resolve_to field key).
Proof.
  intros Hf. unfold resolve_to. split; intros.
  - apply lookup_delete_eq.
  - by rewrite lookup_delete_ne, lookup_field_ne.
Qed.

Lemma framed_resolve_parent : framed "_atproto_reply_parent" resolve_parent.
Proof.
  destruct (framed_resolve_to "branch" "_atproto_reply_parent") as [Hs Ho]; [done|].
  unfold resolve_parent. split; intros; repeat case_match;
    rewrite ?lookup_field_ne by done; auto.
Qed.

Lemma framed_resolve_subject : framed "_atproto_subject" resolve_subject.
Proof.
  unfold resolve_subject. split; intros.
  - apply lookup_delete_eq.
  - rewrite lookup_delete_ne by done. case_match; [by rewrite lookup_field_ne|done].
Qed.

Lemma framed_resolve_quote : framed "_atproto_quote_subject" resolve_quote.
Proof.
  unfold resolve_quote. split; intros; destruct (appendUniqueMention _ _ _).
  - apply lookup_delete_eq.
  - by rewrite lookup_delete_ne, !lookup_field_ne.
Qed.

#[export] Hint Resolve framed_resolve_to framed_resolve_parent framed_resolve_subject
  framed_resolve_quote : go.

Lemma resolve_key_other lookup key f m k :
  framed key f → internal_key k = true → k ≠ key →
  resolve_key lookup key f m !! k = m !! k.
Proof.
  intros [_ Ho] ? ?. unfold resolve_key. destruct (str_at m key); [|done].
  case_bool_decide; [done|]. by rewrite Ho.
Qed.

Lemma resolve_key_self lookup key f m :
  framed key f →
  resolve_key lookup key f m !! key =
    match str_at m key with
    | Some u => if bool_decide (lookup u = "") then m !! key else None
    | None => m !! key
    end.
Proof.
  intros [Hs _]. unfold resolve_key. destruct (str_at m key); [|done].
  case_bool_decide; [done|]. by rewrite Hs.
Qed.

Lemma resolve_mentions_other lookupDID m k :
  internal_key k = true → resolve_mentions lookupDID m !! k = m !! k.
Proof.
  intros. unfold resolve_mentions. case_match.
  - apply lookup_delete_ne. by intros <-.
  - by rewrite lookup_field_ne.
Qed.

Definition did_key (k : string) : bool :=
  bool_decide (k = "_atproto_contact") || bool_decide (k = "_atproto_about_did").

Lemma unresolved_internal k : k ∈ unresolved_keys → internal_key k = true.
Proof. unfold unresolved_keys. rewrite !elem_of_cons, elem_of_nil. naive_solver. Qed.

Lemma resolve_key_self' lookup key f (m m0 : msg) :
  framed key f → m !! key = m0 !! key →
  resolve_key lookup key f m !! key =
    match str_at m0 key with
    | Some u => if bool_decide (lookup u = "") then m0 !! key else None
    | None => m0 !! key
    end.
Proof. intros Hf Hm. rewrite resolve_key_self by done. unfold str_at. by rewrite Hm. Qed.

Ltac peel_resolve :=
  repeat first
    [ rewrite resolve_mentions_other by done
    | rewrite resolve_key_other by (done || (eauto with go)) ].

(** Where a placeholder ends up, for each of the eight. *)
Lemma replace_lookup m lookupURI lookupDID k :
  k ∈ unresolved_keys →
  ReplaceATProtoRefs m lookupURI lookupDID !! k =
    match str_at m k with
    | Some u => if bool_decide ((if did_key k then lookupDID else lookupURI) u = "")
                then m !! k else None
    | None => m !! k
    end.
Proof.
  unfold unresolved_keys. rewrite !elem_of_cons, elem_of_nil.
  intros Hk. unfold ReplaceATProtoRefs.
  destruct_or? Hk; subst; try done; peel_resolve;
    (apply resolve_key_self'; [eauto with go|peel_resolve; done]).
Qed.

(** The placeholders of a mapped message are strings. *)
Definition placeholders_wf (m : msg) : Prop :=
  ∀ k v, k ∈ unresolved_keys → m !! k = Some v → ∃ s, v = VStr s.

Definition lookup_for (lookupURI lookupDID : string → string) (k : string) : string → string :=
  if did_key k then lookupDID else lookupURI.

(** The entry a placeholder leaves in the defer reason: none when it is absent,
    blank or resolved. *)
Definition left_unresolved (lookupURI lookupDID : string → string) (m : msg) (k : string)
    : option string :=
  s ← str_at m k;
  if blank s || negb (bool_decide (lookup_for lookupURI lookupDID k s = ""))
  then None else Some (k +:+ "=" +:+ s).

Lemma str_at_wf m k : placeholders_wf m → k ∈ unresolved_keys →
  (str_at m k = None ∧ m !! k = None) ∨ ∃ s, str_at m k = Some s ∧ m !! k = Some (VStr s).
Proof.
  intros Hwf Hk. unfold str_at. destruct (m !! k) as [v|] eqn:E; [|by left].
  destruct (Hwf k v Hk E) as [s ->]. right. eauto.
Qed.

Lemma omap_ext_in {A B} (f g : A → option B) (l : list A) :
  (∀ x, x ∈ l → f x = g x) → omap f l = omap g l.
Proof.
  induction l as [|x l IH]; intros Hfg; [done|]. cbn. rewrite Hfg by set_solver.
  case_match; [f_equal|]; apply IH; set_solver.
Qed.

Lemma unresolved_replace m lookupURI lookupDID :
  placeholders_wf m →
  UnresolvedATProtoRefs (ReplaceATProtoRefs m lookupURI lookupDID) =
    omap (left_unresolved lookupURI lookupDID m) unresolved_keys.
Proof.
  intros Hwf. apply omap_ext_in. intros k Hk.
  unfold unresolved_entry, left_unresolved, lookup_for. rewrite replace_lookup by done.
  destruct (str_at_wf m k Hwf Hk) as [[-> ->]|(s & -> & Hs)]; [done|]. simpl.
  case_bool_decide; simpl; [|by rewrite orb_true_r].
  rewrite Hs. simpl. by rewrite orb_false_r.
Qed.

Lemma omap_none {A B} (f : A → option B) (l : list A) :
  (∀ x, x ∈ l → f x = None) → omap f l = [].
Proof.
  induction l as [|x l IH]; intros Hf; [done|]. simpl. rewrite Hf by set_solver.
  apply IH. set_solver.
Qed.

Lemma unresolved_replace_total m lookupURI lookupDID :
  placeholders_wf m →
  (∀ u, lookupURI u ≠ "") → (∀ d, lookupDID d ≠ "") →
  UnresolvedATProtoRefs (ReplaceATProtoRefs m lookupURI lookupDID) = [].
Proof.
  intros Hwf Hu Hd. rewrite unresolved_replace by done. apply omap_none.
  intros k _. unfold left_unresolved, lookup_for. destruct (str_at m k); [|done]. simpl.
  rewrite bool_decide_eq_false_2; [by rewrite orb_true_r|]. destruct (did_key k); auto.
Qed.

(** *** Sanitizing *)
Lemma sanitize_lookup m k :
  SanitizeForPublish m !! k = if internal_key k then None else m !! k.
Proof.
  unfold SanitizeForPublish. rewrite map_lookup_filter.
  destruct (m !! k) as [v|]; simpl; [|by case_match].
  destruct (internal_key k) eqn:E; by case_guard.
Qed.

Lemma ready_sanitize m : ReadyForPublish (SanitizeForPublish m) = ReadyForPublish m.
Proof. unfold ReadyForPublish, str_at, map_at. by rewrite !sanitize_lookup. Qed.

(** *** Rich text *)
Definition no_links (facet : RichtextFacet) : Prop :=
  ∀ f, Some f ∈ Features facet → RichtextFacet_Link f = None.

Lemma rewriteFacetSegment_no_links segment facet :
  no_links facet → rewriteFacetSegment segment facet = segment.
Proof.
  unfold no_links, rewriteFacetSegment. induction (Features facet) as [|f fs IH]; [done|].
  intros Hf. simpl. destruct f as [f|]; simpl.
  - rewrite Hf by set_solver. apply IH. set_solver.
  - apply IH. set_solver.
Qed.

Lemma bytes_range_app text i j k :
  (0 ≤ i ≤ j)%Z → (j ≤ k)%Z →
  bytes_range text i j ++ bytes_range text j k = bytes_range text i k.
Proof.
  intros ??. unfold bytes_range.
  replace (Z.to_nat k - Z.to_nat i) with
    ((Z.to_nat j - Z.to_nat i) + (Z.to_nat k - Z.to_nat j)) by lia.
  rewrite <-take_take_drop, drop_drop. by replace (Z.to_nat i + (Z.to_nat j - Z.to_nat i))
    with (Z.to_nat j) by lia.
Qed.

Lemma bytes_range_all text : bytes_range text 0 (Z.of_nat (length text)) = text.
Proof. unfold bytes_range. rewrite Nat2Z.id. simpl. by rewrite Nat.sub_0_r, take_ge. Qed.

(** The loop of [rewriteRichText] has copied everything before [prev]. *)
Definition rich_inv (text : list ascii) (st : rich_state) : Prop :=
  (0 ≤ rs_prev st ≤ Z.of_nat (length text))%Z ∧
  rs_builder st = bytes_range text 0 (rs_prev st).

Lemma rich_step_inv text st current :
  no_links (facet current) → rich_inv text st → rich_inv text (rich_step text st current).
Proof.
  intros Hn [Hp Hb]. unfold rich_step.
  repeat (case_bool_decide; simpl; [done|]).
  destruct (appendFacetMentions _ _ _ _). split; simpl; [lia|].
  rewrite rewriteFacetSegment_no_links, to_of_l, Hb, !bytes_range_app by (done || lia).
  done.
Qed.

Lemma rich_loop_inv text l st :
  Forall (λ tf, no_links (facet tf)) l → rich_inv text st →
  rich_inv text (foldl (rich_step text) st l).
Proof.
  revert st. induction l as [|tf l IH]; simpl; intros st Hl Hst; [done|].
  inversion Hl; subst. apply IH; [done|]. by apply rich_step_inv.
Qed.

Lemma ranged_facets_forall (P : RichtextFacet → Prop) facets :
  (∀ f, Some f ∈ facets → P f) → Forall (λ tf, P (facet tf)) (ranged_facets facets).
Proof.
  intros HP. apply list.Forall_forall. intros tf Htf.
  unfold ranged_facets in Htf. apply list_elem_of_omap in Htf as (f & Hf & E).
  destruct f as [f|]; simpl in E; [|done].
  destruct (Index_ f) as [[s e]|]; simpl in E; simplify_eq. by apply HP.
Qed.

(** *** The fields resolution fills in *)
Lemma resolve_key_frame lookup key f m k :
  (∀ r m, f r m !! k = m !! k) → resolve_key lookup key f m !! k = m !! k.
Proof. intros Hf. unfold resolve_key. destruct (str_at m key); [|done]. by case_bool_decide. Qed.

Lemma resolve_to_frame field key r m k :
  k ≠ field → k ≠ key → resolve_to field key r m !! k = m !! k.
Proof. intros ??. unfold resolve_to. by rewrite lookup_delete_ne, lookup_insert_ne. Qed.

Lemma resolve_parent_frame r m k :
  k ≠ "branch" → k ≠ "tangles" → k ≠ "_atproto_reply_parent" →
  resolve_parent r m !! k = m !! k.
Proof.
  intros. unfold resolve_parent.
  repeat case_match; rewrite ?lookup_insert_ne by done; by apply resolve_to_frame.
Qed.

Lemma resolve_subject_frame r m k :
  k ≠ "vote" → k ≠ "_atproto_subject" → resolve_subject r m !! k = m !! k.
Proof.
  intros. unfold resolve_subject. rewrite lookup_delete_ne by done.
  case_match; by rewrite ?lookup_insert_ne.
Qed.

Lemma resolve_quote_frame r m k :
  k ≠ "mentions" → k ≠ "text" → k ≠ "_atproto_quote_subject" →
  resolve_quote r m !! k = m !! k.
Proof.
  intros. unfold resolve_quote. destruct (appendUniqueMention _ _ _).
  by rewrite lookup_delete_ne, !lookup_insert_ne.
Qed.

Lemma resolve_mentions_frame ld m k :
  k ≠ "mentions" → resolve_mentions ld m !! k = m !! k.
Proof.
  intros. unfold resolve_mentions.
  case_match; by rewrite ?lookup_delete_ne, ?lookup_insert_ne.
Qed.

Ltac frame_resolve :=
  repeat first
    [ rewrite resolve_mentions_frame by done
    | rewrite resolve_key_frame by
        (intros; first [ apply resolve_to_frame | apply resolve_parent_frame
                       | apply resolve_subject_frame | apply resolve_quote_frame ]; done) ].

Lemma replace_type m lu ld : ReplaceATProtoRefs m lu ld !! "type" = m !! "type".
Proof. unfold ReplaceATProtoRefs. by frame_resolve. Qed.

Lemma resolve_key_hit lookup key f m u :
  str_at m key = Some u → lookup u ≠ "" → resolve_key lookup key f m = f (lookup u) m.
Proof. intros Hm Hu. unfold resolve_key. rewrite Hm. by rewrite bool_decide_eq_false_2. Qed.

Lemma str_at_eq m m' k : m !! k = m' !! k → str_at m k = str_at m' k.
Proof. unfold str_at. by intros ->. Qed.
Lemma map_at_eq m m' k : m !! k = m' !! k → map_at m k = map_at m' k.
Proof. unfold map_at. by intros ->. Qed.

Lemma replace_contact m lu ld d :
  str_at m "_atproto_contact" = Some d → ld d ≠ "" →
  ReplaceATProtoRefs m lu ld !! "contact" = Some (VStr (ld d)).
Proof.
  intros Hm Hd. unfold ReplaceATProtoRefs. frame_resolve.
  rewrite (resolve_key_hit _ _ _ _ d); [|by rewrite <-Hm; apply str_at_eq; frame_resolve|done].
  unfold resolve_to. by rewrite lookup_delete_ne, lookup_insert_eq.
Qed.

Lemma replace_vote m lu ld u v :
  str_at m "_atproto_subject" = Some u → lu u ≠ "" → map_at m "vote" = Some v →
  ReplaceATProtoRefs m lu ld !! "vote" = Some (VMap (<["link" := VStr (lu u)]> v)).
Proof.
  intros Hm Hu Hv. unfold ReplaceATProtoRefs. frame_resolve.
  rewrite (resolve_key_hit _ _ _ _ u); [|by rewrite <-Hm; apply str_at_eq; frame_resolve|done].
  unfold resolve_subject. rewrite (map_at_eq _ m) by (by frame_resolve). rewrite Hv.
  by rewrite lookup_delete_ne, lookup_insert_eq.
Qed.

(** *** What the mappers produce *)
Lemma wf_empty : placeholders_wf ∅.
Proof. intros k v _ Hk. by rewrite lookup_empty in Hk. Qed.
Lemma wf_insert_str m k s : placeholders_wf m → placeholders_wf (<[k := VStr s]> m).
Proof.
  intros Hm k' v Hk'. destruct (decide (k' = k)) as [->|].
  - rewrite lookup_insert_eq. naive_solver.
  - rewrite lookup_insert_ne by done. by apply Hm.
Qed.
Lemma wf_insert_field m k v :
  internal_key k = false → placeholders_wf m → placeholders_wf (<[k := v]> m).
Proof.
  intros Hk Hm k' v' Hk'. rewrite lookup_insert_ne; [by apply Hm|].
  intros ->. by rewrite unresolved_internal in Hk.
Qed.
Lemma wf_opt_insert m k v :
  (internal_key k = false ∨ ∀ x, v = Some x → ∃ s, x = VStr s) →
  placeholders_wf m → placeholders_wf (opt_insert k v m).
Proof.
  intros Hk Hm. destruct v as [x|]; simpl; [|done]. destruct Hk as [Hk|Hk].
  - by apply wf_insert_field.
  - destruct (Hk x) as [s ->]; [done|]. by apply wf_insert_str.
Qed.

Ltac solve_wf :=
  repeat first [ done | apply wf_empty | apply wf_insert_str
               | apply wf_insert_field; [done|] | (apply wf_opt_insert; [by left|]) ].
Lemma wf_singleton k s : placeholders_wf {[ k := VStr s ]}.
Proof. apply (wf_insert_str ∅), wf_empty. Qed.
Lemma wf_singleton_field k v : internal_key k = false → placeholders_wf {[ k := v ]}.
Proof. intros. apply (wf_insert_field ∅); [done|apply wf_empty]. Qed.

#[export] Hint Resolve wf_empty wf_insert_str wf_singleton : go.
#[export] Hint Extern 2 (placeholders_wf (<[_ := _]> _)) => (apply wf_insert_field; [done|]) : go.
#[export] Hint Extern 2 (placeholders_wf {[_ := _]}) => (apply wf_singleton_field; done) : go.

Lemma mapPost_wf `{RecordDecoder} raw m : mapPost raw = Ok m → placeholders_wf m.
Proof.
  unfold mapPost. rewrite result_bind_ok. intros (post & _ & Hm).
  destruct (rewriteRichText _ _ _) as [text mentions]. simplify_eq.
  repeat apply wf_opt_insert; [right|right|right|by left|eauto with go].
  - intros x. case_bool_decide; naive_solver.
  - destruct (Reply post) as [r|]; simpl; [destruct (Parent r)|]; naive_solver.
  - destruct (Reply post) as [r|]; simpl; [destruct (Root r)|]; naive_solver.
Qed.

Lemma mapProfile_wf `{RecordDecoder} did raw m : mapProfile did raw = Ok m → placeholders_wf m.
Proof.
  unfold mapProfile. rewrite result_bind_ok. intros (profile & _ & [= <-]).
  repeat (apply wf_opt_insert; [by left|]). eauto with go.
Qed.

Ltac invert_map Hm :=
  apply result_bind_ok in Hm; destruct Hm as (? & ? & Hm); try case_match; cbv zeta in *; simplify_eq.

Lemma map_record_wf `{RecordDecoder} recordType did raw m :
  MapRecord recordType did raw = Ok m → placeholders_wf m.
Proof.
  unfold MapRecord. repeat case_bool_decide; intros Hm;
    [by eapply mapPost_wf|..|by eapply mapProfile_wf| | | |done]; invert_map Hm; eauto 8 with go.
Qed.

Lemma opt_insert_ne m k k' v : k' ≠ k → opt_insert k v m !! k' = m !! k'.
Proof. intros. destruct v; simpl; [|done]. by apply lookup_insert_ne. Qed.

(** Every mapped message is of a type that needs nothing more, or it carries
    the placeholder of the field its type needs. *)
Definition mapped_shape (m : msg) : Prop :=
  (str_at m "type" = Some "contact" ∧ is_Some (str_at m "_atproto_contact")) ∨
  (str_at m "type" = Some "vote" ∧
     is_Some (str_at m "_atproto_subject") ∧ is_Some (map_at m "vote")) ∨
  (∃ t, str_at m "type" = Some t ∧ t ≠ "contact" ∧ t ≠ "vote").

Lemma shape_other m t :
  m !! "type" = Some (VStr t) → t ≠ "contact" → t ≠ "vote" → mapped_shape m.
Proof. intros Ht ??. right; right. exists t. unfold str_at. by rewrite Ht. Qed.

Lemma map_record_shape `{RecordDecoder} recordType did raw m :
  MapRecord recordType did raw = Ok m → mapped_shape m.
Proof.
  unfold MapRecord. repeat case_bool_decide; intros Hm; try done; try invert_map Hm.
  - apply (shape_other _ "post"); [by rewrite !opt_insert_ne by done|done|done].
  - right; left. split_and!; vm_compute; eauto.
  - by apply (shape_other _ "repost").
  - left. split; vm_compute; eauto.
  - left. split; vm_compute; eauto.
  - apply (shape_other _ "about"); [by rewrite !opt_insert_ne by done|done|done].
  - by apply (shape_other _ "list").
  - by apply (shape_other _ "listitem").
  - by apply (shape_other _ "threadgate").
Qed.

Lemma replace_ready m lookupURI lookupDID :
  mapped_shape m →
  (∀ u, blank (lookupURI u) = false) → (∀ d, blank (lookupDID d) = false) →
  ReadyForPublish (ReplaceATProtoRefs m lookupURI lookupDID) = true.
Proof.
  intros Hs Hu Hd.
  assert (∀ s, blank s = false → s ≠ "") as Hne by (intros s Hs' ->; done).
  unfold ReadyForPublish. rewrite (str_at_eq _ m "type") by apply replace_type.
  destruct Hs as [(Ht & d & Hc)|[(Ht & (u & Hsub) & v & Hv)|(t & Ht & ? & ?)]]; rewrite Ht; cbn [from_option id].
  - rewrite bool_decide_eq_true_2 by done.
    unfold str_at. rewrite (replace_contact _ _ _ d) by auto. cbn [from_option id]. by rewrite Hd.
  - rewrite bool_decide_eq_false_2, bool_decide_eq_true_2 by done.
    unfold map_at. rewrite (replace_vote _ _ _ u v) by auto.
    unfold str_at. rewrite lookup_insert_eq. cbn [from_option id]. by rewrite Hu.
  - by rewrite !bool_decide_eq_false_2.
Qed.

(** ** Properties *)

(** A record that maps and whose references all resolve is publishable:
    resolution leaves no placeholder unresolved, and the sanitized message has
    every field its SSB type requires. *)
Theorem resolved_record_publishable `{RecordDecoder} recordType did raw m lookupURI lookupDID :
  MapRecord recordType did raw = Ok m →
  (∀ u, blank (lookupURI u) = false) → (∀ d, blank (lookupDID d) = false) →
  let m' := ReplaceATProtoRefs m lookupURI lookupDID in
  UnresolvedATProtoRefs m' = [] ∧ ReadyForPublish (SanitizeForPublish m') = true.
Proof.
  intros Hm Hu Hd m'. rewrite ready_sanitize. split.
  - apply unresolved_replace_total; [by eapply map_record_wf| |];
      intros s E; [specialize (Hu s)|specialize (Hd s)]; by rewrite E in *.
  - apply replace_ready; auto. by eapply map_record_shape.
Qed.

(** The defer reasons of a mapped record name exactly the placeholders whose
    lookup failed, with the URI or DID that was looked up, in a fixed order. *)
Theorem unresolved_reports_failed_lookups `{RecordDecoder} recordType did raw m
    lookupURI lookupDID :
  MapRecord recordType did raw = Ok m →
  UnresolvedATProtoRefs (ReplaceATProtoRefs m lookupURI lookupDID) =
    omap (left_unresolved lookupURI lookupDID m) unresolved_keys.
Proof. intros Hm. apply unresolved_replace. by eapply map_record_wf. Qed.

(** C33. Rewriting the rich text of a post with no link feature returns its text
    byte for byte, whatever the facet ranges are: nil, negative, overlapping,
    reversed or past the end. *)
Theorem rich_text_preserved text facets tags :
  (∀ f, Some f ∈ facets → no_links f) →
  (rewriteRichText text facets tags).1 = text.
Proof.
  intros Hf. unfold rewriteRichText.
  set (st := foldl (rich_step (to_l text)) _ _).
  assert (rich_inv (to_l text) st) as [Hp Hb].
  { apply rich_loop_inv; [|by split; [simpl; lia|]].
    rewrite (merge_sort_Permutation _). by apply ranged_facets_forall. }
  destruct (foldl appendTag _ _) as [mentions seen]. simpl.
  rewrite Hb, bytes_range_app, bytes_range_all by lia. apply of_to_l.
Qed.

(** Mapping panics exactly on a like or a repost whose body decodes with no
    [subject]: the mapper dereferences the nil pointer. *)
Theorem map_record_panics_iff `{RecordDecoder} recordType did raw :
  decodePost raw ≠ Panic → decodeSubject raw ≠ Panic → decodeGraphSubject raw ≠ Panic →
  decodeProfile raw ≠ Panic → decodeList raw ≠ Panic → decodeListItem raw ≠ Panic →
  decodeThreadgate raw ≠ Panic →
  MapRecord recordType did raw = Panic ↔
    (recordType = RecordTypeLike ∨ recordType = RecordTypeRepost) ∧
    decodeSubject raw = Ok None.
Proof.
  intros. unfold MapRecord, mapPost, mapLike, mapRepost, mapFollow, mapBlock, mapProfile,
    mapList, mapListItem, mapThreadgate, mbind, result_mbind, result_bind.
  split.
  - intros Hm. repeat (case_bool_decide || case_match); naive_solver.
  - intros [[->| ->] Hs]; simpl; by rewrite Hs.
Qed.
