(* ===== verification/MessageDB.v ===== *)
(** * The messages table ([internal/db/messages.go], [internal/db/db.go])

    The rows of the [messages] table, the statements the bridge runs on it, and
    the interface ([MessageStore]) the bridge processor is proved against. The
    SQL engine is represented by the meaning of the statements: a table keyed by
    [at_uri], upserts, filters, stable orderings and limits. *)
From stdpp Require Import sorting.
From S2P Require Import Prelude GoStr.
#[local] Open Scope string_scope.
#[local] Open Scope list_scope.
#[local] Open Scope Z_scope.

(** ** Rows

    Times are nanoseconds since the Unix epoch. *)
Abbreviation time := Z (only parsing).
Definition zero_time : time := - 62135596800 * 10 ^ 9.
Definition truncate_ms (t : time) : time := t - t mod 10 ^ 6.

Record Message := {
  ATURI : string;
  ATCID : string;
  SSBMsgRef : string;
  ATDID : string;
  Type_ : string;
  MessageState : string;
  RawATJson : string;
  RawSSBJson : string;
  PublishedAt : option time;
  PublishError : string;
  PublishAttempts : Z;
  LastPublishAttemptAt : option time;
  DeferReason : string;
  DeferAttempts : Z;
  LastDeferAttemptAt : option time;
  DeletedAt : option time;
  DeletedSeq : option Z;
  DeletedReason : string;
  RootATURI : string;
  ParentATURI : string;
  CreatedAt : time
}.

Definition MessageStatePending := "pending".
Definition MessageStatePublished := "published".
Definition MessageStateFailed := "failed".
Definition MessageStateDeferred := "deferred".
Definition MessageStateDeleted := "deleted".

(** Field updates, one per column the processor assigns. *)
Definition with_state (s : string) (m : Message) : Message :=
  Build_Message (ATURI m) (ATCID m) (SSBMsgRef m) (ATDID m) (Type_ m) s (RawATJson m)
    (RawSSBJson m) (PublishedAt m) (PublishError m) (PublishAttempts m)
    (LastPublishAttemptAt m) (DeferReason m) (DeferAttempts m) (LastDeferAttemptAt m)
    (DeletedAt m) (DeletedSeq m) (DeletedReason m) (RootATURI m) (ParentATURI m) (CreatedAt m).
Definition with_ssb_json (s : string) (m : Message) : Message :=
  Build_Message (ATURI m) (ATCID m) (SSBMsgRef m) (ATDID m) (Type_ m) (MessageState m)
    (RawATJson m) s (PublishedAt m) (PublishError m) (PublishAttempts m)
    (LastPublishAttemptAt m) (DeferReason m) (DeferAttempts m) (LastDeferAttemptAt m)
    (DeletedAt m) (DeletedSeq m) (DeletedReason m) (RootATURI m) (ParentATURI m) (CreatedAt m).
Definition with_publish_error (e : string) (m : Message) : Message :=
  Build_Message (ATURI m) (ATCID m) (SSBMsgRef m) (ATDID m) (Type_ m) (MessageState m)
    (RawATJson m) (RawSSBJson m) (PublishedAt m) e (PublishAttempts m)
    (LastPublishAttemptAt m) (DeferReason m) (DeferAttempts m) (LastDeferAttemptAt m)
    (DeletedAt m) (DeletedSeq m) (DeletedReason m) (RootATURI m) (ParentATURI m) (CreatedAt m).
Definition with_defer (reason : string) (attempts : Z) (at_ : option time) (m : Message)
    : Message :=
  Build_Message (ATURI m) (ATCID m) (SSBMsgRef m) (ATDID m) (Type_ m) (MessageState m)
    (RawATJson m) (RawSSBJson m) (PublishedAt m) (PublishError m) (PublishAttempts m)
    (LastPublishAttemptAt m) reason attempts at_
    (DeletedAt m) (DeletedSeq m) (DeletedReason m) (RootATURI m) (ParentATURI m) (CreatedAt m).
Definition with_attempt (attempts : Z) (at_ : option time) (m : Message) : Message :=
  Build_Message (ATURI m) (ATCID m) (SSBMsgRef m) (ATDID m) (Type_ m) (MessageState m)
    (RawATJson m) (RawSSBJson m) (PublishedAt m) (PublishError m) attempts at_
    (DeferReason m) (DeferAttempts m) (LastDeferAttemptAt m)
    (DeletedAt m) (DeletedSeq m) (DeletedReason m) (RootATURI m) (ParentATURI m) (CreatedAt m).
Definition with_published (ref : string) (at_ : option time) (m : Message) : Message :=
  Build_Message (ATURI m) (ATCID m) ref (ATDID m) (Type_ m) (MessageState m)
    (RawATJson m) (RawSSBJson m) at_ (PublishError m) (PublishAttempts m)
    (LastPublishAttemptAt m) (DeferReason m) (DeferAttempts m) (LastDeferAttemptAt m)
    (DeletedAt m) (DeletedSeq m) (DeletedReason m) (RootATURI m) (ParentATURI m) (CreatedAt m).
Definition with_thread (root parent : string) (m : Message) : Message :=
  Build_Message (ATURI m) (ATCID m) (SSBMsgRef m) (ATDID m) (Type_ m) (MessageState m)
    (RawATJson m) (RawSSBJson m) (PublishedAt m) (PublishError m) (PublishAttempts m)
    (LastPublishAttemptAt m) (DeferReason m) (DeferAttempts m) (LastDeferAttemptAt m)
    (DeletedAt m) (DeletedSeq m) (DeletedReason m) root parent (CreatedAt m).
Definition with_deleted (at_ : option time) (seq : option Z) (reason : string) (m : Message)
    : Message :=
  Build_Message (ATURI m) (ATCID m) (SSBMsgRef m) (ATDID m) (Type_ m) (MessageState m)
    (RawATJson m) (RawSSBJson m) (PublishedAt m) (PublishError m) (PublishAttempts m)
    (LastPublishAttemptAt m) (DeferReason m) (DeferAttempts m) (LastDeferAttemptAt m)
    at_ seq reason (RootATURI m) (ParentATURI m) (CreatedAt m).
(** The columns an upsert keeps from the existing row or adds up. *)
Definition with_counters (pa da : Z) (created : time) (m : Message) : Message :=
  Build_Message (ATURI m) (ATCID m) (SSBMsgRef m) (ATDID m) (Type_ m) (MessageState m)
    (RawATJson m) (RawSSBJson m) (PublishedAt m) (PublishError m) pa
    (LastPublishAttemptAt m) (DeferReason m) da (LastDeferAttemptAt m)
    (DeletedAt m) (DeletedSeq m) (DeletedReason m) (RootATURI m) (ParentATURI m) created.

(** ** [AddMessage] *)

(** The row as it is sent to the database. *)
Definition normalize_message (now : time) (m : Message) : Message :=
  let m := if blank (MessageState m) then with_state MessageStatePending m else m in
  let created := if bool_decide (CreatedAt m = zero_time) then now else CreatedAt m in
  with_counters (PublishAttempts m) (DeferAttempts m) (truncate_ms created) m.

(** [INSERT ... ON CONFLICT(at_uri) DO UPDATE]: attempts accumulate and
    [created_at] is not in the SET list. *)
Definition upsert (old : option Message) (m : Message) : Message :=
  match old with
  | None => m
  | Some o => with_counters (PublishAttempts o + PublishAttempts m)
                (DeferAttempts o + DeferAttempts m) (CreatedAt o) m
  end.

(** ** The interface the processor uses *)
Class MessageStore (S : Type) := {
  GetMessage : string → S → option Message;
  AddMessage : time → Message → S → S;
  GetDeferredCandidates : Z → S → list Message;
  GetRetryCandidates : Z → string → Z → S → list Message;
  GetExpiredDeferredMessages : time → Z → S → list Message
}.

(** What the store promises: an upsert changes its own row only, and a candidate
    query returns distinct rows of the table in the state it asks for. *)
Class MessageStoreLaws (S : Type) `{MessageStore S} := {
  store_ok : S → Prop;
  add_ok now m s : store_ok s → store_ok (AddMessage now m s);
  get_add now m s uri :
    GetMessage uri (AddMessage now m s) =
      if bool_decide (uri = ATURI m)
      then Some (upsert (GetMessage uri s) (normalize_message now m))
      else GetMessage uri s;
  get_uri uri s m : store_ok s → GetMessage uri s = Some m → ATURI m = uri;
  deferred_candidates limit s m :
    store_ok s →
    m ∈ GetDeferredCandidates limit s →
    GetMessage (ATURI m) s = Some m ∧ MessageState m = MessageStateDeferred;
  deferred_nodup limit s : store_ok s → NoDup (ATURI <$> GetDeferredCandidates limit s);
  retry_candidates limit did maxAttempts s m :
    store_ok s → 0 < maxAttempts →
    m ∈ GetRetryCandidates limit did maxAttempts s →
    GetMessage (ATURI m) s = Some m ∧ MessageState m = MessageStateFailed ∧
    SSBMsgRef m = "" ∧ PublishAttempts m < maxAttempts;
  expired_candidates cutoff limit s m :
    store_ok s →
    m ∈ GetExpiredDeferredMessages cutoff limit s →
    GetMessage (ATURI m) s = Some m ∧ MessageState m = MessageStateDeferred;
  expired_nodup cutoff limit s :
    store_ok s → NoDup (ATURI <$> GetExpiredDeferredMessages cutoff limit s)
}.

(** ** The table *)
Definition table := gmap string Message.

Definition rows (t : gmap string Message) : list Message := (map_to_list t).*2.

(** [config.DefaultMessageLimit]. *)
Definition DefaultMessageLimit : Z := 50.
Definition limit_or_default (limit : Z) : nat :=
  Z.to_nat (if bool_decide (limit <= 0) then DefaultMessageLimit else limit).

Definition last_publish_time (m : Message) : time :=
  default (CreatedAt m) (LastPublishAttemptAt m).
Definition last_defer_time (m : Message) : time :=
  default (CreatedAt m) (LastDeferAttemptAt m).

(** Orders a result set by a key: ties keep the table's order. *)
Definition key_le (key : Message → time) (a b : Message) : Prop := key a <= key b.
#[global] Instance key_le_dec key a b : Decision (key_le key a b).
Proof. unfold key_le. apply _. Defined.
Definition order_by (key : Message → time) (l : list Message) : list Message :=
  merge_sort (key_le key) l.

Definition table_AddMessage (now : time) (m : Message) (t : gmap string Message)
    : gmap string Message :=
  let m := normalize_message now m in
  <[ATURI m := upsert (t !! ATURI m) m]> t.

(** [UPDATE messages SET message_state = 'pending', ... WHERE at_uri = ?]. *)
Definition ResetMessageForRetry (uri : string) (t : gmap string Message)
    : gmap string Message :=
  alter (λ m, with_state MessageStatePending
    (with_publish_error "" (with_attempt 0 None (with_defer "" 0 None m)))) uri t.

Definition retry_filter (did : string) (maxAttempts : Z) (m : Message) : bool :=
  bool_decide (MessageState m = MessageStateFailed) &&
  bool_decide (SSBMsgRef m = "") &&
  bool_decide (PublishAttempts m < maxAttempts) &&
  (blank did || bool_decide (ATDID m = TrimSpace did)).

Definition table_GetRetryCandidates (limit : Z) (did : string) (maxAttempts : Z)
    (t : gmap string Message) : list Message :=
  let maxAttempts := if bool_decide (maxAttempts <= 0) then 8 else maxAttempts in
  take (limit_or_default limit)
    (order_by last_publish_time (filter (λ m, retry_filter did maxAttempts m = true) (rows t))).

(** The first AT URI of a defer reason: [SUBSTR] from the first [at://] to the
    next [;]. Without one, SQLite's [SUBSTR(reason, 0, LENGTH(reason))] drops the
    last character. *)
Definition dep_uri (reason : string) : string :=
  match Index reason "at://" with
  | Some i =>
      let tail := slice_from i reason in
      match Index tail ";" with
      | Some j => String.substring 0 j tail
      | None => tail
      end
  | None => String.substring 0 (String.length reason - 1) reason
  end.

(** The joined row exists: the first dependency is itself deferred. *)
Definition dep_deferred (t : gmap string Message) (m : Message) : bool :=
  match t !! dep_uri (DeferReason m) with
  | Some d => bool_decide (MessageState d = MessageStateDeferred)
  | None => false
  end.
Definition dep_rank (t : gmap string Message) (m : Message) : Z :=
  if dep_deferred t m then 1 else 0.

Definition deferred_le (t : gmap string Message) (a b : Message) : Prop :=
  dep_rank t a < dep_rank t b ∨
  (dep_rank t a = dep_rank t b ∧ last_defer_time a <= last_defer_time b).
#[global] Instance deferred_le_dec t a b : Decision (deferred_le t a b).
Proof. unfold deferred_le. apply _. Defined.

Definition is_deferred (m : Message) : bool :=
  bool_decide (MessageState m = MessageStateDeferred).

Definition table_GetDeferredCandidates (limit : Z) (t : gmap string Message) : list Message :=
  take (limit_or_default limit)
    (merge_sort (deferred_le t) (filter (λ m, is_deferred m = true) (rows t))).

Definition table_GetExpiredDeferredMessages (cutoff : time) (limit : Z)
    (t : gmap string Message) : list Message :=
  take (limit_or_default limit)
    (order_by last_defer_time
      (filter (λ m, is_deferred m = true ∧ last_defer_time m < cutoff) (rows t))).

#[export] Instance table_store : MessageStore table := {|
  GetMessage uri t := t !! uri;
  AddMessage := table_AddMessage;
  GetDeferredCandidates := table_GetDeferredCandidates;
  GetRetryCandidates := table_GetRetryCandidates;
  GetExpiredDeferredMessages := table_GetExpiredDeferredMessages
|}.

(** ** The table keeps the interface's promises *)
Definition table_ok (t : gmap string Message) : Prop := ∀ uri m, t !! uri = Some m → ATURI m = uri.

Lemma upsert_uri old m : ATURI (upsert old m) = ATURI m.
Proof. by destruct old. Qed.
Lemma normalize_uri now m : ATURI (normalize_message now m) = ATURI m.
Proof. unfold normalize_message. by destruct (blank _). Qed.

Lemma rows_lookup t m : table_ok t → m ∈ rows t → t !! ATURI m = Some m.
Proof.
  intros Ht Hm. unfold rows in Hm. apply list_elem_of_fmap in Hm as ([k m'] & -> & Hm).
  apply elem_of_map_to_list in Hm. simpl. by rewrite (Ht k m').
Qed.

Lemma rows_nodup t : table_ok t → NoDup (ATURI <$> rows t).
Proof.
  intros Ht. unfold rows. rewrite <-list_fmap_compose.
  rewrite (list_fmap_ext _ fst); [apply NoDup_fst_map_to_list|].
  intros i [k m] Hi. simpl. apply list_elem_of_lookup_2, elem_of_map_to_list in Hi. by apply Ht.
Qed.

Lemma elem_of_sorted_take {A} (R : relation A) `{∀ x y, Decision (R x y)} n l x :
  x ∈ take n (merge_sort R l) → x ∈ l.
Proof.
  intros Hx. rewrite <-(merge_sort_Permutation R l).
  rewrite <-(take_drop n). set_solver.
Qed.

Lemma sublist_fmap_nodup {A B} (f : A → B) (l k : list A) :
  l `sublist_of` k → NoDup (f <$> k) → NoDup (f <$> l).
Proof. intros Hl Hk. eapply sublist_NoDup; [exact Hk|]. by apply fmap_sublist. Qed.

#[export] Instance table_store_laws : MessageStoreLaws table.
Proof.
  refine {| store_ok := table_ok |}.
  - intros now m t Ht uri m' Hm'. unfold AddMessage in Hm'; simpl in Hm'.
    unfold table_AddMessage in Hm'.
    destruct (decide (ATURI (normalize_message now m) = uri)) as [<-|];
      [|rewrite lookup_insert_ne in Hm' by done; by apply Ht].
    rewrite lookup_insert_eq in Hm'. simplify_eq. apply upsert_uri.
  - intros now m t uri. simpl. unfold table_AddMessage. rewrite normalize_uri.
    case_bool_decide; subst; [by rewrite lookup_insert_eq|by rewrite lookup_insert_ne].
  - intros uri t m Ht Hm. by apply Ht.
  - intros limit t m Ht Hm. apply elem_of_sorted_take in Hm.
    apply list_elem_of_filter in Hm as [Hd Hm]. split; [by apply rows_lookup|].
    by apply bool_decide_eq_true in Hd.
  - intros limit t Ht. simpl. unfold table_GetDeferredCandidates.
    apply (sublist_fmap_nodup _ _ (merge_sort (deferred_le t)
             (filter (λ m, is_deferred m = true) (rows t)))); [apply sublist_take|].
    rewrite (merge_sort_Permutation _).
    eapply sublist_fmap_nodup; [apply sublist_filter|by apply rows_nodup].
  - intros limit did n t m Ht Hn Hm. simpl in Hm. unfold table_GetRetryCandidates in Hm.
    rewrite (bool_decide_eq_false_2 (n <= 0)) in Hm by lia.
    apply elem_of_sorted_take, list_elem_of_filter in Hm as [Hf Hm].
    unfold retry_filter in Hf. rewrite !andb_true_iff, !bool_decide_eq_true in Hf.
    split; [by apply rows_lookup|]. naive_solver.
  - intros cutoff limit t m Ht Hm. apply elem_of_sorted_take, list_elem_of_filter in Hm.
    destruct Hm as [[Hd _] Hm]. split; [by apply rows_lookup|].
    by apply bool_decide_eq_true in Hd.
  - intros cutoff limit t Ht. simpl. unfold table_GetExpiredDeferredMessages, order_by.
    apply (sublist_fmap_nodup _ _ (merge_sort (key_le last_defer_time)
             (filter (λ m, is_deferred m = true ∧ last_defer_time m < cutoff) (rows t))));
      [apply sublist_take|].
    rewrite (merge_sort_Permutation _).
    eapply sublist_fmap_nodup; [apply sublist_filter|by apply rows_nodup].
Defined.

(** A message that was reset for retry is retried by nobody: it is pending, and the
    queries of the maintenance runs ask for failed or deferred rows. *)
Theorem reset_row_is_no_candidate uri (t : gmap string Message) m limit did maxAttempts cutoff :
  ResetMessageForRetry uri t !! uri = Some m →
  m ∉ table_GetRetryCandidates limit did maxAttempts (ResetMessageForRetry uri t) ∧
  m ∉ table_GetDeferredCandidates limit (ResetMessageForRetry uri t) ∧
  m ∉ table_GetExpiredDeferredMessages cutoff limit (ResetMessageForRetry uri t).
Proof.
  unfold ResetMessageForRetry at 1. rewrite lookup_alter_eq. intros (m0 & _ & ->)%fmap_Some.
  split_and!; intros Hm; apply elem_of_sorted_take, list_elem_of_filter in Hm as [Hf _].
  - by apply andb_true_iff in Hf as [Hf _].
  - done.
  - by destruct Hf.
Qed.
