(* ===== verification/Lifecycle.v ===== *)
(** * The publish lifecycle ([internal/bridge/processor_lifecycle.go])

    The world the bridge processor runs in, and what happens to one mapped
    message: deferred, pending, failed or published. *)
From S2P Require Import Prelude GoStr Mapper MessageDB.
#[local] Open Scope string_scope.
#[local] Open Scope list_scope.
#[local] Open Scope Z_scope.

(** ** The environment and the world *)
Record BridgedAccount := { acc_SSBFeedID : string; acc_Active : bool }.

(** Collaborators of a [Processor]: interfaces, the database's failures, the
    clock and the JSON codec. An optional one is a field that may be nil.
    [env_publish] sees the calls made so far, so it may answer differently each
    time; [BridgeRecordBlobs] edits the mapped record in place. *)
Record Env := {
  env_publish : option (list (string * msg) → string → msg → string + string);
  env_blob : option (string → string → msg → string → msg * option string);
  env_account : string → result (option BridgedAccount);
  env_feedResolver : option (string → result string);
  env_get_err : string → option string;
  env_add_err : nat → option string;
  env_now : nat → Z;
  env_quote : string → string;
  env_marshal : msg → result string;
  env_unmarshal : string → result msg
}.

(** One scope of the dependency resolver (see [Dependencies]). *)
Record dependencyScope := {
  rootURI : string; visitedRecords : gset string; fetchedRecords : Z
}.

(** The state of the resolver: the scopes allocated, the remote fetches made
    (the scope and the URI, oldest first) and the URIs in flight. *)
Record ResolverState := {
  scopes : list dependencyScope;
  fetches : list (nat * string);
  inflight : gset string
}.

(** The mutable world: the store, the number of writes tried, the clock reads,
    the publish calls made (oldest first), the bridge state and the state of the
    dependency resolver. *)
Record World (S : Type) := {
  w_store : S;
  w_writes : nat;
  w_clock : nat;
  w_published : list (string * msg);
  w_state : gmap string string;
  w_res : ResolverState
}.
Arguments Build_World {S}.
Arguments w_store {S}.
Arguments w_writes {S}.
Arguments w_clock {S}.
Arguments w_published {S}.
Arguments w_state {S}.
Arguments w_res {S}.
Definition w_scopes {S} (w : World S) : list dependencyScope := scopes (w_res w).

Section Lifecycle.
Context {S : Type} `{MessageStore S} (env : Env).
Implicit Types w : World S.

Definition set_store (f : S → S) w : World S :=
  Build_World (f (w_store w)) (w_writes w) (w_clock w) (w_published w) (w_state w) (w_res w).
Definition set_res (f : ResolverState → ResolverState) w : World S :=
  Build_World (w_store w) (w_writes w) (w_clock w) (w_published w) (w_state w) (f (w_res w)).

Definition set_state (f : gmap string string → gmap string string) w : World S :=
  Build_World (w_store w) (w_writes w) (w_clock w) (w_published w) (f (w_state w)) (w_res w).

(** [time.Now().UTC()]. *)
Definition now : M (World S) Z := λ w,
  (Ok (env_now env (w_clock w)),
   Build_World (w_store w) (w_writes w) (1 + w_clock w)%nat (w_published w) (w_state w)
     (w_res w)).

(** [p.db.GetMessage]. *)
Definition db_GetMessage (uri : string) : M (World S) (option Message) := λ w,
  (match env_get_err env uri with
   | Some e => Err e
   | None => Ok (GetMessage uri (w_store w))
   end, w).

(** [p.db.AddMessage]: a failed write leaves the table alone. *)
Definition db_write (t : Z) (m : Message) : M (World S) unit := λ w,
  let k := w_writes w in
  let w1 s := Build_World s (1 + k)%nat (w_clock w) (w_published w) (w_state w)
    (w_res w) in
  match env_add_err env k with
  | Some e => (Err ("add message " +:+ ATURI m +:+ ": " +:+ e), w1 (w_store w))
  | None => (Ok tt, w1 (AddMessage t m (w_store w)))
  end.
Definition db_AddMessage (m : Message) : M (World S) unit := t ← now; db_write t m.

(** [p.publisher.Publish]. *)
Definition publish (pub : list (string * msg) → string → msg → string + string)
    (did : string) (content : msg) : M (World S) (string + string) := λ w,
  (Ok (pub (w_published w) did content),
   Build_World (w_store w) (w_writes w) (w_clock w) (w_published w ++ [(did, content)])
     (w_state w) (w_res w)).

(** ** Marking a message *)
Definition markDeferred (m : Message) (reason : string) (attemptedAt : Z) : Message :=
  with_defer reason 1 (Some attemptedAt) (with_state MessageStateDeferred m).
Definition markPublishAttempt (m : Message) (attemptedAt : Z) : Message :=
  with_attempt 1 (Some attemptedAt) m.
Definition markPublishFailed (m : Message) (publishErr : string) : Message :=
  with_publish_error publishErr (with_state MessageStateFailed m).
Definition markPublished (m : Message) (ssbMsgRef : string) (publishedAt : Z) : Message :=
  with_published ssbMsgRef (Some publishedAt) (with_state MessageStatePublished m).

Definition annotateBlobFallback (current : string) (blobErr : option string) : string :=
  match blobErr with
  | None => current
  | Some e =>
      let blobMsg := "blob_fallback=" +:+ e in
      if blank current then blobMsg else current +:+ "; " +:+ blobMsg
  end.
Definition annotate (m : Message) (blobErr : option string) : Message :=
  match blobErr with
  | None => m
  | Some _ => with_publish_error (annotateBlobFallback (PublishError m) blobErr) m
  end.

Definition deferReasonMissingRequiredFieldsAfterSanitize : string :=
  "missing_required_fields_after_sanitize".

Inductive mappedLifecycleOutcome :=
| OutDeferred
| OutPending
| OutFailed (publishErr : string)
| OutPublished (publishedRef : string).

Definition outcome_state (o : mappedLifecycleOutcome) : string :=
  match o with
  | OutDeferred => MessageStateDeferred
  | OutPending => MessageStatePending
  | OutFailed _ => MessageStateFailed
  | OutPublished _ => MessageStatePublished
  end.

(** The attempt to publish, once the message is ready. *)
Definition publish_mapped (pub : list (string * msg) → string → msg → string + string)
    (m : Message) (mapped : msg) (blobErr : option string)
    : M (World S) (Message * mappedLifecycleOutcome) :=
  attemptedAt ← now;
  let m := with_defer "" (DeferAttempts m) (LastDeferAttemptAt m)
             (markPublishAttempt m attemptedAt) in
  r ← publish pub (ATDID m) mapped;
  match r with
  | inr publishErr =>
      mret (annotate (markPublishFailed m publishErr) blobErr, OutFailed publishErr)
  | inl ssbMsgRef =>
      publishedAt ← now;
      let m := markPublished m ssbMsgRef publishedAt in
      let m := match blobErr with
               | None => m
               | Some _ => with_publish_error (annotateBlobFallback "" blobErr) m
               end in
      mret (m, OutPublished ssbMsgRef)
  end.

Definition applyMappedMessageLifecycle (m : Message) (mapped : msg)
    (blobErr : option string) (sanitize : bool)
    : M (World S) (Message * mappedLifecycleOutcome) :=
  match UnresolvedATProtoRefs mapped with
  | (_ :: _) as unresolved =>
      t ← now;
      mret (annotate (markDeferred m (Join unresolved ";") t) blobErr, OutDeferred)
  | [] =>
      match env_publish env with
      | None => mret (annotate (with_state MessageStatePending m) blobErr, OutPending)
      | Some pub =>
          if sanitize then
            let mapped := SanitizeForPublish mapped in
            if ReadyForPublish mapped then
              let m := match env_marshal env mapped with
                       | Ok raw => with_ssb_json raw m
                       | _ => m
                       end in
              publish_mapped pub m mapped blobErr
            else
              t ← now;
              mret (markDeferred m deferReasonMissingRequiredFieldsAfterSanitize t, OutDeferred)
          else publish_mapped pub m mapped blobErr
      end
  end.

(** ** What one run does *)

(** The publish calls added, and what the row says of them. *)
Definition lifecycle_spec (m : Message) (mapped : msg) (w : World S)
    (m' : Message) (o : mappedLifecycleOutcome) (w' : World S) : Prop :=
  w_store w' = w_store w ∧ w_writes w' = w_writes w ∧ w_state w' = w_state w ∧
  w_res w' = w_res w ∧
  MessageState m' = outcome_state o ∧ ATURI m' = ATURI m ∧ ATCID m' = ATCID m ∧
  match o with
  | OutDeferred =>
      w_published w' = w_published w ∧ DeferReason m' ≠ "" ∧ SSBMsgRef m' = SSBMsgRef m ∧
      DeferAttempts m' = 1 ∧ PublishAttempts m' = PublishAttempts m
  | OutPending =>
      w_published w' = w_published w ∧ SSBMsgRef m' = SSBMsgRef m ∧
      PublishAttempts m' = PublishAttempts m ∧ env_publish env = None
  | OutFailed e =>
      w_published w' = w_published w ++ [(ATDID m, SanitizeForPublish mapped)] ∧
      UnresolvedATProtoRefs mapped = [] ∧
      ReadyForPublish (SanitizeForPublish mapped) = true ∧
      SSBMsgRef m' = SSBMsgRef m ∧ DeferReason m' = "" ∧ PublishAttempts m' = 1 ∧
      (∃ pub, env_publish env = Some pub ∧
         pub (w_published w) (ATDID m) (SanitizeForPublish mapped) = inr e)
  | OutPublished ref =>
      w_published w' = w_published w ++ [(ATDID m, SanitizeForPublish mapped)] ∧
      UnresolvedATProtoRefs mapped = [] ∧
      ReadyForPublish (SanitizeForPublish mapped) = true ∧
      SSBMsgRef m' = ref ∧ DeferReason m' = "" ∧ PublishAttempts m' = 1 ∧
      (∃ pub, env_publish env = Some pub ∧
         pub (w_published w) (ATDID m) (SanitizeForPublish mapped) = inl ref)
  end.

Lemma unresolved_entry_nonempty (m : msg) l : UnresolvedATProtoRefs m = l →
  l ≠ [] → Join l ";" ≠ "".
Proof.
  intros <- Hl. destruct (UnresolvedATProtoRefs m) as [|e l'] eqn:E; [done|].
  assert (e ∈ UnresolvedATProtoRefs m) as He by (rewrite E; set_solver).
  unfold UnresolvedATProtoRefs in He. apply list_elem_of_omap in He as (k & Hk & He).
  unfold unresolved_entry in He. destruct (m !! k) as [raw|]; [|done]. simpl in He.
  destruct (blank _); [done|]. simplify_eq. unfold unresolved_keys in Hk.
  rewrite !elem_of_cons, elem_of_nil in Hk.
  destruct_or? Hk; subst; try done; destruct l'; done.
Qed.

Lemma annotate_fields m blobErr :
  MessageState (annotate m blobErr) = MessageState m ∧ ATURI (annotate m blobErr) = ATURI m ∧
  ATCID (annotate m blobErr) = ATCID m ∧
  SSBMsgRef (annotate m blobErr) = SSBMsgRef m ∧
  DeferReason (annotate m blobErr) = DeferReason m ∧
  DeferAttempts (annotate m blobErr) = DeferAttempts m ∧
  PublishAttempts (annotate m blobErr) = PublishAttempts m.
Proof. by destruct blobErr. Qed.

(** The lifecycle always returns: no branch errors, panics or loops. *)
Lemma lifecycle_runs m mapped blobErr w :
  ∃ m' o w', applyMappedMessageLifecycle m mapped blobErr true w = (Ok (m', o), w') ∧
    lifecycle_spec m mapped w m' o w'.
Proof.
  unfold applyMappedMessageLifecycle, lifecycle_spec.
  destruct (UnresolvedATProtoRefs mapped) as [|e l] eqn:Eu.
  2:{ eexists _, _, _. split; [reflexivity|].
      destruct (annotate_fields (markDeferred m (Join (e :: l) ";") (env_now env (w_clock w)))
                  blobErr) as (-> & -> & -> & -> & -> & -> & ->).
      simpl. split_and!; try done. by eapply unresolved_entry_nonempty. }
  destruct (env_publish env) as [pub|] eqn:Ep.
  2:{ eexists _, _, _. split; [reflexivity|].
      destruct (annotate_fields (with_state MessageStatePending m) blobErr)
        as (-> & -> & -> & -> & _ & _ & ->). done. }
  destruct (ReadyForPublish (SanitizeForPublish mapped)) eqn:Er.
  2:{ eexists _, _, _. split; [reflexivity|]. simpl. by split_and!. }
  unfold publish_mapped. cbn [mbind M_mbind now publish fst snd mret M_mret].
  set (m1 := match env_marshal env _ with Ok _ => _ | _ => _ end).
  assert (ATURI m1 = ATURI m ∧ ATCID m1 = ATCID m ∧ ATDID m1 = ATDID m ∧
          SSBMsgRef m1 = SSBMsgRef m)
    as (Hu & Hc & Hd & Hr) by (subst m1; by case_match).
  unfold mbind, M_mbind, now, publish, mret, M_mret. simpl. rewrite Hd.
  destruct (pub (w_published w) (ATDID m) (SanitizeForPublish mapped)) as [ref|perr] eqn:Epub.
  - eexists _, _, _. split; [reflexivity|]. simpl.
    destruct blobErr; simpl; split_and!; eauto.
  - eexists _, _, _. split; [reflexivity|].
    destruct (annotate_fields (markPublishFailed
      (with_defer "" (DeferAttempts m1) (LastDeferAttemptAt m1)
        (markPublishAttempt m1 (env_now env (w_clock w)))) perr) blobErr)
      as (-> & -> & -> & -> & -> & _ & ->).
    simpl. split_and!; eauto.
Qed.

(** ** The invariant of the bridge *)

(** A row of the table: what its state promises about the other columns. *)
Definition row_ok (m : Message) : Prop :=
  MessageState m ∈ [ MessageStatePending; MessageStatePublished; MessageStateFailed;
                     MessageStateDeferred; MessageStateDeleted ] ∧
  (MessageState m = MessageStateDeferred → DeferReason m ≠ "") ∧
  (MessageState m ≠ MessageStatePublished → SSBMsgRef m = "") ∧
  0 <= PublishAttempts m ∧
  (MessageState m = MessageStatePublished → 1 <= PublishAttempts m).

(** A payload that may enter the log. *)
Definition payload_ok (p : msg) : Prop :=
  (∀ k, internal_key k = true → p !! k = None) ∧ ReadyForPublish p = true.

(** Every row is well formed, every payload published satisfies [P] and the
    resolver's and the bridge's state satisfy [J]. *)
Definition bridge_inv `{!MessageStoreLaws S} (P : msg → Prop)
    (J : ResolverState → gmap string string → Prop) w : Prop :=
  store_ok (w_store w) ∧
  (∀ uri m, GetMessage uri (w_store w) = Some m → row_ok m) ∧
  Forall (λ c, P c.2) (w_published w) ∧
  J (w_res w) (w_state w).

Lemma normalize_row_ok t m : row_ok m → row_ok (normalize_message t m).
Proof.
  unfold row_ok, normalize_message. intros Hm. destruct (blank (MessageState m)) eqn:E; [|done].
  destruct Hm as [Hs _]. rewrite !elem_of_cons, elem_of_nil in Hs.
  destruct_or? Hs; try rewrite Hs in E; done.
Qed.

Lemma upsert_row_ok old m :
  (∀ o, old = Some o → row_ok o) → row_ok m → row_ok (upsert old m).
Proof.
  intros Ho Hm. destruct old as [o|]; [|done]. specialize (Ho o eq_refl).
  unfold row_ok in *. simpl. destruct_and!. split_and!; try done; [lia|].
  intros Hp. match goal with H : _ = MessageStatePublished → 1 <= PublishAttempts m |- _ =>
    specialize (H Hp) end. lia.
Qed.

Section Invariant.
Context `{!MessageStoreLaws S} (P : msg → Prop) (J : ResolverState → gmap string string → Prop).
Notation Inv := (bridge_inv P J).

Lemma now_inv : hoare Inv (now) (λ _, True).
Proof. by intros w Hw. Qed.
Lemma get_inv uri :
  hoare Inv (db_GetMessage uri) (λ r, ∀ m, r = Some m → row_ok m ∧ ATURI m = uri).
Proof.
  intros w (Hs & Hr & Hp). split; [done|]. intros r. unfold db_GetMessage. simpl.
  destruct (env_get_err env uri); [done|]. intros [= <-] m Hm.
  split; [by eapply Hr|by eapply get_uri].
Qed.
Lemma db_write_inv t m : row_ok m → hoare Inv (db_write t m) (λ _, True).
Proof.
  intros Hm w (Hs & Hr & Hp). split; [|done]. unfold db_write.
  destruct (env_add_err env (w_writes w)); [done|]. split; [by apply add_ok|]. split; [|done].
  simpl. intros uri m'. rewrite get_add. case_bool_decide; [|by apply Hr].
  intros [= <-]. apply upsert_row_ok; [|by apply normalize_row_ok]. intros o. apply Hr.
Qed.
Lemma add_inv m : row_ok m → hoare Inv (db_AddMessage m) (λ _, True).
Proof.
  intros Hm. unfold db_AddMessage. eapply hoare_bind; [apply now_inv|].
  intros t _. by apply db_write_inv.
Qed.

(** The lifecycle turns an unpublished message into a well-formed row. *)
Lemma lifecycle_inv m mapped blobErr :
  (∀ p, payload_ok p → P p) →
  SSBMsgRef m = "" → 0 <= PublishAttempts m →
  hoare Inv (applyMappedMessageLifecycle m mapped blobErr true)
    (λ r, row_ok r.1 ∧ ATURI r.1 = ATURI m ∧ MessageState r.1 = outcome_state r.2).
Proof.
  intros HP Href Hatt w (Hs & Hr & Hp).
  destruct (lifecycle_runs m mapped blobErr w) as (m' & o & w' & -> & Hspec).
  unfold lifecycle_spec in Hspec. destruct Hspec as (Es & _ & Ews & Esc & Est & Eu & _ & Ho).
  split.
  - unfold bridge_inv. simpl. rewrite Es, Esc, Ews. destruct Hp as [Hp HJ]. split_and!; try done.
    destruct o; destruct_and! Ho; match goal with H : w_published w' = _ |- _ => rewrite H end;
      try done; apply Forall_app; (split; [done|]); constructor; [|done| |done]; simpl;
      apply HP; split; try done; intros k Hk; rewrite sanitize_lookup, Hk; done.
  - simpl. intros a [= <-]. simpl. split; [|done].
    unfold row_ok. rewrite Est. destruct o; simpl; destruct_and! Ho;
      (split; [set_solver|]); split_and!; try done; try lia; congruence.
Qed.
End Invariant.
End Lifecycle.
