(* ===== verification/RateLimit.v ===== *)
(** * Per-DID rate limiters ([internal/bridge/processor.go])

    The map of limiters the processor keeps, one per DID, and the removal of the
    idle ones. The limiter itself is [golang.org/x/time/rate]: an interface. *)
From S2P Require Import Prelude GoStr.
#[local] Open Scope string_scope.
#[local] Open Scope Z_scope.

(** [rate.NewLimiter(events per second, burst)] and [Allow] at a time, which
    updates the limiter in place. *)
Class RateLimiter (L : Type) := {
  NewLimiter : Z → Z → L;
  Allow : Z → L → bool * L
}.

Record RateLimiters (L : Type) := {
  rateLimiters : gmap string L;
  lastActivity : gmap string Z
}.
Arguments Build_RateLimiters {L}.
Arguments rateLimiters {L}.
Arguments lastActivity {L}.

Section RateLimit.
Context {L : Type} `{RateLimiter L}.
Variable maxMessagesPerMinute : Z.
Implicit Types rl : RateLimiters L.

(** [None] when rate limiting is off. *)
Definition getRateLimiter (now : Z) (did : string) rl : option L * RateLimiters L :=
  if bool_decide (maxMessagesPerMinute <= 0) then (None, rl)
  else
    let lim := match rateLimiters rl !! did with
               | Some lim => lim
               | None => NewLimiter maxMessagesPerMinute maxMessagesPerMinute
               end in
    (Some lim, Build_RateLimiters (<[did := lim]> (rateLimiters rl))
                 (<[did := now]> (lastActivity rl))).

(** [if lim := p.getRateLimiter(did); lim != nil { if !lim.Allow() ...]. *)
Definition allow (now : Z) (did : string) : M (RateLimiters L) bool := λ rl,
  match getRateLimiter now did rl with
  | (None, rl) => (Ok true, rl)
  | (Some lim, rl) =>
      let r := Allow now lim in
      (Ok r.1, Build_RateLimiters (<[did := r.2]> (rateLimiters rl)) (lastActivity rl))
  end.

Definition idle (now idleTimeout : Z) rl (did : string) : bool :=
  match lastActivity rl !! did with
  | Some lastActive => bool_decide (idleTimeout < now - lastActive)
  | None => false
  end.
Definition cleanupStaleRateLimiters (now idleTimeout : Z) rl : RateLimiters L :=
  Build_RateLimiters
    (filter (λ p, idle now idleTimeout rl p.1 = false) (rateLimiters rl))
    (filter (λ p, idle now idleTimeout rl p.1 = false) (lastActivity rl)).

(** ** The two maps stay in step *)
Definition limiters_ok rl : Prop := dom (rateLimiters rl) = dom (lastActivity rl).

Lemma allow_ok now did rl : limiters_ok rl → limiters_ok (allow now did rl).2.
Proof.
  unfold limiters_ok, allow, getRateLimiter. intros Hd. case_bool_decide; simpl; [done|].
  rewrite !dom_insert_L. set_solver.
Qed.

Lemma allow_returns now did rl : ∃ b, (allow now did rl).1 = Ok b.
Proof. unfold allow. destruct (getRateLimiter _ _ _) as [[lim|] rl']; eauto. Qed.

Lemma cleanup_lookup {A} (m : gmap string A) now t rl did :
  filter (λ p : string * A, idle now t rl p.1 = false) m !! did =
    if idle now t rl did then None else m !! did.
Proof.
  rewrite map_lookup_filter. destruct (m !! did); simpl; [|by case_match].
  destruct (idle now t rl did) eqn:E; by case_guard.
Qed.

Lemma cleanup_ok now t rl : limiters_ok rl → limiters_ok (cleanupStaleRateLimiters now t rl).
Proof.
  unfold limiters_ok. rewrite !set_eq. intros Hd did. specialize (Hd did).
  rewrite !elem_of_dom in *. simpl. rewrite !cleanup_lookup. destruct (idle _ _ _ _); [|done].
  by rewrite !is_Some_alt.
Qed.
End RateLimit.

(** A cleanup of the rate limiters keeps their two maps in step: it
    forgets exactly the DIDs idle for longer than the timeout and leaves the limiter of every other DID as it is. *)
Theorem cleanup_exact `{RateLimiter L} (rl : RateLimiters L) now timeout did :
  limiters_ok rl →
  limiters_ok (cleanupStaleRateLimiters now timeout rl) ∧
  (rateLimiters (cleanupStaleRateLimiters now timeout rl) !! did =
     if idle now timeout rl did then None else rateLimiters rl !! did).
Proof. intros Hok. split; [by apply cleanup_ok|]. apply cleanup_lookup. Qed.
