(* ===== verification/Processor.v ===== *)
(** * The forward bridge ([internal/bridge/processor.go])

    From a commit event of the AT Protocol firehose to rows of the messages table
    and messages of the SSB log. *)
From S2P Require Import Prelude GoStr Mapper MessageDB Lifecycle RateLimit.
#[local] Open Scope string_scope.
#[local] Open Scope list_scope.
#[local] Open Scope Z_scope.

(** ** Contexts

    The only value the processor reads from a [context.Context] is the frame of
    the dependency resolver: a pointer to a scope and a depth. *)
Record dependencyFrame := { frame_scope : nat; frame_depth : nat }.
Definition ctx := option dependencyFrame.

(** ** Collections *)
Definition supportedCollections : list string :=
  [ RecordTypePost; RecordTypeLike; RecordTypeRepost; RecordTypeFollow; RecordTypeBlock;
    RecordTypeProfile; RecordTypeList; RecordTypeListItem; RecordTypeThreadgate ].
Definition isSupportedCollection (collection : string) : bool :=
  bool_decide (collection ∈ supportedCollections).

(** [strings.SplitN(path, "/", 2)] has two parts when there is a slash. *)
Definition collectionFromPath (path : string) : option string :=
  match Index path "/" with
  | None => None
  | Some i =>
      let c := String.substring 0 i path in
      if bool_decide (c = "") then None else Some c
  end.

(** ** Unresolved dependencies *)
Definition dependency_keys : list string :=
  [ "_atproto_reply_root"; "_atproto_reply_parent"; "_atproto_subject";
    "_atproto_quote_subject"; "_atproto_contact" ].
Definition unresolvedDependencies (mapped : msg) : list (string * string) :=
  omap (λ key, raw ← mapped !! key;
               let value := TrimSpace (Sprint raw) in
               if bool_decide (value = "") then None else Some (key, value)) dependency_keys.

(** The keys whose dependency is a record. *)
Definition record_key (key : string) : bool :=
  bool_decide (key ∈ [ "_atproto_subject"; "_atproto_quote_subject"; "_atproto_reply_root";
                       "_atproto_reply_parent" ]).

Section Processor.
Context {S : Type} `{MessageStore S} `{RecordDecoder} (env : Env).
(** [p.dependencyResolver], nil when absent. *)
Variable resolver : option (ctx → string → M (World S) unit).
Implicit Types w : World S.

Definition fresh_scope (uri : string) : dependencyScope := {|
  rootURI := uri; visitedRecords := if bool_decide (uri = "") then ∅ else {[uri]};
  fetchedRecords := 0 |}.
Definition add_scope (uri : string) (r : ResolverState) : ResolverState :=
  Build_ResolverState (scopes r ++ [fresh_scope uri]) (fetches r) (inflight r).
Definition ensureDependencyContext (c : ctx) (rootURI : string) : M (World S) ctx := λ w,
  match c with
  | Some _ => (Ok c, w)
  | None =>
      (Ok (Some {| frame_scope := length (w_scopes w); frame_depth := 0%nat |}),
       set_res (add_scope (TrimSpace rootURI)) w)
  end.

(** ** References *)
Definition resolveMessageReference w (uri : string) : string :=
  match env_get_err env uri with
  | Some _ => ""
  | None =>
      match GetMessage uri (w_store w) with
      | None => ""
      | Some m => TrimSpace (SSBMsgRef m)
      end
  end.

Definition lookupFeed (resolve : string → result string) (did : string) : result string :=
  let did := TrimSpace did in
  if bool_decide (did = "") then Err "dependency did is empty" else resolve did.

Definition resolveFeedReference (did : string) : string :=
  match env_account env did with
  | Ok (Some acc) as r =>
      if acc_Active acc && negb (blank (acc_SSBFeedID acc)) then acc_SSBFeedID acc
      else match env_feedResolver env with
           | None => ""
           | Some resolve => match lookupFeed resolve did with Ok ref => ref | _ => "" end
           end
  | Ok None =>
      match env_feedResolver env with
      | None => ""
      | Some resolve => match lookupFeed resolve did with Ok ref => ref | _ => "" end
      end
  | _ => ""
  end.

Definition resolveMappedRefs (mapped : msg) : M (World S) msg := λ w,
  (Ok (ReplaceATProtoRefs mapped (resolveMessageReference w) resolveFeedReference), w).

(** The errors of [EnsureRecord] are dropped. *)
Fixpoint ensure_all (ensure : ctx → string → M (World S) unit) (c : ctx)
    (deps : list (string * string)) : M (World S) unit :=
  match deps with
  | [] => mret tt
  | (key, value) :: deps =>
      (if record_key key then mtry (ensure c value) else mret (Ok tt));;
      ensure_all ensure c deps
  end.
Definition hydrateRecordDependencies (c : ctx) (mapped : msg) : M (World S) unit :=
  match resolver with
  | None => mret tt
  | Some ensure => ensure_all ensure c (unresolvedDependencies mapped)
  end.

(** ** Mapping *)
Definition mapDeleteRecord (atDID collection recordJSON : string) : result msg :=
  mapped ← MapRecord collection atDID recordJSON;
  if bool_decide (collection = RecordTypeLike) then
    match map_at mapped "vote" with
    | None => Err "mapped like delete missing vote payload"
    | Some vote =>
        Ok (<["vote" := VMap (<["expression" := VStr "Like"]> (<["value" := VInt 0]> vote))]>
              mapped)
    end
  else if bool_decide (collection = RecordTypeFollow) ||
          bool_decide (collection = RecordTypeBlock) then
    Ok (<["blocking" := VBool false]> (<["following" := VBool false]> mapped))
  else Err ("record type does not support delete translation: " +:+ collection).

Definition mapMappedRecord (c : ctx) (atDID collection recordJSON : string) (deleted : bool)
    : M (World S) msg :=
  mapped ← mlift (if deleted then mapDeleteRecord atDID collection recordJSON
                  else MapRecord collection atDID recordJSON);
  mapped ← resolveMappedRefs mapped;
  mwrap "hydrate dependencies: " (hydrateRecordDependencies c mapped);;
  resolveMappedRefs mapped.

Definition tryBlobBridge (atDID collection : string) (mapped : msg) (rawRecordJSON : string)
    : msg * option string :=
  match env_blob env with
  | None => (mapped, None)
  | Some bridge => bridge atDID collection mapped rawRecordJSON
  end.

(** ** [ProcessRecord] *)
Definition new_message (uri cid did collection state rawAT rawSSB : string) : Message := {|
  ATURI := uri; ATCID := cid; SSBMsgRef := ""; ATDID := did; Type_ := collection;
  MessageState := state; RawATJson := rawAT; RawSSBJson := rawSSB; PublishedAt := None;
  PublishError := ""; PublishAttempts := 0; LastPublishAttemptAt := None; DeferReason := "";
  DeferAttempts := 0; LastDeferAttemptAt := None; DeletedAt := None; DeletedSeq := None;
  DeletedReason := ""; RootATURI := ""; ParentATURI := ""; CreatedAt := zero_time |}.

(** The record is already in the log with the same CID. *)
Definition is_duplicate (existing : option Message) (atCID : string) : bool :=
  match existing with
  | None => false
  | Some e =>
      negb (blank (SSBMsgRef e)) && negb (blank (ATCID e)) &&
      bool_decide (TrimSpace (ATCID e) = TrimSpace atCID)
  end.

Definition ProcessRecord (c : ctx) (atDID atURI atCID collection recordJSON : string)
    : M (World S) unit :=
  c ← ensureDependencyContext c atURI;
  existing ← mwrap ("load existing message " +:+ atURI +:+ ": ") (db_GetMessage env atURI);
  if is_duplicate existing atCID then mret tt
  else
    mapped ← mwrap "map record: " (mapMappedRecord c atDID collection recordJSON false);
    let '(mapped, blobErr) := tryBlobBridge atDID collection mapped recordJSON in
    rawSSBJSON ← mwrap "marshal mapped record: " (mlift (env_marshal env mapped));
    let m := new_message atURI atCID atDID collection MessageStatePending recordJSON
               rawSSBJSON in
    let m := with_thread (default "" (str_at mapped "_atproto_reply_root"))
               (default "" (str_at mapped "_atproto_reply_parent")) m in
    r ← applyMappedMessageLifecycle env m mapped blobErr true;
    mwrap "persist message: " (db_AddMessage env r.1).

(** ** [ProcessDeletedRecord] *)
Definition deleted_raw_json (existing : option Message) (atURI rawRecordJSON : string)
    (seq : Z) : string :=
  let rawATJSON := "{" +:+ quoted "op" +:+ ":" +:+ quoted "delete" +:+ "," +:+
    quoted "at_uri" +:+ ":" +:+ env_quote env atURI +:+ "," +:+ quoted "seq" +:+ ":" +:+
    itoa seq +:+ "}" in
  let rawATJSON := match existing with
                   | Some e => if blank (RawATJson e) then rawATJSON else RawATJson e
                   | None => rawATJSON
                   end in
  if bool_decide (rawRecordJSON = "") then rawATJSON else rawRecordJSON.

Definition deleted_cid (existing : option Message) (atCID : string) (seq : Z) : string :=
  if blank atCID then
    match existing with
    | Some e => if blank (ATCID e) then "deleted-seq-" +:+ itoa seq else ATCID e
    | None => "deleted-seq-" +:+ itoa seq
    end
  else atCID.

(** Profiles, posts and records whose body is unknown are only marked. *)
Definition marks_only (collection rawATJSON : string) : bool :=
  bool_decide (collection = RecordTypeProfile) || bool_decide (collection = RecordTypePost) ||
  blank rawATJSON || Contains rawATJSON (quoted "op" +:+ ":" +:+ quoted "delete").

Definition ProcessDeletedRecord (c : ctx)
    (atDID atURI atCID collection rawRecordJSON : string) (seq : Z) : M (World S) unit :=
  existing ← mwrap ("load existing message for delete " +:+ atURI +:+ ": ")
               (db_GetMessage env atURI);
  t ← now env;
  let rawATJSON := deleted_raw_json existing atURI rawRecordJSON seq in
  let m := new_message atURI (deleted_cid existing atCID seq) atDID collection
             MessageStateDeleted rawATJSON
             (match existing with Some e => RawSSBJson e | None => "" end) in
  let m := with_deleted (Some t) (Some seq) ("atproto_delete seq=" +:+ itoa seq) m in
  if marks_only collection rawATJSON then
    mwrap "persist deleted record: " (db_AddMessage env m)
  else
    mapped ← mwrap "map delete reversal: " (mapMappedRecord c atDID collection rawATJSON true);
    rawDeleteJSON ← mwrap "marshal delete reversal: " (mlift (env_marshal env mapped));
    r ← applyMappedMessageLifecycle env (with_ssb_json rawDeleteJSON m) mapped None true;
    mwrap "persist deleted record: " (db_AddMessage env r.1).

(** ** Firehose and record events *)
Record ATProtoRecordEvent := {
  ev_DID : string; ev_ATURI : string; ev_ATCID : string; ev_Collection : string;
  ev_Action : string; ev_RecordJSON : string; ev_Seq : option Z
}.
Definition HandleRecordEvent (c : ctx) (event : ATProtoRecordEvent) : M (World S) unit :=
  let seq := default 0 (ev_Seq event) in
  if bool_decide (ev_Action event = "delete") then
    ProcessDeletedRecord c (ev_DID event) (ev_ATURI event) (ev_ATCID event)
      (ev_Collection event) (ev_RecordJSON event) seq
  else ProcessRecord c (ev_DID event) (ev_ATURI event) (ev_ATCID event)
         (ev_Collection event) (ev_RecordJSON event).

(** The repository of a commit ([firehose.ParseCommit], [Repo.GetRecordBytes]),
    the CBOR decoding and the failures of [SetBridgeState] are parameters. *)
Context {Repo L : Type} `{RateLimiter L}.
Variable maxMessagesPerMinute : Z.
Variable GetRecordBytes : Repo → string → result (option string).
Variable cborToJSON : string → result string.
Variable set_state_err : string → option string.

Record RepoOp := { Action : string; Path : string; Cid : option string }.
Record Commit := { evt_Repo : string; evt_Seq : Z; evt_Ops : list RepoOp }.
Variable ParseCommit : Commit → result Repo.

Definition at_uri (atDID path : string) : string := "at://" +:+ atDID +:+ "/" +:+ path.

Definition processOp (c : ctx) (rr : Repo) (atDID path atCID : string) : M (World S) unit :=
  match collectionFromPath path with
  | None => mret tt
  | Some collection =>
      if isSupportedCollection collection then
        recordCBOR ← mwrap "get record bytes: " (mlift (GetRecordBytes rr path));
        match recordCBOR with
        | None => mfail "nil record bytes"
        | Some cbor =>
            recordJSON ← mwrap "decode cbor to json: " (mlift (cborToJSON cbor));
            ProcessRecord c atDID (at_uri atDID path) atCID collection recordJSON
        end
      else mret tt
  end.

Definition processDeleteOp (c : ctx) (atDID path : string) (seq : Z) : M (World S) unit :=
  match collectionFromPath path with
  | None => mret tt
  | Some collection =>
      if isSupportedCollection collection then
        ProcessDeletedRecord c atDID (at_uri atDID path) "" collection "" seq
      else mret tt
  end.

Definition SetBridgeState (key value : string) : M (World S) unit := λ w,
  match set_state_err value with
  | Some e => (Err e, w)
  | None => (Ok tt, set_state (λ st, <[key := value]> st) w)
  end.

(** The loop over the operations: [rr] is parsed on the first one that needs
    it; the error of a record is logged and the record skipped. *)
Fixpoint handle_ops (c : ctx) (evt : Commit) (rr : option Repo) (processed : nat)
    (ops : list RepoOp) : M (World S) nat :=
  match ops with
  | [] => mret processed
  | op :: ops =>
      if bool_decide (Action op = "create") || bool_decide (Action op = "update") then
        match Cid op with
        | None => handle_ops c evt rr processed ops
        | Some cid =>
            rr ← match rr with
                 | Some rr => mret rr
                 | None => mwrap "parse commit: " (mlift (ParseCommit evt))
                 end;
            r ← mtry (processOp c rr (evt_Repo evt) (Path op) cid);
            handle_ops c evt (Some rr) (if is_ok r then 1 + processed else processed)%nat ops
        end
      else if bool_decide (Action op = "delete") then
        r ← mtry (processDeleteOp c (evt_Repo evt) (Path op) (evt_Seq evt));
        handle_ops c evt rr (if is_ok r then 1 + processed else processed)%nat ops
      else handle_ops c evt rr processed ops
  end.

(** [p.getRateLimiter(did)], then [lim.Allow()]: no limiter always allows. *)
Definition HandleCommit (c : ctx) (event : option Commit)
    : M (World S * RateLimiters L) unit :=
  match event with
  | None => mret tt
  | Some evt =>
      if bool_decide (evt_Repo evt = "") then mret tt
      else
        acc ← mwrap ("lookup bridged account " +:+ evt_Repo evt +:+ ": ")
                (mlift (env_account env (evt_Repo evt)));
        match acc with
        | None => mret tt
        | Some acc =>
            if acc_Active acc then
              t ← on_fst (now env);
              allowed ← on_snd (allow maxMessagesPerMinute t (evt_Repo evt));
              if (allowed : bool) then
                _ ← on_fst (handle_ops c evt None 0 (evt_Ops evt));
                if bool_decide (0 < evt_Seq evt) then
                  _ ← on_fst (mtry (SetBridgeState "firehose_seq" (itoa (evt_Seq evt))));
                  mret tt
                else mret tt
              else mret tt
            else mret tt
        end
  end.

(** ** The invariant *)
Section Invariant.
Context `{!MessageStoreLaws S} (P : msg → Prop) (J : ResolverState → gmap string string → Prop).
Hypothesis P_ok : ∀ p, payload_ok p → P p.
Hypothesis J_fresh : ∀ r st uri, J r st → J (add_scope uri r) st.
Notation Inv := (bridge_inv P J).
Hypothesis resolver_inv : ∀ ensure c uri,
  resolver = Some ensure → hoare Inv (ensure c uri) (λ _, True).

Lemma context_inv c uri : hoare Inv (ensureDependencyContext c uri) (λ _, True).
Proof using Type J_fresh.
  intros w Hw. split; [|done]. destruct c; simpl; [done|].
  destruct Hw as (? & ? & ? & ?). unfold bridge_inv. simpl. by auto.
Qed.

Lemma ensure_all_inv ensure c deps :
  resolver = Some ensure → hoare Inv (ensure_all ensure c deps) (λ _, True).
Proof using Type P_ok J_fresh resolver_inv.
  intros Hr. induction deps as [|[k v] deps IH]; simpl; [by apply hoare_ret|].
  apply (hoare_bind _ _ _ (λ _, True)); [|done].
  destruct (record_key k); [|by apply hoare_ret].
  eapply hoare_weaken; [by apply hoare_try, (resolver_inv _ c v Hr)|done].
Qed.

Lemma map_inv c atDID collection json deleted :
  hoare Inv (mapMappedRecord c atDID collection json deleted) (λ _, True).
Proof using Type P_ok J_fresh resolver_inv.
  unfold mapMappedRecord. apply (hoare_bind _ _ _ (λ _, True)); [by apply hoare_lift|].
  intros mapped _. apply (hoare_bind _ _ _ (λ _, True)); [by intros w Hw|].
  intros mapped' _. apply (hoare_bind _ _ _ (λ _, True)); [|by intros ? _ w Hw].
  apply hoare_wrap. unfold hydrateRecordDependencies.
  case_eq resolver; [intros ensure E|by intros _; apply hoare_ret].
  by apply ensure_all_inv.
Qed.

(** Lifecycle, then the write of the row it returns. *)
Lemma persist_inv m mapped blobErr ctx :
  SSBMsgRef m = "" → 0 <= PublishAttempts m →
  hoare Inv (r ← applyMappedMessageLifecycle env m mapped blobErr true;
             mwrap ctx (db_AddMessage env r.1)) (λ _, True).
Proof using Type P_ok.
  intros. eapply hoare_bind; [by apply lifecycle_inv|].
  intros r (Hr & _). by apply hoare_wrap, add_inv.
Qed.

Lemma process_record_inv c atDID atURI atCID collection json :
  hoare Inv (ProcessRecord c atDID atURI atCID collection json) (λ _, True).
Proof using Type P_ok J_fresh resolver_inv.
  unfold ProcessRecord. eapply hoare_bind; [apply context_inv|]. intros c' _.
  eapply hoare_bind; [apply hoare_wrap, get_inv|]. intros existing _.
  destruct (is_duplicate existing atCID); [by apply hoare_ret|].
  eapply hoare_bind; [apply hoare_wrap, map_inv|]. intros mapped _.
  destruct (tryBlobBridge _ _ _ _) as [mapped' blobErr].
  eapply (hoare_bind _ _ _ (λ _, True)); [by apply hoare_wrap, hoare_lift|]. intros raw _.
  by apply persist_inv.
Qed.

Lemma process_deleted_inv c atDID atURI atCID collection json seq :
  hoare Inv (ProcessDeletedRecord c atDID atURI atCID collection json seq) (λ _, True).
Proof using Type P_ok J_fresh resolver_inv.
  unfold ProcessDeletedRecord.
  eapply hoare_bind; [apply hoare_wrap, get_inv|]. intros existing _.
  eapply hoare_bind; [apply now_inv|]. intros t _.
  destruct (marks_only _ _).
  { apply hoare_wrap, add_inv. unfold row_ok. simpl. split_and!; try done. rewrite !elem_of_cons. auto 10. }
  eapply hoare_bind; [apply hoare_wrap, map_inv|]. intros mapped _.
  eapply (hoare_bind _ _ _ (λ _, True)); [by apply hoare_wrap, hoare_lift|]. intros raw _.
  by apply persist_inv.
Qed.

Lemma process_op_inv c rr atDID path cid :
  hoare Inv (processOp c rr atDID path cid) (λ _, True).
Proof using Type P_ok J_fresh resolver_inv.
  unfold processOp. repeat (hoare_step; try done).
  apply (hoare_bind _ _ _ (λ _, True)); [by apply hoare_wrap, hoare_lift|]. intros [cbor|] _.
  - apply (hoare_bind _ _ _ (λ _, True)); [by apply hoare_wrap, hoare_lift|].
    intros json _. apply process_record_inv.
  - by apply hoare_fail.
Qed.

Lemma process_delete_op_inv c atDID path seq :
  hoare Inv (processDeleteOp c atDID path seq) (λ _, True).
Proof using Type P_ok J_fresh resolver_inv. unfold processDeleteOp. repeat (hoare_step; try done). apply process_deleted_inv. Qed.

Lemma handle_ops_inv c evt rr n ops : hoare Inv (handle_ops c evt rr n ops) (λ _, True).
Proof using Type P_ok J_fresh resolver_inv.
  revert rr n. induction ops as [|op ops IH]; intros rr n; simpl; [by apply hoare_ret|].
  destruct (bool_decide _ || bool_decide _); [destruct (Cid op) as [cid|]|].
  - apply (hoare_bind _ _ _ (λ _, True)).
    { destruct rr; [by apply hoare_ret|by apply hoare_wrap, hoare_lift]. }
    intros r _. eapply hoare_bind; [apply hoare_try, process_op_inv|]. intros ? _. apply IH.
  - apply IH.
  - destruct (bool_decide _); [|apply IH].
    eapply hoare_bind; [apply hoare_try, process_delete_op_inv|]. intros ? _. apply IH.
Qed.
End Invariant.

(** ** What [ProcessRecord] does *)
Lemma context_frame c uri w c' w' :
  ensureDependencyContext c uri w = (Ok c', w') →
  w_store w' = w_store w ∧ w_published w' = w_published w ∧ w_state w' = w_state w.
Proof using Type. destruct c; simpl; intros [= <- <-]; done. Qed.

Lemma get_ok uri w r w' :
  db_GetMessage env uri w = (Ok r, w') →
  w' = w ∧ env_get_err env uri = None ∧ r = GetMessage uri (w_store w).
Proof using Type. unfold db_GetMessage. destruct (env_get_err env uri); intros [= <- <-]; done. Qed.

Lemma add_ok_inv m w w' :
  db_AddMessage env m w = (Ok tt, w') →
  ∃ t, w_store w' = AddMessage t m (w_store w) ∧ w_published w' = w_published w ∧
       w_state w' = w_state w.
Proof using Type.
  unfold db_AddMessage. rewrite mbind_ok. intros (t & w1 & [= <- <-] & Hw).
  unfold db_write in Hw. cbn [w_writes w_store w_clock] in Hw.
  destruct (env_add_err env _); simplify_eq. by eexists.
Qed.

(** A run that succeeds on a new version of a record: [w1] is the world after
    mapping and hydration, [m] the row written. *)
Definition processed (atURI atCID : string) w w' : Prop :=
  ∃ w1 m mapped m' o w2 t,
    lifecycle_spec env m mapped w1 m' o w2 ∧
    ATURI m = atURI ∧ ATCID m = atCID ∧ SSBMsgRef m = "" ∧
    w_store w' = AddMessage t m' (w_store w1) ∧ w_published w' = w_published w2.

Lemma process_record_ok c atDID atURI atCID collection json w w' :
  ProcessRecord c atDID atURI atCID collection json w = (Ok tt, w') →
  env_get_err env atURI = None ∧
  if is_duplicate (GetMessage atURI (w_store w)) atCID
  then w_store w' = w_store w ∧ w_published w' = w_published w
  else processed atURI atCID w w'.
Proof using Type.
  unfold ProcessRecord. rewrite mbind_ok. intros (c' & w0 & Hc & Hw).
  apply context_frame in Hc as (Es & Ep & _).
  apply mbind_ok in Hw as (existing & w1 & He & Hw).
  apply mwrap_ok, get_ok in He as (-> & Herr & ->). rewrite Es in Hw. split; [done|].
  destruct (is_duplicate _ _); [by injection Hw as <-|].
  apply mbind_ok in Hw as (mapped & w1 & _ & Hw).
  destruct (tryBlobBridge _ _ _ _) as [mapped' blobErr].
  apply mbind_ok in Hw as (raw & w2 & Hraw & Hw). apply mwrap_ok, mlift_ok in Hraw as [_ ->].
  apply mbind_ok in Hw as (r & w2 & Hr & Hw). apply mwrap_ok, add_ok_inv in Hw as (t & E1 & E2 & _).
  match type of Hr with applyMappedMessageLifecycle _ ?m _ _ _ _ = _ =>
    destruct (lifecycle_runs env m mapped' blobErr w1) as (m' & o & w3 & Hrun & Hspec)
  end.
  rewrite Hrun in Hr. simplify_eq. pose proof Hspec as (Est & _).
  eexists w1, _, mapped', m', o, _, t. split; [exact Hspec|]. rewrite E1, E2, Est. done.
Qed.

(** What the store holds for a processed record. *)
Lemma processed_row `{!MessageStoreLaws S} atURI atCID w w' :
  processed atURI atCID w w' →
  ∃ m, GetMessage atURI (w_store w') = Some m ∧ ATCID m = atCID ∧
    MessageState m ∈ [ MessageStateDeferred; MessageStatePending; MessageStateFailed;
                       MessageStatePublished ].
Proof using Type.
  intros (w1 & m & mapped & m' & o & w2 & t & (_ & _ & _ & _ & Est & Eu & Ec & _) &
          Hu & Hc & _ & -> & _).
  rewrite get_add, Eu, Hu, bool_decide_eq_true_2 by done. eexists. split; [done|].
  assert (blank (MessageState m') = false) as Hb by (rewrite Est; by destruct o).
  unfold normalize_message. rewrite Hb.
  destruct (GetMessage atURI (w_store w1)); simpl; rewrite Ec, Est; (split; [done|]);
    destruct o; simpl; rewrite !elem_of_cons; auto.
Qed.
End Processor.

(** ** Properties *)
Section Properties.
Context {S : Type} `{MessageStoreLaws S} `{RecordDecoder} (env : Env).
Variable resolver : option (ctx → string → M (World S) unit).
Implicit Types w : World S.

(** Replaying a record changes nothing: once [ProcessRecord] has succeeded
    and left the record in the log (a reference in its row), processing the
    same URI and CID again succeeds, writes no row and publishes nothing,
    whatever the other arguments and the collaborators do. *)
Theorem process_record_replay c did uri cid collection json w w1 m :
  ProcessRecord env resolver c did uri cid collection json w = (Ok tt, w1) →
  GetMessage uri (w_store w1) = Some m → blank (SSBMsgRef m) = false →
  blank cid = false →
  ∀ c' did' collection' json', ∃ w2,
    ProcessRecord env resolver c' did' uri cid collection' json' w1 = (Ok tt, w2) ∧
    w_store w2 = w_store w1 ∧ w_published w2 = w_published w1.
Proof.
  intros Hrun Hm Href Hcid c' did' collection' json'.
  apply process_record_ok in Hrun as [Herr Hrun].
  assert (is_duplicate (GetMessage uri (w_store w1)) cid = true) as Hdup.
  { destruct (is_duplicate (GetMessage uri (w_store w)) cid) eqn:E.
    - by destruct Hrun as [-> _].
    - destruct (processed_row env _ _ _ _ Hrun) as (m0 & Hm0 & Hc & _).
      rewrite Hm in Hm0. simplify_eq. rewrite Hm. unfold is_duplicate.
      rewrite Href, Hcid, bool_decide_eq_true_2 by done. done. }
  unfold ProcessRecord. unfold mbind, M_mbind.
  destruct (ensureDependencyContext c' uri w1) as [r w2] eqn:Ec.
  assert (∃ c2, r = Ok c2) as [c2 ->] by (destruct c'; simpl in Ec; naive_solver).
  apply context_frame in Ec as (Es & Ep & _).
  unfold mwrap, db_GetMessage. rewrite Herr. simpl. rewrite Es, Hdup.
  exists w2. done.
Qed.

Section Firehose.
Context {Repo L : Type} `{RateLimiter L}.
Context (maxMessagesPerMinute : Z) (GetRecordBytes : Repo → string → result (option string))
  (cborToJSON : string → result string) (set_state_err : string → option string)
  (ParseCommit : Commit → result Repo).
Notation handle_ops := (handle_ops env resolver GetRecordBytes cborToJSON ParseCommit).
Notation HandleCommit := (HandleCommit env resolver maxMessagesPerMinute GetRecordBytes
  cborToJSON set_state_err ParseCommit).

Lemma handle_ops_err c evt ops rr n w e w' :
  handle_ops c evt rr n ops w = (Err e, w') →
  rr = None ∧ ∃ e0, ParseCommit evt = Err e0 ∧ e = "parse commit: " +:+ e0.
Proof.
  revert rr n w. induction ops as [|op ops IH]; intros rr n w; [done|]. simpl.
  destruct (bool_decide _ || bool_decide _); [destruct (Cid op) as [cid|]; [|apply IH]|].
  - rewrite mbind_err. intros [Hp|(rr' & w1 & _ & Hk)].
    + destruct rr as [rr|]; [done|]. apply mwrap_err in Hp as (e0 & Hp & ->). injection Hp as Hp _. eauto.
    + apply mbind_err in Hk as [Hk|(a & w2 & _ & Hk)]; [by apply mtry_not_err in Hk|].
      by apply IH in Hk as [? _].
  - destruct (bool_decide _); [|apply IH].
    rewrite mbind_err. intros [Hk|(a & w2 & _ & Hk)]; [by apply mtry_not_err in Hk|].
    by apply IH in Hk.
Qed.

(** The error of a record never fails its commit: the only errors
    [HandleCommit] returns are those of the account lookup and of parsing the
    commit, so one bad record cannot make the firehose consumer stop or
    replay. *)
Theorem handle_commit_errors c evt (w w' : World S * RateLimiters L) e :
  HandleCommit c (Some evt) w = (Err e, w') →
  (∃ e0, env_account env (evt_Repo evt) = Err e0 ∧
         e = ("lookup bridged account " +:+ evt_Repo evt +:+ ": ") +:+ e0) ∨
  (∃ e0, ParseCommit evt = Err e0 ∧ e = "parse commit: " +:+ e0).
Proof.
  unfold HandleCommit. case_bool_decide; [done|]. rewrite mbind_err.
  intros [Ha|(acc & w1 & _ & Hk)].
  { left. apply mwrap_err in Ha as (e0 & Ha & ->). injection Ha as Ha _. eauto. }
  right. destruct acc as [acc|]; [|done]. destruct (acc_Active acc); [|done].
  apply mbind_err in Hk as [Hk|(t & w2 & _ & Hk)]; [done|].
  apply mbind_err in Hk as [Hk|(b & w3 & _ & Hk)].
  { destruct (allow_returns maxMessagesPerMinute t (evt_Repo evt) w2.2) as [b Hb].
    unfold on_snd in Hk. by rewrite Hb in Hk. }
  destruct b; [|done].
  apply mbind_err in Hk as [Hk|(n & w4 & _ & Hk)].
  { apply on_fst_err in Hk as [Hk _]. by apply handle_ops_err in Hk as [_ ?]. }
  destruct (bool_decide _); [|done].
  apply mbind_err in Hk as [Hk|(a & w5 & _ & Hk)]; [|done].
  apply on_fst_err in Hk as [Hk _]. by apply mtry_not_err in Hk.
Qed.

(** The bridge state is the cursor's alone. *)
Definition keeps_state (st : gmap string string) (_ : ResolverState)
    (st' : gmap string string) : Prop := st' = st.

(** The cursor: a commit of an active account that the rate limiter lets
    through leaves the sequence number of the commit in the bridge state,
    whether or not its records could be processed, in a form that reads back
    as the same number; it touches no other key. *)
Theorem handle_commit_cursor c evt acc (w w' : World S * RateLimiters L) :
  (∀ st ensure c uri, resolver = Some ensure →
     hoare (bridge_inv (λ _, True) (keeps_state st)) (ensure c uri) (λ _, True)) →
  bridge_inv (λ _, True) (λ _ _, True) w.1 →
  evt_Repo evt ≠ "" → env_account env (evt_Repo evt) = Ok (Some acc) →
  acc_Active acc = true →
  (allow maxMessagesPerMinute (env_now env (w_clock w.1)) (evt_Repo evt) w.2).1 = Ok true →
  0 < evt_Seq evt < 2 ^ 63 → (∀ v, set_state_err v = None) →
  HandleCommit c (Some evt) w = (Ok tt, w') →
  w_state w'.1 = <["firehose_seq" := itoa (evt_Seq evt)]> (w_state w.1) ∧
  ParseInt (itoa (evt_Seq evt)) = Some (evt_Seq evt).
Proof.
  intros Hres Hinv Hrepo Hacc Hact Hallow Hseq Hset. unfold HandleCommit.
  rewrite bool_decide_eq_false_2 by done. rewrite Hacc.
  rewrite mbind_ok. intros (acc' & w1 & Ha & Hk).
  apply mwrap_ok, mlift_ok in Ha as [[= <-] ->]. rewrite Hact in Hk.
  apply mbind_ok in Hk as (t & w2 & Ht & Hk). apply on_fst_ok in Ht as [Ht Et].
  injection Ht as <- Hw2.
  apply mbind_ok in Hk as (b & w3 & Hb & Hk). unfold on_snd in Hb.
  rewrite Et in Hb. rewrite Hallow in Hb. injection Hb as <- <-.
  apply mbind_ok in Hk as (n & w4 & Hops & Hk). apply on_fst_ok in Hops as [Hops _].
  simpl in Hops.
  assert (bridge_inv (λ _, True) (keeps_state (w_state w.1)) w2.1) as Hinv2.
  { rewrite <-Hw2. destruct Hinv as (? & ? & ? & ?). by split_and!. }
  pose proof (handle_ops_inv env resolver GetRecordBytes cborToJSON ParseCommit (λ _, True)
    (keeps_state (w_state w.1)) ltac:(done) ltac:(done) (Hres _) c evt None 0
    (evt_Ops evt) w2.1 Hinv2) as [Hpost _].
  rewrite Hops in Hpost. destruct Hpost as (_ & _ & _ & Hst). unfold keeps_state in Hst.
  simpl in Hst. rewrite bool_decide_eq_true_2 in Hk by lia.
  apply mbind_ok in Hk as (r & w5 & Hs & Hk). injection Hk as <-.
  apply on_fst_ok in Hs as [Hs _]. unfold mtry, SetBridgeState in Hs. rewrite Hset in Hs.
  injection Hs as _ Hs. rewrite <-Hs. simpl. rewrite Hst. split; [done|].
  apply ParseInt_itoa. lia.
Qed.
End Firehose.

(** The record type has a delete translation: an undo vote, or a contact
    message with [following] and [blocking] false. *)
Definition has_reversal (collection : string) : bool :=
  bool_decide (collection ∈ [RecordTypeLike; RecordTypeFollow; RecordTypeBlock]).

Lemma mapDelete_unsupported did collection json m :
  has_reversal collection = false → mapDeleteRecord did collection json ≠ Ok m.
Proof.
  unfold has_reversal. rewrite bool_decide_eq_false. intros Hc Hm.
  unfold mapDeleteRecord in Hm. apply result_bind_ok in Hm as (x & _ & Hm).
  rewrite !elem_of_cons, elem_of_nil in Hc.
  repeat case_bool_decide; simpl in *; try done; tauto.
Qed.

(** Deleting a record that is already in the table persists nothing when
    its collection has no delete translation (reposts, lists, list items,
    threadgates): the call fails, the row keeps its state, and nothing is
    published. *)
Theorem delete_without_reversal c did uri cid collection json seq w :
  has_reversal collection = false →
  marks_only collection (deleted_raw_json env (GetMessage uri (w_store w)) uri json seq)
    = false →
  let r := ProcessDeletedRecord env resolver c did uri cid collection json seq w in
  r.1 ≠ Ok tt ∧ w_store r.2 = w_store w ∧ w_published r.2 = w_published w.
Proof.
  intros Hc Hm. unfold ProcessDeletedRecord. unfold mbind, M_mbind, mwrap, db_GetMessage.
  destruct (env_get_err env uri) as [e|]; [done|]. simpl. rewrite Hm.
  unfold mapMappedRecord, mbind, M_mbind, mlift.
  destruct (mapDeleteRecord did collection _) as [x|e|] eqn:E; [|done|done].
  by apply mapDelete_unsupported in E.
Qed.

(** A delete that is only marked always lands when the store works: the
    row of the URI becomes [deleted] with the sequence number and no message
    reference, its counters are kept, and nothing is published. *)
Theorem delete_marks_row c did uri cid collection json seq w :
  marks_only collection (deleted_raw_json env (GetMessage uri (w_store w)) uri json seq)
    = true →
  env_get_err env uri = None → (∀ k, env_add_err env k = None) →
  let r := ProcessDeletedRecord env resolver c did uri cid collection json seq w in
  let old := GetMessage uri (w_store w) in
  r.1 = Ok tt ∧ w_published r.2 = w_published w ∧
  ∃ m, GetMessage uri (w_store r.2) = Some m ∧ MessageState m = MessageStateDeleted ∧
    DeletedSeq m = Some seq ∧ SSBMsgRef m = "" ∧ ATDID m = did ∧
    ATCID m = deleted_cid old cid seq ∧
    PublishAttempts m = default 0 (PublishAttempts <$> old).
Proof.
  intros Hm Hg Ha. unfold ProcessDeletedRecord. unfold mbind, M_mbind, mwrap, db_GetMessage.
  rewrite Hg. simpl. rewrite Hm. unfold db_AddMessage, db_write. unfold mbind, M_mbind. simpl.
  rewrite Ha. simpl. split_and!; try done. eexists. rewrite get_add. simpl.
  rewrite bool_decide_eq_true_2 by done. split; [done|].
  destruct (GetMessage uri (w_store w)); simpl; split_and!; try done; lia.
Qed.

(** Without a dependency resolver, [ProcessRecord] publishes at most one
    payload, only one free of placeholders and complete for its type; when it
    fails no row changes, and the only failure that follows a publish is that
    of the final write. *)
Theorem process_record_effects c did uri cid collection json w r w' :
  ProcessRecord env None c did uri cid collection json w = (r, w') →
  (w_published w' = w_published w ∨
   ∃ p, w_published w' = w_published w ++ [(did, p)] ∧ payload_ok p) ∧
  (r ≠ Ok tt → w_store w' = w_store w) ∧
  (r ≠ Ok tt → w_published w' ≠ w_published w →
     ∃ k e, env_add_err env k = Some e).
Proof.
  unfold ProcessRecord. unfold mbind, M_mbind.
  destruct (ensureDependencyContext c uri w) as [rc w0] eqn:Ec.
  assert (∃ c2, rc = Ok c2) as [c2 ->] by (destruct c; simpl in Ec; naive_solver).
  apply context_frame in Ec as (Es & Ep & _). rewrite <-Es, <-Ep. clear Es Ep.
  unfold mwrap, db_GetMessage. destruct (env_get_err env uri) as [e|]; simpl.
  { intros [= <- <-]. naive_solver. }
  destruct (is_duplicate _ _). { intros [= <- <-]. naive_solver. }
  unfold mapMappedRecord, mbind, M_mbind, mlift.
  destruct (MapRecord collection did json) as [mapped|e|]; simpl;
    [|intros [= <- <-]; naive_solver..].
  destruct (tryBlobBridge _ _ _ _) as [mapped' blobErr].
  destruct (env_marshal env mapped') as [raw|e|]; simpl; [|intros [= <- <-]; naive_solver..].
  match goal with |- context [applyMappedMessageLifecycle _ ?m _ _ _ _] =>
    destruct (lifecycle_runs env m mapped' blobErr w0) as (m' & o & w1 & -> & Hspec)
  end.
  unfold lifecycle_spec in Hspec. simpl in Hspec.
  destruct Hspec as (Es & _ & _ & _ & _ & _ & _ & Ho).
  assert (w_published w1 = w_published w0 ∨
    ∃ p, w_published w1 = w_published w0 ++ [(did, p)] ∧ payload_ok p) as Hpub.
  { destruct o; destruct_and! Ho; eauto; right; eexists; (split; [done|]); split; try done;
      intros k Hk; rewrite sanitize_lookup, Hk; done. }
  unfold db_AddMessage, db_write, mbind, M_mbind. simpl.
  destruct (env_add_err env (w_writes w1)) as [e|] eqn:Ew; intros [= <- <-]; simpl;
    split_and!; try done; eauto.
Qed.
End Properties.
