(* ===== verification/Dependencies.v ===== *)
(** * The dependency resolver ([internal/bridge/dependencies.go])

    [EnsureRecord] fetches a referenced record and hands it back to the
    processor, which may ensure the dependencies of that record in turn: the two
    are mutually recursive through the callback. *)
From S2P Require Import Prelude GoStr Mapper MessageDB Lifecycle RateLimit Processor.
#[local] Open Scope string_scope.
#[local] Open Scope list_scope.
#[local] Open Scope Z_scope.

Definition MaxDependencyDepth : nat := 16.
Definition maxDependencyRecords : Z := 256.

Record FetchedRecord := {
  rec_ATDID : string; rec_ATURI : string; rec_ATCID : string; rec_Collection : string;
  rec_RecordJSON : string
}.

(** [DependencyProcessFunc]: DID, URI, CID, collection, record. *)
Definition process_func (S : Type) : Type := ctx → string → string → string → string → string → M (World S) unit.

Section Resolver.
Context {S : Type} `{MessageStore S} `{RecordDecoder} (env : Env).
(** [r.fetcher.FetchRecord], which sees the fetches made before. *)
Variable FetchRecord : list (nat * string) → string → result FetchedRecord.
Implicit Types w : World S.

Definition visit (s : nat) (uri : string) (r : ResolverState) : ResolverState :=
  Build_ResolverState
    (alter (λ sc, {| rootURI := rootURI sc;
                     visitedRecords := {[uri]} ∪ visitedRecords sc;
                     fetchedRecords := fetchedRecords sc |}) s (scopes r))
    (fetches r) (inflight r).
Definition count_fetch (s : nat) (r : ResolverState) : ResolverState :=
  Build_ResolverState
    (alter (λ sc, {| rootURI := rootURI sc; visitedRecords := visitedRecords sc;
                     fetchedRecords := fetchedRecords sc + 1 |}) s (scopes r))
    (fetches r) (inflight r).

(** The child context, and whether the record was already visited. *)
Definition begin_at (atURI : string) (c : ctx) : M (World S) (ctx * bool) := λ w,
  match c with
  | None => (Err "dependency resolution context is missing", w)
  | Some frame =>
      match scopes (w_res w) !! frame_scope frame with
      | None => (Err "dependency resolution context is missing", w)
      | Some scope =>
          if bool_decide (MaxDependencyDepth < frame_depth frame + 1)%nat
          then (Err ("dependency depth exceeded for " +:+ atURI +:+ " (max=16)"), w)
          else if bool_decide (atURI ∈ visitedRecords scope) then (Ok (c, true), w)
          else (Ok (Some {| frame_scope := frame_scope frame;
                            frame_depth := (frame_depth frame + 1)%nat |}, false),
                set_res (visit (frame_scope frame) atURI) w)
      end
  end.
Definition beginDependencyRecord (c : ctx) (atURI : string) : M (World S) (ctx * bool) :=
  c ← ensureDependencyContext c "";
  begin_at atURI c.

Definition noteDependencyFetch (c : ctx) : M (World S) unit := λ w,
  match c with
  | None => (Ok tt, w)
  | Some frame =>
      match scopes (w_res w) !! frame_scope frame with
      | None => (Ok tt, w)
      | Some scope =>
          if bool_decide (maxDependencyRecords <= fetchedRecords scope)
          then (Err ("dependency fetch limit exceeded for " +:+ rootURI scope +:+
                     " (max=256)"), w)
          else (Ok tt, set_res (count_fetch (frame_scope frame)) w)
      end
  end.

(** The single-flight table: [true] when another call is in flight. *)
Definition acquire (atURI : string) : M (World S) bool := λ w,
  if bool_decide (atURI ∈ inflight (w_res w)) then (Ok true, w)
  else (Ok false, set_res (λ r, Build_ResolverState (scopes r) (fetches r)
                                  ({[atURI]} ∪ inflight r)) w).
(** [defer r.finish(...)]: runs however the call ends. *)
Definition with_finish {A} (atURI : string) (m : M (World S) A) : M (World S) A := λ w,
  let r := m w in
  (r.1, set_res (λ r, Build_ResolverState (scopes r) (fetches r) (inflight r ∖ {[atURI]})) r.2).

Definition remote_fetch (c : ctx) (atURI : string) : M (World S) FetchedRecord := λ w,
  (FetchRecord (fetches (w_res w)) atURI,
   set_res (λ r, Build_ResolverState (scopes r)
     (fetches r ++ [(match c with Some f => frame_scope f | None => 0%nat end, atURI)])
     (inflight r)) w).

(** A row whose record can be processed again from the table. *)
Definition reprocessable (m : Message) : bool :=
  (bool_decide (MessageState m = MessageStateDeferred) ||
   bool_decide (MessageState m = MessageStatePending)) &&
  negb (blank (RawATJson m)) && isSupportedCollection (Type_ m).

Definition fetch_and_process (process : option (process_func S)) (c : ctx) (atURI : string)
    : M (World S) unit :=
  noteDependencyFetch c;;
  fetched ← remote_fetch c atURI;
  if isSupportedCollection (rec_Collection fetched) then
    match process with
    | None => mfail "dependency processor callback is nil"
    | Some process =>
        process c (rec_ATDID fetched) (rec_ATURI fetched) (rec_ATCID fetched)
          (rec_Collection fetched) (rec_RecordJSON fetched)
    end
  else mfail ("unsupported dependency collection: " +:+ rec_Collection fetched).

Definition ensure_acquired (process : option (process_func S)) (c : ctx) (atURI : string)
    : M (World S) unit :=
  existing ← mwrap ("lookup local dependency " +:+ atURI +:+ ": ") (db_GetMessage env atURI);
  match existing with
  | None => fetch_and_process process c atURI
  | Some m =>
      if negb (blank (SSBMsgRef m)) then mret tt
      else if reprocessable m then
        match process with
        | None => mlift Panic
        | Some process =>
            process c (ATDID m) (ATURI m) (ATCID m) (Type_ m) (RawATJson m)
        end
      else if bool_decide (MessageState m = MessageStateFailed) then mret tt
      else fetch_and_process process c atURI
  end.

(** [wait]: what the call in flight on another goroutine returns. *)
Definition EnsureRecord (wait : string → M (World S) unit) (process : option (process_func S))
    (c : ctx) (atURI : string) : M (World S) unit :=
  let atURI := TrimSpace atURI in
  if bool_decide (atURI = "") then mfail "dependency at-uri is empty"
  else
    b ← beginDependencyRecord c atURI;
    let '(childCtx, skip) := b in
    if (skip : bool) then mret tt
    else
      busy ← acquire atURI;
      if (busy : bool) then wait atURI
      else with_finish atURI (ensure_acquired process childCtx atURI).

(** The resolver whose callback is [ProcessRecord] with that resolver: [fuel]
    bounds the nesting, [bottom] is what would happen below it. *)
Fixpoint ensure (wait : string → M (World S) unit) (bottom : ctx → string → M (World S) unit)
    (fuel : nat) (c : ctx) (atURI : string) : M (World S) unit :=
  match fuel with
  | O => bottom c atURI
  | Datatypes.S fuel =>
      EnsureRecord wait (Some (ProcessRecord env (Some (ensure wait bottom fuel)))) c atURI
  end.

(** ** The state of the resolver is well formed *)
Definition fetches_of (s : nat) (r : ResolverState) : list string :=
  (filter (λ p, p.1 = s) (fetches r)).*2.

(** A scope's counter counts its remote fetches, within the limit; it fetches
    no record twice and only records it has visited. *)
Definition scope_ok (r : ResolverState) (s : nat) (sc : dependencyScope) : Prop :=
  fetchedRecords sc <= maxDependencyRecords ∧
  Z.of_nat (length (fetches_of s r)) = fetchedRecords sc ∧
  NoDup (fetches_of s r) ∧
  (∀ u, u ∈ fetches_of s r → u ∈ visitedRecords sc).
Definition res_ok (r : ResolverState) : Prop :=
  (∀ s sc, scopes r !! s = Some sc → scope_ok r s sc) ∧
  (∀ p, p ∈ fetches r → (p.1 < length (scopes r))%nat).

(** Inside a call: the URIs in flight are [F], all visited in scope [s]. *)
Definition inside (s : nat) (F : gset string) (r : ResolverState)
    (_ : gmap string string) : Prop :=
  res_ok r ∧ inflight r = F ∧ ∃ sc, scopes r !! s = Some sc ∧ F ⊆ visitedRecords sc.
(** Between calls: nothing is in flight. *)
Definition at_rest (r : ResolverState) (_ : gmap string string) : Prop :=
  res_ok r ∧ inflight r = ∅.

Lemma fetches_of_fresh r : res_ok r → fetches_of (length (scopes r)) r = [].
Proof.
  intros [_ Hf]. unfold fetches_of.
  destruct (filter _ _) as [|p l] eqn:E; [done|].
  assert (p ∈ filter (λ p, p.1 = length (scopes r)) (fetches r)) as Hp by (rewrite E; left).
  apply list_elem_of_filter in Hp as [Hp Hin]. apply Hf in Hin. lia.
Qed.

Lemma res_ok_add_scope uri r : res_ok r → res_ok (add_scope uri r).
Proof.
  intros Hr. pose proof (fetches_of_fresh r Hr) as Hfresh. destruct Hr as [Hs Hf]. split.
  - intros s sc Hsc. simpl in Hsc. apply lookup_app_Some in Hsc as [Hsc|[Hge Hsc]].
    { by apply Hs in Hsc. }
    apply list_lookup_singleton_Some in Hsc as [Hs0 <-].
    assert (s = length (scopes r)) as -> by lia.
    unfold scope_ok, fetches_of in *. simpl. rewrite Hfresh. split_and!; try done.
    + constructor.
    + intros u Hu. by apply elem_of_nil in Hu.
  - intros p Hp. simpl. rewrite length_app. apply Hf in Hp. lia.
Qed.

Lemma inside_add_scope s F uri r st : inside s F r st → inside s F (add_scope uri r) st.
Proof.
  intros (Hr & Hi & sc & Hs & HF). split_and!; [by apply res_ok_add_scope|done|].
  exists sc. split; [|done]. simpl. by apply lookup_app_l_Some.
Qed.
Lemma at_rest_add_scope uri r st : at_rest r st → at_rest (add_scope uri r) st.
Proof. intros [Hr Hi]. by split; [apply res_ok_add_scope|]. Qed.
Lemma inside_at_rest s r st : inside s ∅ r st → at_rest r st.
Proof. intros (? & ? & ?). by split. Qed.
Lemma inside_fresh uri r st : at_rest r st → inside (length (scopes r)) ∅ (add_scope uri r) st.
Proof.
  intros [Hr Hi]. split_and!; [by apply res_ok_add_scope|done|].
  exists (fresh_scope uri). split; [|set_solver]. simpl. by rewrite list_lookup_middle.
Qed.

(** Visiting a record and taking it in flight. *)
Lemma inside_visit s F uri r st :
  inside s F r st →
  inside s ({[uri]} ∪ F)
    (Build_ResolverState (scopes (visit s uri r)) (fetches r) ({[uri]} ∪ F)) st.
Proof.
  intros ([Hs Hf] & Hi & sc & Hsc & HF). split_and!; [split|done|].
  - intros s' sc' Hsc'. simpl in Hsc'. destruct (decide (s' = s)) as [->|].
    + rewrite list_lookup_alter_eq, Hsc in Hsc'. simplify_eq/=.
      destruct (Hs s sc Hsc) as (? & ? & ? & Hv). split_and!; try done.
      intros u Hu. apply Hv in Hu. set_solver.
    + rewrite list_lookup_alter_ne in Hsc' by done. by apply Hs in Hsc'.
  - intros p Hp. simpl. rewrite length_alter. by apply Hf.
  - simpl. eexists. rewrite list_lookup_alter_eq, Hsc. split; [done|]. set_solver.
Qed.

Lemma inside_finish s F uri r st :
  uri ∉ F → inside s ({[uri]} ∪ F) r st →
  inside s F (Build_ResolverState (scopes r) (fetches r) (inflight r ∖ {[uri]})) st.
Proof.
  intros Hu (Hr & Hi & sc & Hsc & HF). split_and!; [done|simpl; rewrite Hi; set_solver|].
  exists sc. split; [done|set_solver].
Qed.

(** Counting a remote fetch and making it. *)
Lemma fetches_of_snoc s s' uri r sc_ i_ :
  fetches_of s' (Build_ResolverState sc_ (fetches r ++ [(s, uri)]) i_) =
    fetches_of s' r ++ if decide (s = s') then [uri] else [].
Proof.
  unfold fetches_of. simpl. rewrite list.filter_app, fmap_app. f_equal.
  rewrite list.filter_cons. simpl. by case_decide.
Qed.

Lemma inside_fetch s F uri r st sc :
  inside s F r st → uri ∈ F → uri ∉ fetches_of s r → scopes r !! s = Some sc →
  fetchedRecords sc < maxDependencyRecords →
  inside s F (Build_ResolverState (scopes (count_fetch s r)) (fetches r ++ [(s, uri)])
                (inflight r)) st.
Proof.
  intros ([Hs Hf] & Hi & sc0 & Hsc & HF) HuF Hnew Hsc0 Hlt.
  rewrite Hsc in Hsc0. simplify_eq. split_and!; [split|done|].
  - intros s' sc' Hsc'. simpl in Hsc'. unfold scope_ok. rewrite fetches_of_snoc.
    destruct (decide (s' = s)) as [->|].
    + rewrite list_lookup_alter_eq, Hsc in Hsc'. simplify_eq/=.
      destruct (Hs s sc Hsc) as (? & ? & ? & Hv). rewrite decide_True by done.
      split_and!; [lia|rewrite length_app; simpl; lia| |].
      * apply list.NoDup_app. split_and!; [done| |apply NoDup_singleton].
        intros x Hx ->%list_elem_of_singleton. done.
      * intros u [Hu| ->%list_elem_of_singleton]%elem_of_app; [by apply Hv|set_solver].
    + rewrite list_lookup_alter_ne in Hsc' by done. rewrite decide_False by done.
      rewrite app_nil_r. by apply Hs in Hsc'.
  - intros p. simpl. rewrite length_alter.
    intros [Hp| ->%list_elem_of_singleton]%elem_of_app; [by apply Hf|].
    simpl. by eapply lookup_lt_Some.
  - simpl. eexists. rewrite list_lookup_alter_eq, Hsc. split; [done|]. simpl. set_solver.
Qed.

(** ** The recursion is bounded and never waits on itself *)
Section Agreement.
Context `{!MessageStoreLaws S} (P : msg → Prop).
Hypothesis P_ok : ∀ p, payload_ok p → P p.
Notation Inv s F := (bridge_inv (S := S) P (inside s F)).

Lemma resolve_refs_agree s F mapped :
  agree (Inv s F) (resolveMappedRefs env mapped) (resolveMappedRefs env mapped) (λ _, True).
Proof using Type. by apply agree_refl; intros w Hw. Qed.

(** The processor uses its resolver with the context it was given only. *)
Lemma process_record_agree s F d (e1 e2 : ctx → string → M (World S) unit)
    did uri cid coll json :
  let c := Some {| frame_scope := s; frame_depth := d |} in
  (∀ u, agree (Inv s F) (e1 c u) (e2 c u) (λ _, True)) →
  agree (Inv s F) (ProcessRecord env (Some e1) c did uri cid coll json)
    (ProcessRecord env (Some e2) c did uri cid coll json) (λ _, True).
Proof using P_ok.
  intros c He. unfold ProcessRecord.
  apply (agree_bind _ _ _ _ _ (λ c', c' = c)).
  { apply agree_refl. intros w Hw. by split; [|intros ? [= <-]]. }
  intros ? ->. eapply agree_bind; [apply agree_refl, hoare_wrap, get_inv|].
  intros existing _. destruct (is_duplicate existing cid).
  { by apply agree_refl, hoare_ret. }
  apply (agree_bind _ _ _ _ _ (λ _, True)).
  - apply agree_wrap. unfold mapMappedRecord.
    apply (agree_bind _ _ _ _ _ (λ _, True)); [by apply agree_refl, hoare_lift|].
    intros m1 _. eapply agree_bind; [apply resolve_refs_agree|]. intros m2 _.
    apply (agree_bind _ _ _ _ _ (λ _, True)); [|intros _ _; apply resolve_refs_agree].
    apply agree_wrap. simpl. induction (unresolvedDependencies m2) as [|[k v] l IH]; simpl.
    { by apply agree_refl, hoare_ret. }
    apply (agree_bind _ _ _ _ _ (λ _, True)); [|done].
    destruct (record_key k); [|by apply agree_refl, hoare_ret].
    eapply agree_weaken; [apply agree_try, He|done].
  - intros mapped _. destruct (tryBlobBridge _ _ _ _ _) as [mapped' blobErr].
    apply (agree_bind _ _ _ _ _ (λ _, True)).
    { by apply agree_refl, hoare_wrap, hoare_lift. }
    intros raw _. by apply agree_refl, persist_inv.
Qed.

(** A call whose record is acquired, below the frame [c] of scope [s]. *)
Lemma ensure_acquired_agree s F d uri (p1 p2 : process_func S) w :
  let c := Some {| frame_scope := s; frame_depth := d |} in
  (∀ did u cid coll json,
     agree (Inv s F) (p1 c did u cid coll json) (p2 c did u cid coll json) (λ _, True)) →
  Inv s F w → uri ∈ F → uri ∉ fetches_of s (w_res w) →
  ensure_acquired (Some p1) c uri w =
    ensure_acquired (Some p2) c uri w ∧
  Inv s F (ensure_acquired (Some p1) c uri w).2.
Proof using Type.
  intros c Hp Hw HuF Hnew. unfold ensure_acquired.
  assert (∀ w', Inv s F w' → uri ∉ fetches_of s (w_res w') →
    fetch_and_process (Some p1) c uri w' =
      fetch_and_process (Some p2) c uri w' ∧
    Inv s F (fetch_and_process (Some p1) c uri w').2) as Hfetch.
  { clear w Hw Hnew. intros w (Hs & Hr & Hpub & Hin) Hnew.
    pose proof Hin as (_ & _ & sc & Hsc & _).
    unfold fetch_and_process. unfold mbind, M_mbind.
    unfold noteDependencyFetch. simpl. rewrite Hsc.
    case_bool_decide as Hlim; simpl; [done|].
    set (w1 := set_res _ (set_res _ w)).
    assert (Inv s F w1) as Hw1.
    { split_and!; try done. simpl. eapply inside_fetch; eauto. lia. }
    destruct (FetchRecord _ uri) as [f|e|]; simpl; [|done|done].
    destruct (isSupportedCollection _); [|done].
    destruct (Hp (rec_ATDID f) (rec_ATURI f) (rec_ATCID f) (rec_Collection f)
                (rec_RecordJSON f)) as [Heq Hh].
    split; [by apply Heq|]. by apply Hh. }
  unfold mbind, M_mbind, mwrap, db_GetMessage.
  destruct (env_get_err env uri) as [e|]; simpl; [done|].
  destruct (GetMessage uri (w_store w)) as [m|]; [|by apply Hfetch].
  destruct (negb _); [done|]. destruct (reprocessable m).
  - destruct (Hp (ATDID m) (ATURI m) (ATCID m) (Type_ m) (RawATJson m)) as [Heq Hh].
    split; [by apply Heq|]. by apply Hh.
  - destruct (bool_decide _); [done|]. by apply Hfetch.
Qed.

Lemma ensure_record_agree s F d uri wait1 wait2 (p1 p2 : process_func S) :
  let c k := Some {| frame_scope := s; frame_depth := k |} in
  ((d + 1 ≤ MaxDependencyDepth)%nat → ∀ did u cid coll json,
     agree (Inv s ({[TrimSpace uri]} ∪ F)) (p1 (c (d + 1)%nat) did u cid coll json)
       (p2 (c (d + 1)%nat) did u cid coll json) (λ _, True)) →
  agree (Inv s F) (EnsureRecord wait1 (Some p1) (c d) uri)
    (EnsureRecord wait2 (Some p2) (c d) uri) (λ _, True).
Proof using P_ok.
  intros c Hp. unfold EnsureRecord. set (u := TrimSpace uri) in *.
  assert (∀ w, Inv s F w →
    EnsureRecord wait1 (Some p1) (c d) uri w = EnsureRecord wait2 (Some p2) (c d) uri w ∧
    Inv s F (EnsureRecord wait1 (Some p1) (c d) uri w).2) as Hall.
  2:{ split; [intros w Hw; by apply Hall|]. intros w Hw. split; [by apply Hall|done]. }
  intros w Hw. unfold EnsureRecord. fold u. case_bool_decide as Hu; [done|].
  destruct Hw as (Hst & Hrow & Hpub & Hin).
  pose proof Hin as ((Hsc & _) & HF & sc & Hs & HFv).
  unfold beginDependencyRecord, mbind, M_mbind. simpl. rewrite Hs.
  case_bool_decide as Hd; simpl; [done|]. case_bool_decide as Hv; simpl; [done|].
  unfold acquire. simpl. rewrite HF, bool_decide_eq_false_2 by set_solver. simpl.
  set (w1 := set_res _ (set_res _ w)).
  assert (Inv s ({[u]} ∪ F) w1) as Hw1.
  { split_and!; try done. simpl. rewrite HF. by apply inside_visit. }
  destruct (ensure_acquired_agree s ({[u]} ∪ F) (d + 1)%nat u p1 p2 w1) as [Heq Hpost].
  - apply Hp. lia.
  - done.
  - set_solver.
  - intros Hf. apply Hv. by apply (Hsc s sc Hs).
  - unfold with_finish. unfold c. rewrite Heq in *. split; [done|].
    destruct Hpost as (? & ? & ? & Hin'). split_and!; try done. simpl.
    apply inside_finish; [set_solver|done].
Qed.

Variables (wait1 wait2 : string → M (World S) unit)
  (bottom1 bottom2 : ctx → string → M (World S) unit).

Lemma ensure_agree n1 n2 s F d uri :
  let c := Some {| frame_scope := s; frame_depth := d |} in
  (MaxDependencyDepth - d < n1)%nat → (MaxDependencyDepth - d < n2)%nat →
  agree (Inv s F) (ensure wait1 bottom1 n1 c uri) (ensure wait2 bottom2 n2 c uri)
    (λ _, True).
Proof using P_ok.
  revert n2 F d uri. induction n1 as [|n1 IH]; intros n2 F d uri c H1 H2; [lia|].
  destruct n2 as [|n2]; [lia|]. simpl. apply ensure_record_agree. intros Hd did u cid coll json.
  apply process_record_agree. intros u'. apply IH; lia.
Qed.

Lemma ensure_blank wait bottom n c uri w :
  TrimSpace uri = "" →
  ensure wait bottom (Datatypes.S n) c uri w = (Err "dependency at-uri is empty", w).
Proof using Type.
  intros Hu. cbn [ensure]. unfold EnsureRecord. by rewrite bool_decide_eq_true_2.
Qed.
Lemma ensure_missing wait bottom n s d uri w :
  TrimSpace uri ≠ "" → scopes (w_res w) !! s = None →
  ensure wait bottom (Datatypes.S n) (Some {| frame_scope := s; frame_depth := d |}) uri w =
    (Err "dependency resolution context is missing", w).
Proof using Type.
  intros Hu Hs. cbn [ensure]. unfold EnsureRecord. rewrite bool_decide_eq_false_2 by done.
  unfold beginDependencyRecord, mbind, M_mbind. simpl. by rewrite Hs.
Qed.
(** A call with no frame opens its own scope. *)
Lemma ensure_no_frame wait bottom n uri w :
  TrimSpace uri ≠ "" →
  ensure wait bottom (Datatypes.S n) None uri w =
    ensure wait bottom (Datatypes.S n)
      (Some {| frame_scope := length (w_scopes w); frame_depth := 0%nat |}) uri
      (set_res (add_scope (TrimSpace "")) w).
Proof using Type.
  intros Hu. cbn [ensure]. unfold EnsureRecord. by rewrite bool_decide_eq_false_2.
Qed.

Lemma ensure_at_rest n1 n2 c uri :
  (MaxDependencyDepth < n1)%nat → (MaxDependencyDepth < n2)%nat →
  agree (bridge_inv P at_rest) (ensure wait1 bottom1 n1 c uri)
    (ensure wait2 bottom2 n2 c uri) (λ _, True).
Proof using P_ok.
  intros H1 H2.
  assert (∀ s d w, Inv s ∅ w → let c := Some {| frame_scope := s; frame_depth := d |} in
    ensure wait1 bottom1 n1 c uri w = ensure wait2 bottom2 n2 c uri w ∧
    bridge_inv P at_rest (ensure wait1 bottom1 n1 c uri w).2) as Hframe.
  { intros s d w Hw c'.
    destruct (ensure_agree n1 n2 s ∅ d uri) as [Heq Hh]; [lia..|].
    split; [by apply Heq|]. destruct (Hh w Hw) as [(? & ? & ? & Hin) _].
    split_and!; try done; by eapply inside_at_rest. }
  assert (∀ w, bridge_inv P at_rest w →
    ensure wait1 bottom1 n1 c uri w = ensure wait2 bottom2 n2 c uri w ∧
    bridge_inv P at_rest (ensure wait1 bottom1 n1 c uri w).2) as Hall.
  2:{ split; [intros w Hw; by apply Hall|]. intros w Hw. split; [by apply Hall|done]. }
  intros w Hw. destruct n1 as [|n1], n2 as [|n2]; [lia..|].
  destruct (decide (TrimSpace uri = "")) as [Hu|Hu].
  { rewrite (ensure_blank _ _ n1), (ensure_blank _ _ n2) by exact Hu.
    split; [reflexivity|exact Hw]. }
  destruct Hw as (Hst & Hrow & Hpub & Hrest).
  destruct c as [[s d]|].
  - destruct (scopes (w_res w) !! s) as [sc|] eqn:Hs.
    + apply Hframe. split_and!; try done. destruct Hrest as [Hr Hi]. split_and!; try done.
      exists sc. split; [done|apply empty_subseteq].
    + rewrite (ensure_missing _ _ n1), (ensure_missing _ _ n2) by assumption.
      split; [reflexivity|]. by split_and!.
  - rewrite (ensure_no_frame _ _ n1), (ensure_no_frame _ _ n2) by assumption.
    apply Hframe.
    split_and!; try done. by apply inside_fresh.
Qed.
End Agreement.
End Resolver.

(** ** Properties *)

(** More nesting than the depth guard allows. *)
Definition resolver_fuel : nat := 1 + MaxDependencyDepth.

Lemma ensure_inv {S : Type} `{MessageStoreLaws S} `{RecordDecoder} env FetchRecord
    (P : msg → Prop) wait bottom n c uri :
  (∀ p, payload_ok p → P p) → (resolver_fuel ≤ n)%nat →
  hoare (bridge_inv P at_rest) (ensure env FetchRecord wait bottom n c uri) (λ _, True).
Proof.
  intros HP Hn. unfold resolver_fuel in Hn.
  apply (ensure_at_rest env FetchRecord P HP wait wait bottom bottom n n); lia.
Qed.

(** C32. Resolving a dependency terminates and never waits on itself: with
    nothing in flight, [EnsureRecord] nests at most sixteen levels deep whatever
    records refer to each other (cycles included), so its outcome depends neither
    on what lies below the guard nor on a call in flight of its own. *)
Theorem ensure_record_terminates {S : Type} `{MessageStoreLaws S} `{RecordDecoder} env FetchRecord
    wait1 wait2 bottom1 bottom2 n1 n2 c uri (w : World S) :
  bridge_inv (λ _, True) at_rest w →
  (resolver_fuel ≤ n1)%nat → (resolver_fuel ≤ n2)%nat →
  ensure env FetchRecord wait1 bottom1 n1 c uri w =
  ensure env FetchRecord wait2 bottom2 n2 c uri w.
Proof.
  intros Hw Hn1 Hn2. unfold resolver_fuel in *.
  apply (ensure_at_rest env FetchRecord (λ _, True)); [done|lia|lia|done].
Qed.
