(* ===== verification/Identity.v ===== *)
(** * Identities and hosts (pkg/atproto/identity/identity.go, internal/backfill/pds.go)

    DIDs and handles are resolved to the documents that name the server of an
    account. HTTP, DNS and JSON are arguments. *)
From S2P Require Import Prelude GoStr Regex AtSyntax.
#[local] Open Scope string_scope.
#[local] Open Scope list_scope.
#[local] Open Scope Z_scope.

(** The errors that callers recognise with [errors.Is], and the status and the text
    of a wrapped [xrpc.Error]. *)
Inductive Sentinel := ErrDIDNotFound | ErrDIDResolutionFailed | ErrHandleResolutionError | ErrHandleMismatch
  | ErrUnsupportedDIDMethod | ErrMissingPDSEndpoint | ErrInvalidPDSEndpoint.
#[export] Instance Sentinel_eq_dec : EqDecision Sentinel.
Proof. solve_decision. Defined.
Record xrpcError := { StatusCode : Z; Wrapped : option string }.
Record IdErr := { text : string; kinds : list Sentinel; xerr : option xrpcError }.
Definition plain_err (t : string) : IdErr := {| text := t; kinds := []; xerr := None |}.
Definition kind_err (k : Sentinel) (t : string) : IdErr := {| text := t; kinds := [k]; xerr := None |}.
Definition wrap_id (ctx : string) (e : IdErr) : IdErr := {| text := ctx +:+ text e; kinds := kinds e; xerr := xerr e |}.
(** [fmt.Errorf("%w: %w", k, err)] *)
Definition also (k : Sentinel) (ctx : string) (e : IdErr) : IdErr := {| text := ctx +:+ text e; kinds := k :: kinds e; xerr := xerr e |}.
Definition Is (e : IdErr) (k : Sentinel) : bool := bool_decide (k ∈ kinds e).

(** A call with such an error. *)
Definition fallible (A : Type) : Type := IdErr + A.
#[global] Instance fallible_mret : MRet fallible := @inr IdErr.
#[global] Instance fallible_mbind : MBind fallible := λ A B k m, match m with inl e => inl e | inr a => k a end.
Definition map_err {A} (f : IdErr → IdErr) (m : fallible A) : fallible A := match m with inl e => inl (f e) | inr a => inr a end.
(** The parsers of AtSyntax; they do not panic. *)
Definition parsed {A} (r : result A) : fallible A := match r with Ok a => inr a | Err e => inl (plain_err e) | Panic => inl (plain_err "") end.

Record DIDDocumentService := { svc_ID : string; svc_Type : string; ServiceEndpoint : string }.
Record DIDDocument := { doc_ID : string; AlsoKnownAs : list string; Service : list DIDDocumentService }.
Record ResolvedIdentity := { id_DID : string; id_Handle : string; Document : option DIDDocument; id_PDSURL : string }.

Definition is_slash (c : ascii) : bool := Ascii.eqb c "/".
Definition HasSuffix (s suffix : string) : bool :=
  bool_decide (drop (List.length (to_l s) - List.length (to_l suffix)) (to_l s) = to_l suffix).

(** [d.read]: the body of a page, at most a megabyte, and the status; [json.Unmarshal]
    of a document; the TXT records of a name. *)
Record Network := { http_read : string → fallible (string * Z); decode_document : string → option DIDDocument;
  LookupTXT : string → fallible (list string) }.

Definition defaultPLCURL (raw : string) : string := if blank raw then "https://plc.directory" else raw.
Definition didWebURL (did : string) : string :=
  match Split (TrimPrefix did "did:web:") ":" with
  | [] => ""
  | [host] => "https://" +:+ host +:+ "/.well-known/did.json"
  | host :: path => "https://" +:+ host +:+ "/" +:+ Join path "/" +:+ "/did.json"
  end.
(** The first service with an endpoint whose name ends in the fragment. *)
Fixpoint first_endpoint (l : list DIDDocumentService) : string :=
  match l with
  | [] => ""
  | svc :: l =>
      if HasSuffix (TrimSpace (svc_ID svc)) "#atproto_pds" && negb (blank (ServiceEndpoint svc))
      then TrimRight is_slash (TrimSpace (ServiceEndpoint svc)) else first_endpoint l
  end.
Definition document_endpoint (doc : option DIDDocument) : string :=
  match doc with None => "" | Some d => first_endpoint (Service d) end.

Section Identity.
Context `{UnicodeCase} (net : Network) (PLCURL : string).

Definition resolveJSON (url : string) : fallible DIDDocument :=
  '(body, status) ← map_err (wrap_id "DID resolution failed: ") (http_read net url);
  if bool_decide (status = 200) then
    match decode_document net body with Some doc => mret doc | None => inl (plain_err "decode DID document") end
  else if bool_decide (status = 404) then inl (kind_err ErrDIDNotFound "did not found")
  else inl (kind_err ErrDIDResolutionFailed ("did resolution failed: status=" +:+ itoa status)).

Definition ResolveDID (did : string) : fallible DIDDocument :=
  if bool_decide (Method did = "plc") then resolveJSON (TrimRight is_slash (TrimSpace (defaultPLCURL PLCURL)) +:+ "/" +:+ did)
  else if bool_decide (Method did = "web") then resolveJSON (didWebURL did)
  else inl (kind_err ErrDIDResolutionFailed ("did resolution failed: unsupported did method " +:+ Quote (Method did))).

Definition resolveHandleHTTPS (handle : string) : fallible string :=
  '(body, status) ← map_err (wrap_id ("handle resolution failed for " +:+ handle +:+ ": "))
    (http_read net ("https://" +:+ handle +:+ "/.well-known/atproto-did"));
  if bool_decide (status = 200) then parsed (ParseDID (TrimSpace body))
  else inl (plain_err ("handle resolution for " +:+ handle +:+ " returned status " +:+ itoa status)).
Fixpoint did_of_txts (handle : string) (txts : list string) : fallible string :=
  match txts with
  | [] => inl (kind_err ErrHandleResolutionError ("handle resolution failed: no did record for " +:+ handle))
  | txt :: txts => if HasPrefix txt "did=" then parsed (ParseDID (TrimPrefix txt "did=")) else did_of_txts handle txts
  end.
Definition ResolveHandle (handle : string) : fallible string :=
  match resolveHandleHTTPS handle with
  | inr did => mret did
  | inl _ =>
      txts ← map_err (wrap_id ("handle resolution failed for " +:+ handle +:+ ": ")) (LookupTXT net ("_atproto." +:+ handle));
      did_of_txts handle txts
  end.

Definition VerifyHandleDocument (handle did : string) (doc : option DIDDocument) : fallible unit :=
  let expected := "at://" +:+ handle in
  match doc with
  | None => inl (kind_err ErrHandleMismatch "handle did mismatch: did document id mismatch")
  | Some d =>
      if negb (bool_decide (TrimSpace (doc_ID d) = did)) then inl (kind_err ErrHandleMismatch "handle did mismatch: did document id mismatch")
      else if existsb (λ alias, EqualFold (TrimSpace alias) expected) (AlsoKnownAs d) then mret tt
      else inl (kind_err ErrHandleMismatch ("handle did mismatch: " +:+ expected +:+ " not present in alsoKnownAs"))
  end.

Definition ResolveIdentity (identifier : string) : fallible ResolvedIdentity :=
  if HasPrefix (TrimSpace identifier) "did:" then
    did ← parsed (ParseDID identifier);
    doc ← ResolveDID did;
    mret {| id_DID := did; id_Handle := ""; Document := Some doc; id_PDSURL := document_endpoint (Some doc) |}
  else
    handle ← parsed (ParseHandle identifier);
    did ← ResolveHandle handle;
    doc ← ResolveDID did;
    _ ← VerifyHandleDocument handle did (Some doc);
    mret {| id_DID := did; id_Handle := handle; Document := Some doc; id_PDSURL := document_endpoint (Some doc) |}.
End Identity.

(** ** The host of a repository (internal/backfill/pds.go) *)
Inductive DIDStatus := StatusSuccess | StatusAuthRequired | StatusNotFound | StatusMalformedDIDDoc | StatusUnsupportedDID | StatusTransportError.
#[export] Instance DIDStatus_eq_dec : EqDecision DIDStatus.
Proof. solve_decision. Defined.

(** [url.Parse]: scheme, host, and the printed URL without query and fragment. *)
Record URL := { Scheme : string; url_Host : string; bare : string }.

Fixpoint service_endpoint (l : list DIDDocumentService) : fallible string :=
  match l with
  | [] => inl (kind_err ErrMissingPDSEndpoint "missing atproto_pds service endpoint")
  | svc :: l =>
      match SplitN (svc_ID svc) "#" 2 with
      | [_; fragment] =>
          if negb (bool_decide (fragment = "atproto_pds")) then service_endpoint l
          else if blank (ServiceEndpoint svc) then inl (kind_err ErrMissingPDSEndpoint "missing atproto_pds service endpoint: empty endpoint")
          else mret (ServiceEndpoint svc)
      | _ => service_endpoint l
      end
  end.
Definition extractPDSEndpoint (doc : option DIDDocument) : fallible string :=
  match doc with
  | None => inl (kind_err ErrMissingPDSEndpoint "missing atproto_pds service endpoint: nil DID document")
  | Some d => service_endpoint (Service d)
  end.

Section Hosts.
Context `{UnicodeCase} (url_Parse : string → fallible URL).
Definition NormalizeServiceEndpoint (raw : string) : fallible string :=
  let trimmed := TrimSpace raw in
  if bool_decide (trimmed = "") then inl (kind_err ErrInvalidPDSEndpoint "invalid atproto_pds service endpoint: empty endpoint")
  else
    u ← map_err (also ErrInvalidPDSEndpoint "invalid atproto_pds service endpoint: ") (url_Parse trimmed);
    if negb (bool_decide (Scheme u = "https")) && negb (bool_decide (Scheme u = "http"))
    then inl (kind_err ErrInvalidPDSEndpoint ("invalid atproto_pds service endpoint: unsupported scheme " +:+ Quote (Scheme u)))
    else if blank (url_Host u) then inl (kind_err ErrInvalidPDSEndpoint "invalid atproto_pds service endpoint: missing host")
    else mret (TrimRight is_slash (bare u)).

Definition FixedHostResolver (Host : string) (_ : string) : fallible string := NormalizeServiceEndpoint Host.
Definition DIDPDSResolver (net : Network) (PLCURL did : string) : fallible string :=
  parsed_did ← map_err (also ErrUnsupportedDIDMethod "unsupported DID method: ") (parsed (ParseDID (TrimSpace did)));
  if negb (bool_decide (Method parsed_did = "plc")) then inl (kind_err ErrUnsupportedDIDMethod ("unsupported DID method: " +:+ Method parsed_did))
  else
    doc ← ResolveDID net (TrimRight is_slash (TrimSpace PLCURL)) parsed_did;
    rawEndpoint ← extractPDSEndpoint (Some doc);
    NormalizeServiceEndpoint rawEndpoint.

Definition classifyDIDResult (err : option IdErr) : DIDStatus :=
  match err with
  | None => StatusSuccess
  | Some e =>
      if Is e ErrUnsupportedDIDMethod then StatusUnsupportedDID
      else if Is e ErrMissingPDSEndpoint || Is e ErrInvalidPDSEndpoint || Is e ErrDIDResolutionFailed then StatusMalformedDIDDoc
      else if Is e ErrDIDNotFound then StatusNotFound
      else match xerr e with
      | Some x =>
          if bool_decide (StatusCode x = 401 ∨ StatusCode x = 403) then StatusAuthRequired
          else if bool_decide (StatusCode x = 404) then
            match Wrapped x with
            | Some w => if Contains (ToLower w) "failed to decode xrpc error message" then StatusTransportError else StatusNotFound
            | None => StatusNotFound
            end
          else StatusTransportError
      | None => StatusTransportError
      end
  end.
End Hosts.

(** ** Suffixes and cuts *)
Lemma HasSuffix_iff s t : HasSuffix s t = true ↔ ∃ p, to_l s = p ++ to_l t.
Proof.
  unfold HasSuffix. rewrite bool_decide_eq_true. split.
  - intros Hd. exists (take (List.length (to_l s) - List.length (to_l t)) (to_l s)). rewrite <-Hd at 2. by rewrite take_drop.
  - intros [p Hp]. rewrite Hp, length_app. replace (_ + _ - _)%nat with (List.length p) by lia. by rewrite drop_app_length.
Qed.
Lemma last_sep {A} (c : A) p q x y : c ∉ x → c ∉ y → p ++ c :: x = q ++ c :: y → p = q ∧ x = y.
Proof.
  intros Hx Hy. revert q. induction p as [|a p IH]; intros [|b q] Heq; simplify_eq/=.
  - done.
  - exfalso. apply Hx. rewrite elem_of_app. right. left.
  - exfalso. apply Hy. rewrite elem_of_app. right. left.
  - by destruct (IH q) as [-> ->].
Qed.
Lemma cut_at_app c x y : lacks c x = true → cut_at c (x +:+ String c y) = Some (x, y).
Proof.
  induction x as [|a x IH]; [intros _; simpl; by rewrite Ascii.eqb_refl|]. rewrite string_app_cons. simpl.
  destruct (Ascii.eqb a c); [done|]. intros Hx%IH. by rewrite Hx.
Qed.
Lemma cut_at_lacks c x : lacks c x = true → cut_at c x = None.
Proof. induction x as [|a x IH]; [done|]. simpl. destruct (Ascii.eqb a c); [done|]. intros Hx%IH. by rewrite Hx. Qed.

(** A name as documents have them: no white space around it and at most one number
    sign. *)
Definition well_named (svc : DIDDocumentService) : Prop :=
  TrimSpace (svc_ID svc) = svc_ID svc ∧
  (lacks "#" (svc_ID svc) = true ∨ ∃ pre frag, svc_ID svc = pre +:+ String "#" frag ∧ lacks "#" pre = true ∧ lacks "#" frag = true).
Lemma named_fragment svc : well_named svc →
  (HasSuffix (TrimSpace (svc_ID svc)) "#atproto_pds" = true ↔ ∃ pre, SplitN (svc_ID svc) "#" 2 = [pre; "atproto_pds"]).
Proof.
  intros [-> Hn]. rewrite HasSuffix_iff. destruct Hn as [Hl|(pre & frag & -> & Hp & Hf)].
  - cbn [SplitN]. rewrite (cut_at_lacks _ _ Hl). split; [|by intros [? ?]]. intros [p Hp].
    apply lacks_not_elem in Hl. exfalso. apply Hl. rewrite Hp. apply elem_of_app. right. left.
  - cbn [SplitN]. rewrite (cut_at_app _ _ _ Hp), to_l_app. split.
    + intros [p Hq]. exists pre. enough (frag = "atproto_pds") as -> by done.
      change (to_l (String "#" frag)) with ("#"%char :: to_l frag) in Hq. change (to_l "#atproto_pds") with ("#"%char :: to_l "atproto_pds") in Hq.
      apply lacks_not_elem in Hf. assert ("#"%char ∉ to_l "atproto_pds") as Hs by (apply lacks_not_elem; reflexivity).
      apply last_sep in Hq as [_ Hq]; [|done..]. rewrite <-(of_to_l frag), Hq. apply of_to_l.
    + intros [x [= <- ->]]. by exists (to_l pre).
Qed.

(** ** Properties *)
Section Properties.
Context `{UnicodeCase} (net : Network) (PLCURL : string).

(** A handle is resolved to an account only if the account claims the handle: the
    document of the DID names the DID as its own and lists the handle. *)
Theorem handle_is_verified identifier r :
  HasPrefix (TrimSpace identifier) "did:" = false → ResolveIdentity net PLCURL identifier = inr r →
  ParseHandle identifier = Ok (id_Handle r) ∧
  ∃ doc, Document r = Some doc ∧ ResolveDID net PLCURL (id_DID r) = inr doc ∧ TrimSpace (doc_ID doc) = id_DID r ∧
    ∃ alias, alias ∈ AlsoKnownAs doc ∧ EqualFold (TrimSpace alias) ("at://" +:+ id_Handle r) = true.
Proof.
  intros Hp. unfold ResolveIdentity. rewrite Hp. destruct (ParseHandle identifier) as [handle|e|]; [|done..]. cbn [parsed mbind fallible_mbind].
  destruct (ResolveHandle net handle) as [e|did]; [done|]. cbn. destruct (ResolveDID net PLCURL did) as [e|doc] eqn:Hd; [done|]. cbn.
  case_bool_decide as Hid; [|done]. cbn. destruct (existsb _ _) eqn:Hex; [|done]. intros [= <-]. cbn. split; [done|].
  exists doc. split_and!; try done. apply existsb_exists in Hex as (alias & Hin & Heq). exists alias. split; [by apply list_elem_of_In|done].
Qed.

(** The two searches for the server of an account agree: the endpoint the backfill
    finds in a document is the one the resolved identity has. *)
Theorem endpoints_agree l e : Forall well_named l → service_endpoint l = inr e → first_endpoint l = TrimRight is_slash (TrimSpace e).
Proof.
  induction 1 as [|svc l Hsvc _ IH]; [done|]. cbn [service_endpoint first_endpoint]. pose proof (named_fragment svc Hsvc) as Hn.
  destruct (HasSuffix (TrimSpace (svc_ID svc)) "#atproto_pds").
  - destruct (proj1 Hn eq_refl) as [pre ->]. cbn. by destruct (blank (ServiceEndpoint svc)); [|intros [= <-]].
  - cbn [andb]. destruct (SplitN (svc_ID svc) "#" 2) as [|x [|frag [|]]]; try done. case_bool_decide; [|done]. subst.
    by destruct (proj2 Hn (ex_intro _ _ eq_refl)).
Qed.

(** When the directory is out of order (a status other than 200 and 404), a backfill
    blames the account: its DID document is reported as malformed, not the transport
    as broken. *)
Theorem outage_is_blamed_on_the_account url_Parse did d body status :
  ParseDID (TrimSpace did) = Ok d → Method d = "plc" → status ≠ 200 → status ≠ 404 →
  (∀ url, http_read net url = inr (body, status)) →
  ∃ e, DIDPDSResolver url_Parse net PLCURL did = inl e ∧ classifyDIDResult (Some e) = StatusMalformedDIDDoc.
Proof.
  intros Hd Hm H1 H2 Hr. assert (bool_decide ("plc" = "plc") = true) as Hplc by done.
  unfold DIDPDSResolver, ResolveDID, resolveJSON. rewrite Hd. cbn. rewrite Hm, Hplc, Hr. cbn. rewrite !bool_decide_eq_false_2 by done. cbn.
  eexists. split; done.
Qed.
End Properties.
