(* ===== verification/RecordFetch.v ===== *)
(** * Fetching one record (pkg/atproto/atproto.go, internal/bridge/dependencies.go)

    The dependency resolver asks a server for the record of an AT-URI. What it
    stores the answer under is taken from the answer. *)
From S2P Require Import Prelude GoStr Regex AtSyntax MessageDB Lifecycle Processor Dependencies.
#[local] Open Scope string_scope.
#[local] Open Scope list_scope.
#[local] Open Scope Z_scope.

Section RecordFetch.
Context `{UnicodeCase}.
(** Decoded record values, [json.Marshal] of one, and the answers of
    com.atproto.repo.getRecord. *)
Context {Value : Type} (Marshal : Value → result string).

Record RepoGetRecord_Output := { out_Cid : option string; out_Uri : string; out_Value : option Value }.

(** [lexutil.LexClient]: the fixed client of the process or [xrpc.Client{Host: pdsHost}]. *)
Inductive LexClient := Fixed | Host (pdsHost : string).
(** [client.LexDo] of com.atproto.repo.getRecord: collection, repo, rkey. *)
Context (LexDo : LexClient → string → string → string → result RepoGetRecord_Output).
(** [HostResolver], when there is one. *)
Context (resolver : option (string → result string)).

Definition RepoGetRecord (client : LexClient) (collection repo rkey : string) : result RepoGetRecord_Output :=
  match ParseDID repo, ParseHandle repo with
  | Err e, Err _ => Err ("repo must be valid DID or handle: " +:+ e)
  | _, _ =>
      _ ← wrap "collection must be valid NSID: " (ParseNSID collection);
      _ ← wrap "rkey must be valid record key: " (ParseRecordKey rkey);
      LexDo client collection repo rkey
  end.

Definition resolveClient (did : string) : LexClient :=
  match resolver with
  | None => Fixed
  | Some ResolvePDSEndpoint =>
      match ResolvePDSEndpoint did with
      | Ok pdsHost => if blank pdsHost then Fixed else Host pdsHost
      | _ => Fixed
      end
  end.

(** The body the two fetchers share; [client] picks the client for a repository. *)
Definition fetch_record (client : string → LexClient) (atURI : string) : result FetchedRecord :=
  parsed ← wrap ("parse dependency at-uri " +:+ Quote atURI +:+ ": ") (ParseATURI (TrimSpace atURI));
  let collection := Collection parsed in
  let rkey := RecordKey parsed in
  let repo := Authority parsed in
  if bool_decide (collection = "" ∨ rkey = "" ∨ repo = "")
  then Err ("dependency at-uri " +:+ Quote atURI +:+ " is missing repo/collection/rkey")
  else
    out ← wrap ("repo.getRecord " +:+ Quote atURI +:+ ": ") (RepoGetRecord (client repo) collection repo rkey);
    match out_Value out with
    | None => Err ("repo.getRecord " +:+ Quote atURI +:+ " returned no record payload")
    | Some val =>
        recordJSON ← wrap ("marshal repo.getRecord payload " +:+ Quote atURI +:+ ": ") (Marshal val);
        let fetchedURI := TrimSpace (out_Uri out) in
        let fetchedURI := if bool_decide (fetchedURI = "") then ATURI_String (Normalize parsed) else fetchedURI in
        let fetchedDID := match ParseATURI fetchedURI with Ok normalized => Authority normalized | _ => repo end in
        let atCID := match out_Cid out with Some c => TrimSpace c | None => "" end in
        mret {| rec_ATDID := fetchedDID; rec_ATURI := fetchedURI; rec_ATCID := atCID;
                rec_Collection := collection; rec_RecordJSON := recordJSON |}
    end.
(** [PDSAwareRecordFetcher.FetchRecord] *)
Definition PDSAware_FetchRecord : string → result FetchedRecord := fetch_record resolveClient.
(** [XRPCRecordFetcher.FetchRecord] with a client. *)
Definition XRPC_FetchRecord : string → result FetchedRecord := fetch_record (λ _, Fixed).

Lemma wrap_ok_eq {A} pre (a : A) : wrap pre (Ok a) = Ok a.
Proof. done. Qed.
Lemma bind_ok_eq {A B} (a : A) (k : A → result B) : Ok a ≫= k = k a.
Proof. done. Qed.

(** A valid authority passes the check of the request. *)
Lemma authority_passes a : is_ok (check_authority a) = true → is_ok (ParseDID a) = true ∨ is_ok (ParseHandle a) = true.
Proof.
  unfold check_authority. destruct (HasPrefix a "did:"); intros Ha.
  - left. by destruct (ParseDID a).
  - right. by destruct (ParseHandle a).
Qed.
Lemma parse_no_panic_did raw : ParseDID raw ≠ Panic.
Proof. unfold ParseDID. repeat case_bool_decide; try done. destruct (is_plc _); [done|]. by destruct (negb _). Qed.
Lemma parse_no_panic_handle raw : ParseHandle raw ≠ Panic.
Proof. unfold ParseHandle. repeat case_bool_decide; try done. by destruct (negb _). Qed.

Lemma request_valid client u : valid u → Collection u ≠ "" → RecordKey u ≠ "" →
  RepoGetRecord client (Collection u) (Authority u) (RecordKey u) = LexDo client (Collection u) (Authority u) (RecordKey u).
Proof.
  intros (_ & _ & Ha & [[? _]|[Hc [?|Hk]]]) Hcne Hkne; try done. unfold RepoGetRecord. rewrite Hc, Hk, !wrap_ok_eq, !bind_ok_eq.
  apply authority_passes in Ha. pose proof (parse_no_panic_did (Authority u)). pose proof (parse_no_panic_handle (Authority u)).
  destruct (ParseDID (Authority u)), (ParseHandle (Authority u)); try done. by destruct Ha.
Qed.

(** C12. The server is asked for exactly the parts of the requested URI, but the record
    it returns is filed under the URI the server names, of any repository: the URI
    and the DID of the result are those of the answer. *)
Theorem fetched_identity_is_the_answers raw u v val json cid resp :
  ParseATURI (TrimSpace raw) = Ok u → Collection u ≠ "" → RecordKey u ≠ "" →
  LexDo (resolveClient (Authority u)) (Collection u) (Authority u) (RecordKey u) = Ok resp →
  resp = {| out_Cid := cid; out_Uri := ATURI_String v; out_Value := Some val |} →
  Marshal val = Ok json → valid v → TrimSpace (Authority v) = Authority v → slen (ATURI_String v) <= 8192 →
  PDSAware_FetchRecord raw =
    Ok {| rec_ATDID := Authority v; rec_ATURI := ATURI_String v; rec_ATCID := default "" (TrimSpace <$> cid);
          rec_Collection := Collection u; rec_RecordJSON := json |}.
Proof.
  intros Hu Hc Hk Hdo -> Hm Hv Ht Hl. unfold PDSAware_FetchRecord, fetch_record. rewrite Hu. rewrite wrap_ok_eq, bind_ok_eq.
  apply ParseATURI_ok in Hu as [Hvu _]. pose proof Hvu as (Hane & _). cbv zeta. rewrite bool_decide_eq_false_2 by naive_solver.
  rewrite request_valid, Hdo by done. rewrite wrap_ok_eq, bind_ok_eq. cbv iota beta delta [out_Value out_Uri out_Cid].
  rewrite Hm, wrap_ok_eq, bind_ok_eq. rewrite print_trimmed by done.
  rewrite bool_decide_eq_false_2 by (rewrite print_join by (by apply valid_path); done).
  rewrite parse_print by done. by destruct cid.
Qed.
End RecordFetch.
