(* ===== verification/Deferred.v ===== *)
(** * Deferred and failed messages ([internal/bridge/processor.go])

    The three maintenance runs of the processor: the cascading resolution of
    deferred messages, their expiry, and the retry of failed ones. *)
From S2P Require Import Prelude GoStr Mapper MessageDB Lifecycle RateLimit Processor.
#[local] Open Scope string_scope.
#[local] Open Scope list_scope.
#[local] Open Scope Z_scope.

(** ** Results *)
Record DeferredResolveResult := {
  Selected : Z; Attempted : Z; Published : Z; Deferred : Z; Failed : Z
}.
Record RetryResult := {
  retry_Selected : Z; retry_Attempted : Z; retry_Published : Z; retry_Failed : Z;
  retry_Deferred : Z
}.
Record ExpireResult := { exp_Selected : Z; exp_Expired : Z; exp_Failed : Z }.
Record RetryConfig := {
  cfg_Limit : Z; cfg_ATDID : string; cfg_MaxAttempts : Z; cfg_BaseBackoff : Z
}.

(** ** Defer reasons *)
Definition uri_of_part (part : string) : option string :=
  match Index part "at://" with
  | Some idx => Some (slice_from idx part)
  | None => None
  end.
Definition parseDeferReasonURIs (reason : string) : list string :=
  if bool_decide (reason = "") then [] else omap uri_of_part (Split reason ";").

(** [depIndex]: the candidates that need a URI, in order (once per mention). *)
Definition dep_indices (candidates : list Message) (uri : string) : list nat :=
  concat (imap (λ i c, omap (λ u, if bool_decide (u = uri) then Some i else None)
                         (parseDeferReasonURIs (DeferReason c))) candidates).

(** ** Retry schedule *)
Definition second : Z := 10 ^ 9.
Definition minute : Z := 60 * second.

(** The loop [for i := 1; i < attempts; i++], [n] iterations left. *)
Fixpoint backoff_loop (n : nat) (backoff : Z) : Z :=
  match n with
  | O => if bool_decide (10 * minute < backoff) then 10 * minute else backoff
  | S n => if bool_decide (10 * minute <= backoff) then 10 * minute
           else backoff_loop n (backoff * 2)
  end.
Definition retryBackoff (base attempts : Z) : Z :=
  let base := if bool_decide (base <= 0) then 5 * second else base in
  if bool_decide (attempts <= 1) then base else backoff_loop (Z.to_nat (attempts - 1)) base.

Definition retryDue (m : Message) (now baseBackoff : Z) : bool :=
  if bool_decide (PublishAttempts m <= 0) then true
  else
    let lastAttempt := default (CreatedAt m) (LastPublishAttemptAt m) in
    bool_decide (lastAttempt + retryBackoff baseBackoff (PublishAttempts m) <= now).

(** [for _, x := range l]. *)
Fixpoint for_each {W A} (f : A → M W unit) (l : list A) : M W unit :=
  match l with
  | [] => mret tt
  | x :: l => f x;; for_each f l
  end.

Section Runs.
Context {S : Type} `{MessageStore S} `{RecordDecoder} (env : Env).
Variable resolver : option (ctx → string → M (World S) unit).
(** The failures of the candidate queries. *)
Variable query_err : option string.
Implicit Types w : World S.

Definition query (pre : string) (q : S → list Message) : M (World S) (list Message) := λ w,
  match query_err with
  | Some e => (Err (pre +:+ e), w)
  | None => (Ok (q (w_store w)), w)
  end.

(** ** Resolving one deferred message *)
Definition deferred_update (m : Message) (rawSSBJSON : string) (t : Z) : Message :=
  with_deleted (DeletedAt m) (DeletedSeq m) (DeletedReason m)
    (with_defer "" 1 (Some t)
      (new_message (ATURI m) (ATCID m) (ATDID m) (Type_ m) MessageStateDeferred (RawATJson m)
         rawSSBJSON)).

Definition persist_error (o : mappedLifecycleOutcome) (m : Message) : string :=
  match o with
  | OutDeferred =>
      if bool_decide (DeferReason m = deferReasonMissingRequiredFieldsAfterSanitize)
      then "persist deferred incomplete: " else "persist deferred unresolved: "
  | OutPending => "persist deferred pending: "
  | OutFailed _ => "persist deferred publish failure: "
  | OutPublished _ => "persist deferred publish success: "
  end.

(** The state returned; a publish error is returned as the error. *)
Definition resolveDeferredMessage (m : Message) : M (World S) string :=
  c ← ensureDependencyContext None (ATURI m);
  mapped ← mwrap "map deferred record: "
    (mapMappedRecord env resolver c (ATDID m) (Type_ m) (RawATJson m)
       (bool_decide (is_Some (DeletedAt m))));
  let '(mapped, blobErr) :=
    if bool_decide (is_Some (DeletedAt m)) then (mapped, None)
    else tryBlobBridge env (ATDID m) (Type_ m) mapped (RawATJson m) in
  rawSSBJSON ← mwrap "marshal deferred mapped record: " (mlift (env_marshal env mapped));
  t ← now env;
  r ← applyMappedMessageLifecycle env (deferred_update m rawSSBJSON t) mapped blobErr true;
  mwrap (persist_error r.2 r.1) (db_AddMessage env r.1);;
  match r.2 with
  | OutFailed publishErr => mfail publishErr
  | o => mret (outcome_state o)
  end.

(** ** The cascade *)
Record cascade := { resolved : gset nat; result_ : DeferredResolveResult }.
Definition begin_attempt (i : nat) : M cascade unit := mmodify (λ c,
  let r := result_ c in
  {| resolved := {[i]} ∪ resolved c;
     result_ := Build_DeferredResolveResult (Selected r) (Attempted r + 1) (Published r)
                  (Deferred r) (Failed r) |}).
Definition count_published : M cascade unit := mmodify (λ c,
  let r := result_ c in
  {| resolved := resolved c;
     result_ := Build_DeferredResolveResult (Selected r) (Attempted r) (Published r + 1)
                  (Deferred r) (Failed r) |}).
Definition count_deferred : M cascade unit := mmodify (λ c,
  let r := result_ c in
  {| resolved := resolved c;
     result_ := Build_DeferredResolveResult (Selected r) (Attempted r) (Published r)
                  (Deferred r + 1) (Failed r) |}).
Definition count_failed : M cascade unit := mmodify (λ c,
  let r := result_ c in
  {| resolved := resolved c;
     result_ := Build_DeferredResolveResult (Selected r) (Attempted r) (Published r)
                  (Deferred r) (Failed r + 1) |}).

(** [resolveAt]: [bottom] is what would happen below [fuel] nested calls. *)
Fixpoint resolveAt (candidates : list Message) (bottom : nat → M (World S * cascade) unit)
    (fuel : nat) (i : nat) : M (World S * cascade) unit :=
  match fuel with
  | O => bottom i
  | Datatypes.S fuel =>
      c ← on_snd mget;
      if bool_decide (i ∈ resolved c) then mret tt
      else
        on_snd (begin_attempt i);;
        match candidates !! i with
        | None => mlift Panic
        | Some m =>
            outcome ← mtry (on_fst (resolveDeferredMessage m));
            match outcome with
            | Ok st =>
                if bool_decide (st = MessageStatePublished) then
                  on_snd count_published;;
                  for_each (resolveAt candidates bottom fuel) (dep_indices candidates (ATURI m))
                else if bool_decide (st = MessageStateDeferred) then on_snd count_deferred
                else on_snd count_failed
            | _ => on_snd count_failed
            end
        end
  end.

Definition start_cascade (n : nat) : cascade :=
  {| resolved := ∅; result_ := Build_DeferredResolveResult (Z.of_nat n) 0 0 0 0 |}.

Definition resolve_candidates (bottom : nat → M (World S * cascade) unit) (fuel : nat)
    (candidates : list Message) : M (World S) DeferredResolveResult := λ w,
  match for_each (resolveAt candidates bottom fuel) (seq 0 (length candidates))
          (w, start_cascade (length candidates)) with
  | (Ok _, (w', c)) => (Ok (result_ c), w')
  | (Err e, (w', _)) => (Err e, w')
  | (Panic, (w', _)) => (Panic, w')
  end.

Definition ResolveDeferredMessages (limit : Z) : M (World S) DeferredResolveResult :=
  let limit := if bool_decide (limit <= 0) then 100 else limit in
  candidates ← query "query deferred candidates: " (GetDeferredCandidates limit);
  resolve_candidates (λ _, mlift Panic) (Datatypes.S (length candidates)) candidates.

(** ** Expiry *)
Fixpoint expire_all (candidates : list Message) (res : ExpireResult)
    : M (World S) ExpireResult :=
  match candidates with
  | [] => mret res
  | m :: candidates =>
      r ← mtry (db_AddMessage env
            (with_publish_error "deferred_ttl_expired" (with_state MessageStateFailed m)));
      expire_all candidates
        (if is_ok r
         then Build_ExpireResult (exp_Selected res) (exp_Expired res + 1) (exp_Failed res)
         else Build_ExpireResult (exp_Selected res) (exp_Expired res) (exp_Failed res + 1))
  end.
(** The query computes its cutoff from the clock ([GetExpiredDeferredMessages]). *)
Definition ExpireDeferredMessages (maxAge limit : Z) : M (World S) ExpireResult :=
  let limit := if bool_decide (limit <= 0) then 500 else limit in
  t ← now env;
  candidates ← query "query expired deferred: " (GetExpiredDeferredMessages (t - maxAge) limit);
  expire_all candidates (Build_ExpireResult (Z.of_nat (length candidates)) 0 0).

(** ** Retry *)
Definition retry_update (m : Message) (t : Z) : Message :=
  markPublishAttempt
    (with_deleted (DeletedAt m) (DeletedSeq m) (DeletedReason m)
      (new_message (ATURI m) (ATCID m) (ATDID m) (Type_ m) MessageStateFailed (RawATJson m)
         (RawSSBJson m))) t.

Definition retryMessage (pub : list (string * msg) → string → msg → string + string)
    (m : Message) : M (World S) unit :=
  t ← now env;
  let update := retry_update m t in
  match env_unmarshal env (RawSSBJson m) with
  | Err e =>
      mwrap "persist retry decode failure: "
        (db_AddMessage env
           (with_publish_error ("retry decode mapped payload: " +:+ e) update));;
      mfail e
  | Panic => mlift Panic
  | Ok mapped =>
      r ← publish pub (ATDID m) mapped;
      match r with
      | inr e =>
          mwrap "persist retry failure: " (db_AddMessage env (markPublishFailed update e));;
          mfail e
      | inl ssbMsgRef =>
          publishedAt ← now env;
          mwrap "persist retry success: "
            (db_AddMessage env
               (with_publish_error "" (markPublished update ssbMsgRef publishedAt)))
      end
  end.

Fixpoint retry_all (pub : list (string * msg) → string → msg → string + string)
    (t baseBackoff : Z) (candidates : list Message) (res : RetryResult)
    : M (World S) RetryResult :=
  match candidates with
  | [] => mret res
  | m :: candidates =>
      let '(Build_RetryResult sel att pb fl df) := res in
      if retryDue m t baseBackoff then
        r ← mtry (retryMessage pub m);
        retry_all pub t baseBackoff candidates
          (if is_ok r then Build_RetryResult sel (att + 1) (pb + 1) fl df
           else Build_RetryResult sel (att + 1) pb (fl + 1) df)
      else retry_all pub t baseBackoff candidates (Build_RetryResult sel att pb fl (df + 1))
  end.

Definition RetryFailedMessages (cfg : RetryConfig) : M (World S) RetryResult :=
  match env_publish env with
  | None => mfail "retry requires configured publisher"
  | Some pub =>
      let limit := if bool_decide (cfg_Limit cfg <= 0) then 100 else cfg_Limit cfg in
      let maxAttempts :=
        if bool_decide (cfg_MaxAttempts cfg <= 0) then 8 else cfg_MaxAttempts cfg in
      let baseBackoff :=
        if bool_decide (cfg_BaseBackoff cfg <= 0) then 5 * second else cfg_BaseBackoff cfg in
      candidates ← query "query retry candidates: "
        (GetRetryCandidates limit (cfg_ATDID cfg) maxAttempts);
      t ← now env;
      retry_all pub t baseBackoff candidates
        (Build_RetryResult (Z.of_nat (length candidates)) 0 0 0 0)
  end.

(** ** The cascade is exhaustive *)
Section Cascade.
Variable candidates : list Message.
Notation n := (length candidates).

(** Each index marked was attempted once, and each attempt was counted. *)
Definition casc_ok (c : cascade) : Prop :=
  (∀ i, i ∈ resolved c → (i < n)%nat) ∧
  Attempted (result_ c) = Z.of_nat (size (resolved c)) ∧
  Published (result_ c) + Deferred (result_ c) + Failed (result_ c) = Attempted (result_ c) ∧
  Selected (result_ c) = Z.of_nat n.

(** Some resolution of a candidate panicked. *)
Definition candidate_panics : Prop :=
  ∃ m w, m ∈ candidates ∧ (resolveDeferredMessage m w).1 = Panic.

(** What a stretch of the cascade does, when it ends by marking [Q]. *)
Definition ran (Q : gset nat → Prop) (c : cascade)
    (x : result unit * (World S * cascade)) : Prop :=
  match x with
  | (Ok _, (_, c')) => casc_ok c' ∧ resolved c ⊆ resolved c' ∧ Q (resolved c')
  | (Err _, _) => False
  | (Panic, _) => candidate_panics
  end.

Lemma dep_indices_lt uri i : i ∈ dep_indices candidates uri → (i < n)%nat.
Proof.
  unfold dep_indices. rewrite list_elem_of_In, in_concat. intros (l & Hl & Hi).
  apply list_elem_of_In in Hl, Hi. apply elem_of_lookup_imap in Hl as (j & m & -> & Hm).
  apply list_elem_of_omap in Hi as (u & _ & Hu). case_bool_decide; simplify_eq.
  by eapply lookup_lt_Some.
Qed.

Lemma size_lt c i : casc_ok c → (i < n)%nat → i ∉ resolved c → (size (resolved c) < n)%nat.
Proof.
  intros (Hlt & _) Hi Hni.
  assert (size ({[i]} ∪ resolved c) ≤ size (list_to_set (C := gset nat) (seq 0 n)))%nat as Hs.
  { apply subseteq_size. intros j Hj. rewrite elem_of_list_to_set, elem_of_seq.
    apply elem_of_union in Hj as [->%elem_of_singleton|Hj]; [lia|]. apply Hlt in Hj. lia. }
  rewrite size_union in Hs by set_solver. rewrite size_singleton in Hs.
  rewrite size_list_to_set, length_seq in Hs by apply NoDup_seq. lia.
Qed.

Lemma casc_begin c i : casc_ok c → (i < n)%nat → i ∉ resolved c →
  ∀ k, (k = count_published ∨ k = count_deferred ∨ k = count_failed) →
  let c' := (k (begin_attempt i c).2).2 in
  casc_ok c' ∧ resolved c' = {[i]} ∪ resolved c.
Proof.
  intros (Hlt & Ha & Hsum & Hsel) Hi Hni k Hk.
  assert (Z.of_nat (size ({[i]} ∪ resolved c)) = Z.of_nat (size (resolved c)) + 1) as Hsz.
  { rewrite size_union by set_solver. rewrite size_singleton. lia. }
  destruct Hk as [->|[->| ->]]; (split; simpl; [|done]);
    (split_and!; simpl; [set_solver|lia|lia|done]).
Qed.

Lemma ran_one c i k w : casc_ok c → (i < n)%nat → i ∉ resolved c →
  (k = count_published ∨ k = count_deferred ∨ k = count_failed) →
  ran (λ R, i ∈ R) c (Ok tt, (w, (k (begin_attempt i c).2).2)).
Proof.
  intros Hc Hi Hni Hk. destruct (casc_begin c i Hc Hi Hni k Hk) as [Hc' Hr].
  split_and!; [done|..]; rewrite Hr; set_solver.
Qed.

Lemma for_each_runs (g1 g2 : nat → M (World S * cascade) unit) (s0 : nat) :
  (∀ i w c, casc_ok c → (i < n)%nat → (s0 ≤ size (resolved c))%nat →
     g1 i (w, c) = g2 i (w, c) ∧ ran (λ R, i ∈ R) c (g1 i (w, c))) →
  ∀ l w c, (∀ i, i ∈ l → (i < n)%nat) → casc_ok c → (s0 ≤ size (resolved c))%nat →
    for_each g1 l (w, c) = for_each g2 l (w, c) ∧
    ran (λ R, ∀ i, i ∈ l → i ∈ R) c (for_each g1 l (w, c)).
Proof.
  intros Hg l. induction l as [|i l IH]; intros w c Hl Hc Hs; simpl.
  { split; [done|]. split_and!; try done. intros i Hi. by apply elem_of_nil in Hi. }
  unfold mbind, M_mbind.
  destruct (Hg i w c) as [<- Hran]; [done|apply Hl; left|done|]. destruct (g1 i (w, c)) as [[[]|e|] [w1 c1]]; [|done|done].
  destruct Hran as (Hc1 & Hsub & Hi).
  destruct (IH w1 c1) as [Heq Hran]; [|done| |].
  { intros j Hj. apply Hl. by right. }
  { etrans; [exact Hs|]. by apply subseteq_size. }
  split; [exact Heq|].
  destruct (for_each g1 l (w1, c1)) as [[[]|e|] [w2 c2]]; [|done|done].
  destruct Hran as (Hc2 & Hsub2 & Hl2). split_and!; [done|by etrans|].
  intros j [->|Hj]%elem_of_cons; [by apply Hsub2|by apply Hl2].
Qed.

(** One call on an index of the batch. *)
Lemma resolveAt_step b f i m w c :
  candidates !! i = Some m →
  resolveAt candidates b (Datatypes.S f) i (w, c) =
    if bool_decide (i ∈ resolved c) then (Ok tt, (w, c))
    else
      let c0 := (begin_attempt i c).2 in
      match resolveDeferredMessage m w with
      | (Ok st, w1) =>
          if bool_decide (st = MessageStatePublished)
          then for_each (resolveAt candidates b f) (dep_indices candidates (ATURI m))
                 (w1, (count_published c0).2)
          else if bool_decide (st = MessageStateDeferred)
          then (Ok tt, (w1, (count_deferred c0).2))
          else (Ok tt, (w1, (count_failed c0).2))
      | (Err _, w1) => (Ok tt, (w1, (count_failed c0).2))
      | (Panic, w1) => (Panic, (w1, c0))
      end.
Proof.
  intros Hm. cbn [resolveAt]. rewrite Hm.
  unfold mbind, M_mbind, on_snd, on_fst, mtry, mget. cbn [fst snd].
  case_bool_decide; [done|]. cbn [begin_attempt mmodify fst snd].
  destruct (resolveDeferredMessage m w) as [[st|e|] w1]; cbn [fst snd]; [|done|done].
  by repeat case_bool_decide.
Qed.

Lemma resolveAt_runs b1 b2 f1 f2 i w c :
  casc_ok c → (i < n)%nat →
  (n - size (resolved c) < f1)%nat → (n - size (resolved c) < f2)%nat →
  resolveAt candidates b1 f1 i (w, c) = resolveAt candidates b2 f2 i (w, c) ∧
  ran (λ R, i ∈ R) c (resolveAt candidates b1 f1 i (w, c)).
Proof.
  revert f2 i w c. induction f1 as [|f1 IH]; intros f2 i w c Hc Hi Hf1 Hf2; [lia|].
  destruct f2 as [|f2]; [lia|].
  destruct (lookup_lt_is_Some_2 candidates i Hi) as [m Hm].
  rewrite !(resolveAt_step _ _ i m) by done.
  case_bool_decide as Hin. { split; [done|]. by split_and!. }
  pose proof (size_lt c i Hc Hi Hin) as Hlt. cbv zeta.
  destruct (resolveDeferredMessage m w) as [[st|e|] w1] eqn:Er.
  - case_bool_decide; [|case_bool_decide; (split; [done|])].
    + destruct (casc_begin c i Hc Hi Hin count_published) as [Hc1 Hr1]; [auto|].
      set (c1 := (count_published _).2) in *.
      assert (size (resolved c1) = 1 + size (resolved c))%nat as Hsz.
      { rewrite Hr1, size_union; [by rewrite size_singleton|].
        by apply disjoint_singleton_l. }
      destruct (for_each_runs (resolveAt candidates b1 f1) (resolveAt candidates b2 f2)
        (size (resolved c1))) with (l := dep_indices candidates (ATURI m)) (w := w1) (c := c1)
        as [<- Hran]; [|apply dep_indices_lt|done|done|].
      { intros j w' c' Hc' Hj Hs. apply IH; try done; lia. }
      split; [done|].
      destruct (for_each _ _ _) as [[[]|e|] [w2 c2]]; [|done|done].
      destruct Hran as (? & Hsub & _). split_and!; [done|set_solver|set_solver].
    + by apply ran_one; auto.
    + by apply ran_one; auto.
  - split; [done|]. by apply ran_one; auto.
  - split; [done|]. exists m, w. split; [by eapply list_elem_of_lookup_2|]. by rewrite Er.
Qed.

(** The whole run: any fuel past the number of candidates gives the same. *)
Lemma resolve_candidates_runs b1 b2 f1 f2 w :
  (n < f1)%nat → (n < f2)%nat →
  resolve_candidates b1 f1 candidates w = resolve_candidates b2 f2 candidates w ∧
  match (resolve_candidates b1 f1 candidates w).1 with
  | Ok res =>
      Selected res = Z.of_nat n ∧ Attempted res = Z.of_nat n ∧
      Published res + Deferred res + Failed res = Attempted res
  | Err _ => False
  | Panic => candidate_panics
  end.
Proof.
  intros Hf1 Hf2. unfold resolve_candidates.
  assert (casc_ok (start_cascade n)) as Hstart.
  { split_and!; simpl; try done. }
  destruct (for_each_runs (resolveAt candidates b1 f1) (resolveAt candidates b2 f2) 0)
    with (l := seq 0 n) (w := w) (c := start_cascade n) as [<- Hran].
  - intros i w' c Hc Hi _. apply resolveAt_runs; try done; lia.
  - intros i [_ Hi]%elem_of_seq. lia.
  - done.
  - lia.
  - split; [done|].
    destruct (for_each _ _ _) as [[[]|e|] [w' c]]; [|done|done]. simpl.
    destruct Hran as ((Hlt & Ha & Hsum & Hsel) & _ & Hall).
    assert (size (resolved c) = n) as Hsz.
    { rewrite <-(length_seq n 0).
      rewrite <-(size_list_to_set (C := gset nat) (seq 0 n)) by apply NoDup_seq.
      f_equal. apply set_eq. intros i. rewrite elem_of_list_to_set. split.
      - intros Hi%Hlt. apply elem_of_seq. lia.
      - apply Hall. }
    rewrite Hsz in Ha. done.
Qed.
End Cascade.

(** ** The invariant *)
Section Invariant.
Context `{!MessageStoreLaws S} (P : msg → Prop)
  (J : ResolverState → gmap string string → Prop).
Hypothesis P_ok : ∀ p, payload_ok p → P p.
Hypothesis J_fresh : ∀ r st uri, J r st → J (add_scope uri r) st.
Notation Inv := (bridge_inv P J).
Hypothesis resolver_inv : ∀ ensure c uri,
  resolver = Some ensure → hoare Inv (ensure c uri) (λ _, True).

Lemma query_inv pre q (Q : Message → Prop) :
  (∀ w m, Inv w → m ∈ q (w_store w) → Q m) →
  hoare Inv (query pre q) (λ l, ∀ m, m ∈ l → Q m).
Proof using Type.
  intros HQ w Hw. unfold query. destruct query_err; simpl; split; try done.
  intros l [= <-] m Hm. by eapply HQ.
Qed.

Lemma resolve_deferred_inv m : hoare Inv (resolveDeferredMessage m) (λ _, True).
Proof using Type P_ok J_fresh resolver_inv.
  unfold resolveDeferredMessage.
  eapply hoare_bind; [by apply context_inv|]. intros c _.
  eapply hoare_bind; [by apply hoare_wrap, (map_inv env resolver P J)|]. intros mapped _.
  destruct (if bool_decide _ then _ else _) as [mapped' blobErr].
  apply (hoare_bind _ _ _ (λ _, True)); [by apply hoare_wrap, hoare_lift|]. intros raw _.
  eapply hoare_bind; [apply now_inv|]. intros t _.
  eapply hoare_bind; [by apply lifecycle_inv|]. intros [m' o] (Hrow & _).
  eapply hoare_bind; [by apply hoare_wrap, add_inv|]. intros _ _.
  destruct o; by (apply hoare_ret || apply hoare_fail).
Qed.

Lemma resolve_cascade_inv candidates bottom fuel l w c :
  (∀ i w c, Inv w → Inv (bottom i (w, c)).2.1) →
  Inv w → Inv (for_each (resolveAt candidates bottom fuel) l (w, c)).2.1.
Proof using Type P_ok J_fresh resolver_inv.
  intros Hb. revert l w c. induction fuel as [|fuel IH]; intros l w c.
  - revert w c. induction l as [|i l IHl]; intros w c Hw; simpl; [done|].
    unfold mbind, M_mbind. specialize (Hb i w c Hw).
    destruct (bottom i (w, c)) as [[[]|e|] [w' c']]; [by apply IHl|done|done].
  - revert w c. induction l as [|i l IHl]; intros w c Hw; [done|]. cbn [for_each].
    unfold mbind, M_mbind at 1.
    assert (Inv (resolveAt candidates bottom (Datatypes.S fuel) i (w, c)).2.1) as Hi.
    { destruct (candidates !! i) as [m|] eqn:Hm.
      - rewrite (resolveAt_step candidates _ _ _ m) by done. case_bool_decide; [done|].
        destruct (resolve_deferred_inv m w Hw) as [Hw1 _]. cbv zeta.
        destruct (resolveDeferredMessage m w) as [[st|e|] w1]; simpl in Hw1 |- *;
          [|done|done].
        case_bool_decide; [by apply IH|]. by case_bool_decide.
      - cbn [resolveAt]. rewrite Hm. unfold mbind, M_mbind, on_snd, mget. simpl.
        by case_bool_decide. }
    destruct (resolveAt candidates bottom (Datatypes.S fuel) i (w, c)) as [[[]|e|] [w' c']];
      [by apply IHl|done|done].
Qed.

Lemma resolve_all_inv limit : hoare Inv (ResolveDeferredMessages limit) (λ _, True).
Proof using Type P_ok J_fresh resolver_inv.
  unfold ResolveDeferredMessages.
  eapply hoare_bind; [by apply (query_inv _ _ (λ _, True))|]. intros candidates _ w Hw.
  split; [|done]. unfold resolve_candidates.
  pose proof (resolve_cascade_inv candidates (λ _, mlift Panic)
    (Datatypes.S (length candidates)) (seq 0 (length candidates)) w
    (start_cascade (length candidates)) ltac:(done) Hw) as Hpost.
  by destruct (for_each _ _ _) as [[[]|e|] [w' c']].
Qed.

Lemma expire_all_inv l res :
  (∀ m, m ∈ l → row_ok m ∧ MessageState m = MessageStateDeferred) →
  hoare Inv (expire_all l res) (λ _, True).
Proof using Type.
  revert res. induction l as [|m l IH]; intros res Hl; simpl; [by apply hoare_ret|].
  eapply hoare_bind; [apply hoare_try, add_inv|].
  - destruct (Hl m) as [Hrow Hst]; [by left|]. unfold row_ok in *. simpl.
    destruct Hrow as (_ & _ & Href & Hpa & _). split_and!; try done.
    + rewrite !elem_of_cons. auto.
    + intros _. apply Href. by rewrite Hst.
  - intros r _. apply IH. intros m' Hm'. apply Hl. by right.
Qed.

Lemma expire_inv maxAge limit : hoare Inv (ExpireDeferredMessages maxAge limit) (λ _, True).
Proof using Type.
  unfold ExpireDeferredMessages. eapply hoare_bind; [apply now_inv|]. intros t _.
  eapply hoare_bind.
  - apply (query_inv _ _ (λ m, row_ok m ∧ MessageState m = MessageStateDeferred)).
    intros w m (Hs & Hr & _) Hm. apply expired_candidates in Hm as [Hm Hd]; [|done].
    split; [|done]. by eapply Hr.
  - intros l Hl. by apply expire_all_inv.
Qed.

(** A retry publishes the stored payload as it is: [P] must accept any. *)
Lemma publish_inv pub did p : P p → hoare Inv (publish pub did p) (λ _, True).
Proof using Type.
  intros Hp w (Hs & Hr & Hpub & HJ). split; [|done]. split_and!; try done.
  simpl. apply Forall_app. split; [done|]. by constructor.
Qed.

Lemma retry_row m t e :
  row_ok (with_publish_error e (retry_update m t)) ∧
  row_ok (markPublishFailed (retry_update m t) e).
Proof using Type.
  unfold row_ok. simpl. rewrite !elem_of_cons. split; split_and!; try done; auto.
Qed.

Lemma retry_message_inv pub m :
  (∀ p, P p) → hoare Inv (retryMessage pub m) (λ _, True).
Proof using Type.
  intros HP. unfold retryMessage. eapply hoare_bind; [apply now_inv|]. intros t _. cbv zeta.
  destruct (env_unmarshal env (RawSSBJson m)) as [mapped|e|]; [..|by apply hoare_lift].
  - eapply hoare_bind; [by apply publish_inv|]. intros [ref|e] _.
    + eapply hoare_bind; [apply now_inv|]. intros t' _. apply hoare_wrap, add_inv.
      unfold row_ok. simpl. rewrite !elem_of_cons. split_and!; try done; auto.
    + eapply hoare_bind; [by apply hoare_wrap, add_inv, retry_row|]. intros _ _.
      by apply hoare_fail.
  - eapply hoare_bind; [by apply hoare_wrap, add_inv, retry_row|]. intros _ _.
    by apply hoare_fail.
Qed.

Lemma retry_all_inv pub t b l res :
  (∀ p, P p) → hoare Inv (retry_all pub t b l res) (λ _, True).
Proof using Type.
  intros HP. revert res. induction l as [|m l IH]; intros [sel att pb fl df]; cbn [retry_all].
  { by apply hoare_ret. }
  destruct (retryDue _ _ _); [|apply IH].
  eapply hoare_bind; [by apply hoare_try, retry_message_inv|]. intros r _. apply IH.
Qed.

Lemma retry_inv cfg : (∀ p, P p) → hoare Inv (RetryFailedMessages cfg) (λ _, True).
Proof using Type.
  intros HP. unfold RetryFailedMessages. destruct (env_publish env); [|by apply hoare_fail].
  eapply hoare_bind; [by apply (query_inv _ _ (λ _, True))|]. intros l _.
  eapply hoare_bind; [apply now_inv|]. intros t _. by apply retry_all_inv.
Qed.
End Invariant.
End Runs.

(** ** Defer reasons *)
Definition at_scheme : string := "at://".

Lemma index_at_scheme k v :
  k ∈ unresolved_keys →
  Index (k +:+ "=" +:+ v) at_scheme = (λ j, String.length (k +:+ "=") + j)%nat <$> Index v at_scheme.
Proof.
  unfold unresolved_keys. rewrite !elem_of_cons, elem_of_nil. unfold at_scheme.
  intros Hk. destruct_or? Hk; subst; try done;
    repeat first [ rewrite string_app_nil_l
                 | rewrite string_app_cons; rewrite index_skip by reflexivity ];
    rewrite <-!option_fmap_compose; by apply option_fmap_ext.
Qed.

(** The dependency a placeholder names, when it is a record. *)
Definition unresolved_uri (m : msg) (key : string) : option string :=
  raw ← m !! key;
  if negb (blank (Sprint raw)) && HasPrefix (Sprint raw) at_scheme then Some (Sprint raw)
  else None.

(** A placeholder is the URI of a record, or a DID. *)
Definition placeholder_values (m : msg) : Prop :=
  ∀ k raw, k ∈ unresolved_keys → m !! k = Some raw →
    lacks ";" (Sprint raw) = true ∧
    (HasPrefix (Sprint raw) at_scheme = true ∨ Index (Sprint raw) at_scheme = None).

Lemma omap_compose {A B C} (f : A → option B) (g : B → option C) (h : A → option C) (l : list A) :
  (∀ x, x ∈ l → f x ≫= g = h x) → omap g (omap f l) = omap h l.
Proof.
  induction l as [|x l IH]; intros Hf; [done|]. simpl.
  rewrite <-(Hf x) by left. assert (omap g (omap f l) = omap h l) as IH'.
  { apply IH. intros y Hy. apply Hf. by right. }
  destruct (f x) as [y|]; simpl; [|done]. destruct (g y); [by f_equal|done].
Qed.

(** The defer reason of a message reads back as the records it waits for:
    parsing what [markDeferred] wrote gives the AT URIs of the unresolved
    placeholders, in order, without the DIDs. *)
Theorem defer_reason_roundtrip (mapped : msg) :
  placeholder_values mapped →
  parseDeferReasonURIs (Join (UnresolvedATProtoRefs mapped) ";") =
    omap (unresolved_uri mapped) unresolved_keys.
Proof.
  intros Hv. unfold parseDeferReasonURIs.
  assert (omap uri_of_part (UnresolvedATProtoRefs mapped) =
          omap (unresolved_uri mapped) unresolved_keys) as Hparts.
  { apply omap_compose. intros k Hk. unfold unresolved_entry, unresolved_uri.
    destruct (mapped !! k) as [raw|] eqn:Hm; [|done]. simpl.
    destruct (Hv k raw Hk Hm) as [_ Hraw]. destruct (blank (Sprint raw)); [done|]. simpl.
    unfold uri_of_part. change "at://" with at_scheme. rewrite index_at_scheme by done.
    destruct Hraw as [Hraw|Hraw].
    - rewrite Hraw, index_prefix by done. simpl. rewrite Nat.add_0_r.
      f_equal. rewrite <-string_app_assoc. apply slice_from_app.
    - rewrite Hraw. destruct (HasPrefix (Sprint raw) at_scheme) eqn:E; [|done].
      by rewrite index_prefix in Hraw. }
  rewrite <-Hparts. destruct (UnresolvedATProtoRefs mapped) as [|e l] eqn:E; [done|].
  rewrite bool_decide_eq_false_2 by (rewrite <-E; by eapply unresolved_entry_nonempty; [|rewrite E]).
  f_equal. rewrite <-E. apply split_join; [by rewrite E|].
  apply list.Forall_forall. intros x (k & Hk & Hx)%list_elem_of_omap.
  unfold unresolved_entry in Hx. destruct (mapped !! k) as [raw|] eqn:Hm; [|done]. simpl in Hx.
  destruct (blank (Sprint raw)); simplify_eq.
  rewrite !lacks_app. destruct (Hv k raw Hk Hm) as [-> _].
  unfold unresolved_keys in Hk. rewrite !elem_of_cons, elem_of_nil in Hk.
  by destruct_or? Hk; subst.
Qed.

(** ** Retry backoff *)
Lemma backoff_loop_spec n b :
  0 < b → backoff_loop n b = Z.min (b * 2 ^ Z.of_nat n) (10 * minute).
Proof.
  revert b. induction n as [|n IH]; intros b Hb; cbn [backoff_loop].
  - rewrite Z.pow_0_r. case_bool_decide; lia.
  - rewrite Nat2Z.inj_succ, Z.pow_succ_r by lia.
    assert (0 < 2 ^ Z.of_nat n) by lia.
    case_bool_decide; [nia|]. rewrite IH by lia. f_equal. lia.
Qed.

(** The retry schedule: after the first attempt the wait is the base delay;
    it then doubles with each attempt up to ten minutes, so no number of attempts
    overflows a 64-bit duration. *)
Theorem retry_backoff_closed_form base attempts :
  0 < base < 2 ^ 62 →
  retryBackoff base attempts =
    (if bool_decide (attempts <= 1) then base
     else Z.min (base * 2 ^ (attempts - 1)) (10 * minute)) ∧
  0 < retryBackoff base attempts < 2 ^ 63.
Proof.
  intros Hb. unfold retryBackoff. rewrite (bool_decide_eq_false_2 (base <= 0)) by lia.
  case_bool_decide; [lia|]. rewrite backoff_loop_spec by lia.
  rewrite Z2Nat.id by lia. split; [done|].
  assert (0 < 2 ^ (attempts - 1)) by lia. unfold minute, second. nia.
Qed.

(** A deferred run attempts every candidate exactly once and accounts for
    each: when it returns, [Attempted] is [Selected] is the number of candidates,
    and each attempt was counted as published, deferred or failed. It fails only
    when the query fails, and panics only when resolving a candidate does. *)
Theorem resolve_deferred_accounts {S : Type} `{MessageStore S} `{RecordDecoder} env resolver
    query_err limit (w : World S) :
  let candidates :=
    GetDeferredCandidates (if bool_decide (limit <= 0) then 100 else limit) (w_store w) in
  match (ResolveDeferredMessages env resolver query_err limit w).1 with
  | Ok res =>
      Selected res = Z.of_nat (length candidates) ∧ Attempted res = Selected res ∧
      Published res + Deferred res + Failed res = Attempted res
  | Err e => ∃ e0, query_err = Some e0 ∧ e = "query deferred candidates: " +:+ e0
  | Panic => candidate_panics env resolver candidates
  end.
Proof.
  intros candidates. unfold ResolveDeferredMessages. unfold mbind, M_mbind, query.
  destruct query_err as [e|]; [by eexists|]. fold candidates.
  destruct (resolve_candidates_runs env resolver candidates (λ _, mlift Panic)
    (λ _, mlift Panic) (1 + length candidates) (1 + length candidates) w) as [_ Hrun]; [lia..|].
  simpl in Hrun |- *. destruct (resolve_candidates _ _ _ _ _ w) as [[res|e|] w']; simpl in *;
    [|done|done]. destruct Hrun as (-> & -> & ->). done.
Qed.

(** The cascade terminates: nested calls never outnumber the candidates, so
    any larger bound on the nesting gives the same run, dependency cycles
    included. *)
Theorem resolve_deferred_terminates {S : Type} `{MessageStore S} `{RecordDecoder} env resolver
    candidates bottom1 bottom2 fuel1 fuel2 (w : World S) :
  (length candidates < fuel1)%nat → (length candidates < fuel2)%nat →
  resolve_candidates env resolver bottom1 fuel1 candidates w =
  resolve_candidates env resolver bottom2 fuel2 candidates w.
Proof. intros H1' H2'. by apply resolve_candidates_runs. Qed.

(** ** Expiry *)
Definition expired_row {S : Type} `{MessageStore S} (m : Message) (s : S) : Prop :=
  ∃ m', GetMessage (ATURI m) s = Some m' ∧ MessageState m' = MessageStateFailed ∧
    PublishError m' = "deferred_ttl_expired" ∧ RawSSBJson m' = RawSSBJson m ∧
    SSBMsgRef m' = SSBMsgRef m ∧
    PublishAttempts m' = PublishAttempts m + PublishAttempts m ∧
    DeferAttempts m' = DeferAttempts m + DeferAttempts m.

Lemma expire_one {S : Type} `{MessageStoreLaws S} env m (w : World S) :
  (∀ k, env_add_err env k = None) → GetMessage (ATURI m) (w_store w) = Some m →
  ∃ w', db_AddMessage env
          (with_publish_error "deferred_ttl_expired" (with_state MessageStateFailed m)) w
          = (Ok tt, w') ∧
    expired_row m (w_store w') ∧
    ∀ uri, uri ≠ ATURI m → GetMessage uri (w_store w') = GetMessage uri (w_store w).
Proof.
  intros Ha Hm. unfold db_AddMessage, db_write, mbind, M_mbind, now. simpl. rewrite Ha.
  eexists. split; [reflexivity|]. split.
  - eexists. simpl. rewrite get_add, bool_decide_eq_true_2, Hm by done. split; [done|].
    by split_and!.
  - intros uri Hu. simpl. by rewrite get_add, bool_decide_eq_false_2.
Qed.

Lemma expire_all_ok {S : Type} `{MessageStoreLaws S} env l res (w : World S) :
  (∀ k, env_add_err env k = None) → NoDup (ATURI <$> l) →
  (∀ m, m ∈ l → GetMessage (ATURI m) (w_store w) = Some m) →
  ∃ w', expire_all env l res w =
      (Ok (Build_ExpireResult (exp_Selected res) (exp_Expired res + Z.of_nat (length l))
             (exp_Failed res)), w') ∧
    (∀ m, m ∈ l → expired_row m (w_store w')) ∧
    (∀ uri, uri ∉ ATURI <$> l → GetMessage uri (w_store w') = GetMessage uri (w_store w)).
Proof.
  intros Ha. revert res w. induction l as [|m l IH]; intros res w Hnd Hl; cbn [expire_all].
  { exists w. rewrite Z.add_0_r. destruct res. split_and!; [done| |done].
    intros m Hm. by apply elem_of_nil in Hm. }
  apply list.NoDup_cons in Hnd as [Hni Hnd].
  destruct (expire_one env m w Ha) as (w1 & E1 & Hrow & Hframe); [apply Hl; left|].
  unfold mbind, M_mbind, mtry. rewrite E1. cbn [is_ok].
  destruct (IH (Build_ExpireResult (exp_Selected res) (exp_Expired res + 1) (exp_Failed res)) w1)
    as (w2 & -> & Hrows & Hframe2); [done|..].
  { intros m' Hm'. rewrite Hframe; [apply Hl; by right|]. intros E. apply Hni.
    rewrite <-E. by apply list_elem_of_fmap_2. }
  exists w2. split_and!.
  - simpl. do 2 f_equal. f_equal. lia.
  - intros m' [->|Hm']%elem_of_cons; [|by apply Hrows].
    destruct Hrow as (m1 & Hm1 & Hrest). exists m1. rewrite Hframe2; done.
  - intros uri Hu. rewrite fmap_cons, not_elem_of_cons in Hu. destruct Hu.
    rewrite Hframe2 by done. by apply Hframe.
Qed.

(** Expiry fails every candidate of the query: its row becomes [failed] with
    the TTL error and keeps its payload, reference and every other row; but as the
    row read from the table is written back through the accumulating upsert, its
    attempt counters are doubled. *)
Theorem expire_fails_candidates {S : Type} `{MessageStoreLaws S} env maxAge limit (w : World S) :
  store_ok (w_store w) → (∀ k, env_add_err env k = None) →
  let candidates := GetExpiredDeferredMessages (env_now env (w_clock w) - maxAge)
    (if bool_decide (limit <= 0) then 500 else limit) (w_store w) in
  ∃ w', ExpireDeferredMessages env None maxAge limit w =
      (Ok (Build_ExpireResult (Z.of_nat (length candidates)) (Z.of_nat (length candidates)) 0),
       w') ∧
    (∀ m, m ∈ candidates → expired_row m (w_store w')) ∧
    (∀ uri, uri ∉ ATURI <$> candidates →
       GetMessage uri (w_store w') = GetMessage uri (w_store w)).
Proof.
  intros Hs Ha candidates. unfold ExpireDeferredMessages, mbind, M_mbind, query. cbn [now].
  set (w1 := Build_World _ _ _ _ _ _). change (w_store w1) with (w_store w). fold candidates.
  destruct (expire_all_ok env candidates
    (Build_ExpireResult (Z.of_nat (length candidates)) 0 0) w1 Ha) as (w' & -> & Hrest).
  - by apply expired_nodup.
  - intros m Hm. by apply expired_candidates in Hm as [Hm _].
  - by exists w'.
Qed.

(** ** Retry *)
Definition due (t b : Z) (m : Message) : Prop := retryDue m t b = true.
#[global] Instance due_dec t b m : Decision (due t b m) := decide (retryDue m t b = true).

Lemma retry_all_ok {S : Type} `{MessageStore S} env pub t b l res (w : World S) res' w' :
  retry_all env pub t b l res w = (Ok res', w') →
  retry_Selected res' = retry_Selected res ∧
  retry_Attempted res' = retry_Attempted res + Z.of_nat (length (filter (due t b) l)) ∧
  retry_Attempted res' + retry_Deferred res' =
    retry_Attempted res + retry_Deferred res + Z.of_nat (length l) ∧
  retry_Published res' + retry_Failed res' - retry_Attempted res' =
    retry_Published res + retry_Failed res - retry_Attempted res.
Proof.
  revert res w. induction l as [|m l IH]; intros [sel att pb fl df] w; cbn [retry_all].
  { intros [= <- <-]. simpl. lia. }
  rewrite list.filter_cons. destruct (decide (due t b m)) as [Hd|Hd]; unfold due in Hd.
  - rewrite Hd, mbind_ok. intros (r & w1 & _ & Hk). apply IH in Hk.
    destruct (is_ok r); simpl in *; lia.
  - apply not_true_is_false in Hd. rewrite Hd. intros Hk%IH. simpl in *. lia.
Qed.

(** A retry run attempts exactly the candidates whose backoff has passed and
    accounts for each: the attempted and the not yet due make up the selection,
    the published and the failed make up the attempted. *)
Theorem retry_accounts {S : Type} `{MessageStore S} env cfg (w w' : World S) res :
  RetryFailedMessages env None cfg w = (Ok res, w') →
  let candidates := GetRetryCandidates (if bool_decide (cfg_Limit cfg <= 0) then 100
      else cfg_Limit cfg) (cfg_ATDID cfg)
    (if bool_decide (cfg_MaxAttempts cfg <= 0) then 8 else cfg_MaxAttempts cfg) (w_store w) in
  let base := if bool_decide (cfg_BaseBackoff cfg <= 0) then 5 * second
              else cfg_BaseBackoff cfg in
  retry_Selected res = Z.of_nat (length candidates) ∧
  retry_Attempted res =
    Z.of_nat (length (filter (due (env_now env (w_clock w)) base) candidates)) ∧
  retry_Attempted res + retry_Deferred res = retry_Selected res ∧
  retry_Published res + retry_Failed res = retry_Attempted res.
Proof.
  unfold RetryFailedMessages. destruct (env_publish env) as [pub|]; [|done].
  rewrite mbind_ok. intros (l & w1 & [= <- <-] & Hk).
  apply mbind_ok in Hk as (t & w2 & [= <- <-] & Hk). apply retry_all_ok in Hk. simpl in Hk.
  cbv zeta. lia.
Qed.
