(* ===== verification/Bridge.v ===== *)
(** * The running bridge

    The processor wired to its dependency resolver ([cmd/bridge-cli/app.go]) and
    its rate limiters, the calls the bridge makes into it, and what holds after
    every history of such calls. *)
From S2P Require Import Prelude GoStr Mapper MessageDB Lifecycle RateLimit Processor.
From S2P Require Import Dependencies Deferred.
#[local] Open Scope string_scope.
#[local] Open Scope list_scope.
#[local] Open Scope Z_scope.

(** The calls: the firehose consumer, the record indexer and the schedulers. *)
Inductive call :=
| CallCommit (event : option Commit)
| CallRecord (event : ATProtoRecordEvent)
| CallResolve (limit : Z)
| CallExpire (maxAge limit : Z)
| CallRetry (cfg : RetryConfig)
| CallCleanup (now idleTimeout : Z).

Definition is_retry (k : call) : bool := match k with CallRetry _ => true | _ => false end.

Section Bridge.
Context {S : Type} `{MessageStore S} `{RecordDecoder} {Repo L : Type} `{RateLimiter L}.
Context (env : Env) (FetchRecord : list (nat * string) → string → result FetchedRecord)
  (wait : string → M (World S) unit) (bottom : ctx → string → M (World S) unit)
  (query_err : option string) (maxMessagesPerMinute : Z)
  (GetRecordBytes : Repo → string → result (option string))
  (cborToJSON : string → result string) (set_state_err : string → option string)
  (ParseCommit : Commit → result Repo).

(** [WithDependencyResolver(NewATProtoDependencyResolver(..., ProcessRecord))]. *)
Definition resolver : option (ctx → string → M (World S) unit) :=
  Some (ensure env FetchRecord wait bottom resolver_fuel).

Definition drop {W A} (m : M W A) : M W unit := _ ← m; mret tt.
Definition exec (k : call) : M (World S * RateLimiters L) unit :=
  match k with
  | CallCommit event =>
      HandleCommit env resolver maxMessagesPerMinute GetRecordBytes cborToJSON set_state_err
        ParseCommit None event
  | CallRecord event => on_fst (HandleRecordEvent env resolver None event)
  | CallResolve limit => on_fst (drop (ResolveDeferredMessages env resolver query_err limit))
  | CallExpire maxAge limit =>
      on_fst (drop (ExpireDeferredMessages env query_err maxAge limit))
  | CallRetry cfg => on_fst (drop (RetryFailedMessages env query_err cfg))
  | CallCleanup now idleTimeout => on_snd (mmodify (cleanupStaleRateLimiters now idleTimeout))
  end.

(** A history: the callers log what a call returns and go on. *)
Definition run (ks : list call) (w : World S * RateLimiters L) : World S * RateLimiters L :=
  foldl (λ w k, (exec k w).2) w ks.

Section Invariant.
Context `{!MessageStoreLaws S} (P : msg → Prop) (P_ok : ∀ p, payload_ok p → P p).

Definition running (w : World S * RateLimiters L) : Prop :=
  bridge_inv P at_rest w.1 ∧ limiters_ok w.2.

Lemma resolver_at_rest e c uri :
  resolver = Some e → hoare (bridge_inv P at_rest) (e c uri) (λ _, True).
Proof using P_ok.
  unfold resolver. intros E.
  assert (e = ensure env FetchRecord wait bottom resolver_fuel) as -> by congruence.
  by apply ensure_inv.
Qed.

Lemma drop_inv {A} (m : M (World S) A) :
  hoare (bridge_inv P at_rest) m (λ _, True) →
  hoare running (on_fst (drop m)) (λ _, True).
Proof using Type.
  intros Hm. apply hoare_on_fst. eapply hoare_bind; [exact Hm|]. intros a _. by apply hoare_ret.
Qed.

Lemma set_state_inv key value :
  hoare (bridge_inv P at_rest) (SetBridgeState set_state_err key value) (λ _, True).
Proof using Type.
  intros w (? & ? & ? & ?). split; [|done]. unfold SetBridgeState.
  destruct (set_state_err value); by split_and!.
Qed.

Lemma exec_commit_inv event : hoare running (exec (CallCommit event)) (λ _, True).
Proof using P_ok.
  simpl. unfold HandleCommit. destruct event as [evt|]; [|by apply hoare_ret].
  case_bool_decide; [by apply hoare_ret|].
  apply (hoare_bind _ _ _ (λ _, True)); [by apply hoare_wrap, hoare_lift|].
  intros [acc|] _; [|by apply hoare_ret]. destruct (acc_Active acc); [|by apply hoare_ret].
  eapply hoare_bind; [apply hoare_on_fst, now_inv|]. intros t _.
  apply (hoare_bind _ _ _ (λ _, True)).
  { apply (hoare_on_snd limiters_ok). intros rl Hrl. split; [by apply allow_ok|done]. }
  intros [|] _; [|by apply hoare_ret].
  eapply hoare_bind.
  { apply hoare_on_fst, (handle_ops_inv env resolver); [exact P_ok|..].
    - intros r st uri. apply at_rest_add_scope.
    - apply resolver_at_rest. }
  intros n _. case_bool_decide; [|by apply hoare_ret].
  eapply hoare_bind; [by apply hoare_on_fst, hoare_try, set_state_inv|].
  intros r _. by apply hoare_ret.
Qed.

Lemma exec_inv k :
  is_retry k = false ∨ (∀ p, P p) → hoare running (exec k) (λ _, True).
Proof using P_ok.
  assert (∀ r st uri, at_rest r st → at_rest (add_scope uri r) st) as HJ.
  { intros r st uri. apply at_rest_add_scope. }
  intros Hk. destruct k as [event|event|limit|maxAge limit|cfg|now timeout].
  - apply exec_commit_inv.
  - apply hoare_on_fst. unfold HandleRecordEvent. case_bool_decide.
    + apply process_deleted_inv; [exact P_ok|exact HJ|apply resolver_at_rest].
    + apply process_record_inv; [exact P_ok|exact HJ|apply resolver_at_rest].
  - apply drop_inv, resolve_all_inv; [exact P_ok|exact HJ|apply resolver_at_rest].
  - apply drop_inv, expire_inv.
  - apply drop_inv. destruct Hk as [?|HP]; [done|]. by apply retry_inv.
  - apply (hoare_on_snd limiters_ok). intros rl Hrl. split; [by apply cleanup_ok|done].
Qed.

Lemma run_inv ks w :
  Forall (λ k, is_retry k = false) ks ∨ (∀ p, P p) → running w → running (run ks w).
Proof using P_ok.
  intros Hks Hw. revert w Hw. induction ks as [|k ks IH]; intros w Hw; [done|]. simpl.
  apply IH.
  - destruct Hks as [Hks|]; [left|by right]. by inversion Hks.
  - apply exec_inv; [|done]. destruct Hks as [Hks|]; [left|by right]. by inversion Hks.
Qed.
End Invariant.
End Bridge.

(** ** Properties *)
Definition empty_bridge {L : Type} : World table * RateLimiters L :=
  (Build_World ∅ 0 0 [] ∅ (Build_ResolverState [] [] ∅), Build_RateLimiters ∅ ∅).

Lemma empty_running {L : Type} (P : msg → Prop) : running P (empty_bridge (L := L)).
Proof.
  split; [|done]. unfold bridge_inv. split; [|split; [|split]].
  - intros uri m Hm. change (@lookup _ _ (gmap string Message) _ uri ∅ = Some m) in Hm.
    by rewrite lookup_empty in Hm.
  - intros uri m Hm. change (@lookup _ _ (gmap string Message) _ uri ∅ = Some m) in Hm.
    by rewrite lookup_empty in Hm.
  - by apply Forall_nil.
  - split; [|done]. split; [done|]. intros p Hp. by apply elem_of_nil in Hp.
Qed.

(** A bridge that starts on a table of the database. *)
Definition bridge_on {L : Type} (t : table) : World table * RateLimiters L :=
  (Build_World t 0 0 [] ∅ (Build_ResolverState [] [] ∅), Build_RateLimiters ∅ ∅).
Definition table_well_formed (t : table) : Prop := map_Forall (λ uri m, ATURI m = uri ∧ row_ok m) t.
Lemma bridge_on_running {L : Type} (t : table) : table_well_formed t → running (λ _, True) (bridge_on (L := L) t).
Proof.
  intros Ht. split; [|done]. unfold bridge_inv. split; [|split; [|split]].
  - intros uri m Hm. by apply (Ht uri).
  - intros uri m Hm. by apply (Ht uri).
  - by apply Forall_nil.
  - split; [|done]. split; [done|]. intros p Hp. by apply elem_of_nil in Hp.
Qed.

Section Properties.
Context `{RecordDecoder} {Repo L : Type} `{RateLimiter L}.
Context (env : Env) (FetchRecord : list (nat * string) → string → result FetchedRecord)
  (wait : string → M (World table) unit) (bottom : ctx → string → M (World table) unit)
  (query_err : option string) (maxMessagesPerMinute : Z)
  (GetRecordBytes : Repo → string → result (option string))
  (cborToJSON : string → result string) (set_state_err : string → option string)
  (ParseCommit : Commit → result Repo).
Notation run := (run (L := L) env FetchRecord wait bottom query_err maxMessagesPerMinute
  GetRecordBytes cborToJSON set_state_err ParseCommit).

(** C1. What reaches the log: after any history of commits, record events,
    deferred runs and expiries, with the dependency resolver calling back into
    the processor and any collaborator failing at any point, every payload
    handed to the publisher is free of internal placeholders and carries the
    fields its type requires. *)
Theorem log_is_clean ks p :
  Forall (λ k, is_retry k = false) ks →
  p ∈ w_published (run ks empty_bridge).1 → payload_ok p.2.
Proof.
  intros Hks Hp.
  destruct (run_inv env FetchRecord wait bottom query_err maxMessagesPerMinute GetRecordBytes
    cborToJSON set_state_err ParseCommit payload_ok ltac:(done) ks empty_bridge)
    as [(_ & _ & Hpub & _) _]; [by left|apply empty_running|].
  rewrite list.Forall_forall in Hpub. by apply Hpub.
Qed.

(** C30. The processor keeps the table well formed: started on a table whose rows are
    well formed - the empty one, or what earlier runs left - any history of its six
    calls, retries included and any collaborator failing, leaves such a table. Every row
    is under its own address and in one of the five states, a deferred row says what it
    waits for, only a published row has a message reference, and a published row was
    attempted at least once. The two other writers of the table are not among the calls
    and break this: the reverse sync writes published rows without an attempt
    ([ReverseEcho.correlation_breaks_rows]) and a reset for retry leaves the reference on
    a pending row ([reset_breaks_rows]). *)
Theorem rows_stay_well_formed ks t : table_well_formed t → table_well_formed (w_store (run ks (bridge_on t)).1).
Proof.
  intros Ht uri m Hm.
  destruct (run_inv env FetchRecord wait bottom query_err maxMessagesPerMinute GetRecordBytes
    cborToJSON set_state_err ParseCommit (λ _, True) ltac:(done) ks (bridge_on t))
    as [(Hst & Hrow & _) _]; [by right|by apply bridge_on_running|].
  split; [by apply Hst|by eapply Hrow].
Qed.

(** C31. Remote fetches are bounded: after any history, each scope (one top-level
    record) has made at most 256 remote fetches, never two of the same record,
    and nothing is left in flight between calls. *)
Theorem dependency_fetches_bounded ks s sc :
  let r := w_res (run ks empty_bridge).1 in
  inflight r = ∅ ∧
  (scopes r !! s = Some sc →
   Z.of_nat (length (fetches_of s r)) <= 256 ∧ NoDup (fetches_of s r)).
Proof.
  intros r.
  destruct (run_inv env FetchRecord wait bottom query_err maxMessagesPerMinute GetRecordBytes
    cborToJSON set_state_err ParseCommit (λ _, True) ltac:(done) ks empty_bridge)
    as [(_ & _ & _ & (Hs & _) & Hin) _]; [by right|apply empty_running|].
  split; [done|]. intros Hsc. destruct (Hs s sc Hsc) as (Hle & Hlen & Hnd & _).
  split; [|done]. change (Z.of_nat (length (fetches_of s r)) = fetchedRecords sc) in Hlen.
  rewrite Hlen. exact Hle.
Qed.
End Properties.

(** What [ResetMessageForRetry] does to a published row. *)
Lemma reset_breaks_rows (t : gmap string Message) uri m : t !! uri = Some m → SSBMsgRef m ≠ "" →
  ∃ m', ResetMessageForRetry uri t !! uri = Some m' ∧ ¬ row_ok m'.
Proof.
  intros Hm Hs. unfold ResetMessageForRetry. eexists. split; [rewrite lookup_alter_eq, Hm; done|].
  intros (_ & _ & Href & _). by apply Hs, Href.
Qed.
