(* ===== verification/Codec.v ===== *)
(** * MuxRPC packet codec ([internal/ssb/muxrpc/codec/codec.go])

    Packets with a nine-byte header, encoded whole, and decoded either from a
    reader or incrementally from the chunks a connection delivers. *)
From S2P Require Import Prelude GoStr GoBytes.
#[local] Open Scope string_scope.
#[local] Open Scope list_scope.
#[local] Open Scope Z_scope.

Definition HeaderSize : nat := 9.
Definition maxBufferSize : Z := 2 ^ 18.

Record Packet := { Flag : Z; Req : Z; Body : bytes }.
Record Header := { hdr_Flag : Z; hdr_Len : Z; hdr_Req : Z }.

(** [Flag.Set], [Flag.Clear], [Flag.Get]. *)
Definition flag_set (f g : Z) : Z := Z.lor f g.
Definition flag_clear (f g : Z) : Z := Z.ldiff f g.
Definition flag_get (f g : Z) : bool := bool_decide (Z.land f g = g).

(** The values Go's types allow. *)
Definition packet_wf (p : Packet) : Prop :=
  0 <= Flag p < 256 ∧ - 2 ^ 31 <= Req p < 2 ^ 31.

(** ** Encoding *)
Definition EncodePacket (p : Packet) : result bytes :=
  let bodyLen := Z.of_nat (length (Body p)) in
  if bool_decide (maxBufferSize < bodyLen)
  then Err ("pkt-codec: body too large (" +:+ itoa bodyLen +:+ ")")
  else Ok (be_enc 1 (Flag p) ++ be_enc 4 (uint32 bodyLen) ++ be_enc 4 (uint32 (Req p)) ++ Body p).

(** The nine zero bytes [Writer.Close] sends. *)
Definition goodbye : bytes := replicate HeaderSize "000"%char.

(** ** Incremental decoding *)
Definition ErrNeedInput : string := "pkt-codec: need more input".
Definition EOF : string := "EOF".

Definition parse_header (buf : bytes) : Header := {|
  hdr_Flag := be_dec (take 1 buf);
  hdr_Len := be_dec (take 4 (drop 1 buf));
  hdr_Req := int32 (be_dec (take 4 (drop 5 buf)))
|}.
Definition is_goodbye (h : Header) : bool :=
  bool_decide (hdr_Flag h = 0 ∧ hdr_Len h = 0 ∧ hdr_Req h = 0).

(** The state of a [Decoder] is its buffer. [HeaderSize + hdr.Len] is computed in
    32 bits; a slice expression whose end is below its start panics. *)
Definition AddData (p : bytes) (buffer : bytes) : bytes := buffer ++ p.
Definition NextPacket (buffer : bytes) : result Packet * bytes :=
  if bool_decide (length buffer < HeaderSize)%nat then (Err ErrNeedInput, buffer)
  else
    let hdr := parse_header (take HeaderSize buffer) in
    if is_goodbye hdr then (Err EOF, drop HeaderSize buffer)
    else
      let end_ := uint32 (Z.of_nat HeaderSize + hdr_Len hdr) in
      if bool_decide (uint32 (Z.of_nat (length buffer)) < end_) then (Err ErrNeedInput, buffer)
      else if bool_decide (end_ < Z.of_nat HeaderSize) then (Panic, buffer)
      else
        (Ok {| Flag := hdr_Flag hdr; Req := hdr_Req hdr;
               Body := take (Z.to_nat (end_ - Z.of_nat HeaderSize)) (drop HeaderSize buffer) |},
         drop (Z.to_nat end_) buffer).

(** ** Reading from a stream *)

(** [io.ReadFull] on the bytes a stream still has to give. *)
Definition ReadFull (n : nat) (stream : bytes) : result bytes * bytes :=
  if bool_decide (n <= length stream)%nat then (Ok (take n stream), drop n stream)
  else (Err (if bool_decide (stream = []) then EOF else "unexpected EOF"), []).

Definition ReadHeader : M bytes Header := λ stream,
  match ReadFull HeaderSize stream with
  | (Ok buf, stream) =>
      let hdr := parse_header buf in
      if is_goodbye hdr then (Err EOF, stream) else (Ok hdr, stream)
  | (Err e, stream) =>
      (Err (if bool_decide (e = EOF) then EOF else "pkt-codec: header read failed: " +:+ e), stream)
  | (Panic, stream) => (Panic, stream)
  end.

Definition read_body (hdr : Header) : M bytes Packet := λ stream,
  match ReadFull (Z.to_nat (hdr_Len hdr)) stream with
  | (Ok body, stream) =>
      (Ok {| Flag := hdr_Flag hdr; Req := hdr_Req hdr; Body := body |}, stream)
  | (Err e, stream) =>
      (Err (if bool_decide (e = EOF) then EOF else "pkt-codec: read body failed: " +:+ e), stream)
  | (Panic, stream) => (Panic, stream)
  end.
Definition ReadPacket : M bytes Packet := hdr ← ReadHeader; read_body hdr.

(** ** Writing to a stream

    [io_Write] is the underlying writer and [io_Close] its [Close] method, when
    it has one. *)
Section Writer.
Context {Out : Type} (io_Write : bytes → M Out unit) (io_Close : option (M Out unit)).

Definition WritePacket (p : Packet) : M Out unit := λ out,
  let bodyLen := Z.of_nat (length (Body p)) in
  if bool_decide (maxBufferSize < bodyLen)
  then (Err ("pkt-codec: body too large (" +:+ itoa bodyLen +:+ ")"), out)
  else
    let hdr := be_enc 1 (Flag p) ++ be_enc 4 (uint32 bodyLen) ++ be_enc 4 (uint32 (Req p)) in
    (_ ← mwrap "pkt-codec: header write failed: " (io_Write hdr); mwrap "pkt-codec: body write failed: " (io_Write (Body p))) out.

Definition Close : M Out unit :=
  _ ← mwrap "pkt-codec: failed to write Close() packet: " (io_Write goodbye);
  match io_Close with
  | Some close => mwrap "pkt-codec: failed to close underlying writer: " close
  | None => λ out, (Ok tt, out)
  end.
End Writer.

(** A writer that takes everything. *)
Definition append_all (b : bytes) : M bytes unit := λ out, (Ok tt, out ++ b).

(** ** A connection: packets out, chunks in *)

(** The packets written one after the other, then [Close]. *)
Fixpoint write_packets (ps : list Packet) : M bytes unit :=
  match ps with
  | [] => Close append_all None
  | p :: ps => _ ← WritePacket append_all p; write_packets ps
  end.

(** [NextPacket] until it asks for more input, ends or fails. *)
Inductive stop := NeedInput | Ended | Broken.
Fixpoint drain (fuel : nat) (buffer : bytes) : list Packet * stop * bytes :=
  match fuel with
  | O => ([], NeedInput, buffer)
  | S fuel =>
      match NextPacket buffer with
      | (Ok p, buffer) => let '(ps, st, rest) := drain fuel buffer in (p :: ps, st, rest)
      | (Err e, buffer) => ([], if bool_decide (e = EOF) then Ended else NeedInput, buffer)
      | (Panic, buffer) => ([], Broken, buffer)
      end
  end.
Definition drain_all (buffer : bytes) : list Packet * stop * bytes :=
  drain (S (length buffer)) buffer.

(** The receive loop: add a chunk, take every packet that is complete. *)
Fixpoint receive (chunks : list bytes) (buffer : bytes) : list Packet * stop * bytes :=
  match chunks with
  | [] => ([], NeedInput, buffer)
  | c :: chunks =>
      match drain_all (AddData c buffer) with
      | (ps, NeedInput, buffer) =>
          let '(qs, st, rest) := receive chunks buffer in (ps ++ qs, st, rest)
      | r => r
      end
  end.

(** ** Headers *)
Definition small (buffer : bytes) : Prop := Z.of_nat (length buffer) < 2 ^ 32.

(** A packet the protocol can carry: within the limits, and not the one whose
    encoding is the goodbye. *)
Definition sendable (p : Packet) : Prop :=
  packet_wf p ∧ Z.of_nat (length (Body p)) <= maxBufferSize ∧
  ¬ (Flag p = 0 ∧ Req p = 0 ∧ Body p = []).

Definition enc_header (p : Packet) : bytes :=
  be_enc 1 (Flag p) ++ be_enc 4 (uint32 (Z.of_nat (length (Body p)))) ++ be_enc 4 (uint32 (Req p)).
Definition enc (p : Packet) : bytes := enc_header p ++ Body p.

Lemma encode_sendable p : sendable p → EncodePacket p = Ok (enc p).
Proof.
  intros (_ & Hlen & _). unfold EncodePacket, enc, enc_header.
  rewrite bool_decide_eq_false_2 by lia. by rewrite <-!app_assoc.
Qed.

Lemma write_packet_enc p out : sendable p → WritePacket append_all p out = (Ok tt, out ++ enc p).
Proof.
  intros (_ & Hlen & _). unfold WritePacket, mwrap, append_all, mbind, M_mbind.
  cbv zeta. rewrite bool_decide_eq_false_2 by lia. cbn [fst]. unfold enc, enc_header. by rewrite <-!app_assoc.
Qed.

Lemma write_packets_enc ps out : Forall sendable ps →
  write_packets ps out = (Ok tt, out ++ concat (map enc ps) ++ goodbye).
Proof.
  intros H. revert out. induction H as [|p ps Hp Hps IH]; intros out; [done|].
  cbn [write_packets]. unfold mbind, M_mbind. rewrite write_packet_enc by done. rewrite IH.
  simpl. by rewrite <-!app_assoc.
Qed.

Lemma enc_header_length p : length (enc_header p) = HeaderSize.
Proof. unfold enc_header. by rewrite !length_app, !be_enc_length. Qed.

Lemma enc_length p : length (enc p) = (9 + length (Body p))%nat.
Proof. unfold enc. by rewrite length_app, enc_header_length. Qed.

Lemma parse_enc_header p : packet_wf p → Z.of_nat (length (Body p)) < 2 ^ 32 →
  parse_header (enc_header p) =
    {| hdr_Flag := Flag p; hdr_Len := Z.of_nat (length (Body p)); hdr_Req := Req p |}.
Proof.
  intros [Hf Hr] Hl. unfold parse_header, enc_header.
  set (l := uint32 (Z.of_nat (length (Body p)))).
  assert (l = Z.of_nat (length (Body p))) as Hl' by (apply uint32_small; lia).
  f_equal.
  - rewrite take_app_exact by (by rewrite be_enc_length). apply be_dec_enc. simpl. lia.
  - rewrite drop_app_exact by (by rewrite be_enc_length).
    rewrite take_app_exact by (by rewrite be_enc_length). rewrite be_dec_enc; [done|].
    simpl. lia.
  - rewrite app_assoc, drop_app_exact by (by rewrite length_app, !be_enc_length).
    rewrite take_ge by (rewrite be_enc_length; lia). rewrite be_dec_enc.
    + by apply int32_uint32.
    + pose proof (uint32_bound (Req p)). simpl. lia.
Qed.

Lemma hdr_len_bound b : length b = HeaderSize → 0 <= hdr_Len (parse_header b) < 2 ^ 32.
Proof.
  intros Hb. unfold parse_header. cbn [hdr_Len].
  pose proof (be_dec_bound (take 4 (drop 1 b))) as Hd.
  rewrite length_take, length_drop, Hb in Hd. simpl in Hd. lia.
Qed.

(** ** One step of the decoder *)

(** [NextPacket] on a buffer of ordinary size, without the 32-bit arithmetic. *)
Lemma next_packet_small buffer : small buffer →
  NextPacket buffer =
    if bool_decide (length buffer < HeaderSize)%nat then (Err ErrNeedInput, buffer)
    else
      let hdr := parse_header (take HeaderSize buffer) in
      if is_goodbye hdr then (Err EOF, drop HeaderSize buffer)
      else if bool_decide (2 ^ 32 - 9 <= hdr_Len hdr) then (Panic, buffer)
      else if bool_decide (Z.of_nat (length buffer) < 9 + hdr_Len hdr)
      then (Err ErrNeedInput, buffer)
      else (Ok {| Flag := hdr_Flag hdr; Req := hdr_Req hdr;
                  Body := take (Z.to_nat (hdr_Len hdr)) (drop HeaderSize buffer) |},
            drop (Z.to_nat (hdr_Len hdr)) (drop HeaderSize buffer)).
Proof.
  intros Hs. unfold NextPacket. case_bool_decide as Hlen; [done|]. cbv zeta.
  set (hdr := parse_header _). destruct (is_goodbye hdr); [done|].
  assert (0 <= hdr_Len hdr < 2 ^ 32) as Hh.
  { apply hdr_len_bound. rewrite length_take. unfold HeaderSize in *. lia. }
  unfold small in Hs. rewrite (uint32_small (Z.of_nat (length buffer))) by lia.
  unfold HeaderSize in *. destruct (decide (2 ^ 32 - 9 <= hdr_Len hdr)) as [Hbig|Hbig].
  - rewrite (bool_decide_eq_true_2 (2 ^ 32 - 9 <= hdr_Len hdr)) by done.
    assert (uint32 (Z.of_nat 9 + hdr_Len hdr) = 9 + hdr_Len hdr - 2 ^ 32) as ->.
    { unfold uint32. rewrite <-(Z.mod_small (9 + hdr_Len hdr - 2 ^ 32) (2 ^ 32)) by lia.
      rewrite <-(Z_mod_plus_full (9 + hdr_Len hdr - 2 ^ 32) 1 (2 ^ 32)). f_equal; lia. }
    rewrite bool_decide_eq_false_2 by lia. by rewrite bool_decide_eq_true_2 by lia.
  - rewrite (bool_decide_eq_false_2 (2 ^ 32 - 9 <= hdr_Len hdr)) by done.
    rewrite uint32_small by lia. change (Z.of_nat 9) with 9.
    case_bool_decide; [done|]. rewrite bool_decide_eq_false_2 by lia.
    rewrite drop_drop. replace (9 + hdr_Len hdr - 9) with (hdr_Len hdr) by lia.
    by replace (9 + Z.to_nat (hdr_Len hdr))%nat with (Z.to_nat (9 + hdr_Len hdr)) by lia.
Qed.

(** A packet at the front of the buffer is taken off it. *)
Lemma next_packet_enc p rest : sendable p → small (enc p ++ rest) →
  NextPacket (enc p ++ rest) = (Ok p, rest).
Proof.
  intros (Hwf & Hmax & Hne) Hs. rewrite next_packet_small by done.
  unfold enc. rewrite <-app_assoc.
  pose proof (enc_header_length p) as Hh.
  rewrite bool_decide_eq_false_2 by (rewrite length_app, Hh; lia).
  rewrite take_app_exact by done. rewrite drop_app_exact by done.
  unfold maxBufferSize in Hmax.
  rewrite parse_enc_header by (done || lia). cbv zeta. cbn [hdr_Len hdr_Flag hdr_Req].
  unfold is_goodbye. cbn [hdr_Len hdr_Flag hdr_Req]. rewrite bool_decide_eq_false_2.
  2:{ intros (? & Hl & ?). apply Hne. split_and!; try done. by destruct (Body p). }
  rewrite bool_decide_eq_false_2 by lia.
  rewrite bool_decide_eq_false_2 by (rewrite !length_app, Hh; unfold HeaderSize; lia).
  rewrite Nat2Z.id, take_app_exact, drop_app_exact by done. by destruct p.
Qed.

Lemma next_packet_goodbye rest : small (goodbye ++ rest) →
  NextPacket (goodbye ++ rest) = (Err EOF, rest).
Proof.
  intros Hs. rewrite next_packet_small by done.
  rewrite bool_decide_eq_false_2 by (rewrite length_app; simpl; unfold HeaderSize; lia).
  rewrite take_app_exact, drop_app_exact by done. done.
Qed.

(** More data never changes what the decoder has decided. *)
Lemma next_packet_app b c : small (b ++ c) →
  match NextPacket b with
  | (Ok p, r) => NextPacket (b ++ c) = (Ok p, r ++ c)
  | (Panic, _) => NextPacket (b ++ c) = (Panic, b ++ c)
  | (Err e, r) => (e = ErrNeedInput ∧ r = b) ∨ (e = EOF ∧ NextPacket (b ++ c) = (Err EOF, r ++ c))
  end.
Proof.
  intros Hs. assert (small b) as Hb.
  { unfold small in *. rewrite length_app in Hs. lia. }
  rewrite !next_packet_small by done.
  case_bool_decide as Hlen; [by left|].
  rewrite (bool_decide_eq_false_2 (length (b ++ c) < HeaderSize)%nat)
    by (rewrite length_app; lia).
  rewrite take_app_le by lia. rewrite drop_app_le by lia. cbv zeta.
  set (hdr := parse_header _).
  assert (0 <= hdr_Len hdr) as Hh.
  { apply hdr_len_bound. rewrite length_take. unfold HeaderSize in *. lia. }
  destruct (is_goodbye hdr); [by right|].
  destruct (bool_decide (2 ^ 32 - 9 <= hdr_Len hdr)); [done|].
  case_bool_decide as Hn; [by left|].
  rewrite bool_decide_eq_false_2 by (rewrite length_app; lia).
  unfold HeaderSize in *.
  rewrite take_app_le by (rewrite length_drop; lia).
  by rewrite drop_app_le by (rewrite length_drop; lia).
Qed.

Lemma next_packet_shorter b p r : NextPacket b = (Ok p, r) → small b → (length r < length b)%nat.
Proof.
  intros Hn Hs. rewrite next_packet_small in Hn by done.
  case_bool_decide; [done|]. cbv zeta in Hn. repeat case_match; simplify_eq.
  rewrite !length_drop. unfold HeaderSize in *. lia.
Qed.

(** ** Draining a buffer *)
Lemma small_app_l b c : small (b ++ c) → small b.
Proof. unfold small. rewrite length_app. lia. Qed.
Lemma small_shorter b r : small b → (length r ≤ length b)%nat → small r.
Proof. unfold small. lia. Qed.

Lemma drain_fuel f g b : small b → (length b < f)%nat → (length b < g)%nat → drain f b = drain g b.
Proof.
  revert g b. induction f as [|f IH]; intros g b Hs Hf Hg; [lia|].
  destruct g as [|g]; [lia|]. simpl.
  destruct (NextPacket b) as [[p|e|] r] eqn:E; [|done..].
  pose proof (next_packet_shorter b p r E Hs). rewrite (IH g r); [done| |lia..].
  eapply small_shorter; [done|lia].
Qed.

(** Feeding a buffer in two parts drains the same packets. *)
Lemma drain_app f b c : small (b ++ c) → (length b < f)%nat →
  drain_all (b ++ c) =
    match drain f b with
    | (ps, NeedInput, r) => let '(qs, st, r') := drain_all (r ++ c) in (ps ++ qs, st, r')
    | (ps, st, r) => (ps, st, r ++ c)
    end.
Proof.
  revert b. induction f as [|f IH]; intros b Hs Hf; [lia|].
  pose proof (next_packet_app b c Hs) as Hn. pose proof (small_app_l _ _ Hs) as Hb.
  cbn [drain]. destruct (NextPacket b) as [[p|e|] r] eqn:E.
  - unfold drain_all at 1. cbn [drain]. rewrite Hn.
    pose proof (next_packet_shorter b p r E Hb) as Hr.
    assert (small (r ++ c)) as Hrc.
    { eapply small_shorter; [exact Hs|]. rewrite !length_app. lia. }
    rewrite (drain_fuel (length (b ++ c)) (S (length (r ++ c))) (r ++ c))
      by (first [exact Hrc | rewrite !length_app; lia]).
    change (drain (S (length (r ++ c))) (r ++ c)) with (drain_all (r ++ c)).
    rewrite (IH r Hrc) by lia. destruct (drain f r) as [[ps []] r'] eqn:Ed; [|done..].
    by destruct (drain_all (r' ++ c)) as [[qs st] r''].
  - destruct Hn as [[-> ->]|[-> Hn]].
    + simpl. by destruct (drain_all (b ++ c)) as [[qs st] r'].
    + rewrite bool_decide_eq_true_2 by done. unfold drain_all. cbn [drain]. by rewrite Hn.
  - unfold drain_all. cbn [drain]. rewrite Hn.
    rewrite next_packet_small in E by done. cbv zeta in E. by repeat case_match; simplify_eq.
Qed.

(** The rest a drained buffer leaves needs more input. *)
Lemma drain_rest f b ps r : small b → (length b < f)%nat → drain f b = (ps, NeedInput, r) →
  (length r ≤ length b)%nat ∧ drain_all r = ([], NeedInput, r).
Proof.
  revert b ps. induction f as [|f IH]; intros b ps Hs Hf Hd; [lia|].
  cbn [drain] in Hd. destruct (NextPacket b) as [[p|e|] r0] eqn:E; [| |done].
  - pose proof (next_packet_shorter b p r0 E Hs).
    destruct (drain f r0) as [[qs st] r'] eqn:Ed. simplify_eq.
    destruct (IH r0 qs) as [Hl Hr]; [eapply small_shorter; [done|lia]|lia|done|]. split; [lia|done].
  - case_bool_decide; simplify_eq.
    pose proof (next_packet_app b [] ) as Hn. rewrite app_nil_r in Hn. specialize (Hn Hs).
    rewrite E in Hn. destruct Hn as [[-> ->]|[-> _]]; [|done].
    split; [lia|]. unfold drain_all. cbn [drain]. by rewrite E.
Qed.

Lemma receive_drain chunks b : small (b ++ concat chunks) →
  drain_all b = ([], NeedInput, b) →
  (receive chunks b).1 = (drain_all (b ++ concat chunks)).1.
Proof.
  revert b. induction chunks as [|c chunks IH]; intros b Hs Hb; cbn [receive concat].
  { by rewrite app_nil_r, Hb. }
  unfold AddData. cbn [concat] in Hs. rewrite app_assoc in Hs |- *.
  rewrite (drain_app (S (length (b ++ c))) (b ++ c) (concat chunks)) by (done || lia).
  unfold drain_all at 1. destruct (drain (S (length (b ++ c))) (b ++ c)) as [[ps st] r] eqn:E.
  destruct st; [|done..].
  apply small_app_l in Hs as Hbc.
  apply drain_rest in E as [Hl Hr]; [|done|lia].
  assert (small (r ++ concat chunks)) as Hrc.
  { eapply small_shorter; [exact Hs|]. rewrite !length_app in *. lia. }
  specialize (IH r Hrc Hr).
  destruct (receive chunks r) as [[qs st] r']. destruct (drain_all (r ++ concat chunks)) as [[]].
  simpl in *. by simplify_eq.
Qed.

Lemma drain_encoded ps rest : Forall sendable ps →
  small (concat (map enc ps) ++ goodbye ++ rest) →
  drain_all (concat (map enc ps) ++ goodbye ++ rest) = (ps, Ended, rest).
Proof.
  intros Hps. induction Hps as [|p ps Hp Hps IH]; intros Hs.
  - unfold drain_all. cbn [drain map concat].
    change ([] ++ goodbye ++ rest) with (goodbye ++ rest). by rewrite next_packet_goodbye.
  - cbn [map concat] in Hs |- *. rewrite <-app_assoc in Hs |- *.
    unfold drain_all. cbn [drain]. rewrite next_packet_enc by done.
    assert (small (concat (map enc ps) ++ goodbye ++ rest)) as Hs'.
    { eapply small_shorter; [exact Hs|]. rewrite (length_app (enc p)). lia. }
    rewrite (drain_fuel _ (S (length (concat (map enc ps) ++ goodbye ++ rest)))); [|done| |lia].
    + change (drain _ _) with (drain_all (concat (map enc ps) ++ goodbye ++ rest)).
      by rewrite IH.
    + rewrite (length_app (enc p)), enc_length. lia.
Qed.

(** ** Properties *)

(** C35. MuxRPC framing round-trips however the connection cuts the stream: the
    packets a peer encodes and sends, then closes, come out of the incremental
    decoder in order and whole, followed by the end of the stream, for every way
    of splitting the bytes into chunks. *)
Theorem codec_roundtrip_chunked ps :
  Forall sendable ps →
  Forall (λ p, EncodePacket p = Ok (enc p)) ps ∧
  ∃ written, write_packets ps [] = (Ok tt, written) ∧
    ∀ chunks, concat chunks = written → small written → (receive chunks []).1 = (ps, Ended).
Proof.
  intros Hps. split; [exact (List.Forall_impl _ encode_sendable Hps)|].
  eexists. split; [by apply write_packets_enc|]. intros chunks Hc Hs.
  rewrite receive_drain by (by rewrite ?app_nil_l, ?Hc). rewrite !app_nil_l, Hc in *.
  rewrite <-(app_nil_r goodbye) in Hs |- *. by rewrite drain_encoded.
Qed.

(** The incremental decoder panics exactly when a header announces a body
    within nine bytes of the 32-bit range: the length check overflows and the
    slice that follows is out of range. *)
Theorem next_packet_panics_iff buffer : small buffer →
  (NextPacket buffer).1 = Panic ↔
    (HeaderSize ≤ length buffer)%nat ∧
    2 ^ 32 - 9 <= hdr_Len (parse_header (take HeaderSize buffer)).
Proof.
  intros Hs. rewrite next_packet_small by done. case_bool_decide; [simpl; naive_solver lia|].
  cbv zeta. set (hdr := parse_header _). destruct (is_goodbye hdr) eqn:Eg.
  - unfold is_goodbye in Eg. apply bool_decide_eq_true in Eg as (_ & Hl & _). cbn [fst].
    split; [done|]. intros [_ ?]. lia.
  - case_bool_decide; cbn [fst]; [naive_solver lia|]. case_bool_decide; cbn [fst]; naive_solver.
Qed.

(** The two decoders agree: on a buffer whose header is in range, reading a
    packet from the stream succeeds exactly when the incremental decoder has one,
    with the same packet and the same bytes left. *)
Theorem reader_agrees buffer p rest : small buffer →
  hdr_Len (parse_header (take HeaderSize buffer)) < 2 ^ 32 - 9 →
  ReadPacket buffer = (Ok p, rest) ↔ NextPacket buffer = (Ok p, rest).
Proof.
  intros Hs Hh. rewrite next_packet_small by done.
  unfold ReadPacket, mbind, M_mbind, ReadHeader, ReadFull.
  case_bool_decide as Hlen.
  - rewrite bool_decide_eq_false_2 by lia. cbv zeta.
    destruct (is_goodbye _); [by split|].
    rewrite bool_decide_eq_false_2 by lia.
    unfold read_body, ReadFull. cbv zeta.
    assert (0 <= hdr_Len (parse_header (take HeaderSize buffer))) as H0.
    { apply hdr_len_bound. rewrite length_take. unfold HeaderSize in *. lia. }
    set (n := hdr_Len (parse_header (take HeaderSize buffer))) in *. unfold HeaderSize in *.
    destruct (decide (Z.to_nat n ≤ length (drop 9 buffer))%nat) as [Hn|Hn];
      rewrite length_drop in Hn.
    + rewrite bool_decide_eq_true_2 by (rewrite length_drop; lia).
      by rewrite bool_decide_eq_false_2 by lia.
    + rewrite bool_decide_eq_false_2 by (rewrite length_drop; lia).
      rewrite (bool_decide_eq_true_2 (Z.of_nat (length buffer) < 9 + n)) by lia.
      split; [by repeat case_match|done].
  - rewrite (bool_decide_eq_true_2 (length buffer < HeaderSize)%nat) by lia.
    split; [by repeat case_match|done].
Qed.
