(* ===== verification/Stream.v ===== *)
(** * Streams of a MuxRPC session ([internal/ssb/muxrpc/stream.go], [stream_conn.go])

    What a peer sends on one stream waits in a byte source, a buffer of frames
    with their lengths; what is written to it leaves through a byte sink as
    packets. A pair of them is also used as a connection. The buffer is proved to
    be a queue of frames, and the connection a queue of bytes.

    A call that waits is split in two: what it does at once, and what it does when
    one of the channels it waits for is ready. *)
From S2P Require Import Prelude GoStr GoBytes Codec.
#[local] Open Scope string_scope.
#[local] Open Scope list_scope.
#[local] Open Scope Z_scope.

(** ** Flags and encodings *)
Definition FlagString : Z := 1.
Definition FlagJSON : Z := 2.
Definition FlagEndErr : Z := 4.
Definition FlagStream : Z := 8.

Definition TypeBinary : Z := 0.
Definition TypeString : Z := 1.
Definition TypeJSON : Z := 2.
Definition IsValid (rt : Z) : bool := bool_decide (rt <= TypeJSON).
Definition AsCodecFlag (rt : Z) : result Z :=
  if negb (IsValid rt) then Err ("muxrpc: invalid request encoding " +:+ itoa rt)
  else if bool_decide (rt = TypeBinary) then Ok 0
  else if bool_decide (rt = TypeString) then Ok FlagString
  else if bool_decide (rt = TypeJSON) then Ok FlagJSON
  else Err ("muxrpc: invalid request encoding " +:+ itoa rt).

(** ** The frame buffer

    [bytes.Buffer] holds the bytes not read yet; [binary.LittleEndian] writes the
    length of a frame in front of it. The channels of [waiting] are the wake-ups of
    the readers below. *)
Definition le_enc (n : nat) (v : Z) : bytes := rev (be_enc n v).
Definition le_dec (l : bytes) : Z := be_dec (rev l).

Record frameBuffer := {
  store : bytes;
  currentFrameTotal : Z;
  currentFrameRead : Z;
  frames : Z;
  lenBuf : bytes
}.
Definition new_frameBuffer : frameBuffer := {|
  store := []; currentFrameTotal := 0; currentFrameRead := 0; frames := 0;
  lenBuf := replicate 4 "000"%char |}.

Definition writeBody (body : bytes) (fb : frameBuffer) : frameBuffer :=
  let pktLen := le_enc 4 (uint32 (Z.of_nat (length body))) in
  {| store := store fb ++ pktLen ++ body; currentFrameTotal := currentFrameTotal fb;
     currentFrameRead := currentFrameRead fb; frames := uint32 (frames fb + 1); lenBuf := pktLen |}.

(** [getNextFrameReader]: skips what is left of the frame before, reads a length;
    the reader it returns is the length itself. A read of fewer than four bytes
    leaves the old ones in [lenBuf]. *)
Definition skip_rest (fb : frameBuffer) : bytes :=
  let diff := uint32 (currentFrameTotal fb - currentFrameRead fb) in
  if negb (bool_decide (currentFrameTotal fb = 0)) && bool_decide (0 < diff)
  then drop (Z.to_nat diff) (store fb) else store fb.
Definition getNextFrameReader : M frameBuffer Z := λ fb,
  let st := skip_rest fb in
  if bool_decide (st = []) then
    (Err ("muxrpc: didnt get length of next body (frames:" +:+ itoa (frames fb) +:+ "): " +:+ EOF),
     {| store := []; currentFrameTotal := currentFrameTotal fb; currentFrameRead := currentFrameRead fb;
        frames := frames fb; lenBuf := lenBuf fb |})
  else
    let l := take 4 st ++ drop (length (take 4 st)) (lenBuf fb) in
    (Ok (le_dec l), {| store := drop 4 st; currentFrameTotal := le_dec l; currentFrameRead := 0;
                       frames := uint32 (frames fb - 1); lenBuf := l |}).

(** [io.ReadFull] through the [countingReader]. *)
Definition read_counted (n : Z) : M frameBuffer bytes := λ fb,
  let r := ReadFull (Z.to_nat n) (store fb) in
  (r.1, {| store := r.2; currentFrameTotal := currentFrameTotal fb;
           currentFrameRead := uint32 (currentFrameRead fb + Z.of_nat (length (store fb) - length r.2));
           frames := frames fb; lenBuf := lenBuf fb |}).
Definition read_frame : M frameBuffer bytes := pktLen ← getNextFrameReader; read_counted pktLen.

(** ** Byte sources *)
Definition Canceled : string := "context canceled".

Record ByteSource := { buf : frameBuffer; closed : bool; failed : option string }.
Definition NewByteSource : ByteSource := {| buf := new_frameBuffer; closed := false; failed := None |}.

Definition Cancel (err : option string) (bs : ByteSource) : ByteSource :=
  match failed bs with
  | Some _ => bs
  | None => {| buf := buf bs; closed := true; failed := Some (default EOF err) |}
  end.

Definition source_Err (bs : ByteSource) : option string :=
  if bool_decide (failed bs = Some EOF ∨ failed bs = Some Canceled) then None else failed bs.

(** [consume], and the [WritePacket] of a source. *)
Definition consume (body : bytes) : M ByteSource unit := λ bs,
  match failed bs with
  | Some e => (Err e, bs)
  | None => (Ok tt, {| buf := writeBody body (buf bs); closed := closed bs; failed := None |})
  end.
Definition source_WritePacket (p : Packet) : M ByteSource unit := consume (Body p).

(** The channels a reader waits for: the context of the stream, the context of the
    call, [closed], and the next frame. *)
Inductive wake := WStream (err : string) | WCtx (err : string) | WClosed | WMore.
Definition fires (w : wake) (bs : ByteSource) : bool :=
  match w with
  | WStream _ | WCtx _ => true
  | WClosed => closed bs
  | WMore => bool_decide (0 < frames (buf bs))
  end.

Definition fail_with (err : string) (bs : ByteSource) : ByteSource :=
  match failed bs with
  | Some _ => bs
  | None => {| buf := buf bs; closed := closed bs; failed := Some err |}
  end.

(** [Next]: [None] waits. *)
Definition Next_now (bs : ByteSource) : option bool :=
  if bool_decide (is_Some (failed bs)) && bool_decide (frames (buf bs) = 0) then Some false
  else if bool_decide (0 < frames (buf bs)) then Some true
  else None.
Definition Next_wake (w : wake) (bs : ByteSource) : bool * ByteSource :=
  match w with
  | WStream err => (bool_decide (0 < frames (buf bs)), fail_with err bs)
  | WCtx err => (false, fail_with err bs)
  | WClosed => (bool_decide (0 < frames (buf bs)), bs)
  | WMore => (true, bs)
  end.

Definition read_source : M ByteSource bytes := λ bs,
  let r := read_frame (buf bs) in (r.1, {| buf := r.2; closed := closed bs; failed := failed bs |}).

(** [Bytes]: [None] waits in [Next] with a context that never ends. *)
Definition Bytes_now (bs : ByteSource) : option (result bytes) * ByteSource :=
  if bool_decide (frames (buf bs) = 0) then
    match failed bs with
    | Some e => (Some (Err e), bs)
    | None => (None, bs)
    end
  else let r := read_source bs in (Some r.1, r.2).
Definition Bytes_wake (w : wake) (bs : ByteSource) : result bytes * ByteSource :=
  let (more, bs) := Next_wake w bs in
  if more then read_source bs
  else (match failed bs with Some e => Err e | None => Ok [] end, bs).

(** ** Byte sinks

    [pkr] is the writer of packets behind a sink: the queue of the session or the
    connection itself, as [queued] says. *)
Record ByteSink := {
  sink_req : Z;
  sink_flag : Z;
  encoding : Z;
  sink_closed : bool;
  closeErr : option string;
  writer : bytes;
  isCounter : bool;
  queued : bool
}.
Definition NewByteSink (q : bool) : ByteSink := {|
  sink_req := 0; sink_flag := 0; encoding := TypeBinary; sink_closed := false; closeErr := None;
  writer := []; isCounter := false; queued := q |}.

Definition SetReqID (req : Z) (bs : ByteSink) : ByteSink := {|
  sink_req := req; sink_flag := sink_flag bs; encoding := encoding bs; sink_closed := sink_closed bs;
  closeErr := closeErr bs; writer := writer bs; isCounter := isCounter bs; queued := queued bs |}.
Definition SetCounterpart (v : bool) (bs : ByteSink) : ByteSink := {|
  sink_req := sink_req bs; sink_flag := sink_flag bs; encoding := encoding bs; sink_closed := sink_closed bs;
  closeErr := closeErr bs; writer := writer bs; isCounter := v; queued := queued bs |}.
Definition SetEncoding (enc : Z) (bs : ByteSink) : ByteSink := {|
  sink_req := sink_req bs; sink_flag := sink_flag bs; encoding := enc; sink_closed := sink_closed bs;
  closeErr := closeErr bs; writer := writer bs; isCounter := isCounter bs; queued := queued bs |}.
Definition SetFlag (f : Z) (bs : ByteSink) : ByteSink := {|
  sink_req := sink_req bs; sink_flag := f; encoding := encoding bs; sink_closed := sink_closed bs;
  closeErr := closeErr bs; writer := writer bs; isCounter := isCounter bs; queued := queued bs |}.
Definition with_writer (b : bytes) (bs : ByteSink) : ByteSink := {|
  sink_req := sink_req bs; sink_flag := sink_flag bs; encoding := encoding bs; sink_closed := sink_closed bs;
  closeErr := closeErr bs; writer := b; isCounter := isCounter bs; queued := queued bs |}.
Definition mark_closed (err : option string) (bs : ByteSink) : ByteSink := {|
  sink_req := sink_req bs; sink_flag := sink_flag bs; encoding := encoding bs; sink_closed := true;
  closeErr := err; writer := writer bs; isCounter := isCounter bs; queued := queued bs |}.

Definition isStream (bs : ByteSink) : bool := flag_get (sink_flag bs) FlagStream.

(** The number on the packets of a sink; negating an [int32] may overflow. *)
Definition packet_id (bs : ByteSink) : Z :=
  if isCounter bs then int32 (- sink_req bs) else sink_req bs.

Definition error_envelope (err : string) : bytes :=
  to_l "{" ++ [ "034"%char ] ++ to_l "name" ++ [ "034"%char ] ++ to_l ":" ++ [ "034"%char ] ++ to_l "Error" ++
  [ "034"%char ] ++ to_l "," ++ [ "034"%char ] ++ to_l "message" ++ [ "034"%char ] ++ to_l ":" ++ [ "034"%char ] ++
  to_l err ++ [ "034"%char ] ++ to_l "}".

Section Sink.
Context {W : Type} (pkr_WritePacket : bool → Packet → M W unit).

Definition flush (p : bytes) (end_ : bool) (bs : ByteSink) : M W Z :=
  encFlag ← mlift (AsCodecFlag (encoding bs));
  let flag := if end_ then Z.lor (Z.lor FlagJSON FlagStream) FlagEndErr else Z.lor encFlag FlagStream in
  _ ← pkr_WritePacket (queued bs) {| Flag := flag; Req := packet_id bs; Body := p |};
  mret (Z.of_nat (length p)).

Definition Write (p : bytes) : M (ByteSink * W) Z := λ '(bs, w),
  if sink_closed bs then (Err EOF, (bs, w))
  else if isStream bs then let (r, w) := flush p false bs w in (r, (bs, w))
  else (Ok (Z.of_nat (length p)), (with_writer (writer bs ++ p) bs, w)).

Definition err_of {A} (r : result A) : option string := match r with Err e => Some e | _ => None end.

(** What [Close] sends: an end of the stream, or the answer it has buffered. *)
Definition close_packet (bs : ByteSink) : M W unit :=
  if isStream bs then _ ← flush [] true bs; mret tt
  else
    let encFlag := match AsCodecFlag (encoding bs) with Ok f => f | _ => 0 end in
    pkr_WritePacket (queued bs) {| Flag := Z.lor encFlag FlagEndErr; Req := packet_id bs; Body := writer bs |}.
Definition sink_Close : M (ByteSink * W) (option string) := λ '(bs, w),
  if sink_closed bs then (Ok (closeErr bs), (bs, w))
  else
    let (r, w) := close_packet bs w in
    (Ok (err_of r), (mark_closed (err_of r) bs, w)).

Definition sink_CloseWithError (err : string) : M (ByteSink * W) (option string) := λ '(bs, w),
  if sink_closed bs then (Ok (closeErr bs), (bs, w))
  else
    let w := (pkr_WritePacket (queued bs)
      {| Flag := Z.lor FlagJSON FlagEndErr; Req := packet_id bs; Body := error_envelope err |} w).2 in
    (Ok (Some err), (mark_closed (Some err) bs, w)).
End Sink.

(** ** Streams as connections *)
Record byteStreamConn := { source : ByteSource; readBuf : bytes; conn_closed : bool }.
Definition with_source (bs : ByteSource) (c : byteStreamConn) : byteStreamConn :=
  {| source := bs; readBuf := readBuf c; conn_closed := conn_closed c |}.

Definition no_more (bs : ByteSource) : result bytes :=
  match source_Err bs with Some e => Err e | None => Err EOF end.

(** [Read] with room for [n] bytes, for a source that is there. One turn of its
    loop per frame; [None] waits. *)
Fixpoint conn_read (fuel : nat) (n : nat) (c : byteStreamConn) : option (result bytes) * byteStreamConn :=
  if conn_closed c then (Some (Err EOF), c)
  else if bool_decide (readBuf c ≠ []) then
    (Some (Ok (take n (readBuf c))),
     {| source := source c; readBuf := drop n (readBuf c); conn_closed := false |})
  else
    match fuel, Next_now (source c) with
    | _, None | O, _ => (None, c)
    | S _, Some false => (Some (no_more (source c)), c)
    | S fuel, Some true =>
        match Bytes_now (source c) with
        | (Some (Ok payload), bs) =>
            let c := with_source bs c in
            if bool_decide (payload = []) then conn_read fuel n c
            else conn_read fuel n {| source := bs; readBuf := payload; conn_closed := conn_closed c |}
        | (Some (Err e), bs) =>
            (Some (Err (if bool_decide (e = EOF ∨ e = Canceled) then EOF else e)), with_source bs c)
        | (Some Panic, bs) => (Some Panic, with_source bs c)
        | (None, bs) => (None, with_source bs c)
        end
    end.
Definition conn_Read (n : nat) (c : byteStreamConn) : option (result bytes) * byteStreamConn :=
  conn_read (Z.to_nat (frames (buf (source c))) + 2) n c.

(** [Close], the first time; the sink is closed with it. *)
Definition conn_Close (c : byteStreamConn) : byteStreamConn :=
  if conn_closed c then c
  else {| source := Cancel None (source c); readBuf := []; conn_closed := true |}.

(** ** The buffer is a queue *)
Lemma le_enc_length n v : length (le_enc n v) = n.
Proof. unfold le_enc. by rewrite length_rev, be_enc_length. Qed.
Lemma le_dec_enc n v : 0 <= v < 256 ^ Z.of_nat n → le_dec (le_enc n v) = v.
Proof. intros Hv. unfold le_dec, le_enc. rewrite rev_involutive. by apply be_dec_enc. Qed.

Definition fits (b : bytes) : Prop := Z.of_nat (length b) < 2 ^ 32.
Definition enc_frame (b : bytes) : bytes := le_enc 4 (uint32 (Z.of_nat (length b))) ++ b.

(** [holds fb q]: the frames [q] wait in [fb], and none is half read. *)
Record holds (fb : frameBuffer) (q : list bytes) : Prop := {
  holds_store : store fb = q ≫= enc_frame;
  holds_frames : frames fb = Z.of_nat (length q);
  holds_total : currentFrameTotal fb = currentFrameRead fb;
  holds_fits : Forall fits q;
  holds_lenBuf : length (lenBuf fb) = 4%nat;
  holds_count : Z.of_nat (length q) < 2 ^ 32
}.

Lemma new_holds : holds new_frameBuffer [].
Proof. by split. Qed.

Lemma write_holds fb q b : holds fb q → fits b → Z.of_nat (length q) + 1 < 2 ^ 32 →
  holds (writeBody b fb) (q ++ [b]).
Proof.
  intros [Hs Hf Ht Hb Hl Hc] Hfit Hlen. split; simpl.
  - rewrite Hs, bind_app. simpl. by rewrite app_nil_r.
  - rewrite Hf, length_app. simpl. rewrite uint32_small; lia.
  - done.
  - by rewrite Forall_app; auto.
  - done.
  - rewrite length_app. simpl. lia.
Qed.

Lemma skip_rest_holds fb q : holds fb q → skip_rest fb = store fb.
Proof.
  intros H. unfold skip_rest. rewrite (holds_total _ _ H), Z.sub_diag.
  rewrite (bool_decide_eq_false_2 (0 < uint32 0)) by done. by rewrite andb_false_r.
Qed.

(** [ReadFull] of the first [n] bytes of what is there. *)
Lemma ReadFull_app (b rest : bytes) : ReadFull (length b) (b ++ rest) = (Ok b, rest).
Proof.
  unfold ReadFull. rewrite bool_decide_eq_true_2 by (rewrite length_app; lia).
  by rewrite take_app_length, drop_app_length.
Qed.

Lemma read_frame_holds fb b q : holds fb (b :: q) →
  ∃ fb', read_frame fb = (Ok b, fb') ∧ holds fb' q.
Proof.
  intros H. pose proof (skip_rest_holds _ _ H) as Hskip; destruct H as [Hs Hf Ht Hb Hl Hc].
  apply Forall_cons_1 in Hb as [Hfit Hb]. simpl in Hf, Hc. unfold fits in Hfit.
  change (store fb = enc_frame b ++ (q ≫= enc_frame)) in Hs.
  set (n := Z.of_nat (length b)) in *.
  assert (Hn : uint32 n = n) by (apply uint32_small; lia).
  unfold enc_frame at 1 in Hs. fold n in Hs. rewrite Hn, <-(assoc (++)) in Hs.
  assert (Htake : take 4 (store fb) = le_enc 4 n).
  { rewrite Hs. rewrite <-(le_enc_length 4 n) at 1. apply take_app_length. }
  assert (Hdrop : drop 4 (store fb) = b ++ (q ≫= enc_frame)).
  { rewrite Hs. rewrite <-(le_enc_length 4 n) at 1. apply drop_app_length. }
  assert (Hne : store fb ≠ []).
  { intros He. rewrite He in Htake. pose proof (le_enc_length 4 n) as Hl4. by rewrite <-Htake in Hl4. }
  unfold read_frame, mbind, M_mbind, getNextFrameReader. rewrite Hskip, bool_decide_eq_false_2 by done.
  assert (Hbuf : le_enc 4 n ++ drop (length (le_enc 4 n)) (lenBuf fb) = le_enc 4 n).
  { rewrite le_enc_length, drop_ge by lia. apply app_nil_r. }
  rewrite Htake, Hbuf, Hdrop, le_dec_enc by (change (256 ^ Z.of_nat 4) with (2 ^ 32); lia).
  unfold read_counted; cbn [store currentFrameRead currentFrameTotal frames lenBuf].
  assert (Hr : ReadFull (Z.to_nat n) (b ++ (q ≫= enc_frame)) = (Ok b, q ≫= enc_frame)).
  { unfold n. rewrite Nat2Z.id. apply ReadFull_app. }
  rewrite !Hr. eexists; split; [done|].
  split; cbn [fst snd store currentFrameRead currentFrameTotal frames lenBuf]; [done| | |done| |lia].
  - rewrite Hf, uint32_small; lia.
  - rewrite length_app, Z.add_0_l, Nat.add_sub, uint32_small by lia. done.
  - apply le_enc_length.
Qed.

(** ** A source is a queue with an end *)
Record queue_spec := { waiting : list bytes; ended : option string; cancelled : bool }.
Definition empty_queue : queue_spec := {| waiting := []; ended := None; cancelled := false |}.

Inductive source_op :=
| OpWrite (b : bytes) | OpCancel (err : option string) | OpErr
| OpNext | OpNextWake (w : wake) | OpBytes | OpBytesWake (w : wake).
Inductive source_out :=
| OutWrite (r : result unit) | OutDone | OutErr (err : option string)
| OutNext (more : option bool) | OutBytes (r : option (result bytes)).

(** A wake-up that does not fire leaves the reader waiting. *)
Definition run_op (op : source_op) (bs : ByteSource) : source_out * ByteSource :=
  match op with
  | OpWrite b => let r := consume b bs in (OutWrite r.1, r.2)
  | OpCancel err => (OutDone, Cancel err bs)
  | OpErr => (OutErr (source_Err bs), bs)
  | OpNext => (OutNext (Next_now bs), bs)
  | OpNextWake w =>
      if fires w bs then let r := Next_wake w bs in (OutNext (Some r.1), r.2) else (OutNext None, bs)
  | OpBytes => let r := Bytes_now bs in (OutBytes r.1, r.2)
  | OpBytesWake w =>
      if fires w bs then let r := Bytes_wake w bs in (OutBytes (Some r.1), r.2) else (OutBytes None, bs)
  end.

Definition set_ended (err : string) (s : queue_spec) : queue_spec :=
  {| waiting := waiting s; ended := Some (default err (ended s)); cancelled := cancelled s |}.
Definition pop (s : queue_spec) : option (result bytes) * queue_spec :=
  match waiting s, ended s with
  | b :: q, _ => (Some (Ok b), {| waiting := q; ended := ended s; cancelled := cancelled s |})
  | [], Some e => (Some (Err e), s)
  | [], None => (None, s)
  end.
Definition more (s : queue_spec) : option bool :=
  match waiting s, ended s with
  | _ :: _, _ => Some true
  | [], Some _ => Some false
  | [], None => None
  end.
(** A reader is woken by an end or by a frame; the end of its own call gives up
    even when a frame has come. *)
Definition spec_fires (w : wake) (s : queue_spec) : bool :=
  match w with
  | WStream _ | WCtx _ => true
  | WClosed => cancelled s
  | WMore => negb (bool_decide (waiting s = []))
  end.
Definition woken (w : wake) (s : queue_spec) : queue_spec :=
  match w with WStream err | WCtx err => set_ended err s | _ => s end.
Definition gives_up (w : wake) : bool := match w with WCtx _ => true | _ => false end.

Definition spec_op (op : source_op) (s : queue_spec) : source_out * queue_spec :=
  match op with
  | OpWrite b =>
      match ended s with
      | Some e => (OutWrite (Err e), s)
      | None => (OutWrite (Ok tt), {| waiting := waiting s ++ [b]; ended := None; cancelled := cancelled s |})
      end
  | OpCancel err =>
      (OutDone, match ended s with
                | Some _ => s
                | None => {| waiting := waiting s; ended := Some (default EOF err); cancelled := true |}
                end)
  | OpErr => (OutErr (if bool_decide (ended s = Some EOF ∨ ended s = Some Canceled) then None else ended s), s)
  | OpNext => (OutNext (more s), s)
  | OpNextWake w =>
      if spec_fires w s
      then let s := woken w s in (OutNext (Some (negb (gives_up w) && bool_decide (waiting s ≠ []))), s)
      else (OutNext None, s)
  | OpBytes => let r := pop s in (OutBytes r.1, r.2)
  | OpBytesWake w =>
      if spec_fires w s then
        let s := woken w s in
        if gives_up w then (OutBytes (Some (Err (default EOF (ended s)))), s)
        else let r := pop s in (OutBytes r.1, r.2)
      else (OutBytes None, s)
  end.

Fixpoint run_ops {S} (f : source_op → S → source_out * S) (ops : list source_op) (s : S) : list source_out * S :=
  match ops with
  | [] => ([], s)
  | op :: ops => let (o, s) := f op s in let (os, s) := run_ops f ops s in (o :: os, s)
  end.


(** How the fields of a source represent a queue. *)
Record stands_for (bs : ByteSource) (s : queue_spec) : Prop := {
  st_holds : holds (buf bs) (waiting s);
  st_failed : failed bs = ended s;
  st_closed : closed bs = cancelled s;
  st_ended : cancelled s = true → is_Some (ended s)
}.

Lemma no_frames bs s : stands_for bs s → bool_decide (frames (buf bs) = 0) = bool_decide (waiting s = []).
Proof.
  intros H. apply bool_decide_ext. rewrite (holds_frames _ _ (st_holds _ _ H)).
  destruct (waiting s); simpl; split; (done || lia).
Qed.
Lemma some_frames bs s : stands_for bs s → bool_decide (0 < frames (buf bs)) = bool_decide (waiting s ≠ []).
Proof.
  intros H. apply bool_decide_ext. rewrite (holds_frames _ _ (st_holds _ _ H)).
  destruct (waiting s); simpl; split; (done || lia).
Qed.

Lemma next_now_spec bs s : stands_for bs s → Next_now bs = more s.
Proof.
  intros H. unfold Next_now, more. rewrite (no_frames _ _ H), (some_frames _ _ H), (st_failed _ _ H).
  by destruct (waiting s), (ended s).
Qed.
Lemma read_source_spec bs s b q : stands_for bs s → waiting s = b :: q →
  ∃ bs', read_source bs = (Ok b, bs') ∧ stands_for bs' {| waiting := q; ended := ended s; cancelled := cancelled s |}.
Proof.
  intros [Hh Hf Hc He] Hq. rewrite Hq in Hh. destruct (read_frame_holds _ _ _ Hh) as (fb & Hr & Hfb).
  unfold read_source. rewrite Hr. eexists; split; [done|]. by split.
Qed.
#[local] Opaque read_source.
Lemma pop_spec bs s : stands_for bs s → ∃ bs', Bytes_now bs = ((pop s).1, bs') ∧ stands_for bs' (pop s).2.
Proof.
  intros H. unfold Bytes_now, pop. rewrite (no_frames _ _ H), (st_failed _ _ H).
  destruct (waiting s) as [|b q] eqn:Hq.
  - simpl. destruct (ended s) eqn:He; eauto.
  - rewrite bool_decide_eq_false_2 by done.
    destruct (read_source_spec _ _ _ _ H Hq) as (bs' & -> & ?). simpl. eauto.
Qed.
Lemma fires_spec w bs s : stands_for bs s → fires w bs = spec_fires w s.
Proof.
  intros H. destruct w; simpl; [done|done|by apply st_closed|].
  rewrite (some_frames _ _ H). by destruct (waiting s).
Qed.
Lemma fail_with_spec err bs s : stands_for bs s → stands_for (fail_with err bs) (set_ended err s).
Proof.
  intros [Hh Hf Hc He]. unfold fail_with, set_ended. rewrite Hf. destruct (ended s) eqn:E; split; simpl; try done.
Qed.

Lemma next_wake_spec w bs s : stands_for bs s → spec_fires w s = true →
  ∃ bs', Next_wake w bs = (negb (gives_up w) && bool_decide (waiting (woken w s) ≠ []), bs') ∧ stands_for bs' (woken w s).
Proof.
  intros H Hw. unfold Next_wake. rewrite ?(some_frames _ _ H).
  destruct w as [err|err| |]; simpl in *; eauto using fail_with_spec.
  exists bs. split; [|done]. rewrite bool_decide_eq_true_2; [done|]. by apply negb_true_iff, bool_decide_eq_false in Hw.
Qed.
Lemma bytes_wake_spec w bs s : stands_for bs s → spec_fires w s = true →
  let s' := woken w s in
  let r := if gives_up w then (Some (Err (default EOF (ended s'))), s') else pop s' in
  ∃ bs', (Some (Bytes_wake w bs).1, (Bytes_wake w bs).2) = (r.1, bs') ∧ stands_for bs' r.2.
Proof.
  intros H Hw s' r. destruct (next_wake_spec w bs s H Hw) as (bs1 & E & H1). unfold Bytes_wake. rewrite E.
  fold s' in H1 |- *. unfold r. destruct (gives_up w) eqn:Hg; simpl.
  - rewrite (st_failed _ _ H1). destruct w; try done. unfold s'. simpl. destruct (ended s); eauto.
  - unfold pop. destruct (waiting s') as [|b q] eqn:Hq; simpl.
    + rewrite (st_failed _ _ H1). destruct (ended s') eqn:He; [by eauto|].
      exfalso. destruct w; simpl in *; [by destruct (ended s)|done| |].
      * apply st_ended in H as [? ?]; [|done]. unfold s' in He. congruence.
      * unfold s' in Hq. by rewrite Hq in Hw.
    + destruct (read_source_spec _ _ _ _ H1 Hq) as (bs' & -> & ?). eauto.
Qed.

Definition op_fits (op : source_op) : Prop := match op with OpWrite b => fits b | _ => True end.

Lemma run_op_spec op bs s : stands_for bs s → op_fits op → Z.of_nat (length (waiting s)) + 1 < 2 ^ 32 →
  (run_op op bs).1 = (spec_op op s).1 ∧ stands_for (run_op op bs).2 (spec_op op s).2 ∧
  (length (waiting (spec_op op s).2) ≤ S (length (waiting s)))%nat.
Proof.
  intros H Hfit Hlen. pose proof H as [Hh Hf Hc He]. destruct op as [b|err| | |w| |w]; simpl in *.
  - unfold consume. rewrite Hf. destruct (ended s) eqn:E; simpl; split_and!; try (done || lia).
    + split; simpl; [by apply write_holds|done|done|]. intros Hx. by destruct (He Hx).
    + rewrite length_app. simpl. lia.
  - unfold Cancel. rewrite Hf. destruct (ended s) eqn:E; simpl; split_and!; try (done || lia).
  - unfold source_Err. rewrite Hf. split_and!; [done|done|lia].
  - rewrite (next_now_spec _ _ H). split_and!; [done|done|lia].
  - rewrite (fires_spec _ _ _ H). destruct (spec_fires w s) eqn:Hw; [|split_and!; [done|done|simpl; lia]].
    destruct (next_wake_spec _ _ _ H Hw) as (bs' & -> & H'). simpl. split_and!; [done|done|].
    destruct w; simpl; lia.
  - destruct (pop_spec _ _ H) as (bs' & -> & H'). simpl. split_and!; [done|done|].
    unfold pop. destruct (waiting s) eqn:Hq, (ended s); simpl; rewrite ?Hq; simpl; lia.
  - rewrite (fires_spec _ _ _ H). destruct (spec_fires w s) eqn:Hw; [|split_and!; [done|done|simpl; lia]].
    pose proof (bytes_wake_spec _ _ _ H Hw) as (bs' & [= E1 E2] & H'). simpl in H'.
    assert (Hl : length (waiting (woken w s)) = length (waiting s)) by by destruct w.
    destruct (gives_up w); simpl in *; rewrite E1, E2; (split_and!; [done|done|]); [lia|].
    unfold pop. destruct (waiting (woken w s)) eqn:Hq, (ended (woken w s)); simpl in *; rewrite ?Hq; simpl; lia.
Qed.

Lemma run_ops_spec ops bs s : stands_for bs s → Forall op_fits ops →
  Z.of_nat (length (waiting s)) + Z.of_nat (length ops) < 2 ^ 32 →
  (run_ops run_op ops bs).1 = (run_ops spec_op ops s).1 ∧ stands_for (run_ops run_op ops bs).2 (run_ops spec_op ops s).2.
Proof.
  intros H Hfit. revert bs s H. induction Hfit as [|op ops Hop _ IH]; intros bs s H Hlen; simpl; [done|].
  simpl in Hlen. destruct (run_op_spec op bs s H Hop ltac:(lia)) as (Ho & Hs & Hl).
  destruct (run_op op bs) as [o1 bs1], (spec_op op s) as [o2 s1]. simpl in *. subst o2.
  destruct (IH bs1 s1 Hs ltac:(lia)) as [Ho2 Hs2].
  destruct (run_ops run_op ops bs1), (run_ops spec_op ops s1). simpl in *. by subst.
Qed.

Lemma new_stands_for : stands_for NewByteSource empty_queue.
Proof. split; [apply new_holds|done..]. Qed.

(** C25. A byte source is a queue of frames with an end: over any sequence of
    packets, cancellations, reads and wake-ups it answers as the queue does. *)
Theorem source_is_a_queue ops : Forall op_fits ops → Z.of_nat (length ops) < 2 ^ 32 →
  (run_ops run_op ops NewByteSource).1 = (run_ops spec_op ops empty_queue).1.
Proof.
  intros Hfit Hlen. apply (run_ops_spec ops _ _ new_stands_for Hfit). simpl. lia.
Qed.

(** ** A connection over a source is a queue of bytes *)
#[local] Opaque Bytes_now.
Definition conn_bytes (c : byteStreamConn) (s : queue_spec) : bytes := readBuf c ++ concat (waiting s).
Definition conn_outcome (n : nat) (c : byteStreamConn) (s : queue_spec)
    (o : option (result bytes)) (c' : byteStreamConn) (s' : queue_spec) : Prop :=
  match o with
  | Some (Ok b) => b ≠ [] ∧ (length b ≤ n)%nat ∧ conn_bytes c s = b ++ conn_bytes c' s'
  | Some (Err e) =>
      conn_bytes c s = [] ∧ ∃ err, ended s = Some err ∧ e = if bool_decide (err = EOF ∨ err = Canceled) then EOF else err
  | Some Panic => False
  | None => conn_bytes c s = [] ∧ ended s = None
  end.

Lemma take_some (n : nat) (b : bytes) : (0 < n)%nat → b ≠ [] → take n b ≠ [] ∧ (length (take n b) ≤ n)%nat.
Proof. intros Hn Hb. destruct n, b; try done; try lia. simpl. rewrite length_take. split; [done|lia]. Qed.

Lemma conn_read_spec fuel n c s : (0 < n)%nat → conn_closed c = false → stands_for (source c) s →
  (length (waiting s) < fuel)%nat →
  ∃ o c' s', conn_read fuel n c = (o, c') ∧ stands_for (source c') s' ∧ ended s' = ended s ∧
    conn_closed c' = false ∧ conn_outcome n c s o c' s'.
Proof.
  intros Hn. revert c s. induction fuel as [|fuel IH]; intros c s Hopen H Hlen; [lia|].
  cbn [conn_read]. rewrite Hopen. destruct (decide (readBuf c = [])) as [Hbuf|Hbuf].
  2: { rewrite bool_decide_eq_true_2 by done. do 3 eexists; split_and!; [done|exact H|done..|]. simpl.
       destruct (take_some n _ Hn Hbuf). split_and!; [done|done|].
       unfold conn_bytes. simpl. rewrite (assoc (++)). by rewrite take_drop. }
  rewrite (bool_decide_eq_false_2 (readBuf c ≠ [])) by naive_solver.
  rewrite (next_now_spec _ _ H). unfold more.
  destruct (waiting s) as [|b q] eqn:Hq.
  - assert (Hnone : conn_bytes c s = []) by (unfold conn_bytes; by rewrite Hbuf, Hq).
    destruct (ended s) as [err|] eqn:He; (do 3 eexists; split_and!; [done|exact H|done|done|]); [|done].
    unfold no_more, source_Err. rewrite (st_failed _ _ H), He.
    case_bool_decide as Hx.
    + split; [done|]. exists err. rewrite bool_decide_eq_true_2; [done|]. naive_solver.
    + split; [done|]. exists err. rewrite bool_decide_eq_false_2; [done|]. naive_solver.
  - destruct (pop_spec _ _ H) as (bs & -> & H'). unfold pop in H' |- *. rewrite Hq in H' |- *. simpl in H', Hlen.
    cbn [fst snd]. case_bool_decide as Hb.
    + destruct (IH (with_source bs c) _ Hopen H' ltac:(simpl; lia)) as (o & c' & s' & -> & Hs' & He' & Ho' & Hout).
      do 3 eexists; split_and!; [done|exact Hs'|done|done|].
      unfold conn_outcome, conn_bytes in *. simpl in Hout, He'. rewrite Hq. simpl. by rewrite Hb.
    + destruct (IH {| source := bs; readBuf := b; conn_closed := conn_closed (with_source bs c) |} _ Hopen H' ltac:(simpl; lia))
        as (o & c' & s' & -> & Hs' & He' & Ho' & Hout).
      do 3 eexists; split_and!; [done|exact Hs'|done|done|].
      unfold conn_outcome, conn_bytes in *. simpl in Hout, He'. rewrite Hq, Hbuf. exact Hout.
Qed.

(** A reader of a connection takes the bytes in order, whatever the frames they
    came in; it waits only when there are none, and ends with the source. *)
Lemma conn_Read_spec n c s : (0 < n)%nat → conn_closed c = false → stands_for (source c) s →
  ∃ o c' s', conn_Read n c = (o, c') ∧ stands_for (source c') s' ∧ ended s' = ended s ∧
    conn_closed c' = false ∧ conn_outcome n c s o c' s'.
Proof.
  intros Hn Hopen H. unfold conn_Read. apply conn_read_spec; [done..|].
  rewrite (holds_frames _ _ (st_holds _ _ H)), Nat2Z.id. lia.
Qed.

(** ** Sinks *)
Section SinkLemmas.
Context {W : Type} (pkr_WritePacket : bool → Packet → M W unit).

(** What the writer keeps, the operations of a sink keep. *)
Lemma flush_keeps (I : W → Prop) p e bs : (∀ q p, hoare I (pkr_WritePacket q p) (λ _, True)) →
  hoare I (flush pkr_WritePacket p e bs) (λ _, True).
Proof.
  intros Hp. unfold flush. apply hoare_bind with (λ _, True); [by apply hoare_lift|]. intros f _.
  apply hoare_bind with (λ _, True); [apply Hp|]. intros ? _. by apply hoare_ret.
Qed.
Lemma sink_keeps (I : W → Prop) bs w : (∀ q p, hoare I (pkr_WritePacket q p) (λ _, True)) → I w →
  (∀ p, I (Write pkr_WritePacket p (bs, w)).2.2) ∧ I (sink_Close pkr_WritePacket (bs, w)).2.2 ∧
  (∀ err, I (sink_CloseWithError pkr_WritePacket err (bs, w)).2.2).
Proof.
  intros Hp Hw. unfold Write, sink_Close, sink_CloseWithError. split_and!.
  - intros p. destruct (sink_closed bs); [done|]. destruct (isStream bs); [|done].
    destruct (flush_keeps I p false bs Hp w Hw) as [HI _]. by destruct (flush pkr_WritePacket p false bs w).
  - destruct (sink_closed bs); [done|].
    assert (HI : I (close_packet pkr_WritePacket bs w).2).
    { unfold close_packet. destruct (isStream bs); [|by apply Hp].
      apply (hoare_bind I (flush pkr_WritePacket [] true bs) _ (λ _, True) (λ _, True)); [by apply flush_keeps| |done].
      intros ? _. by apply hoare_ret. }
    by destruct (close_packet pkr_WritePacket bs w).
  - intros err. destruct (sink_closed bs); [done|]. by apply Hp.
Qed.

Lemma closed_sink_writes_nothing bs w : sink_closed bs = true →
  (∀ p, Write pkr_WritePacket p (bs, w) = (Err EOF, (bs, w))) ∧
  sink_Close pkr_WritePacket (bs, w) = (Ok (closeErr bs), (bs, w)) ∧
  (∀ err, sink_CloseWithError pkr_WritePacket err (bs, w) = (Ok (closeErr bs), (bs, w))).
Proof. intros Hc. unfold Write, sink_Close, sink_CloseWithError. by rewrite Hc. Qed.

Lemma close_closes bs w err :
  sink_closed (sink_Close pkr_WritePacket (bs, w)).2.1 = true ∧
  sink_closed (sink_CloseWithError pkr_WritePacket err (bs, w)).2.1 = true.
Proof.
  unfold sink_Close, sink_CloseWithError. destruct (sink_closed bs) eqn:E; [done|].
  by destruct (close_packet pkr_WritePacket bs w).
Qed.
End SinkLemmas.

(** *** Histories of a sink

    A writer that records the packets it is given; [refuses] are those it fails on. *)
Definition record (refuses : Packet → bool) (q : bool) (p : Packet) : M (list Packet) unit := λ ps,
  if refuses p then (Err "write failed", ps) else (Ok tt, ps ++ [p]).
Inductive sink_op := SWrite (p : bytes) | SClose | SCloseWithError (err : string) | SSetEncoding (enc : Z)
| SSetFlag (f : Z) | SSetReqID (req : Z) | SSetCounterpart (v : bool).
Definition run_sink_op (refuses : Packet → bool) (op : sink_op) (w : ByteSink * list Packet) : ByteSink * list Packet :=
  match op with
  | SWrite p => (Write (record refuses) p w).2
  | SClose => (sink_Close (record refuses) w).2
  | SCloseWithError err => (sink_CloseWithError (record refuses) err w).2
  | SSetEncoding enc => (SetEncoding enc w.1, w.2)
  | SSetFlag f => (SetFlag f w.1, w.2)
  | SSetReqID req => (SetReqID req w.1, w.2)
  | SSetCounterpart v => (SetCounterpart v w.1, w.2)
  end.
Definition run_sink (refuses : Packet → bool) (ops : list sink_op) (bs : ByteSink) : ByteSink * list Packet :=
  foldl (λ w op, run_sink_op refuses op w) (bs, []) ops.

Definition is_end (p : Packet) : bool := flag_get (Flag p) FlagEndErr.
(** Data packets, and one end at most, after which the sink is closed. *)
Definition well_ended (w : ByteSink * list Packet) : Prop :=
  ∃ data ends, w.2 = data ++ ends ∧ Forall (λ p, is_end p = false) data ∧
    (length ends <= if sink_closed w.1 then 1 else 0)%nat.

Lemma data_flags enc f : AsCodecFlag enc = Ok f → flag_get (Z.lor f FlagStream) FlagEndErr = false.
Proof. unfold AsCodecFlag. repeat case_match; naive_solver. Qed.

Lemma well_ended_send refuses q p bs bs' ps : sink_closed bs = false → well_ended (bs, ps) →
  (sink_closed bs' = true ∨ is_end p = false ∧ sink_closed bs' = false) →
  well_ended (bs', (record refuses q p ps).2).
Proof.
  intros Hc (data & ends & E & Hd & Hl) Hp. unfold record. simpl in E, Hl. rewrite Hc in Hl.
  assert (ends = []) as -> by (destruct ends; simpl in Hl; [done|lia]). rewrite app_nil_r in E. subst ps.
  assert (Hkeep : well_ended (bs', data)).
  { exists data, []. rewrite app_nil_r. split_and!; [done..|]. simpl. lia. }
  destruct (refuses p); [done|]. destruct Hp as [Hp|[Hp Hp']].
  - exists data, [p]. split_and!; [done..|]. simpl. rewrite Hp. lia.
  - exists (data ++ [p]), []. rewrite app_nil_r. split_and!; [done|by rewrite Forall_app; auto|simpl; lia].
Qed.
Lemma well_ended_keep bs bs' ps : well_ended (bs, ps) → (sink_closed bs = true → sink_closed bs' = true) → well_ended (bs', ps).
Proof.
  intros (data & ends & E & Hd & Hl) Hc. exists data, ends. split_and!; [done..|]. simpl in *.
  destruct (sink_closed bs), (sink_closed bs'); try lia.
Qed.

Lemma flush_record refuses p e bs ps f : AsCodecFlag (encoding bs) = Ok f →
  (flush (record refuses) p e bs ps).2 =
  (record refuses (queued bs) {| Flag := if e then Z.lor (Z.lor FlagJSON FlagStream) FlagEndErr else Z.lor f FlagStream;
     Req := packet_id bs; Body := p |} ps).2.
Proof.
  intros Hf. unfold flush, record, mbind, M_mbind, mlift. rewrite Hf. by destruct (refuses _).
Qed.
Lemma flush_err refuses p e bs ps : (∀ f, AsCodecFlag (encoding bs) ≠ Ok f) → (flush (record refuses) p e bs ps).2 = ps.
Proof.
  intros Hf. unfold flush, mbind, M_mbind, mlift. destruct (AsCodecFlag (encoding bs)) as [f|e'|]; [|done..].
  by destruct (Hf f).
Qed.
Lemma encoding_cases bs : (∃ f, AsCodecFlag (encoding bs) = Ok f) ∨ (∀ f, AsCodecFlag (encoding bs) ≠ Ok f).
Proof. destruct (AsCodecFlag (encoding bs)) as [f|e|]; [left; by exists f|right; by intros f|right; by intros f]. Qed.

Lemma run_sink_op_ended refuses op w : well_ended w → well_ended (run_sink_op refuses op w).
Proof.
  destruct w as [bs ps]. intros H. destruct op as [p| |err|enc|f|req|v]; simpl;
    try (by eapply well_ended_keep).
  - destruct (sink_closed bs) eqn:Hc; [done|]. destruct (isStream bs); [|by eapply well_ended_keep; simpl].
    destruct (flush (record refuses) p false bs ps) as [x ps'] eqn:E. apply (f_equal snd) in E. simpl in E |- *. subst ps'.
    destruct (encoding_cases bs) as [[f Hf]|Hf]; [|by rewrite flush_err].
    rewrite (flush_record _ _ _ _ _ _ Hf). eapply well_ended_send; [done..|]. right. split; [|done].
    unfold is_end. simpl. by eapply data_flags.
  - destruct (sink_closed bs) eqn:Hc; [done|]. destruct (close_packet (record refuses) bs ps) as [x ps'] eqn:E.
    simpl. apply (f_equal snd) in E. simpl in E. subst ps'. unfold close_packet.
    destruct (isStream bs); [|eapply well_ended_send; eauto].
    unfold mbind, M_mbind. destruct (encoding_cases bs) as [[f Hf]|Hf].
    + pose proof (flush_record refuses [] true bs ps f Hf) as E.
      assert (Hs : well_ended (mark_closed (err_of x) bs, (flush (record refuses) [] true bs ps).2)).
      { rewrite E. eapply well_ended_send; eauto. }
      by destruct (flush (record refuses) [] true bs ps) as [[] ?].
    + pose proof (flush_err refuses [] true bs ps Hf) as E.
      assert (Hs : well_ended (mark_closed (err_of x) bs, (flush (record refuses) [] true bs ps).2)).
      { rewrite E. by eapply well_ended_keep. }
      by destruct (flush (record refuses) [] true bs ps) as [[] ?].
  - destruct (sink_closed bs) eqn:Hc; [done|]. simpl. eapply well_ended_send; eauto.
Qed.

(** Whatever its users do, a sink sends data and then at most one end: after the
    end of a stream no packet of it follows, even when writes fail. *)
Theorem sink_ends_once refuses ops q : well_ended (run_sink refuses ops (NewByteSink q)).
Proof.
  unfold run_sink. assert (H0 : well_ended (NewByteSink q, [])) by (exists [], []; simpl; auto).
  revert H0. generalize (NewByteSink q, @nil Packet) as w. induction ops as [|op ops IH]; intros w Hw; [done|].
  cbn [foldl]. apply IH. by apply run_sink_op_ended.
Qed.
