(* ===== verification/Mux.v ===== *)
(** * Methods, handlers and manifests ([internal/ssb/muxrpc/muxrpc.go])

    A call is dispatched to the handler registered for the longest prefix of its
    method. The manifest lists the methods as a tree; it is proved to list what is
    registered, in whatever order Go walks its maps. *)
From stdpp Require Import gmap.
From S2P Require Import Prelude GoStr GoBytes.
#[local] Open Scope string_scope.
#[local] Open Scope list_scope.

(** ** Methods *)
Definition dot : ascii := "."%char.
Definition Method_String (m : list string) : string := Join m ".".
Definition ParseMethod (s : string) : list string := Split s dot.

(** ** The handler mux

    [H] are the handlers. The deferred locks and the test for a nil mux behind
    them change nothing here. *)
Section HandlerMux.
Context {H : Type}.

Definition Register (m : list string) (h : H) (handlers : gmap string H) : gmap string H :=
  <[Method_String m := h]> handlers.

(** The loop of [HandleCall], from the whole method down to its first name. *)
Fixpoint find_handler (handlers : gmap string H) (m : list string) (i : nat) : option H :=
  match i with
  | O => None
  | S j => match handlers !! Method_String (take i m) with Some h => Some h | None => find_handler handlers m j end
  end.
Definition mux_handler (handlers : gmap string H) (m : list string) : option H := find_handler handlers m (length m).

(** [Handled] asks every handler. *)
Definition mux_Handled (handled : H → list string → bool) (handlers : gmap string H) (m : list string) : bool :=
  existsb (λ kh, handled kh.2 m) (map_to_list handlers).

(** [RegisteredMethods]; the keys come in the order of the map. *)
Definition RegisteredMethods (order : list string) : list bytes := sortStrings (to_l <$> order).

Lemma find_handler_spec handlers m i h : find_handler handlers m i = Some h ↔
  ∃ k, (0 < k ≤ i)%nat ∧ handlers !! Method_String (take k m) = Some h ∧
    ∀ j, (k < j ≤ i)%nat → handlers !! Method_String (take j m) = None.
Proof.
  induction i as [|i IH]; [simpl; split; [done|intros (k & ? & _); lia]|].
  cbn [find_handler]. destruct (handlers !! Method_String (take (S i) m)) as [h'|] eqn:E.
  - split.
    + intros [= ->]. exists (S i). split_and!; [lia..|done|]. intros; lia.
    + intros (k & Hk & Hh & Hj). destruct (decide (k = S i)) as [->|]; [congruence|].
      rewrite (Hj (S i)) in E by lia. done.
  - rewrite IH. split; intros (k & Hk & Hh & Hj).
    + exists k. split_and!; [lia..|done|]. intros j Hji. destruct (decide (j = S i)) as [->|]; [done|]. apply Hj. lia.
    + destruct (decide (k = S i)) as [->|]; [congruence|]. exists k. split_and!; [lia..|done|]. intros; apply Hj; lia.
Qed.

(** The handler of the longest prefix that has one. *)
Lemma mux_handler_longest handlers m h : mux_handler handlers m = Some h ↔
  ∃ k, (0 < k ≤ length m)%nat ∧ handlers !! Method_String (take k m) = Some h ∧
    ∀ j, (k < j ≤ length m)%nat → handlers !! Method_String (take j m) = None.
Proof. apply find_handler_spec. Qed.

Lemma mux_handler_none handlers m : mux_handler handlers m = None ↔
  ∀ k, (0 < k ≤ length m)%nat → handlers !! Method_String (take k m) = None.
Proof.
  unfold mux_handler. generalize (length m) as i. induction i as [|i IH]; [split; [intros; lia|done]|].
  cbn [find_handler]. destruct (handlers !! Method_String (take (S i) m)) eqn:E.
  - split; [done|]. intros Hk. rewrite (Hk (S i)) in E by lia. done.
  - rewrite IH. split; intros Hk k Hki; [|apply Hk; lia].
    destruct (decide (k = S i)) as [->|]; [done|]. apply Hk. lia.
Qed.
End HandlerMux.

(** ** Manifests *)
Record Manifest := {
  m_async : gset string; m_source : gset string; m_sink : gset string; m_duplex : gset string; m_sync : gset string
}.
Definition NewManifest : Manifest :=
  {| m_async := ∅; m_source := ∅; m_sink := ∅; m_duplex := ∅; m_sync := ∅ |}.
Definition RegisterAsync (name : string) (m : Manifest) : Manifest :=
  {| m_async := {[name]} ∪ m_async m; m_source := m_source m; m_sink := m_sink m; m_duplex := m_duplex m; m_sync := m_sync m |}.
Definition RegisterSource (name : string) (m : Manifest) : Manifest :=
  {| m_async := m_async m; m_source := {[name]} ∪ m_source m; m_sink := m_sink m; m_duplex := m_duplex m; m_sync := m_sync m |}.
Definition RegisterSink (name : string) (m : Manifest) : Manifest :=
  {| m_async := m_async m; m_source := m_source m; m_sink := {[name]} ∪ m_sink m; m_duplex := m_duplex m; m_sync := m_sync m |}.
Definition RegisterDuplex (name : string) (m : Manifest) : Manifest :=
  {| m_async := m_async m; m_source := m_source m; m_sink := m_sink m; m_duplex := {[name]} ∪ m_duplex m; m_sync := m_sync m |}.
Definition RegisterSync (name : string) (m : Manifest) : Manifest :=
  {| m_async := m_async m; m_source := m_source m; m_sink := m_sink m; m_duplex := m_duplex m; m_sync := {[name]} ∪ m_sync m |}.

Definition manifest_Handled (m : Manifest) (method : list string) : bool * bool :=
  let name := Method_String method in
  if bool_decide (name ∈ m_async m ∪ m_source m ∪ m_sink m ∪ m_duplex m ∪ m_sync m) then (true, true) else (false, false).

(** The [map[string]interface{}] of the wire: names lead to a type or to a map. *)
Inductive entry := Typ (typ : string) | Sub (next : gmap string entry).

(** One name of [insertManifestEntries]: the walk along all parts but the last,
    creating maps, and the entry at the last. Empty parts are passed over. *)
Fixpoint insert_parts (parts : list string) (leaf typ : string) (current : gmap string entry) : gmap string entry :=
  match parts with
  | [] => if bool_decide (leaf = "") then current else <[leaf := Typ typ]> current
  | part :: parts =>
      if bool_decide (part = "") then insert_parts parts leaf typ current
      else
        let next := match current !! part with Some (Sub next) => next | _ => ∅ end in
        <[part := Sub (insert_parts parts leaf typ next)]> current
  end.
Definition insert_name (typ : string) (root : gmap string entry) (name : string) : gmap string entry :=
  let parts := ParseMethod name in
  if bool_decide (head parts = None ∨ head parts = Some "") then root
  else insert_parts (removelast parts) (List.last parts "") typ root.
Definition insertManifestEntries (root : gmap string entry) (entries : list string) (typ : string) : gmap string entry :=
  foldl (insert_name typ) root entries.

(** The orders in which the five maps are walked. *)
Record orders := { o_async : list string; o_source : list string; o_sink : list string; o_duplex : list string; o_sync : list string }.
Definition walks (o : orders) (m : Manifest) : Prop :=
  o_async o ≡ₚ elements (m_async m) ∧ o_source o ≡ₚ elements (m_source m) ∧ o_sink o ≡ₚ elements (m_sink m) ∧
  o_duplex o ≡ₚ elements (m_duplex m) ∧ o_sync o ≡ₚ elements (m_sync m).
Definition ToWireMap (o : orders) : gmap string entry :=
  let root := insertManifestEntries ∅ (o_async o) "async" in
  let root := insertManifestEntries root (o_source o) "source" in
  let root := insertManifestEntries root (o_sink o) "sink" in
  let root := insertManifestEntries root (o_duplex o) "duplex" in
  insertManifestEntries root (o_sync o) "sync".

(** ** The tree lists what is registered *)
Fixpoint lookup_parts (parts : list string) (current : gmap string entry) : option string :=
  match parts with
  | [] => None
  | [leaf] => match current !! leaf with Some (Typ typ) => Some typ | _ => None end
  | part :: parts => match current !! part with Some (Sub next) => lookup_parts parts next | _ => None end
  end.

Definition insert_path (p : list string) (typ : string) (t : gmap string entry) : gmap string entry :=
  insert_parts (removelast p) (List.last p "") typ t.
Definition named (p : list string) : Prop := p ≠ [] ∧ Forall (.≠ "") p.
(** Neither path leads through the other. *)
Definition apart (p q : list string) : Prop := ¬ p `prefix_of` q ∧ ¬ q `prefix_of` p.

Lemma lookup_parts_cons x q t : q ≠ [] →
  lookup_parts (x :: q) t = match t !! x with Some (Sub next) => lookup_parts q next | _ => None end.
Proof. by destruct q. Qed.
Lemma lookup_parts_empty q : lookup_parts q ∅ = None.
Proof. by destruct q as [|x [|y q]]; simpl; rewrite ?lookup_empty. Qed.
Lemma insert_path_cons x p typ t : p ≠ [] → x ≠ "" →
  insert_path (x :: p) typ t = <[x := Sub (insert_path p typ (match t !! x with Some (Sub next) => next | _ => ∅ end))]> t.
Proof. intros Hp Hx. unfold insert_path. destruct p as [|y p]; [done|]. simpl. by rewrite bool_decide_eq_false_2. Qed.
Lemma insert_path_leaf x typ t : x ≠ "" → insert_path [x] typ t = <[x := Typ typ]> t.
Proof. intros Hx. unfold insert_path. simpl. by rewrite bool_decide_eq_false_2. Qed.
Lemma named_cons x p : named (x :: p) → x ≠ "" ∧ (p = [] ∨ named p).
Proof. intros [_ H]. apply Forall_cons_1 in H as [Hx Hp]. split; [done|]. destruct p; [by left|right; by split]. Qed.

Lemma lookup_insert_path p typ t : named p → lookup_parts p (insert_path p typ t) = Some typ.
Proof.
  revert t. induction p as [|x p IH]; intros t Hp; [by destruct Hp|].
  apply named_cons in Hp as [Hx [->|Hp]].
  - rewrite insert_path_leaf by done. simpl. by rewrite lookup_insert_eq.
  - rewrite insert_path_cons, lookup_parts_cons, lookup_insert_eq by (done || apply Hp). by apply IH.
Qed.

Lemma lookup_insert_path_apart p q typ t : named p → apart p q →
  lookup_parts q (insert_path p typ t) = lookup_parts q t.
Proof.
  revert q t. induction p as [|x p IH]; intros q t Hp [Hpq Hqp]; [by destruct Hp|].
  destruct q as [|y q]; [by destruct Hqp; apply prefix_nil|].
  apply named_cons in Hp as [Hx [->|Hp]].
  - rewrite insert_path_leaf by done. destruct (decide (x = y)) as [->|Hxy].
    { destruct Hpq. by apply prefix_cons, prefix_nil. }
    destruct q; simpl; by rewrite lookup_insert_ne.
  - rewrite insert_path_cons by (done || apply Hp). destruct (decide (x = y)) as [->|Hxy].
    + assert (Hq : q ≠ []). { intros ->. destruct Hqp. by apply prefix_cons, prefix_nil. }
      rewrite !lookup_parts_cons, lookup_insert_eq by done. rewrite IH; [|done|].
      * destruct (t !! y) as [[]|]; [apply lookup_parts_empty|done|apply lookup_parts_empty].
      * split; intros Hpre; [apply Hpq|apply Hqp]; by apply prefix_cons.
    + destruct q; simpl; by rewrite lookup_insert_ne.
Qed.

(** Nothing but the name inserted is added. *)
Lemma lookup_insert_path_inv p q typ t typ' : named p →
  lookup_parts q (insert_path p typ t) = Some typ' → (q = p ∧ typ' = typ) ∨ lookup_parts q t = Some typ'.
Proof.
  revert q t. induction p as [|x p IH]; intros q t Hp; [by destruct Hp|].
  destruct q as [|y q]; [done|]. apply named_cons in Hp as [Hx [->|Hp]].
  - rewrite insert_path_leaf by done. destruct (decide (x = y)) as [->|Hxy].
    + destruct q; simpl; rewrite lookup_insert_eq; naive_solver.
    + destruct q; simpl; rewrite lookup_insert_ne by done; auto.
  - rewrite insert_path_cons by (done || apply Hp). destruct (decide (x = y)) as [->|Hxy].
    + destruct q as [|z q]; [simpl; by rewrite lookup_insert_eq|].
      rewrite !lookup_parts_cons, lookup_insert_eq by done. intros Hl.
      apply IH in Hl as [[-> ->]|Hl]; [by left|right|done].
      destruct (t !! y) as [[]|]; [|done|]; by rewrite lookup_parts_empty in Hl.
    + destruct q; simpl; rewrite lookup_insert_ne by done; auto.
Qed.

(** A registered name is well formed when none of its parts is empty. *)
Definition well_named (name : string) : Prop := named (ParseMethod name).
Lemma insert_name_path typ root name : well_named name → insert_name typ root name = insert_path (ParseMethod name) typ root.
Proof.
  intros Hn. unfold insert_name. rewrite bool_decide_eq_false_2; [done|]. destruct Hn as [Hne Hf].
  destruct (ParseMethod name) as [|x p]; [done|]. apply Forall_cons_1 in Hf as [Hx _]. simpl. naive_solver.
Qed.

Definition name_ok (name : string) (q : list string) : Prop := well_named name ∧ (ParseMethod name = q ∨ apart (ParseMethod name) q).

Lemma insert_entries_lookup typ names root q : Forall (λ n, name_ok n q) names →
  lookup_parts q (insertManifestEntries root names typ) =
  if bool_decide (Exists (λ n, ParseMethod n = q) names) then Some typ else lookup_parts q root.
Proof.
  intros Hf. revert root. induction Hf as [|name names [Hn Hq] _ IH]; intros root; unfold insertManifestEntries in *; cbn [foldl].
  { rewrite bool_decide_eq_false_2; [done|]. intros He. inversion He. }
  rewrite IH, (insert_name_path _ _ _ Hn).
  destruct Hq as [<-|Hq].
  - rewrite lookup_insert_path by done. rewrite (bool_decide_eq_true_2 (Exists _ (_ :: _))) by by left.
    by case_bool_decide.
  - rewrite lookup_insert_path_apart by done.
    rewrite (bool_decide_ext (Exists _ (name :: names)) (Exists (λ n, ParseMethod n = q) names)); [done|].
    rewrite Exists_cons. split; [intros [He|?]; [|done]|auto]. destruct Hq as [[] _]. by rewrite He.
Qed.

Lemma insert_entries_inv typ names root q typ' : Forall well_named names →
  lookup_parts q (insertManifestEntries root names typ) = Some typ' →
  (∃ n, n ∈ names ∧ ParseMethod n = q ∧ typ' = typ) ∨ lookup_parts q root = Some typ'.
Proof.
  intros Hf. revert root. induction Hf as [|name names Hn _ IH]; intros root Hl; [by right|].
  apply IH in Hl as [(n & ? & ?)|Hl]; [left; exists n; set_solver|].
  rewrite (insert_name_path _ _ _ Hn) in Hl. apply lookup_insert_path_inv in Hl as [[-> ->]|Hl]; [|by right|done].
  left. exists name. set_solver.
Qed.

(** All names of a manifest, and the type the wire gives one: the last map that has
    it wins. *)
Definition all_names (m : Manifest) : gset string := m_async m ∪ m_source m ∪ m_sink m ∪ m_duplex m ∪ m_sync m.
Definition wire_type (m : Manifest) (name : string) : option string :=
  if bool_decide (name ∈ m_sync m) then Some "sync"
  else if bool_decide (name ∈ m_duplex m) then Some "duplex"
  else if bool_decide (name ∈ m_sink m) then Some "sink"
  else if bool_decide (name ∈ m_source m) then Some "source"
  else if bool_decide (name ∈ m_async m) then Some "async"
  else None.
(** No name is a prefix of another, and none has an empty part. *)
Definition flat (m : Manifest) : Prop := ∀ n, n ∈ all_names m → well_named n ∧
  ∀ n', n' ∈ all_names m → n' ≠ n → apart (ParseMethod n') (ParseMethod n).

Lemma apart_ne p q : apart p q → p ≠ q.
Proof. intros [Hp _] ->. by apply Hp. Qed.

Lemma walk_lookup m o_list s typ root name : flat m → name ∈ all_names m → o_list ≡ₚ elements s → s ⊆ all_names m →
  lookup_parts (ParseMethod name) (insertManifestEntries root o_list typ) =
  if bool_decide (name ∈ s) then Some typ else lookup_parts (ParseMethod name) root.
Proof.
  intros Hflat Hname Hord Hs.
  assert (Hin : ∀ n, n ∈ o_list ↔ n ∈ s) by (intros n; by rewrite Hord, elem_of_elements).
  rewrite insert_entries_lookup.
  - rewrite (bool_decide_ext (Exists _ _) (name ∈ s)); [done|]. rewrite Exists_exists. split.
    + intros (n & Hn%list_elem_of_In%Hin & He). destruct (decide (n = name)) as [->|Hne]; [done|].
      destruct (Hflat name Hname) as [_ Ha]. apply (Ha n), apart_ne in Hne; [done|set_solver].
    + intros Hn. exists name. split; [|done]. by apply list_elem_of_In, Hin.
  - apply Forall_forall. intros n Hn%list_elem_of_In%Hin. destruct (Hflat n ltac:(set_solver)) as [Hw _]. split; [done|].
    destruct (decide (n = name)) as [->|Hne]; [by left|right]. apply (Hflat name Hname); [set_solver|done].
Qed.

(** The manifest a peer is sent lists exactly the methods registered, each with its
    type, in whatever order the maps are walked. *)
Lemma wire_map_lists_methods m o name : flat m → walks o m → name ∈ all_names m →
  lookup_parts (ParseMethod name) (ToWireMap o) = wire_type m name.
Proof.
  intros Hflat (H1 & H2 & H3 & H4 & H5) Hname. unfold ToWireMap, wire_type.
  rewrite (walk_lookup m (o_sync o) (m_sync m)) by (done || set_solver). case_bool_decide; [done|].
  rewrite (walk_lookup m (o_duplex o) (m_duplex m)) by (done || set_solver). case_bool_decide; [done|].
  rewrite (walk_lookup m (o_sink o) (m_sink m)) by (done || set_solver). case_bool_decide; [done|].
  rewrite (walk_lookup m (o_source o) (m_source m)) by (done || set_solver). case_bool_decide; [done|].
  rewrite (walk_lookup m (o_async o) (m_async m)) by (done || set_solver). case_bool_decide; [done|].
  apply lookup_parts_empty.
Qed.
Lemma wire_map_lists_nothing_else m o q typ : flat m → walks o m →
  lookup_parts q (ToWireMap o) = Some typ → ∃ name, name ∈ all_names m ∧ ParseMethod name = q.
Proof.
  intros Hflat (H1 & H2 & H3 & H4 & H5). unfold ToWireMap.
  assert (Hw : ∀ o_list s, o_list ≡ₚ elements s → s ⊆ all_names m →
    Forall well_named o_list ∧ ∀ n, n ∈ o_list → n ∈ all_names m).
  { intros o_list s Hord Hs. assert (Hin : ∀ n, n ∈ o_list → n ∈ all_names m).
    { intros n. rewrite Hord, elem_of_elements. set_solver. }
    split; [|done]. apply Forall_forall. intros n Hn%list_elem_of_In. by apply (Hflat n), Hin. }
  intros Hl.
  repeat match type of Hl with
  | lookup_parts _ (insertManifestEntries _ ?l _) = _ =>
      match goal with Hord : l ≡ₚ elements ?s |- _ => destruct (Hw l s Hord) as [Hf Hi]; [set_solver|] end;
      apply insert_entries_inv in Hl as [(n & Hn & Hq & _)|Hl]; [by exists n; auto| |done]; clear Hf Hi
  end.
  by rewrite lookup_parts_empty in Hl.
Qed.

(** The manifest sent to a peer lists exactly the registered methods, each with
    its type, in whatever order Go walks the five maps, when no method lies inside
    another. *)
Theorem manifest_is_what_is_registered m o q typ : flat m → walks o m →
  lookup_parts q (ToWireMap o) = Some typ ↔
  ∃ name, name ∈ all_names m ∧ ParseMethod name = q ∧ wire_type m name = Some typ.
Proof.
  intros Hflat Hw. split.
  - intros Hl. destruct (wire_map_lists_nothing_else _ _ _ _ Hflat Hw Hl) as (name & Hn & <-).
    exists name. split_and!; [done..|]. by rewrite <-(wire_map_lists_methods m o name).
  - intros (name & Hn & <- & Ht). by rewrite (wire_map_lists_methods m o name).
Qed.
