(* ===== verification/Session.v ===== *)
(** * MuxRPC sessions ([internal/ssb/muxrpc/muxrpc.go])

    Both ends of a connection make calls and answer them. A packet carries the
    number of its call, positive from the caller, negative from the callee; the
    session keeps its streams, the calls it made and those it was asked, in one map
    by number. Goroutines share the session: the reader of the connection, the
    sender, the handlers and the callers. *)
From stdpp Require Import gmap.
From S2P Require Import Prelude GoStr GoBytes Codec Stream Mux.
#[local] Open Scope string_scope.
#[local] Open Scope list_scope.
#[local] Open Scope Z_scope.

(** [encoding/json] on requests, on error envelopes, on the tree of a manifest and
    on answers. [unmarshal_request] fills the fields of the request it is given; it
    may fail after it has filled some. *)
Class RpcJSON := {
  marshal_request : list string → option bytes → string → result bytes;
  unmarshal_request : bytes → list string * option bytes * string → result unit * (list string * option bytes * string);
  unmarshal_error : bytes → option (string * string);
  marshal_manifest : gmap string entry → result bytes;
  unmarshal_value : bytes → result unit
}.

(** ** Requests *)
Definition stream_type (t : string) : bool := bool_decide (t = "source" ∨ t = "sink" ∨ t = "duplex").
Definition CallType_Flags (t : string) : Z := if stream_type t then FlagStream else 0.
Definition one_answer (t : string) : bool := bool_decide (t = "async" ∨ t = "sync").

Record Request := {
  Method : list string;
  RawArgs : option bytes;
  CallType : string;
  req_sink : ByteSink;
  req_source : ByteSource;
  req_id : Z
}.
Definition with_sink (s : ByteSink) (q : Request) : Request := {|
  Method := Method q; RawArgs := RawArgs q; CallType := CallType q; req_sink := s;
  req_source := req_source q; req_id := req_id q |}.
Definition with_req_source (s : ByteSource) (q : Request) : Request := {|
  Method := Method q; RawArgs := RawArgs q; CallType := CallType q; req_sink := req_sink q;
  req_source := s; req_id := req_id q |}.

(** [ResponseSink] and [ResponseSource]: who may use them. *)
Definition ResponseSink (q : Request) : result ByteSink :=
  if bool_decide (CallType q ≠ "source" ∧ CallType q ≠ "duplex") then Err "muxrpc: wrong stream type" else Ok (req_sink q).
Definition ResponseSource (q : Request) : result ByteSource :=
  if bool_decide (CallType q ≠ "sink" ∧ CallType q ≠ "duplex") then Err "muxrpc: wrong stream type" else Ok (req_source q).

(** [RemoteError.Error]. *)
Definition RemoteError_Error (e : string * string) : string :=
  match e with
  | ("", "") => "muxrpc remote error"
  | ("", message) => message
  | (name, "") => name
  | (name, message) => name +:+ ": " +:+ message
  end.

(** ** The session

    [heap]: requests are pointers, shared by the map of streams and the goroutines
    that use them. [out]: the queue of the sender; [sending]: what it took from it
    and has not written yet; [sent]: the packets on the wire. [calls]: the requests
    handed to the handler, each to a goroutine of its own. [conn_open] and
    [conn_error]: writes fail once the connection is closed. *)
Record rpc := {
  heap : list Request;
  streams : gmap Z nat;
  nextID : Z;
  out : list Packet;
  sending : list Packet;
  sent : list Packet;
  calls : list nat;
  conn_open : bool;
  errCount : Z;
  done : bool
}.
Definition NewRPC : rpc := {|
  heap := []; streams := ∅; nextID := 1; out := []; sending := []; sent := []; calls := [];
  conn_open := true; errCount := 0; done := false |}.

Definition set_heap (h : list Request) (r : rpc) : rpc := {|
  heap := h; streams := streams r; nextID := nextID r; out := out r; sending := sending r; sent := sent r;
  calls := calls r; conn_open := conn_open r; errCount := errCount r; done := done r |}.
Definition set_streams (m : gmap Z nat) (r : rpc) : rpc := {|
  heap := heap r; streams := m; nextID := nextID r; out := out r; sending := sending r; sent := sent r;
  calls := calls r; conn_open := conn_open r; errCount := errCount r; done := done r |}.
Definition set_queues (o ing snt : list Packet) (r : rpc) : rpc := {|
  heap := heap r; streams := streams r; nextID := nextID r; out := o; sending := ing; sent := snt;
  calls := calls r; conn_open := conn_open r; errCount := errCount r; done := done r |}.
Definition set_calls (c : list nat) (r : rpc) : rpc := {|
  heap := heap r; streams := streams r; nextID := nextID r; out := out r; sending := sending r; sent := sent r;
  calls := c; conn_open := conn_open r; errCount := errCount r; done := done r |}.
Definition set_next (n : Z) (r : rpc) : rpc := {|
  heap := heap r; streams := streams r; nextID := n; out := out r; sending := sending r; sent := sent r;
  calls := calls r; conn_open := conn_open r; errCount := errCount r; done := done r |}.
Definition set_reader (n : Z) (d : bool) (r : rpc) : rpc := {|
  heap := heap r; streams := streams r; nextID := nextID r; out := out r; sending := sending r; sent := sent r;
  calls := calls r; conn_open := conn_open r; errCount := n; done := d |}.

(** [Terminate] closes the connection under the session. *)
Definition Terminate (r : rpc) : rpc := {|
  heap := heap r; streams := streams r; nextID := nextID r; out := out r; sending := sending r; sent := sent r;
  calls := calls r; conn_open := false; errCount := errCount r; done := done r |}.

Definition ErrClosed : string := "use of closed network connection".

(** The packer checks the size of a packet and writes it; [rpc.WritePacket] queues it
    for the sender and never fails. *)
Definition packer_WritePacket (p : Packet) : M rpc unit := λ r,
  match EncodePacket p with
  | Ok _ =>
      if conn_open r then (Ok tt, set_queues (out r) (sending r) (sent r ++ [p]) r)
      else (Err ("pkt-codec: header write failed: " +:+ ErrClosed), r)
  | Err e => (Err e, r)
  | Panic => (Panic, r)
  end.
Definition rpc_WritePacket (p : Packet) : M rpc unit := λ r,
  (Ok tt, set_queues (out r ++ [p]) (sending r) (sent r) r).
Definition pkr_WritePacket (q : bool) (p : Packet) : M rpc unit :=
  if q then rpc_WritePacket p else packer_WritePacket p.

(** [sender]: takes the queue, then writes packet by packet; errors are logged. *)
Definition Produce (r : rpc) : rpc := set_queues [] (sending r ++ out r) (sent r) r.
Definition send_one (r : rpc) : rpc :=
  match sending r with
  | [] => r
  | p :: ps => (packer_WritePacket p (set_queues (out r) ps (sent r) r)).2
  end.

(** ** Operations on a request, by its pointer *)
Definition on_source (rid : nat) (f : ByteSource → ByteSource) (r : rpc) : rpc :=
  set_heap (alter (λ q, with_req_source (f (req_source q)) q) rid (heap r)) r.
Definition on_sink {A} (rid : nat) (m : M (ByteSink * rpc) A) : M rpc A := λ r,
  match heap r !! rid with
  | Some q =>
      let '(x, (s, r)) := m (req_sink q, r) in (x, set_heap (alter (with_sink s) rid (heap r)) r)
  | None => (Panic, r)
  end.

Definition closeStream (rid : nat) (r : rpc) : rpc :=
  match heap r !! rid with
  | Some q => set_streams (delete (req_id q) (streams r)) r
  | None => r
  end.

(** [CloseWithError]; [None] is a nil error. *)
Definition CloseWithError (cerr : option string) (rid : nat) : M rpc unit :=
  match cerr with
  | Some e =>
      if bool_decide (e = EOF) then
        _ ← mmodify (on_source rid (Cancel None)); _ ← on_sink rid (sink_Close pkr_WritePacket); mmodify (closeStream rid)
      else
        _ ← mmodify (on_source rid (Cancel (Some e))); _ ← on_sink rid (sink_CloseWithError pkr_WritePacket e);
        mmodify (closeStream rid)
  | None =>
      _ ← mmodify (on_source rid (Cancel None)); _ ← on_sink rid (sink_Close pkr_WritePacket); mmodify (closeStream rid)
  end.
Definition request_Close (rid : nat) : M rpc unit := CloseWithError (Some EOF) rid.

(** [Return]: the dynamic type of the value decides; other values are marshalled. *)
Inductive value := VString (s : bytes) | VBytes (b : bytes) | VOther (marshalled : result bytes).
Definition value_encoding (v : value) : Z :=
  match v with VString _ => TypeString | VBytes _ => TypeBinary | VOther _ => TypeJSON end.
Definition value_body (v : value) : result bytes :=
  match v with VString s => Ok s | VBytes b => Ok b | VOther m => m end.
Definition Return (rid : nat) (v : value) : M rpc unit := λ r,
  match heap r !! rid with
  | None => (Panic, r)
  | Some q =>
      if negb (one_answer (CallType q)) then (Err "cannot return value on stream", r)
      else
        (_ ← mmodify (λ r, set_heap (alter (λ q, with_sink (SetEncoding (value_encoding v) (req_sink q)) q) rid (heap r)) r);
         b ← mlift (value_body v);
         _ ← on_sink rid (Write pkr_WritePacket b);
         request_Close rid) r
  end.

(** ** Packets from the peer *)
Section Session.
Context {js : RpcJSON}.
(** [r.handler != nil], and the manifest with the order its maps are walked in. *)
Context (has_handler : bool) (manifest : option orders).

Definition decodeRemoteErrorEnvelope (frame : bytes) : option (string * string) :=
  if bool_decide (frame = []) then None
  else match unmarshal_error frame with
       | Some (name, message) => if bool_decide (name = "Error") then Some (name, message) else None
       | None => None
       end.

Definition termination_error (q : Request) : string :=
  "muxrpc: termination frame for " +:+ Method_String (Method q) +:+ " should have body type set to JSON".
(** What an end frame cancels the source with. *)
Definition end_error (q : Request) (p : Packet) : option string :=
  if negb (flag_get (Flag p) FlagJSON) then Some (termination_error q)
  else match decodeRemoteErrorEnvelope (Body p) with
       | Some e => Some (RemoteError_Error e)
       | None => None
       end.

(** A frame for a stream of the session: its body is data, and an end ends it. *)
Definition data_in (p : Packet) (rid : nat) (r : rpc) : rpc :=
  if bool_decide (Body p = []) then r else on_source rid (λ s, (source_WritePacket p s).2) r.
Definition frame_in (p : Packet) (rid : nat) (r : rpc) : rpc :=
  let r := data_in p rid r in
  if flag_get (Flag p) FlagEndErr then
    match heap r !! rid with
    | Some q => closeStream rid (on_source rid (Cancel (end_error q p)) r)
    | None => r
    end
  else r.

(** The request of a packet with a number that is not known: registered before its
    body is decoded. *)
Definition new_request (p : Packet) : Request :=
  let q := (ParseMethod "unknown", None, "async") in
  let '(m, a, t) :=
    if bool_decide (Body p = []) then q
    else match unmarshal_request (Body p) q with
         | (Ok _, q) => q
         | (_, (m, _, t)) => (m, Some (Body p), t)
         end in
  let s := SetCounterpart true (SetReqID (Req p) (NewByteSink false)) in
  {| Method := m; RawArgs := a; CallType := t;
     req_sink := if flag_get (CallType_Flags t) FlagStream then SetFlag FlagStream s else s;
     req_source := NewByteSource; req_id := Req p |}.

(** The built-in method [manifest]. *)
Definition answer_manifest (rid : nat) (q : Request) : M rpc unit :=
  if negb (one_answer (CallType q)) then CloseWithError (Some "manifest is sync") rid
  else
    match manifest with
    | None => _ ← mtry (Return rid (VOther (Ok (to_l "{}")))); mret tt
    | Some o =>
        match marshal_manifest (ToWireMap o) with
        | Ok body => _ ← mtry (Return rid (VOther (Ok body))); mret tt
        | Err e => CloseWithError (Some ("manifest: encode: " +:+ e)) rid
        | Panic => λ r, (Panic, r)
        end
    end.

Definition new_call (p : Packet) : M rpc unit := λ r,
  let rid := length (heap r) in
  let q := new_request p in
  let r := set_streams (<[Req p := rid]> (streams r)) (set_heap (heap r ++ [q]) r) in
  if bool_decide (Method q = ["manifest"]) then answer_manifest rid q r
  else if has_handler then (Ok tt, set_calls (calls r ++ [rid]) r)
  else (Ok tt, r).

Definition HandlePacket (p : Packet) : M rpc unit := λ r,
  if bool_decide (0 < Req p) then
    match streams r !! Req p with
    | Some rid => (Ok tt, frame_in p rid r)
    | None => new_call p r
    end
  else if bool_decide (Req p < 0) then
    match streams r !! int32 (- Req p) with
    | Some rid => (Ok tt, frame_in p rid r)
    | None => (Ok tt, r)
    end
  else (Ok tt, r).

(** [serve]: one turn of the loop. A closing error ends it, as does the eleventh
    error in a row. *)
Inductive read := RPacket (p : Packet) | RError (closing : bool).
Definition serve_turn (x : read) : M rpc unit := λ r,
  if done r then (Ok tt, r)
  else match x with
  | RPacket p => HandlePacket p (set_reader 0 false r)
  | RError true => (Ok tt, set_reader (errCount r) true r)
  | RError false => (Ok tt, set_reader (errCount r + 1) (bool_decide (10 < errCount r + 1)) r)
  end.
Fixpoint serve (xs : list read) : M rpc unit :=
  match xs with
  | [] => mret tt
  | x :: xs => _ ← serve_turn x; serve xs
  end.

(** [HandlerMux.HandleCall] on a request: its handler, if there is one. *)
Definition HandleCall {H} (handlers : gmap string H) (rid : nat) : M rpc (option H) := λ r,
  match heap r !! rid with
  | None => (Panic, r)
  | Some q =>
      match mux_handler handlers (Method q) with
      | Some h => (Ok (Some h), r)
      | None => (_ ← CloseWithError (Some ("no such method: " +:+ Method_String (Method q))) rid; mret None) r
      end
  end.

(** ** Calls to the peer

    [doCall] is split where other goroutines may run: the number is allocated, the
    packet is queued, and only then the request is registered. [args] is what
    [json.Marshal] made of the arguments, [None] without any. *)
Definition alloc_id : M rpc Z := λ r, (Ok (nextID r), set_next (int32 (nextID r + 1)) r).
Definition call_request (callType : string) (tipe id : Z) (method : list string) (args : option bytes) : Request :=
  let s := SetEncoding tipe (SetCounterpart false (SetReqID id (NewByteSink true))) in
  {| Method := method; RawArgs := args; CallType := callType;
     req_sink := if one_answer callType then s else SetFlag FlagStream s;
     req_source := NewByteSource; req_id := id |}.
Definition call_packet (q : Request) : result Packet :=
  body ← wrap "muxrpc: failed to marshal request: " (marshal_request (Method q) (RawArgs q) (CallType q));
  mret {| Flag := if one_answer (CallType q) then FlagJSON else Z.lor FlagJSON FlagStream;
          Req := req_id q; Body := body |}.
Definition call_start (callType : string) (tipe : Z) (method : list string) (args : option bytes) : M rpc Request :=
  id ← alloc_id;
  let q := call_request callType tipe id method args in
  p ← mlift (call_packet q);
  _ ← mwrap "muxrpc: failed to send packet: " (rpc_WritePacket p);
  mret q.
Definition call_register (q : Request) : M rpc nat := λ r,
  (Ok (length (heap r)), set_streams (<[req_id q := length (heap r)]> (streams r)) (set_heap (heap r ++ [q]) r)).
Definition doCall (callType : string) (tipe : Z) (method : list string) (args : option bytes) : M rpc nat :=
  q ← call_start callType tipe method args; call_register q.

(** The answer of [Async] and [Sync]: [ret] is the pointer given for it. *)
Inductive ret_type := RetNil | RetString | RetBytes | RetOther.
Inductive answer := NoAnswer | AString (s : bytes) | ABytes (b : bytes) | AJSON (b : bytes).
Definition decode_answer (tipe : Z) (ret : ret_type) (r : result bytes) : result answer :=
  match r with
  | Panic => Panic
  | Err e => if bool_decide (e = EOF) then Ok NoAnswer else Err e
  | Ok b =>
      match decodeRemoteErrorEnvelope b with
      | Some e => Err (RemoteError_Error e)
      | None =>
          if bool_decide (b = []) || match ret with RetNil => true | _ => false end then Ok NoAnswer
          else if bool_decide (tipe = TypeJSON) then _ ← unmarshal_value b; Ok (AJSON b)
          (* the messages of the two errors go on with the type of [ret] *)
          else if bool_decide (tipe = TypeString) then
            match ret with RetString => Ok (AString b) | _ => Err "muxrpc: expected *string for TypeString" end
          else if bool_decide (tipe = TypeBinary) then
            match ret with RetBytes => Ok (ABytes b) | _ => Err "muxrpc: expected *[]byte for TypeBinary" end
          else Ok NoAnswer
      end
  end.
(** [callAndDecode] after the call was made: [None] waits for a frame or an end. *)
Definition call_answer (tipe : Z) (ret : ret_type) (rid : nat) (r : rpc) : option (result answer) :=
  match heap r !! rid with
  | Some q => decode_answer tipe ret <$> (Bytes_now (req_source q)).1
  | None => None
  end.

(** ** Goroutines

    A configuration is the session and the calls that have queued their packet and
    not registered their request yet. Each step is what one goroutine does between
    two points where others may run; [Some rid] marks the steps of the goroutine
    that owns the request [rid], its handler or its caller. *)
Definition config : Type := rpc * list Request.
Inductive step {H} (handlers : gmap string H) : option nat → config → config → Prop :=
| step_read x r st : done r = false → step handlers None (r, st) ((serve_turn x r).2, st)
| step_produce r st : sending r = [] → step handlers None (r, st) (Produce r, st)
| step_send r st : step handlers None (r, st) (send_one r, st)
| step_terminate r st : step handlers None (r, st) (Terminate r, st)
| step_start t tipe m a r st x r' : call_start t tipe m a r = (x, r') →
    step handlers None (r, st) (r', match x with Ok q => q :: st | _ => st end)
| step_register q r st1 st2 : step handlers None (r, st1 ++ q :: st2) ((call_register q r).2, st1 ++ st2)
| step_dispatch rid r st : step handlers (Some rid) (r, st) ((HandleCall handlers rid r).2, st)
| step_return rid v r st : step handlers (Some rid) (r, st) ((Return rid v r).2, st)
| step_write rid p r st : step handlers (Some rid) (r, st) ((on_sink rid (Write pkr_WritePacket p) r).2, st)
| step_sink_close rid r st : step handlers (Some rid) (r, st) ((on_sink rid (sink_Close pkr_WritePacket) r).2, st)
| step_close rid e r st : step handlers (Some rid) (r, st) ((CloseWithError e rid r).2, st)
| step_take rid r st : step handlers (Some rid) (r, st) (on_source rid (λ s, (Bytes_now s).2) r, st)
| step_wake rid w r st : step handlers (Some rid) (r, st)
    (on_source rid (λ s, if fires w s then (Bytes_wake w s).2 else s) r, st).

Inductive steps {H} (handlers : gmap string H) : list (option nat) → config → config → Prop :=
| steps_nil c : steps handlers [] c c
| steps_cons l ls c1 c2 c3 : step handlers l c1 c2 → steps handlers ls c2 c3 → steps handlers (l :: ls) c1 c3.
End Session.
