(* ===== verification/SessionProofs.v ===== *)
(** * What MuxRPC sessions do

    Frames reach the stream of their number and no other; an answer reaches the
    call it answers, over both sessions of a connection; what is lost, and where a
    number names two calls at once. *)
From stdpp Require Import gmap.
From S2P Require Import Prelude GoStr GoBytes Codec Stream Mux Session.
#[local] Open Scope string_scope.
#[local] Open Scope list_scope.
#[local] Open Scope Z_scope.

(** ** What an operation on one request touches *)
Definition wf (r : rpc) : Prop :=
  ∀ n rid, streams r !! n = Some rid → ∃ q, heap r !! rid = Some q ∧ req_id q = n.

Record touches (rid : nat) (r r' : rpc) : Prop := {
  t_length : length (heap r') = length (heap r);
  t_others : ∀ k, k ≠ rid → heap r' !! k = heap r !! k;
  t_id : req_id <$> (heap r' !! rid) = req_id <$> (heap r !! rid);
  t_streams : streams r' = streams r ∨ ∃ n, Some n = req_id <$> (heap r !! rid) ∧ streams r' = delete n (streams r);
  t_next : nextID r' = nextID r;
  t_done : done r' = done r
}.

#[global] Instance touches_refl rid : Reflexive (touches rid).
Proof. intros r. split; auto. Qed.
#[global] Instance touches_trans rid : Transitive (touches rid).
Proof.
  intros r1 r2 r3 [L1 O1 I1 S1 N1 D1] [L2 O2 I2 S2 N2 D2]. split; try congruence.
  - intros k Hk. by rewrite O2, O1.
  - rewrite I1 in S2. destruct S1 as [S1|(n1 & E1 & S1)], S2 as [S2|(n2 & E2 & S2)]; rewrite S2, S1.
    + by left.
    + right. eauto.
    + right. eauto.
    + right. exists n1. split; [done|]. rewrite <-E2 in E1. injection E1 as ->. apply delete_delete_eq.
Qed.

Lemma touches_wf rid r r' : wf r → touches rid r r' → wf r'.
Proof.
  intros Hwf [_ O I S _ _] n k Hk.
  assert (Hold : streams r !! n = Some k).
  { destruct S as [<-|(m & _ & E)]; [done|]. rewrite E in Hk. by apply lookup_delete_Some in Hk as [_ ?]. }
  destruct (Hwf n k Hold) as (q & Hq & Hid). destruct (decide (k = rid)) as [->|Hne].
  - rewrite Hq in I. destruct (heap r' !! rid) as [q'|]; [|done]. injection I as I. exists q'. by rewrite I.
  - exists q. by rewrite O.
Qed.

(** A stream of another number survives. *)
Lemma touches_stream rid r r' n : touches rid r r' → (∀ q, heap r !! rid = Some q → req_id q ≠ n) →
  streams r' !! n = streams r !! n.
Proof.
  intros [_ _ _ S _ _] Hq. destruct S as [->|(m & E & ->)]; [done|].
  destruct (heap r !! rid) as [q|] eqn:Hh; [|done]. injection E as ->. apply lookup_delete_ne. by apply Hq.
Qed.

Lemma touches_queues rid r o ing snt : touches rid r (set_queues o ing snt r).
Proof. split; auto. Qed.
Lemma touches_alter rid r f : (∀ q, req_id (f q) = req_id q) → touches rid r (set_heap (alter f rid (heap r)) r).
Proof.
  intros Hf. split; simpl; auto.
  - apply length_alter.
  - intros k Hk. by rewrite list_lookup_alter_ne.
  - rewrite list_lookup_alter_eq. destruct (heap r !! rid); simpl; [by rewrite Hf|done].
Qed.

Lemma pkr_touches rid r0 q p : hoare (touches rid r0) (pkr_WritePacket q p) (λ _, True).
Proof.
  intros r Hr. split; [|done]. unfold pkr_WritePacket, rpc_WritePacket, packer_WritePacket. destruct q; simpl.
  - etrans; [exact Hr|]. apply touches_queues.
  - destruct (EncodePacket p); [|done..]. destruct (conn_open r); [|done]. etrans; [exact Hr|]. apply touches_queues.
Qed.
Lemma on_sink_touches {A} rid r0 (m : M (ByteSink * rpc) A) :
  (∀ s r, touches rid r0 r → touches rid r0 (m (s, r)).2.2) → hoare (touches rid r0) (on_sink rid m) (λ _, True).
Proof.
  intros Hm r Hr. split; [|done]. unfold on_sink. destruct (heap r !! rid) as [q|]; [|done].
  specialize (Hm (req_sink q) r Hr). destruct (m (req_sink q, r)) as [x [s r']]. simpl in *.
  etrans; [exact Hm|]. by apply touches_alter.
Qed.
Lemma modify_touches rid r0 f : (∀ r, touches rid r (f r)) → hoare (touches rid r0) (mmodify f) (λ _, True).
Proof. intros Hf r Hr. split; [|done]. simpl. etrans; [exact Hr|apply Hf]. Qed.
Lemma on_source_touches rid f r : touches rid r (on_source rid f r).
Proof. by apply touches_alter. Qed.
Lemma closeStream_touches rid r : touches rid r (closeStream rid r).
Proof.
  unfold closeStream. destruct (heap r !! rid) as [q|] eqn:Hq; [|reflexivity]. split; auto. right.
  exists (req_id q). by rewrite Hq.
Qed.

Ltac touch :=
  repeat first
  [ apply hoare_bind with (λ _, True); [|intros ? _]
  | apply modify_touches; intros; (apply on_source_touches || apply closeStream_touches || by apply touches_alter)
  | apply on_sink_touches; intros; apply (sink_keeps pkr_WritePacket); [apply pkr_touches|done]
  | by apply hoare_lift | by apply hoare_ret ].

Lemma CloseWithError_touches rid r0 e : hoare (touches rid r0) (CloseWithError e rid) (λ _, True).
Proof. unfold CloseWithError. destruct e as [e|]; [case_bool_decide|]; touch. Qed.
Lemma Return_touches rid r0 v : hoare (touches rid r0) (Return rid v) (λ _, True).
Proof.
  intros r Hr. unfold Return. destruct (heap r !! rid) as [q|]; [|done].
  destruct (negb (one_answer (CallType q))); [done|]. revert r Hr.
  match goal with |- ∀ r, _ → _ (?m r).2 ∧ _ => change (hoare (touches rid r0) m (λ _, True)) end.
  touch.
Qed.
Lemma frame_in_touches {js : RpcJSON} rid p r : touches rid r (frame_in p rid r).
Proof.
  unfold frame_in. set (r1 := data_in p rid r).
  assert (H1 : touches rid r r1) by (unfold r1, data_in; case_bool_decide; [reflexivity|apply on_source_touches]).
  destruct (flag_get (Flag p) FlagEndErr); [|done]. destruct (heap r1 !! rid) as [q|]; [|done].
  etrans; [exact H1|]. etrans; [apply on_source_touches|apply closeStream_touches].
Qed.

(** ** Frames reach their stream *)
Section Demux.
Context {js : RpcJSON} (has_handler : bool) (manifest : option orders).
Notation HandlePacket := (HandlePacket has_handler manifest).
Notation answer_manifest := (answer_manifest manifest).

Lemma answer_manifest_touches rid r0 q : hoare (touches rid r0) (answer_manifest rid q) (λ _, True).
Proof.
  assert (Hr : ∀ v, hoare (touches rid r0) (mtry (Return rid v) ≫= λ _ : result unit, mret tt) (λ _ : unit, True)).
  { intros v. apply hoare_bind with (λ _, True); [|intros; by apply hoare_ret].
    eapply hoare_weaken; [apply hoare_try, Return_touches|done]. }
  unfold Session.answer_manifest. destruct (negb (one_answer (CallType q))); [apply CloseWithError_touches|].
  destruct manifest as [o|]; [|apply Hr].
  destruct (marshal_manifest (ToWireMap o)); [apply Hr|apply CloseWithError_touches|by intros r].
Qed.

(** The session with a new request registered. *)
Definition registered (p : Packet) (r : rpc) : rpc :=
  set_streams (<[Req p := length (heap r)]> (streams r)) (set_heap (heap r ++ [new_request p]) r).

Lemma new_call_cases p r : streams r !! Req p = None → ∃ r1,
  (new_call has_handler manifest p r).2 = r1 ∧
  (touches (length (heap r)) (registered p r) r1 ∨
   r1 = set_calls (calls r ++ [length (heap r)]) (registered p r)).
Proof.
  intros Hn. eexists; split; [done|]. unfold new_call. fold (registered p r).
  case_bool_decide as Hm; [left|].
  - by apply (answer_manifest_touches (length (heap r)) (registered p r) (new_request p)).
  - destruct has_handler; simpl; [by right|by left].
Qed.

Definition addressed (n : Z) (p : Packet) : bool :=
  bool_decide ((0 < Req p ∧ Req p = n) ∨ (Req p < 0 ∧ int32 (- Req p) = n)).

(** What the number [n] of packets [ps] brings: the bodies up to an end, and the end. *)
Fixpoint deliveries (n : Z) (ps : list Packet) : list bytes * option Packet :=
  match ps with
  | [] => ([], None)
  | p :: ps =>
      if addressed n p then
        let b := if bool_decide (Body p = []) then [] else [Body p] in
        if flag_get (Flag p) FlagEndErr then (b, Some p)
        else let d := deliveries n ps in (b ++ d.1, d.2)
      else deliveries n ps
  end.

Definition handle_all (ps : list Packet) (r : rpc) : rpc := foldl (λ r p, (HandlePacket p r).2) r ps.

(** A packet of another number leaves a stream alone. *)
Lemma touches_other k r r1 n rid : wf r → streams r !! n = Some rid → k ≠ rid →
  (∀ q, heap r !! k = Some q → req_id q ≠ n) → touches k r r1 →
  wf r1 ∧ streams r1 !! n = Some rid ∧ heap r1 !! rid = heap r !! rid.
Proof.
  intros Hwf Hn Hk Hid Ht. split_and!; [by eapply touches_wf| |by apply (t_others _ _ _ Ht)].
  rewrite <-Hn. by eapply touches_stream.
Qed.
Lemma frame_other m k p r n rid : wf r → streams r !! n = Some rid → streams r !! m = Some k → m ≠ n →
  wf (frame_in p k r) ∧ streams (frame_in p k r) !! n = Some rid ∧ heap (frame_in p k r) !! rid = heap r !! rid.
Proof.
  intros Hwf Hn Hm Hne. destruct (Hwf m k Hm) as (q & Hq & Hid), (Hwf n rid Hn) as (q' & Hq' & Hid').
  apply (touches_other k); [done|done| | |apply frame_in_touches].
  - intros ->. congruence.
  - intros q0 Hq0. congruence.
Qed.

Lemma wf_lookup_lt r n rid : wf r → streams r !! n = Some rid → (rid < length (heap r))%nat.
Proof. intros Hwf Hn. destruct (Hwf n rid Hn) as (q & Hq & _). by eapply lookup_lt_Some. Qed.
Lemma registered_wf p r : wf r → wf (registered p r).
Proof.
  intros Hwf n rid. unfold registered. simpl. intros [[<- <-]|[Hne Hn]]%lookup_insert_Some.
  - exists (new_request p). rewrite lookup_app_r, Nat.sub_diag by lia. split; [done|].
    unfold new_request. by repeat (case_match || case_bool_decide).
  - destruct (Hwf n rid Hn) as (q & Hq & Hid). exists q. by rewrite (lookup_app_l_Some _ _ _ _ Hq).
Qed.
Lemma new_request_id p : req_id (new_request p) = Req p.
Proof. unfold new_request. by repeat (case_match || case_bool_decide). Qed.

Lemma new_other p r n rid : wf r → streams r !! n = Some rid → streams r !! Req p = None →
  let r1 := (new_call has_handler manifest p r).2 in
  wf r1 ∧ streams r1 !! n = Some rid ∧ heap r1 !! rid = heap r !! rid.
Proof.
  intros Hwf Hn Hp r1. assert (Hne : Req p ≠ n) by congruence.
  assert (Hreg : wf (registered p r) ∧ streams (registered p r) !! n = Some rid ∧ heap (registered p r) !! rid = heap r !! rid).
  { split_and!; [by apply registered_wf|simpl; by rewrite lookup_insert_ne|simpl; apply lookup_app_l; by eapply wf_lookup_lt]. }
  destruct (new_call_cases p r Hp) as (r1' & E & [Ht|E1]); fold r1 in E; subst r1'.
  - destruct Hreg as (H1 & H2 & <-). apply (touches_other (length (heap r)) (registered p r)); [done..| | |done].
    + pose proof (wf_lookup_lt _ _ _ Hwf Hn). lia.
    + intros q. simpl. rewrite lookup_app_r, Nat.sub_diag by lia. intros [= <-]. by rewrite new_request_id.
  - by rewrite E1.
Qed.

Lemma packet_other p r n rid : wf r → streams r !! n = Some rid → addressed n p = false →
  let r1 := (HandlePacket p r).2 in
  wf r1 ∧ streams r1 !! n = Some rid ∧ heap r1 !! rid = heap r !! rid.
Proof.
  intros Hwf Hn Ha r1. unfold addressed in Ha. apply bool_decide_eq_false in Ha. unfold r1, Session.HandlePacket.
  case_bool_decide as Hpos.
  - destruct (streams r !! Req p) as [k|] eqn:Hk; [|by apply new_other].
    apply (frame_other (Req p)); [done..|]. naive_solver.
  - case_bool_decide as Hneg; [|done]. destruct (streams r !! int32 (- Req p)) as [k|] eqn:Hk; [|done].
    apply (frame_other (int32 (- Req p))); [done..|]. naive_solver.
Qed.

(** A packet of the number itself is a frame. *)
Lemma packet_own p r n rid : streams r !! n = Some rid → addressed n p = true → (HandlePacket p r).2 = frame_in p rid r.
Proof.
  intros Hn Ha. apply bool_decide_eq_true in Ha. unfold Session.HandlePacket.
  destruct Ha as [[Hpos <-]|[Hneg Ha]].
  - by rewrite bool_decide_eq_true_2, Hn.
  - rewrite bool_decide_eq_false_2, bool_decide_eq_true_2, Ha, Hn by lia. done.
Qed.

Definition own_frames (p : Packet) : list bytes := if bool_decide (Body p = []) then [] else [Body p].

Lemma frame_in_own p r n rid q s : wf r → streams r !! n = Some rid → heap r !! rid = Some q →
  stands_for (req_source q) s → ended s = None → fits (Body p) → Z.of_nat (length (waiting s)) + 2 < 2 ^ 32 →
  ∃ q', heap (frame_in p rid r) !! rid = Some q' ∧ req_sink q' = req_sink q ∧ Method q' = Method q ∧
    if flag_get (Flag p) FlagEndErr
    then stands_for (req_source q') {| waiting := waiting s ++ own_frames p;
           ended := Some (default EOF (end_error q p)); cancelled := true |}
    else stands_for (req_source q') {| waiting := waiting s ++ own_frames p; ended := None; cancelled := cancelled s |} ∧
         streams (frame_in p rid r) !! n = Some rid.
Proof.
  intros Hwf Hn Hq Hs He Hfit Hlen.
  set (s1 := {| waiting := waiting s ++ own_frames p; ended := None; cancelled := cancelled s |}).
  set (r1 := data_in p rid r).
  assert (H1 : ∃ q1, heap r1 !! rid = Some q1 ∧ req_sink q1 = req_sink q ∧ Method q1 = Method q ∧
    stands_for (req_source q1) s1 ∧ streams r1 = streams r).
  { unfold r1, data_in, s1, own_frames. case_bool_decide as Hb.
    - exists q. split_and!; try done. rewrite app_nil_r. by destruct s; simpl in *; subst.
    - destruct (run_op_spec (OpWrite (Body p)) _ _ Hs Hfit ltac:(lia)) as (_ & Hst & _).
      simpl in Hst. rewrite He in Hst. eexists. unfold on_source. simpl.
      rewrite list_lookup_alter_eq, Hq. simpl. split_and!; [done|done|done|exact Hst|done]. }
  destruct H1 as (q1 & Hq1 & Hk1 & Hm1 & Hs1 & Hstr). unfold frame_in. fold r1. rewrite Hq1.
  destruct (flag_get (Flag p) FlagEndErr).
  - exists (with_req_source (Cancel (end_error q1 p) (req_source q1)) q1). split_and!; [|done|done|].
    + unfold closeStream. destruct (heap (on_source _ _ _) !! rid) eqn:E; simpl;
        unfold on_source in *; simpl in *; by rewrite list_lookup_alter_eq, Hq1 in *.
    + destruct (run_op_spec (OpCancel (end_error q1 p)) _ _ Hs1 I) as (_ & Hst & _).
      { unfold s1, own_frames. simpl. rewrite length_app. case_bool_decide; simpl; lia. }
      simpl in Hst. replace (end_error q p) with (end_error q1 p); [exact Hst|]. unfold end_error, termination_error.
      by rewrite Hm1.
  - exists q1. split_and!; [done..|]. by rewrite Hstr.
Qed.

(** Once the number is free again, no packet reaches the request any more. *)
Definition unregistered (rid : nat) (r : rpc) : Prop := ∀ n, streams r !! n ≠ Some rid.

Lemma touches_unregistered k rid r r1 : (rid < length (heap r))%nat → unregistered rid r → k ≠ rid → touches k r r1 →
  unregistered rid r1 ∧ heap r1 !! rid = heap r !! rid ∧ (rid < length (heap r1))%nat.
Proof.
  intros Hl Hu Hk Ht. split_and!; [|by apply (t_others _ _ _ Ht)|by rewrite (t_length _ _ _ Ht)].
  intros n Hn. apply (Hu n). destruct (t_streams _ _ _ Ht) as [<-|(m & _ & E)]; [done|].
  rewrite E in Hn. by apply lookup_delete_Some in Hn as [_ ?].
Qed.
Lemma packet_unregistered p r rid : (rid < length (heap r))%nat → unregistered rid r →
  let r1 := (HandlePacket p r).2 in
  unregistered rid r1 ∧ heap r1 !! rid = heap r !! rid ∧ (rid < length (heap r1))%nat.
Proof.
  intros Hl Hu r1.
  assert (Hframe : ∀ m k, streams r !! m = Some k →
    unregistered rid (frame_in p k r) ∧ heap (frame_in p k r) !! rid = heap r !! rid ∧ (rid < length (heap (frame_in p k r)))%nat).
  { intros m k Hm. apply (touches_unregistered k); [done..| |apply frame_in_touches]. intros ->. by apply (Hu m). }
  unfold r1, Session.HandlePacket. case_bool_decide as Hpos.
  - destruct (streams r !! Req p) as [k|] eqn:Hk; [by eapply Hframe|]. simpl.
    assert (Hreg : unregistered rid (registered p r) ∧ heap (registered p r) !! rid = heap r !! rid ∧
      (rid < length (heap (registered p r)))%nat).
    { split_and!; [|by apply lookup_app_l|simpl; rewrite length_app; lia].
      intros n. unfold registered. simpl. intros [[<- E]|[_ Hn]]%lookup_insert_Some; [lia|by apply (Hu n)]. }
    destruct (new_call_cases p r Hk) as (r1' & E & [Ht|E1]); rewrite E.
    + destruct Hreg as (H1 & <- & H3). apply (touches_unregistered (length (heap r))); [done..| |done]. lia.
    + by rewrite E1.
  - case_bool_decide as Hneg; [|done]. destruct (streams r !! int32 (- Req p)) as [k|] eqn:Hk; [by eapply Hframe|done].
Qed.
Lemma handle_all_unregistered ps r rid : (rid < length (heap r))%nat → unregistered rid r →
  heap (handle_all ps r) !! rid = heap r !! rid.
Proof.
  revert r. induction ps as [|p ps IH]; intros r Hl Hu; [done|]. unfold handle_all in *. cbn [foldl].
  destruct (packet_unregistered p r rid Hl Hu) as (Hu1 & <- & Hl1). by apply IH.
Qed.

Lemma frame_end_streams p r n rid q : heap r !! rid = Some q → req_id q = n → flag_get (Flag p) FlagEndErr = true →
  streams (frame_in p rid r) = delete n (streams r).
Proof.
  intros Hq Hid He. unfold frame_in. rewrite He. unfold data_in, closeStream, on_source.
  case_bool_decide; simpl; rewrite ?list_lookup_alter_eq, ?Hq; simpl;
    rewrite ?list_lookup_alter_eq, ?Hq; simpl; by rewrite Hid.
Qed.
Lemma frame_end_unregisters p r n rid : wf r → streams r !! n = Some rid → flag_get (Flag p) FlagEndErr = true →
  unregistered rid (frame_in p rid r) ∧ (rid < length (heap (frame_in p rid r)))%nat.
Proof.
  intros Hwf Hn He. split; [|rewrite (t_length _ _ _ (frame_in_touches rid p r)); by eapply wf_lookup_lt].
  destruct (Hwf n rid Hn) as (q & Hq & Hid). intros m Hm.
  rewrite (frame_end_streams _ _ _ _ _ Hq Hid He) in Hm. apply lookup_delete_Some in Hm as [Hne Hm].
  destruct (Hwf m rid Hm) as (q' & Hq' & Hid'). congruence.
Qed.

(** What a stream that receives [d] becomes. *)
Definition after (q : Request) (s : queue_spec) (d : list bytes * option Packet) : queue_spec :=
  {| waiting := waiting s ++ d.1;
     ended := match d.2 with Some p => Some (default EOF (end_error q p)) | None => None end;
     cancelled := match d.2 with Some _ => true | None => cancelled s end |}.

(** C8. Whatever packets arrive, a stream of the session receives the bodies of those
    with its number, in order, up to its end, and nothing else: streams do not mix. *)
Theorem frames_are_demultiplexed ps r n rid q s :
  wf r → streams r !! n = Some rid → heap r !! rid = Some q → stands_for (req_source q) s → ended s = None →
  Forall (λ p, fits (Body p)) ps → Z.of_nat (length (waiting s)) + Z.of_nat (length ps) + 2 < 2 ^ 32 →
  ∃ q', heap (handle_all ps r) !! rid = Some q' ∧ req_sink q' = req_sink q ∧
    stands_for (req_source q') (after q s (deliveries n ps)).
Proof.
  intros Hwf Hn Hq Hs He Hfit. revert r q s Hwf Hn Hq Hs He.
  induction Hfit as [|p ps Hp _ IH]; intros r q s Hwf Hn Hq Hs He Hlen.
  - exists q. split_and!; [done..|]. unfold after. simpl. rewrite app_nil_r. by destruct s; simpl in *; subst.
  - unfold handle_all in *. cbn [foldl deliveries length] in *. destruct (addressed n p) eqn:Ha.
    + rewrite (packet_own _ _ _ _ Hn Ha).
      destruct (frame_in_own p r n rid q s) as (q1 & Hq1 & Hk1 & Hm1 & H1); [done..|lia|].
      fold (own_frames p). destruct (flag_get (Flag p) FlagEndErr) eqn:Hend.
      * destruct (frame_end_unregisters p r n rid Hwf Hn Hend) as [Hu Hl].
        exists q1. split_and!; [|done|exact H1].
        fold (handle_all ps (frame_in p rid r)). by rewrite handle_all_unregistered.
      * destruct H1 as [Hs1 Hn1].
        destruct (IH (frame_in p rid r) q1 _ (touches_wf _ _ _ Hwf (frame_in_touches rid p r)) Hn1 Hq1 Hs1)
          as (q' & Hq' & Hk' & Hs'); [done| |].
        { simpl. rewrite length_app. unfold own_frames. case_bool_decide; simpl; lia. }
        exists q'. split_and!; [done|congruence|]. unfold after, end_error, termination_error in *. simpl in *.
        by rewrite Hm1, <-(assoc (++)) in Hs'.
    + destruct (packet_other p r n rid Hwf Hn Ha) as (Hwf1 & Hn1 & Hh1).
      apply IH; [done|done|by rewrite Hh1|done|done|lia].
Qed.
End Demux.
