(* ===== verification/SessionCalls.v ===== *)
(** * Calls over two sessions

    A call and its answer followed over both ends of a connection: what the caller
    gets is what the handler returned; what it gets when both ends use the same
    number; and the calls that never end. *)
From stdpp Require Import gmap.
From S2P Require Import Prelude GoStr GoBytes JsonText Codec Stream Mux Session SessionProofs.
#[local] Open Scope string_scope.
#[local] Open Scope list_scope.
#[local] Open Scope Z_scope.

(** ** Every step keeps the map of streams well formed *)
Section Steps.
Context {js : RpcJSON} (has_handler : bool) (manifest : option orders).
Context {H : Type} (handlers : gmap string H).
Notation step := (step has_handler manifest handlers).
Notation steps := (steps has_handler manifest handlers).

Lemma HandleCall_touches rid r0 : hoare (touches rid r0) (HandleCall handlers rid) (λ _, True).
Proof.
  intros r Hr. unfold HandleCall. destruct (heap r !! rid) as [q|]; [|done].
  destruct (mux_handler handlers (Method q)) as [h|]; [done|].
  apply hoare_bind with (I := touches rid r0) (Q := λ _, True); [apply CloseWithError_touches| |done].
  intros ? _. by apply hoare_ret.
Qed.

(** The steps of an owner touch its request only. *)
Lemma owner_touches rid r st r' st' : step (Some rid) (r, st) (r', st') → touches rid r r'.
Proof.
  assert (Hsink : ∀ A (m : M (ByteSink * rpc) A),
    (∀ s r1, touches rid r r1 → touches rid r (m (s, r1)).2.2) → touches rid r (on_sink rid m r).2).
  { intros A m Hm. by apply (on_sink_touches rid r m Hm). }
  intros Hs. inversion Hs; subst; clear Hs;
    try apply on_source_touches.
  - by apply (HandleCall_touches rid r).
  - by apply (Return_touches rid r).
  - apply Hsink. intros. apply (sink_keeps pkr_WritePacket); [apply pkr_touches|done].
  - apply Hsink. intros. apply (sink_keeps pkr_WritePacket); [apply pkr_touches|done].
  - by apply (CloseWithError_touches rid r).
Qed.

Lemma packet_wf p r : wf r → wf (HandlePacket has_handler manifest p r).2.
Proof.
  intros Hwf. unfold HandlePacket. case_bool_decide.
  - destruct (streams r !! Req p) as [k|] eqn:Hk; [by eapply touches_wf, frame_in_touches|].
    destruct (new_call_cases has_handler manifest p r Hk) as (r1 & -> & [Ht| ->]).
    + eapply touches_wf; [|exact Ht]. by apply registered_wf.
    + exact (registered_wf p r Hwf).
  - case_bool_decide; [|done]. destruct (streams r !! int32 (- Req p)) as [k|]; [|done].
    by eapply touches_wf, frame_in_touches.
Qed.
Lemma serve_turn_wf x r : wf r → wf (serve_turn has_handler manifest x r).2.
Proof. intros Hwf. unfold serve_turn. destruct (done r); [done|]. destruct x as [p|[]]; [|done..]. by apply packet_wf. Qed.
Lemma send_one_heap r : heap (send_one r) = heap r ∧ streams (send_one r) = streams r ∧ done (send_one r) = done r.
Proof.
  unfold send_one. destruct (sending r) as [|p ps]; [done|]. unfold packer_WritePacket.
  destruct (EncodePacket p); [|done..]. simpl. by destruct (conn_open r).
Qed.
Lemma call_start_heap t tipe m a r x r' : call_start t tipe m a r = (x, r') →
  heap r' = heap r ∧ streams r' = streams r ∧ done r' = done r.
Proof.
  unfold call_start, alloc_id, mbind, M_mbind, mlift.
  destruct (call_packet _) as [p|e|]; simpl; by intros [= <- <-].
Qed.
Lemma register_wf q r : wf r → wf (call_register q r).2.
Proof.
  intros Hwf n rid. unfold call_register. simpl. intros [[<- <-]|[_ Hn]]%lookup_insert_Some.
  - exists q. by rewrite lookup_app_r, Nat.sub_diag by lia.
  - destruct (Hwf n rid Hn) as (q' & Hq & Hid). exists q'. by rewrite (lookup_app_l_Some _ _ _ _ Hq).
Qed.

Lemma step_wf l c c' : step l c c' → wf c.1 → wf c'.1.
Proof.
  intros Hs Hwf. destruct l as [rid|], c as [r st], c' as [r' st'].
  { by eapply touches_wf, owner_touches. }
  inversion Hs; subst; clear Hs; simpl in *; try done.
  - by apply serve_turn_wf.
  - destruct (send_one_heap r) as (Hh & Hst & _). unfold wf. by rewrite Hh, Hst.
  - edestruct call_start_heap as (Hh & Hst & _); [done|]. unfold wf. by rewrite Hh, Hst.
  - by apply register_wf.
Qed.

(** In every interleaving of the reader, the sender, the callers and the handlers,
    the map of streams leads from a number to a request of that number. *)
Theorem streams_stay_well_formed ls c : steps ls (NewRPC, []) c → wf c.1.
Proof.
  assert (Hall : ∀ ls c1 c2, steps ls c1 c2 → wf c1.1 → wf c2.1).
  { intros ls' c1 c2 Hs. induction Hs as [|l ls'' c1 c2 c3 Hst _ IH]; [done|]. intros Hwf. by eapply IH, step_wf. }
  intros Hs. eapply Hall; [exact Hs|]. intros n rid Hn. simpl in Hn. by rewrite lookup_empty in Hn.
Qed.

(** ** Calls that never end *)

(** After the reader has stopped, only its owner changes a request. *)
Lemma done_step l rid q c c' : step l c c' → done c.1 = true → heap c.1 !! rid = Some q → l ≠ Some rid →
  done c'.1 = true ∧ heap c'.1 !! rid = Some q.
Proof.
  intros Hs Hd Hq Hl. destruct l as [k|], c as [r st], c' as [r' st']; simpl in *.
  { pose proof (owner_touches _ _ _ _ _ Hs) as Ht. rewrite (t_done _ _ _ Ht), (t_others _ _ _ Ht); [done|congruence]. }
  inversion Hs; subst; clear Hs; simpl in *; try done.
  - congruence.
  - destruct (send_one_heap r) as (-> & _ & ->). done.
  - edestruct call_start_heap as (-> & _ & ->); done.
  - split; [done|]. by apply lookup_app_l_Some.
Qed.

Lemma packet_done p r : done (HandlePacket has_handler manifest p r).2 = done r.
Proof.
  unfold HandlePacket. case_bool_decide.
  - destruct (streams r !! Req p) as [k|] eqn:Hk; [apply (t_done _ _ _ (frame_in_touches k p r))|].
    by destruct (new_call_cases has_handler manifest p r Hk) as (r1 & -> & [Ht| ->]); [rewrite (t_done _ _ _ Ht)|].
  - case_bool_decide; [|done]. destruct (streams r !! int32 (- Req p)) as [k|]; [|done].
    apply (t_done _ _ _ (frame_in_touches k p r)).
Qed.
(** The turn of the reader that ends its loop touches no request. *)
Lemma last_turn x r : done r = false → done (serve_turn has_handler manifest x r).2 = true →
  heap (serve_turn has_handler manifest x r).2 = heap r.
Proof. unfold serve_turn. intros ->. destruct x as [p|[]]; [rewrite packet_done; simpl; congruence|done..]. Qed.

(** C23. A call pending when the connection ends - at a closing error of the reader, or
    at the eleventh error in a row - is not answered by the end and does not fail: its
    request is as it was before, and stays so whatever the reader, the sender, the
    other callers and the handlers do. Nothing closes the source its caller waits for:
    only a context wakes the caller up. *)
Theorem disconnect_leaves_calls_waiting x r st ls c' rid q tipe ret :
  done r = false → done (serve_turn has_handler manifest x r).2 = true →
  heap r !! rid = Some q → call_answer tipe ret rid r = None → closed (req_source q) = false →
  steps ls ((serve_turn has_handler manifest x r).2, st) c' → Some rid ∉ ls →
  heap c'.1 !! rid = Some q ∧ call_answer tipe ret rid c'.1 = None ∧ Next_now (req_source q) = None ∧
  (∀ w, fires w (req_source q) = true → ∃ e, w = WStream e ∨ w = WCtx e).
Proof.
  intros Hr Hd Hq Ha Hc Hs Hl.
  assert (Hq' : heap c'.1 !! rid = Some q).
  { assert (Hq1 : heap (serve_turn has_handler manifest x r).2 !! rid = Some q) by by rewrite last_turn.
    clear Hr Hq Ha. remember ((serve_turn has_handler manifest x r).2, st) as c eqn:Ec.
    assert (Hall : done c.1 = true ∧ heap c.1 !! rid = Some q) by by rewrite Ec.
    clear Ec Hd Hq1. induction Hs as [|l ls c1 c2 c3 Hst _ IH]; [apply Hall|].
    apply not_elem_of_cons in Hl as [Hl Hls]. destruct Hall as [H1 H2]. apply IH; [done|].
    by apply (done_step l rid q c1 c2 Hst). }
  assert (Hw : failed (req_source q) = None ∧ frames (buf (req_source q)) = 0).
  { revert Ha. unfold call_answer. rewrite Hq. unfold Bytes_now. case_bool_decide; [|done]. by destruct (failed (req_source q)). }
  destruct Hw as [Hf Hn]. split_and!; [done| | |].
  - unfold call_answer. rewrite Hq'. unfold Bytes_now. by rewrite Hn, Hf.
  - unfold Next_now. by rewrite Hf, Hn.
  - intros [e|e| |]; simpl; [eauto..|congruence|by rewrite Hn].
Qed.
End Steps.

(** ** One call over both sessions *)
Section Calls.
Context {js : RpcJSON} (manifest : option orders).
Notation HandlePacket := (HandlePacket true manifest).

(** The body of a call decodes to these fields. *)
Definition decodes (body : bytes) (m : list string) (a : option bytes) (t : string) : Prop :=
  ∀ fields, unmarshal_request body fields = (Ok tt, (m, a, t)).

(** A number that survives being negated twice. *)
Definition number (n : Z) : Prop := 0 < n < 2 ^ 31.
Lemma negated n : number n → int32 (- n) = - n ∧ int32 (- int32 (- n)) = n.
Proof.
  intros Hn. unfold number in Hn.
  assert (Hid : ∀ x, - 2 ^ 31 <= x < 2 ^ 31 → int32 x = x).
  { intros x Hx. unfold int32. pose proof (int32_uint32 x Hx) as E. unfold int32 in E.
    by rewrite (uint32_small (uint32 x)) in E by apply uint32_bound. }
  rewrite (Hid (- n)) by lia. split; [done|]. rewrite Z.opp_involutive. apply Hid. lia.
Qed.

(** What [doCall] does: the packet it queues and the request it registers. *)
Lemma doCall_spec t tipe m a body r : marshal_request m a t = Ok body →
  let q := call_request t tipe (nextID r) m a in
  let p := {| Flag := if one_answer t then FlagJSON else Z.lor FlagJSON FlagStream; Req := nextID r; Body := body |} in
  ∃ r1, doCall t tipe m a r = (Ok (length (heap r)), r1) ∧ heap r1 = heap r ++ [q] ∧
    streams r1 = <[nextID r := length (heap r)]> (streams r) ∧ out r1 = out r ++ [p] ∧
    sending r1 = sending r ∧ sent r1 = sent r ∧ calls r1 = calls r ∧ conn_open r1 = conn_open r.
Proof.
  intros Hm q p. unfold doCall, call_start, call_packet, alloc_id, mbind, M_mbind, mlift, mwrap. simpl.
  rewrite Hm. simpl. eexists; split; [done|]. by split_and!.
Qed.

(** The queue reaches the wire, when the sender is idle and the packet is not too large. *)
Lemma queue_is_sent p r : sending r = [] → out r = [p] → conn_open r = true →
  Z.of_nat (length (Body p)) <= maxBufferSize →
  sent (send_one (Produce r)) = sent r ++ [p] ∧ heap (send_one (Produce r)) = heap r ∧
  streams (send_one (Produce r)) = streams r.
Proof.
  intros Hs Ho Hc Hp. unfold send_one, Produce. simpl. rewrite Hs, Ho. simpl.
  unfold packer_WritePacket, EncodePacket. rewrite bool_decide_eq_false_2 by lia. simpl. by rewrite Hc.
Qed.

(** A packet too large never leaves, and nobody is told. *)
Lemma oversized_is_dropped p r : sending r = [] → out r = [p] → maxBufferSize < Z.of_nat (length (Body p)) →
  sent (send_one (Produce r)) = sent r ∧ heap (send_one (Produce r)) = heap r ∧
  streams (send_one (Produce r)) = streams r.
Proof.
  intros Hs Ho Hp. unfold send_one, Produce. simpl. rewrite Hs, Ho. simpl.
  unfold packer_WritePacket, EncodePacket. by rewrite bool_decide_eq_true_2 by lia.
Qed.

(** A call that arrives under a free number is handed to the handler. *)
Lemma call_is_dispatched p r m a t : 0 < Req p → streams r !! Req p = None → Body p ≠ [] →
  decodes (Body p) m a t → m ≠ ["manifest"] →
  let r1 := (HandlePacket p r).2 in let rid := length (heap r) in
  calls r1 = calls r ++ [rid] ∧ streams r1 = <[Req p := rid]> (streams r) ∧ sent r1 = sent r ∧ conn_open r1 = conn_open r ∧
  heap r1 = heap r ++ [new_request p] ∧
  Method (new_request p) = m ∧ RawArgs (new_request p) = a ∧ CallType (new_request p) = t.
Proof.
  intros Hp Hn Hb Hd Hm. assert (Hq : Method (new_request p) = m ∧ RawArgs (new_request p) = a ∧ CallType (new_request p) = t).
  { unfold new_request. rewrite bool_decide_eq_false_2 by done. by rewrite Hd. }
  unfold Session.HandlePacket, new_call. rewrite bool_decide_eq_true_2, Hn by done.
  destruct Hq as (H1 & H2 & H3). rewrite bool_decide_eq_false_2 by by rewrite H1. by split_and!.
Qed.

(** The sink of a call that takes one answer. *)
Lemma new_request_sink p : one_answer (CallType (new_request p)) = true →
  req_sink (new_request p) = SetCounterpart true (SetReqID (Req p) (NewByteSink false)).
Proof.
  unfold new_request. destruct (if bool_decide (Body p = []) then _ else _) as [[m a] t]. simpl.
  unfold one_answer, CallType_Flags, stream_type. intros Ht%bool_decide_eq_true.
  rewrite bool_decide_eq_false_2; [done|]. intros Hs. destruct Ht as [-> | ->]; naive_solver.
Qed.

Definition value_flag (v : value) : Z := match v with VString _ => FlagString | VBytes _ => 0 | VOther _ => FlagJSON end.
Definition answer_packet (n : Z) (v : value) (b : bytes) : Packet :=
  {| Flag := Z.lor (value_flag v) FlagEndErr; Req := int32 (- n); Body := b |}.

(** A request as the handler gets it: nothing written, nothing closed. *)
Record fresh (n : Z) (rid : nat) (r : rpc) : Prop := {
  f_request : ∃ q, heap r !! rid = Some q ∧ req_id q = n ∧ one_answer (CallType q) = true ∧
    req_sink q = SetCounterpart true (SetReqID n (NewByteSink false));
  f_open : conn_open r = true
}.

(** Closing sends what the sink has buffered, as the answer. *)
Lemma Close_sends rid q f r : heap r !! rid = Some q → sink_closed (req_sink q) = false → isStream (req_sink q) = false →
  queued (req_sink q) = false → AsCodecFlag (encoding (req_sink q)) = Ok f → conn_open r = true →
  Z.of_nat (length (writer (req_sink q))) <= maxBufferSize →
  ∃ r1, request_Close rid r = (Ok tt, r1) ∧ streams r1 = delete (req_id q) (streams r) ∧
    sent r1 = sent r ++ [{| Flag := Z.lor f FlagEndErr; Req := packet_id (req_sink q); Body := writer (req_sink q) |}].
Proof.
  intros Hq Hc Hst Hqu Hf Ho Hb. unfold request_Close, CloseWithError. rewrite bool_decide_eq_true_2 by done.
  unfold mbind, M_mbind, mmodify, on_sink, on_source. simpl. rewrite list_lookup_alter_eq, Hq. simpl.
  unfold sink_Close, close_packet. rewrite Hc, Hst, Hf, Hqu.
  unfold pkr_WritePacket, packer_WritePacket, EncodePacket. cbn [Body].
  rewrite bool_decide_eq_false_2 by lia. simpl. rewrite Ho. simpl.
  eexists; split; [done|]. unfold closeStream. simpl. by rewrite !list_lookup_alter_eq, Hq.
Qed.

(** Closing a sink with too much in it sends nothing. *)
Lemma Close_loses rid q r : heap r !! rid = Some q → sink_closed (req_sink q) = false → isStream (req_sink q) = false →
  queued (req_sink q) = false → maxBufferSize < Z.of_nat (length (writer (req_sink q))) →
  ∃ r1, request_Close rid r = (Ok tt, r1) ∧ streams r1 = delete (req_id q) (streams r) ∧ sent r1 = sent r.
Proof.
  intros Hq Hc Hst Hqu Hb. unfold request_Close, CloseWithError. rewrite bool_decide_eq_true_2 by done.
  unfold mbind, M_mbind, mmodify, on_sink, on_source. simpl. rewrite list_lookup_alter_eq, Hq. simpl.
  unfold sink_Close, close_packet. rewrite Hc, Hst, Hqu.
  unfold pkr_WritePacket, packer_WritePacket, EncodePacket. cbn [Body].
  rewrite bool_decide_eq_true_2 by done. simpl.
  eexists; split; [done|]. unfold closeStream. simpl. by rewrite !list_lookup_alter_eq, Hq.
Qed.

(** Returning a value buffers it and closes. *)
Lemma Return_closes n rid v b r : fresh n rid r → value_body v = Ok b →
  ∃ r0 q0, Return rid v r = request_Close rid r0 ∧ heap r0 !! rid = Some q0 ∧ req_id q0 = n ∧
    req_sink q0 = with_writer b (SetEncoding (value_encoding v) (SetCounterpart true (SetReqID n (NewByteSink false)))) ∧
    sent r0 = sent r ∧ streams r0 = streams r ∧ conn_open r0 = true.
Proof.
  intros [(q & Hq & Hid & Ht & Hk) Ho] Hv.
  unfold Return. rewrite Hq, Ht. simpl. unfold mbind, M_mbind, mmodify, mlift. rewrite Hv.
  unfold on_sink. simpl. rewrite list_lookup_alter_eq, Hq. simpl. rewrite Hk. simpl.
  do 2 eexists. split; [done|]. simpl. rewrite !list_lookup_alter_eq, Hq. simpl. by split_and!.
Qed.

Lemma Return_answers n rid v b r : fresh n rid r → value_body v = Ok b → Z.of_nat (length b) <= maxBufferSize →
  ∃ r1, Return rid v r = (Ok tt, r1) ∧ sent r1 = sent r ++ [answer_packet n v b] ∧ streams r1 = delete n (streams r).
Proof.
  intros Hf Hv Hb. destruct (Return_closes _ _ _ _ _ Hf Hv) as (r0 & q0 & -> & Hq0 & Hid & Hk & <- & <- & Ho).
  destruct (Close_sends rid q0 (value_flag v) _ Hq0) as (r1 & -> & Hs & Hsent);
    try (by rewrite Hk); [by rewrite Hk; destruct v|done|].
  exists r1. by rewrite Hs, Hsent, Hk, Hid.
Qed.

(** An answer too large for a packet: the handler is told that all is well. *)
Lemma oversized_answer_is_lost n rid v b r : fresh n rid r → value_body v = Ok b → maxBufferSize < Z.of_nat (length b) →
  ∃ r1, Return rid v r = (Ok tt, r1) ∧ sent r1 = sent r ∧ streams r1 = delete n (streams r).
Proof.
  intros Hf Hv Hb. destruct (Return_closes _ _ _ _ _ Hf Hv) as (r0 & q0 & -> & Hq0 & Hid & Hk & <- & <- & Ho).
  destruct (Close_loses rid q0 _ Hq0) as (r1 & -> & Hs & Hsent); try (by rewrite Hk).
  exists r1. by rewrite Hs, Hsent, Hid.
Qed.



#[local] Opaque error_envelope.
Lemma CloseWithError_answers n rid e r : fresh n rid r → e ≠ EOF → Z.of_nat (length (error_envelope e)) <= maxBufferSize →
  ∃ r1, CloseWithError (Some e) rid r = (Ok tt, r1) ∧
    sent r1 = sent r ++ [{| Flag := Z.lor FlagJSON FlagEndErr; Req := int32 (- n); Body := error_envelope e |}] ∧
    streams r1 = delete n (streams r).
Proof.
  intros [(q & Hq & Hid & Ht & Hk) Ho] He Hb.
  unfold CloseWithError. rewrite bool_decide_eq_false_2 by done. unfold mbind, M_mbind, mmodify.
  unfold on_sink, on_source. simpl. rewrite list_lookup_alter_eq, Hq. simpl. rewrite Hk.
  unfold sink_CloseWithError, pkr_WritePacket, packer_WritePacket, EncodePacket. cbn [Body sink_closed queued SetCounterpart SetReqID NewByteSink].
  rewrite bool_decide_eq_false_2 by lia. simpl. rewrite Ho. simpl.
  eexists; split; [done|]. unfold closeStream. simpl. rewrite !list_lookup_alter_eq, Hq. simpl. by rewrite Hid.
Qed.

(** The answer of a callee ends the call of the caller. *)
Lemma answer_arrives p n rid q r : wf r → number n → Req p = int32 (- n) → streams r !! n = Some rid →
  heap r !! rid = Some q → req_source q = NewByteSource → fits (Body p) → flag_get (Flag p) FlagEndErr = true →
  let r1 := (HandlePacket p r).2 in
  streams r1 = delete n (streams r) ∧
  ∃ q1, heap r1 !! rid = Some q1 ∧
    stands_for (req_source q1) {| waiting := own_frames p; ended := Some (default EOF (end_error q p)); cancelled := true |}.
Proof.
  intros Hwf Hn Hp Hs Hq Hsrc Hfit Hend r1. destruct (negated n Hn) as [E1 E2].
  assert (Ha : addressed n p = true).
  { apply bool_decide_eq_true. right. rewrite Hp. split; [rewrite E1; unfold number in Hn; lia|done]. }
  unfold r1. rewrite (packet_own _ _ _ _ _ _ Hs Ha). split.
  - apply (frame_end_streams p r n rid q); [done| |done]. destruct (Hwf n rid Hs) as (q' & Hq' & <-). congruence.
  - destruct (frame_in_own p r n rid q empty_queue) as (q1 & Hq1 & _ & _ & H1);
      [done|done|done|rewrite Hsrc; apply new_stands_for|done|done|done|].
    rewrite Hend in H1. eauto.
Qed.
(** What a waiting call makes of a frame or an end. *)
Lemma call_answer_spec tipe ret rid q s r : heap r !! rid = Some q → stands_for (req_source q) s →
  call_answer tipe ret rid r = decode_answer tipe ret <$> (pop s).1.
Proof.
  intros Hq Hs. unfold call_answer. rewrite Hq. by destruct (pop_spec _ _ Hs) as (bs & -> & _).
Qed.

(** A registered call with nothing received yet. *)
Lemma doCall_registered t tipe m a body r rid r1 : wf r → marshal_request m a t = Ok body → doCall t tipe m a r = (Ok rid, r1) →
  rid = length (heap r) ∧ wf r1 ∧ streams r1 = <[nextID r := rid]> (streams r) ∧ calls r1 = calls r ∧
  ∃ q, heap r1 !! rid = Some q ∧ req_source q = NewByteSource ∧ Method q = m.
Proof.
  intros Hwf Hm Hd. destruct (doCall_spec t tipe m a body r Hm) as (r1' & E & Hh & Hs & _ & _ & _ & Hc & _).
  rewrite Hd in E. injection E as -> ->. split_and!; [done| |done|done|].
  - intros n k. rewrite Hs, Hh. intros [[<- <-]|[_ Hn]]%lookup_insert_Some.
    + eexists. by rewrite lookup_app_r, Nat.sub_diag by lia.
    + destruct (Hwf n k Hn) as (q & Hq & Hid). exists q. by rewrite (lookup_app_l_Some _ _ _ _ Hq).
  - rewrite Hh. eexists. rewrite lookup_app_r, Nat.sub_diag by lia. split_and!; [done|done|done].
Qed.

(** A call, the request the callee makes of it, and a packet that ends it: what the
    caller gets. *)
Record exchange (t : string) (tipe : Z) (m : list string) (args a : option bytes) (c s : rpc) (body : bytes) : Prop := {
  ex_type : one_answer t = true;
  ex_number : number (nextID c);
  ex_wf : wf c;
  ex_caller : streams c !! nextID c = None;
  ex_callee : streams s !! nextID c = None;
  ex_open : conn_open s = true;
  ex_body : marshal_request m args t = Ok body;
  ex_decodes : decodes body m a t;
  ex_nonempty : body ≠ [];
  ex_method : m ≠ ["manifest"]
}.

Lemma exchange_call t tipe m args a c s body : exchange t tipe m args a c s body →
  ∃ rid c1 p, doCall t tipe m args c = (Ok rid, c1) ∧ out c1 = out c ++ [p] ∧
  let s1 := (HandlePacket p s).2 in let rid' := length (heap s) in
  calls s1 = calls s ++ [rid'] ∧ (∃ q, heap s1 !! rid' = Some q ∧ Method q = m ∧ RawArgs q = a) ∧
  sent s1 = sent s ∧ fresh (nextID c) rid' s1 ∧ delete (nextID c) (streams s1) = streams s ∧
  ∀ p', Req p' = int32 (- nextID c) → fits (Body p') → flag_get (Flag p') FlagEndErr = true →
    let c2 := (HandlePacket p' c1).2 in
    streams c2 = streams c ∧ ∃ q, Method q = m ∧
      ∀ ret, call_answer tipe ret rid c2 =
        Some (decode_answer tipe ret (if bool_decide (Body p' = []) then Err (default EOF (end_error q p')) else Ok (Body p'))).
Proof.
  intros [Ht Hn Hwf Hc Hs Ho Hb Hd Hne Hm].
  destruct (doCall_spec t tipe m args body c Hb) as (c1 & E & _ & _ & Hout & _).
  destruct (doCall_registered t tipe m args body c _ c1 Hwf Hb E) as (_ & Hwf1 & Hs1 & _ & q & Hq & Hsrc & Hqm).
  rewrite Ht in Hout. do 3 eexists; split; [exact E|]. split; [exact Hout|].
  set (p := {| Flag := FlagJSON; Req := nextID c; Body := body |}).
  destruct (call_is_dispatched p s m a t) as (H1 & H2 & H3 & H4 & H5 & H6 & H7 & H8); [apply Hn|done..|].
  split_and!; [done| |done| | |].
  - rewrite H5. eexists. rewrite lookup_app_r, Nat.sub_diag by lia. by split_and!.
  - split; [|congruence]. rewrite H5. exists (new_request p). rewrite lookup_app_r, Nat.sub_diag by lia.
    split_and!; [done|apply new_request_id|by rewrite H8|apply new_request_sink; by rewrite H8].
  - rewrite H2. by rewrite delete_insert_id.
  - intros p' Hp' Hfit Hend. destruct (answer_arrives p' (nextID c) (length (heap c)) q c1 Hwf1 Hn Hp') as (Hst & q1 & Hq1 & Hsp);
      [by rewrite Hs1, lookup_insert_eq|done..|].
    split; [rewrite Hst, Hs1; by rewrite delete_insert_id|]. exists q. split; [done|]. intros ret.
    rewrite (call_answer_spec _ _ _ _ _ _ Hq1 Hsp). unfold pop, own_frames. simpl. by case_bool_decide.
Qed.

Lemma answer_ends v n b : flag_get (Flag (answer_packet n v b)) FlagEndErr = true.
Proof. by destruct v. Qed.
Lemma small_fits b : Z.of_nat (length b) <= maxBufferSize → fits b.
Proof. unfold fits, maxBufferSize. lia. Qed.



(** What a handler refuses with an error. *)
Lemma exchange_error t tipe m args a c s body e : exchange t tipe m args a c s body →
  e ≠ EOF → Z.of_nat (length (error_envelope e)) <= maxBufferSize →
  ∃ rid c1 p, doCall t tipe m args c = (Ok rid, c1) ∧ out c1 = out c ++ [p] ∧
  let s1 := (HandlePacket p s).2 in let rid' := length (heap s) in
  ∃ s2 p', CloseWithError (Some e) rid' s1 = (Ok tt, s2) ∧ sent s2 = sent s ++ [p'] ∧
  let c2 := (HandlePacket p' c1).2 in
  ∀ ret, call_answer tipe ret rid c2 = Some (decode_answer tipe ret (Ok (error_envelope e))).
Proof.
  intros Hex He Hlen. destruct (exchange_call _ _ _ _ _ _ _ _ Hex) as (rid & c1 & p & H1 & H2 & _ & _ & H5 & Hf & _ & Hk).
  do 3 eexists; do 2 (split; [done|]).
  destruct (CloseWithError_answers _ _ _ _ Hf He Hlen) as (s2 & Hr & Hsent & Hst).
  set (p' := {| Flag := Z.lor FlagJSON FlagEndErr; Req := int32 (- nextID c); Body := error_envelope e |}) in *.
  exists s2, p'. split_and!; [done|by rewrite Hsent, H5|].
  destruct (Hk p') as (_ & q & _ & Ha); [done|by apply small_fits|done|].
  intros c2 ret. unfold c2. rewrite Ha. by rewrite bool_decide_eq_false_2.
Qed.

(** An error of the handler reaches the caller as an error, with its message, when
    the message can stand between quotes in JSON. *)
Theorem handler_error_reaches_caller t tipe m args a c s body e : exchange t tipe m args a c s body →
  e ≠ EOF → Z.of_nat (length (error_envelope e)) <= maxBufferSize →
  unmarshal_error (error_envelope e) = Some ("Error", e) →
  ∃ rid c1 p, doCall t tipe m args c = (Ok rid, c1) ∧ out c1 = out c ++ [p] ∧
  let s1 := (HandlePacket p s).2 in let rid' := length (heap s) in
  ∃ s2 p', CloseWithError (Some e) rid' s1 = (Ok tt, s2) ∧ sent s2 = sent s ++ [p'] ∧
  let c2 := (HandlePacket p' c1).2 in
  ∀ ret, call_answer tipe ret rid c2 = Some (Err (RemoteError_Error ("Error", e))).
Proof.
  intros Hex He Hlen Hu. destruct (exchange_error _ _ _ _ _ _ _ _ e Hex He Hlen) as (rid & c1 & p & H1 & H2 & s2 & p' & H3 & H4 & H5).
  do 3 eexists; do 2 (split; [done|]). exists s2, p'. split_and!; [done..|]. intros c2 ret. unfold c2. rewrite H5.
  unfold decode_answer, decodeRemoteErrorEnvelope. rewrite bool_decide_eq_false_2 by done. by rewrite Hu.
Qed.


(** A handler that returns an empty string, or no bytes, makes the call fail. *)
Theorem empty_answer_is_an_error t tipe m args a c s body v : exchange t tipe m args a c s body →
  v = VString [] ∨ v = VBytes [] →
  ∃ rid c1 p, doCall t tipe m args c = (Ok rid, c1) ∧ out c1 = out c ++ [p] ∧
  let s1 := (HandlePacket p s).2 in let rid' := length (heap s) in
  ∃ s2 p', Return rid' v s1 = (Ok tt, s2) ∧ sent s2 = sent s ++ [p'] ∧
  let c2 := (HandlePacket p' c1).2 in
  ∀ ret, call_answer tipe ret rid c2 =
    Some (Err ("muxrpc: termination frame for " +:+ Method_String m +:+ " should have body type set to JSON")).
Proof.
  intros Hex Hv. destruct (exchange_call _ _ _ _ _ _ _ _ Hex) as (rid & c1 & p & H1 & H2 & _ & _ & H5 & Hf & _ & Hk).
  do 3 eexists; do 2 (split; [done|]).
  assert (Hb : value_body v = Ok []) by by destruct Hv as [-> | ->].
  destruct (Return_answers _ _ _ _ _ Hf Hb) as (s2 & Hr & Hsent & _); [done|].
  exists s2, (answer_packet (nextID c) v []). split_and!; [done|by rewrite Hsent, H5|].
  destruct (Hk (answer_packet (nextID c) v [])) as (_ & q & <- & Ha); [done..|apply answer_ends|].
  intros c2 ret. unfold c2. rewrite Ha. simpl. destruct Hv as [-> | ->]; reflexivity.
Qed.

(** ** One number, two calls *)

(** A request that arrives under the number of a call of our own. *)
Lemma request_taken_for_answer p rid q r tipe ret : wf r → streams r !! Req p = Some rid → heap r !! rid = Some q →
  req_source q = NewByteSource → 0 < Req p → Body p ≠ [] → fits (Body p) → flag_get (Flag p) FlagEndErr = false →
  let r1 := (HandlePacket p r).2 in
  calls r1 = calls r ∧ length (heap r1) = length (heap r) ∧
  call_answer tipe ret rid r1 = Some (decode_answer tipe ret (Ok (Body p))).
Proof.
  intros Hwf Hs Hq Hsrc Hpos Hb Hfit Hend r1.
  assert (Ha : addressed (Req p) p = true) by (apply bool_decide_eq_true; by left).
  unfold r1. rewrite (packet_own _ _ _ _ _ _ Hs Ha).
  destruct (frame_in_own p r (Req p) rid q empty_queue) as (q1 & Hq1 & _ & _ & H1);
    [done|done|done|rewrite Hsrc; apply new_stands_for|done|done|done|].
  rewrite Hend in H1. destruct H1 as [Hst _]. split_and!.
  - unfold frame_in, data_in. rewrite Hend. by case_bool_decide.
  - apply (t_length _ _ _ (frame_in_touches rid p r)).
  - rewrite (call_answer_spec _ _ _ _ _ _ Hq1 Hst). unfold pop, own_frames.
    rewrite bool_decide_eq_false_2 by done. done.
Qed.

Lemma call_flags (t : string) : flag_get (if one_answer t then FlagJSON else Z.lor FlagJSON FlagStream) FlagEndErr = false.
Proof. by destruct (one_answer t). Qed.

(** C6. When both ends of a connection call the other under the same number, as two
    peers do with their first calls, neither call reaches a handler: each end takes
    the request of the other for the answer to its own. *)
Theorem simultaneous_calls_answer_each_other n t1 t2 tipe1 tipe2 ret1 ret2 m1 m2 a1 a2 b1 b2 c s :
  wf c → wf s → 0 < n → nextID c = n → nextID s = n →
  marshal_request m1 a1 t1 = Ok b1 → marshal_request m2 a2 t2 = Ok b2 → b1 ≠ [] → b2 ≠ [] → fits b1 → fits b2 →
  ∃ rid1 rid2 c1 s1 p1 p2,
    doCall t1 tipe1 m1 a1 c = (Ok rid1, c1) ∧ out c1 = out c ++ [p1] ∧ doCall t2 tipe2 m2 a2 s = (Ok rid2, s1) ∧
    out s1 = out s ++ [p2] ∧
    let c2 := (HandlePacket p2 c1).2 in let s2 := (HandlePacket p1 s1).2 in
    calls c2 = calls c ∧ calls s2 = calls s ∧ length (heap c2) = S (length (heap c)) ∧ length (heap s2) = S (length (heap s)) ∧
    call_answer tipe1 ret1 rid1 c2 = Some (decode_answer tipe1 ret1 (Ok b2)) ∧
    call_answer tipe2 ret2 rid2 s2 = Some (decode_answer tipe2 ret2 (Ok b1)).
Proof.
  intros Hwc Hws Hn Hc Hs Hb1 Hb2 Hne1 Hne2 Hf1 Hf2.
  destruct (doCall_spec t1 tipe1 m1 a1 b1 c Hb1) as (c1 & E1 & Hh1 & _ & Ho1 & _).
  destruct (doCall_spec t2 tipe2 m2 a2 b2 s Hb2) as (s1 & E2 & Hh2 & _ & Ho2 & _).
  destruct (doCall_registered _ _ _ _ _ _ _ _ Hwc Hb1 E1) as (_ & Hwc1 & Hsc & Hcc & q1 & Hq1 & Hsrc1 & _).
  destruct (doCall_registered _ _ _ _ _ _ _ _ Hws Hb2 E2) as (_ & Hws1 & Hss & Hcs & q2 & Hq2 & Hsrc2 & _).
  rewrite Hc in *. rewrite Hs in *.
  set (p1 := {| Flag := if one_answer t1 then FlagJSON else Z.lor FlagJSON FlagStream; Req := n; Body := b1 |}) in Ho1.
  set (p2 := {| Flag := if one_answer t2 then FlagJSON else Z.lor FlagJSON FlagStream; Req := n; Body := b2 |}) in Ho2.
  exists (length (heap c)), (length (heap s)), c1, s1, p1, p2. do 4 (split; [done|]).
  destruct (request_taken_for_answer p2 (length (heap c)) q1 c1 tipe1 ret1) as (H1 & H2 & H3);
    [done|by rewrite Hsc, lookup_insert_eq|done..|apply (call_flags t2)|].
  destruct (request_taken_for_answer p1 (length (heap s)) q2 s1 tipe2 ret2) as (H4 & H5 & H6);
    [done|by rewrite Hss, lookup_insert_eq|done..|apply (call_flags t1)|].
  cbv zeta. rewrite H1, H4, H2, H5, H3, H6, Hh1, Hh2, !length_app, Hcc, Hcs, !Nat.add_1_r. by split_and!.
Qed.
End Calls.
