(* ===== verification/Boxstream.v ===== *)
(** * Box streams (internal/ssb/secretstream/boxstream/boxstream.go)

    The encrypted framing of a peer connection: [BoxerEngine] and [Boxer] on the
    writing side, [UnboxerEngine] and [Unboxer] on the reading side. The cipher,
    golang.org/x/crypto/nacl/secretbox, is an interface with the laws of
    authenticated encryption. *)
From S2P Require Import Prelude GoStr GoBytes.
#[local] Open Scope string_scope.
#[local] Open Scope list_scope.
#[local] Open Scope nat_scope.

(** ** secretbox

    [Seal(nil, msg, nonce, key)] and [Open(nil, box, nonce, key)]; a box is the
    16 byte authenticator followed by the encrypted message. *)
Definition Overhead : nat := 16.
Class SecretBox := {
  Seal : bytes → bytes → bytes → bytes;
  Open : bytes → bytes → bytes → option bytes;
}.
Class SecretBoxLaws (sb : SecretBox) := {
  seal_length m n k : length (Seal m n k) = Overhead + length m;
  open_seal m n k : Open (Seal m n k) n k = Some m;
}.

(** [incrementNonce]: from the last byte down, until one does not wrap. *)
Fixpoint increment_from_last (b : bytes) : bytes :=
  match b with
  | [] => []
  | x :: b =>
      if negb (bool_decide (ord x = 255%Z)) then chr (ord x + 1) :: b
      else chr 0 :: increment_from_last b
  end.
Definition incrementNonce (b : bytes) : bytes := rev (increment_from_last (rev b)).

Definition HeaderLength : nat := 2 + 16 + 16.
Definition MaxSegmentSize : nat := 4 * 1024.
#[global] Arguments HeaderLength : simpl never.
#[global] Arguments MaxSegmentSize : simpl never.
Definition goodbye : bytes := replicate 18 (chr 0).

Record BoxerEngine := { secret : bytes; nonce : bytes }.
Definition NewBoxerEngine (nonce secret : bytes) : BoxerEngine :=
  {| secret := secret; nonce := nonce |}.

Record UnboxerEngine := { u_secret : bytes; u_nonce : bytes; u_buffer : bytes }.
Definition NewUnboxerEngine (nonce secret : bytes) : UnboxerEngine :=
  {| u_secret := secret; u_nonce := nonce; u_buffer := [] |}.
Definition AddRawData (p : bytes) (u : UnboxerEngine) : UnboxerEngine :=
  {| u_secret := u_secret u; u_nonce := u_nonce u; u_buffer := u_buffer u ++ p |}.

(** A slice built by appending to nil is nil when nothing was appended. *)
Definition slice_or_nil (b : bytes) : option bytes :=
  match b with [] => None | _ => Some b end.

Section Engines.
Context {sb : SecretBox}.

Definition EncryptMessage (msg : bytes) : M BoxerEngine bytes := λ b,
  if bool_decide (MaxSegmentSize < length msg)
  then (Err ("message exceeds maximum segment size (" +:+ itoa (Z.of_nat (length msg)) +:+ " > " +:+
             itoa (Z.of_nat MaxSegmentSize) +:+ ")"), b)
  else
    let headerNonce := nonce b in
    let bodyNonce := incrementNonce headerNonce in
    let b' := {| secret := secret b; nonce := incrementNonce bodyNonce |} in
    let bodyBox := Seal msg bodyNonce (secret b) in
    let bodyMAC := take Overhead bodyBox in
    let body := drop Overhead bodyBox in
    let header := be_enc 2 (Z.of_nat (length msg)) ++ bodyMAC in
    let headerBox := Seal header headerNonce (secret b) in
    (Ok (headerBox ++ body), b').

Definition EncryptGoodbye (b : BoxerEngine) : bytes := Seal goodbye (nonce b) (secret b).

(** *** Boxer: the engine and the connection it writes to *)
Section Boxer.
Context {Out : Type} (io_Write : bytes → M Out unit).

Definition WriteMessage (msg : bytes) : M (Out * BoxerEngine) unit :=
  out ← on_snd (EncryptMessage msg); on_fst (io_Write out).

Definition WriteGoodbye : M (Out * BoxerEngine) unit := λ b,
  on_fst (io_Write (EncryptGoodbye b.2)) b.

(** The loop of [Write] over a payload longer than a segment; [fuel] bounds
    its segments. It returns how much of the payload was written, and the
    error if one stopped it. *)
Fixpoint write_segments (fuel : nat) (p : bytes) (written : nat) (b : Out * BoxerEngine)
    : nat * result unit * (Out * BoxerEngine) :=
  match fuel with
  | 0 => (written, Ok tt, b)
  | S fuel =>
      if bool_decide (length p = 0) then (written, Ok tt, b)
      else
        let chunkSize := min (length p) MaxSegmentSize in
        match WriteMessage (take chunkSize p) b with
        | (Ok _, b) => write_segments fuel (drop chunkSize p) (written + chunkSize) b
        | (Err e, b) => (written, Err e, b)
        | (Panic, b) => (written, Panic, b)
        end
  end.
Definition Write (p : bytes) (b : Out * BoxerEngine) : nat * result unit * (Out * BoxerEngine) :=
  if bool_decide (MaxSegmentSize < length p) then write_segments (length p) p 0 b
  else
    match WriteMessage p b with
    | (Ok _, b) => (length p, Ok tt, b)
    | (Err e, b) => (0, Err e, b)
    | (Panic, b) => (0, Panic, b)
    end.
End Boxer.

(** *** UnboxerEngine *)
Definition NextMessage : M UnboxerEngine (option bytes) := λ u,
  if bool_decide (length (u_buffer u) < HeaderLength) then (Ok None, u)
  else
    let headerBox := take HeaderLength (u_buffer u) in
    match Open headerBox (u_nonce u) (u_secret u) with
    | None => (Err "invalid header", u)
    | Some header =>
        let nonce' := incrementNonce (u_nonce u) in
        if bool_decide (header = goodbye)
        then (Ok (Some header),
              {| u_secret := u_secret u; u_nonce := nonce';
                 u_buffer := drop HeaderLength (u_buffer u) |})
        else
          let u' := {| u_secret := u_secret u; u_nonce := nonce'; u_buffer := u_buffer u |} in
          let bodyLen := Z.to_nat (be_dec (take 2 header)) in
          if bool_decide (MaxSegmentSize < bodyLen) then (Err "message too large", u')
          else
            let bodyMAC := take 16 (drop 2 header) in
            if bool_decide (length (u_buffer u) < HeaderLength + bodyLen) then (Ok None, u')
            else
              let bodyBox := bodyMAC ++ take bodyLen (drop HeaderLength (u_buffer u)) in
              match Open bodyBox nonce' (u_secret u) with
              | None => (Err "decryption failed", u')
              | Some body =>
                  (Ok (slice_or_nil body),
                   {| u_secret := u_secret u; u_nonce := incrementNonce nonce';
                      u_buffer := drop (HeaderLength + bodyLen) (u_buffer u) |})
              end
    end.

(** *** Unboxer

    [r] is what the reads of the connection will return, one chunk of at most
    [MaxSegmentSize] bytes per call, then io.EOF. *)
Record Unboxer := { engine : UnboxerEngine; r : list bytes; leftover : bytes }.
Definition NewUnboxer (r : list bytes) (nonce secret : bytes) : Unboxer :=
  {| engine := NewUnboxerEngine nonce secret; r := r; leftover := [] |}.

(** The read loop of [ReadMessage]. *)
Fixpoint read_loop (u : UnboxerEngine) (r : list bytes) : result bytes * (UnboxerEngine * list bytes) :=
  match r with
  | [] => (Err "EOF", (u, []))
  | [] :: r => read_loop u r
  | buf :: r =>
      match NextMessage (AddRawData buf u) with
      | (Ok (Some msg), u) => (Ok msg, (u, r))
      | (Ok None, u) => read_loop u r
      | (Err e, u) => (Err e, (u, r))
      | (Panic, u) => (Panic, (u, r))
      end
  end.
Definition ReadMessage : M Unboxer bytes := λ u,
  let '(res, (e, reads)) :=
    match NextMessage (engine u) with
    | (Ok (Some msg), e) => (Ok msg, (e, r u))
    | (Ok None, e) => read_loop e (r u)
    | (Err x, e) => (Err x, (e, r u))
    | (Panic, e) => (Panic, (e, r u))
    end in
  (res, {| engine := e; r := reads; leftover := leftover u |}).

(** [Read(p)] with [len(p) = n]: the bytes copied into [p]. *)
Definition Read (n : nat) : M Unboxer bytes := λ u,
  match leftover u with
  | [] =>
      match ReadMessage u with
      | (Ok msg, u) =>
          (Ok (take n msg), {| engine := engine u; r := r u;
             leftover := if bool_decide (n < length msg) then drop n msg else leftover u |})
      | (Err e, u) => (Err e, u)
      | (Panic, u) => (Panic, u)
      end
  | l => (Ok (take n l), {| engine := engine u; r := r u; leftover := drop n l |})
  end.

(** Every message up to the first error, and that error. *)
Fixpoint read_all (fuel : nat) (u : Unboxer) : list bytes * string :=
  match fuel with
  | O => ([], "")
  | S fuel =>
      match ReadMessage u with
      | (Ok m, u) => let '(ms, e) := read_all fuel u in (m :: ms, e)
      | (Err e, _) => ([], e)
      | (Panic, _) => ([], "panic")
      end
  end.
End Engines.

(** ** The nonce is a counter *)
Definition nonce_value (n : bytes) : Z := be_dec n.

Lemma increment_length b : length (incrementNonce b) = length b.
Proof.
  unfold incrementNonce. rewrite length_rev. rewrite <-(length_rev b).
  induction (rev b) as [|x l IH]; simpl; [done|].
  case_bool_decide; simpl; by rewrite ?IH.
Qed.

(** [incrementNonce] adds one to the nonce read as a big-endian number. *)
Lemma incrementNonce_counts b :
  nonce_value (incrementNonce b) = ((nonce_value b + 1) mod 256 ^ Z.of_nat (length b))%Z.
Proof.
  unfold incrementNonce, nonce_value. rewrite <-(rev_involutive b) at 2.
  rewrite <-(length_rev b). generalize (rev b) as l. clear b. intros b.
  induction b as [|x b IH]; simpl increment_from_last; [done|].
  cbn [rev length]. rewrite (be_dec_snoc (rev b) x), Nat2Z.inj_succ, Z.pow_succ_r by lia.
  pose proof (ord_bound x). pose proof (be_dec_bound (rev b)) as Hb. rewrite length_rev in Hb.
  case_bool_decide as Hx; cbn [negb rev]; rewrite be_dec_snoc, ord_chr_mod.
  - rewrite IH, Hx. change (0 mod 256)%Z with 0%Z.
    replace (be_dec (rev b) * 256 + 255 + 1)%Z with (256 * (be_dec (rev b) + 1))%Z by lia.
    rewrite Z.mul_mod_distr_l by lia. lia.
  - rewrite Z.mod_small by lia. rewrite Z.mod_small; nia.
Qed.

(** ** The bytes a boxer writes *)
Section Stream.
Context {sb : SecretBox} {laws : SecretBoxLaws sb} (k : bytes).

Definition header_box (n m : bytes) : bytes :=
  Seal (be_enc 2 (Z.of_nat (length m)) ++ take Overhead (Seal m (incrementNonce n) k)) n k.
Definition frame (n m : bytes) : bytes :=
  header_box n m ++ drop Overhead (Seal m (incrementNonce n) k).
Definition next_frame (n : bytes) : bytes := incrementNonce (incrementNonce n).
Fixpoint wire (n : bytes) (ms : list bytes) : bytes :=
  match ms with
  | [] => []
  | m :: ms => frame n m ++ wire (next_frame n) ms
  end.
(** A message [WriteMessage] can carry and [NextMessage] can tell from no
    message. *)
Definition segment (m : bytes) : Prop := 0 < length m <= MaxSegmentSize.

Lemma encrypt_segment m n : length m <= MaxSegmentSize →
  EncryptMessage m {| secret := k; nonce := n |} = (Ok (frame n m), {| secret := k; nonce := next_frame n |}).
Proof. intros Hm. unfold EncryptMessage. by rewrite bool_decide_eq_false_2 by lia. Qed.

Lemma mac_length m n : length (take Overhead (Seal m n k)) = Overhead.
Proof. rewrite length_take, seal_length. lia. Qed.
Lemma header_box_length n m : length (header_box n m) = HeaderLength.
Proof. unfold header_box. by rewrite seal_length, length_app, be_enc_length, mac_length. Qed.
Lemma frame_length n m : length (frame n m) = HeaderLength + length m.
Proof. unfold frame. rewrite length_app, header_box_length, length_drop, seal_length. lia. Qed.

Lemma header_not_goodbye m mac : segment m → be_enc 2 (Z.of_nat (length m)) ++ mac ≠ goodbye.
Proof.
  unfold segment, MaxSegmentSize. intros Hm E. apply (f_equal (λ l, be_dec (take 2 l))) in E.
  rewrite take_app_exact in E by by rewrite be_enc_length.
  rewrite be_dec_enc in E by (change (256 ^ Z.of_nat 2)%Z with 65536%Z; lia).
  change (be_dec (take 2 goodbye)) with 0%Z in E. lia.
Qed.

(** *** One call of [NextMessage] *)
Lemma next_short n buf : length buf < HeaderLength →
  NextMessage {| u_secret := k; u_nonce := n; u_buffer := buf |} =
  (Ok None, {| u_secret := k; u_nonce := n; u_buffer := buf |}).
Proof. intros Hl. unfold NextMessage. simpl. by rewrite bool_decide_eq_true_2. Qed.

Lemma buffer_header buf rest n m tl : buf ++ rest = frame n m ++ tl →
  HeaderLength <= length buf → take HeaderLength buf = header_box n m.
Proof.
  intros E Hl. apply (f_equal (take HeaderLength)) in E. rewrite take_app_le in E by done.
  rewrite E. unfold frame. rewrite <-app_assoc. by rewrite take_app_exact by by rewrite header_box_length.
Qed.

Lemma next_header n m buf : segment m → HeaderLength <= length buf →
  take HeaderLength buf = header_box n m →
  NextMessage {| u_secret := k; u_nonce := n; u_buffer := buf |} =
    if bool_decide (length buf < HeaderLength + length m)
    then (Ok None, {| u_secret := k; u_nonce := incrementNonce n; u_buffer := buf |})
    else match Open (take Overhead (Seal m (incrementNonce n) k) ++ take (length m) (drop HeaderLength buf))
                    (incrementNonce n) k with
         | None => (Err "decryption failed",
                    {| u_secret := k; u_nonce := incrementNonce n; u_buffer := buf |})
         | Some body => (Ok (slice_or_nil body),
             {| u_secret := k; u_nonce := next_frame n;
                u_buffer := drop (HeaderLength + length m) buf |})
         end.
Proof.
  intros Hm Hl Hh. pose proof Hm as [Hm0 Hm1]. unfold MaxSegmentSize in Hm1.
  unfold NextMessage. cbn [u_buffer u_nonce u_secret].
  rewrite bool_decide_eq_false_2 by lia. rewrite Hh. unfold header_box. rewrite open_seal.
  rewrite bool_decide_eq_false_2 by by apply header_not_goodbye.
  rewrite take_app_exact, drop_app_exact by by rewrite be_enc_length.
  rewrite be_dec_enc by (change (256 ^ Z.of_nat 2)%Z with 65536%Z; lia). rewrite Nat2Z.id.
  rewrite bool_decide_eq_false_2 by (unfold MaxSegmentSize; lia).
  rewrite (firstn_all2 (n := 16)) by (by rewrite mac_length). done.
Qed.

Lemma next_cut n m buf rest tl : segment m → buf ++ rest = frame n m ++ tl →
  HeaderLength <= length buf < HeaderLength + length m →
  NextMessage {| u_secret := k; u_nonce := n; u_buffer := buf |} =
  (Ok None, {| u_secret := k; u_nonce := incrementNonce n; u_buffer := buf |}).
Proof.
  intros Hm E Hl. rewrite (next_header n m) by (done || lia || (eapply buffer_header; [done|lia])).
  by rewrite bool_decide_eq_true_2 by lia.
Qed.

Lemma next_whole n m buf rest tl : segment m → buf ++ rest = frame n m ++ tl →
  HeaderLength + length m <= length buf →
  ∃ buf', buf = frame n m ++ buf' ∧ buf' ++ rest = tl ∧
  NextMessage {| u_secret := k; u_nonce := n; u_buffer := buf |} =
  (Ok (Some m), {| u_secret := k; u_nonce := next_frame n; u_buffer := buf' |}).
Proof.
  intros Hm E Hl. rewrite <-(frame_length n m) in Hl.
  assert (∃ buf', buf = frame n m ++ buf') as [buf' ->].
  { exists (drop (length (frame n m)) buf). rewrite <-(take_drop (length (frame n m)) buf) at 1. f_equal.
    apply (f_equal (take (length (frame n m)))) in E. rewrite take_app_le in E by done.
    by rewrite E, take_app_length. }
  exists buf'. rewrite <-app_assoc in E. apply app_inv_head in E. split_and!; [done..|].
  rewrite (next_header n m).
  - rewrite bool_decide_eq_false_2 by (rewrite length_app, frame_length in *; lia).
    rewrite <-(frame_length n m). rewrite drop_app_length. unfold frame at 1.
    rewrite <-app_assoc, (drop_app_exact (header_box n m)) by by rewrite header_box_length.
    rewrite take_app_exact by (rewrite length_drop, seal_length; lia).
    rewrite take_drop, open_seal. by destruct m; [destruct Hm as [Hm _]; simpl in Hm; lia|].
  - done.
  - rewrite length_app, frame_length. lia.
  - unfold frame. rewrite <-app_assoc. by rewrite take_app_exact by by rewrite header_box_length.
Qed.

(** ** What a reader receives

    The specification knows only sizes: [avail] bytes are buffered at a frame
    boundary and [cs] are the sizes of the chunks still to come. *)
Inductive arrival := Whole (avail : nat) (cs : list nat) | Cut | Starved.
Fixpoint frame_arrives (len avail : nat) (cs : list nat) : arrival :=
  if bool_decide (avail < HeaderLength) then
    match cs with
    | [] => Starved
    | c :: cs => frame_arrives len (avail + c) cs
    end
  else if bool_decide (avail < HeaderLength + len) then Cut
  else Whole (avail - (HeaderLength + len)) cs.
Fixpoint expected (ms : list bytes) (avail : nat) (cs : list nat) : list bytes * string :=
  match ms with
  | [] => ([], "EOF")
  | m :: ms =>
      match frame_arrives (length m) avail cs with
      | Whole avail cs => let '(got, e) := expected ms avail cs in (m :: got, e)
      | Cut => ([], "invalid header")
      | Starved => ([], "EOF")
      end
  end.

(** A box does not open under the nonce after its own. *)
Definition nonce_wf (n : bytes) : Prop := length n = 24.
Definition next_nonce_rejects : Prop :=
  ∀ m n, nonce_wf n → Open (Seal m n k) (incrementNonce n) k = None.
Lemma next_frame_wf n : nonce_wf n → nonce_wf (next_frame n).
Proof. unfold nonce_wf, next_frame. by rewrite !increment_length. Qed.

(** [ReadMessage] on the state of the reader. *)
Definition deliver (u : UnboxerEngine) (r : list bytes) : result bytes * (UnboxerEngine * list bytes) :=
  match NextMessage u with
  | (Ok (Some msg), e) => (Ok msg, (e, r))
  | (Ok None, e) => read_loop e r
  | (Err x, e) => (Err x, (e, r))
  | (Panic, e) => (Panic, (e, r))
  end.
Definition at_nonce (n buf : bytes) : UnboxerEngine :=
  {| u_secret := k; u_nonce := n; u_buffer := buf |}.

Lemma read_loop_cons u b cs : b ≠ [] → read_loop u (b :: cs) = deliver (AddRawData b u) cs.
Proof. by destruct b. Qed.
Lemma deliver_short n buf cs : length buf < HeaderLength →
  deliver (at_nonce n buf) cs = read_loop (at_nonce n buf) cs.
Proof. intros Hl. unfold deliver, at_nonce. by rewrite next_short. Qed.

(** A reader that took a header but not its body fails on the next bytes. *)
Lemma read_loop_desync n m buf cs : next_nonce_rejects → nonce_wf n → HeaderLength <= length buf →
  take HeaderLength buf = header_box n m → concat cs ≠ [] →
  (read_loop (at_nonce (incrementNonce n) buf) cs).1 = Err "invalid header".
Proof.
  intros Hrej Hn Hl Hh. induction cs as [|[|b c] cs IH]; simpl concat; [done|apply IH|]. intros _.
  rewrite read_loop_cons by done. unfold deliver, NextMessage, AddRawData. cbn [u_buffer u_nonce u_secret at_nonce].
  rewrite length_app, bool_decide_eq_false_2 by (simpl; lia).
  rewrite take_app_le by done. rewrite Hh. unfold header_box. by rewrite Hrej.
Qed.

Lemma deliver_spec n m ms cs buf : segment m → nonce_wf n → buf ++ concat cs = frame n m ++ wire (next_frame n) ms →
  match frame_arrives (length m) (length buf) (length <$> cs) with
  | Whole avail rest => ∃ buf' cs', rest = length <$> cs' ∧ avail = length buf' ∧
      buf' ++ concat cs' = wire (next_frame n) ms ∧
      deliver (at_nonce n buf) cs = (Ok m, (at_nonce (next_frame n) buf', cs'))
  | Cut => next_nonce_rejects → (deliver (at_nonce n buf) cs).1 = Err "invalid header"
  | Starved => False
  end.
Proof.
  intros Hm Hwf. revert buf. induction cs as [|c cs IH]; intros buf E; cbn [frame_arrives fmap list_fmap].
  all: destruct (decide (length buf < HeaderLength)) as [Hs|Hs];
    [rewrite bool_decide_eq_true_2 by done|rewrite bool_decide_eq_false_2 by done].
  - apply (f_equal length) in E. rewrite !length_app, frame_length in E. cbn [concat length] in E. lia.
  - case_bool_decide as Hc.
    + apply (f_equal length) in E. rewrite !length_app, frame_length in E. cbn [concat length] in E. lia.
    + destruct (next_whole n m buf _ _ Hm E ltac:(lia)) as (buf' & -> & Hb & Hn).
      exists buf', []. split_and!; [done| |done|].
      * rewrite length_app, frame_length. lia.
      * unfold deliver, at_nonce. by rewrite Hn.
  - rewrite deliver_short by done. simpl in E. rewrite app_assoc in E.
    specialize (IH _ E). rewrite length_app in IH.
    assert (read_loop (at_nonce n buf) (c :: cs) = deliver (at_nonce n (buf ++ c)) cs) as ->.
    { destruct (decide (c = [])) as [->|Hc]; [|by rewrite read_loop_cons].
      rewrite app_nil_r, deliver_short by done. done. }
    exact IH.
  - case_bool_decide as Hc.
    + intros Hrej. unfold deliver, at_nonce. rewrite (next_cut n m _ _ _ Hm E) by lia.
      eapply (read_loop_desync _ m); [done|done|lia| |].
      * eapply buffer_header; [exact E|lia].
      * intros H0. rewrite H0, app_nil_r in E.
        apply (f_equal length) in E. rewrite length_app, frame_length in E. lia.
    + destruct (next_whole n m buf _ _ Hm E ltac:(lia)) as (buf' & -> & Hb & Hn).
      exists buf', (c :: cs). split_and!; [done| |done|].
      * rewrite length_app, frame_length. lia.
      * unfold deliver, at_nonce. by rewrite Hn.
Qed.

Lemma deliver_eof n cs : concat cs = [] → (deliver (at_nonce n []) cs).1 = Err "EOF".
Proof.
  intros H. rewrite deliver_short by (simpl; unfold HeaderLength; lia).
  induction cs as [|[|b c] cs IH]; [done|by apply IH|done].
Qed.

Lemma ReadMessage_deliver u : ReadMessage u =
  (let '(res, (e, reads)) := deliver (engine u) (r u) in
   (res, {| engine := e; r := reads; leftover := leftover u |})).
Proof. done. Qed.

(** Whatever the cuts, the reader receives what the sizes say. *)
Lemma read_all_expected ms n u buf cs :
  Forall segment ms → nonce_wf n → engine u = at_nonce n buf → r u = cs → buf ++ concat cs = wire n ms →
  ((expected ms (length buf) (length <$> cs)).2 = "invalid header" → next_nonce_rejects) →
  read_all (S (length ms)) u = expected ms (length buf) (length <$> cs).
Proof.
  intros Hms. revert n u buf cs. induction Hms as [|m ms Hm _ IH]; intros n u buf cs Hwf He Hr E Hrej.
  - simpl in E. apply app_eq_nil in E as [-> E]. cbn [read_all length].
    pose proof (deliver_eof n cs E) as Hd.
    rewrite ReadMessage_deliver, He, Hr. destruct (deliver _ _) as [res [e rd]]. simpl in *. by subst.
  - cbn [length]. cbn [wire] in E. pose proof (deliver_spec n m ms cs buf Hm Hwf E) as Hd.
    cbn [expected] in *.
    remember (S (length ms)) as fuel. cbn [read_all]. rewrite ReadMessage_deliver, He, Hr.
    destruct (frame_arrives _ _ _) as [avail rest| |]; [| |done].
    + destruct Hd as (buf' & cs' & -> & -> & E' & ->).
      rewrite (IH (next_frame n) (Build_Unboxer (at_nonce (next_frame n) buf') cs' (leftover u)) buf' cs' (next_frame_wf _ Hwf) eq_refl eq_refl E'); [done|].
      intros H. apply Hrej. by destruct (expected ms _ _).
    + specialize (Hd (Hrej eq_refl)). destruct (deliver _ _) as [res [e rd]]. simpl in *. by subst.
Qed.
End Stream.

(** ** Whole frames, and payloads of a full segment *)
Section RoundTrip.
Context {sb : SecretBox} {laws : SecretBoxLaws sb}.

(** The frames of a group of messages, in one chunk each group. *)
Fixpoint encrypt_all (ms : list bytes) : M BoxerEngine bytes :=
  match ms with
  | [] => mret []
  | m :: ms => out ← EncryptMessage m; rest ← encrypt_all ms; mret (out ++ rest)
  end.
Fixpoint encrypt_groups (gs : list (list bytes)) : M BoxerEngine (list bytes) :=
  match gs with
  | [] => mret []
  | g :: gs => c ← encrypt_all g; cs ← encrypt_groups gs; mret (c :: cs)
  end.

Fixpoint nonce_after (n : bytes) (ms : list bytes) : bytes :=
  match ms with [] => n | _ :: ms => nonce_after (next_frame n) ms end.
Lemma wire_app k n ms1 ms2 : wire k n (ms1 ++ ms2) = wire k n ms1 ++ wire k (nonce_after n ms1) ms2.
Proof. revert n. induction ms1 as [|m ms1 IH]; intros n; simpl; [done|]. by rewrite IH, app_assoc. Qed.

Lemma encrypt_all_wire k n ms : Forall segment ms →
  encrypt_all ms {| secret := k; nonce := n |} =
  (Ok (wire k n ms), {| secret := k; nonce := nonce_after n ms |}).
Proof.
  intros H. revert n. induction H as [|m ms [_ Hm] _ IH]; intros n; simpl; [done|].
  unfold mbind, M_mbind. rewrite encrypt_segment by done. by rewrite IH.
Qed.

Fixpoint group_wires (k n : bytes) (gs : list (list bytes)) : list bytes :=
  match gs with
  | [] => []
  | g :: gs => wire k n g :: group_wires k (nonce_after n g) gs
  end.
Lemma encrypt_groups_wires k n gs : Forall segment (concat gs) →
  (encrypt_groups gs {| secret := k; nonce := n |}).1 = Ok (group_wires k n gs).
Proof.
  revert n. induction gs as [|g gs IH]; intros n H; simpl; [done|].
  apply Forall_app in H as [Hg Hgs]. unfold mbind, M_mbind. rewrite encrypt_all_wire by done.
  specialize (IH (nonce_after n g) Hgs). destruct (encrypt_groups _ _) as [[] ?]; by simplify_eq/=.
Qed.
Lemma concat_group_wires k n gs : concat (group_wires k n gs) = wire k n (concat gs).
Proof. revert n. induction gs as [|g gs IH]; intros n; simpl; [done|]. by rewrite IH, wire_app. Qed.

Lemma expected_whole g ms cs k n avail :
  expected (g ++ ms) (length (wire k n g) + avail) cs =
  (let '(got, e) := expected ms avail cs in (g ++ got, e)).
Proof.
  revert n. induction g as [|m g IH]; intros n; simpl app.
  - simpl. by destruct (expected ms avail cs).
  - cbn [expected wire]. rewrite length_app, frame_length.
    destruct cs; cbn [frame_arrives]; rewrite !bool_decide_eq_false_2 by lia;
      replace (HeaderLength + length m + length (wire k (next_frame n) g) + avail - (HeaderLength + length m))
        with (length (wire k (next_frame n) g) + avail) by lia;
      rewrite IH; by destruct (expected ms avail _).
Qed.
Lemma expected_read ms c cs : expected ms 0 (c :: cs) = expected ms c cs ∨ ms = [].
Proof. destruct ms as [|m ms]; [by right|left]. simpl. done. Qed.
Lemma expected_groups k n gs :
  expected (concat gs) 0 (length <$> group_wires k n gs) = (concat gs, "EOF").
Proof.
  revert n. induction gs as [|g gs IH]; intros n; [done|].
  cbn [group_wires concat]. rewrite fmap_cons.
  destruct (expected_read (g ++ concat gs) (length (wire k n g)) (length <$> group_wires k (nonce_after n g) gs))
    as [H | ->]; [|done].
  rewrite H, <-(Nat.add_0_r (length (wire k n g))), expected_whole. by rewrite IH.
Qed.

(** Round trip of the box stream: messages of one to 4096 bytes, encrypted
    by a boxer engine and delivered to an unboxer with the same key and nonce in
    reads that hold whole frames, any number of frames per read, come out of
    [ReadMessage] unchanged and in order, and the reader then sees the end of
    the connection. *)
Theorem whole_frames_received (gs : list (list bytes)) (n k : bytes) :
  Forall segment (concat gs) → nonce_wf n →
  ∃ chunks, (encrypt_groups gs (NewBoxerEngine n k)).1 = Ok chunks ∧
    read_all (S (length (concat gs))) (NewUnboxer chunks n k) = (concat gs, "EOF").
Proof.
  intros H Hwf. exists (group_wires k n gs). split; [by apply encrypt_groups_wires|].
  rewrite (read_all_expected k (concat gs) n _ [] (group_wires k n gs)); try done.
  - apply expected_groups.
  - apply concat_group_wires.
  - simpl. by rewrite expected_groups.
Qed.

(** What a reader receives depends only on the sizes of the messages and of
    the reads: a read that ends inside a header is harmless, a read that ends
    between a complete header and the last byte of its body leaves the header
    nonce advanced with the header still buffered, so the next bytes fail with
    invalid header and the connection is lost. *)
Theorem reader_refines_sizes (ms : list bytes) (n k : bytes) (chunks : list bytes) :
  Forall segment ms → nonce_wf n → next_nonce_rejects k → concat chunks = wire k n ms →
  read_all (S (length ms)) (NewUnboxer chunks n k) = expected ms 0 (length <$> chunks).
Proof. intros Hms Hwf Hrej E. by rewrite (read_all_expected k ms n _ [] chunks). Qed.

(** *** Write *)
Definition append_writer (p : bytes) : M bytes unit := λ out, (Ok tt, out ++ p).

Fixpoint segments_of (fuel : nat) (p : bytes) : list bytes :=
  match fuel with
  | 0 => []
  | S fuel =>
      if bool_decide (length p = 0) then []
      else take (min (length p) MaxSegmentSize) p
           :: segments_of fuel (drop (min (length p) MaxSegmentSize) p)
  end.
Lemma write_segments_wire fuel p written out n k : length p <= fuel →
  write_segments append_writer fuel p written (out, {| secret := k; nonce := n |}) =
  (written + length p, Ok tt,
   (out ++ wire k n (segments_of fuel p),
    {| secret := k; nonce := nonce_after n (segments_of fuel p) |})).
Proof.
  revert p written out n. induction fuel as [|fuel IH]; intros p written out n Hl.
  - destruct p; [|simpl in Hl; lia]. simpl. by rewrite app_nil_r, Nat.add_0_r.
  - cbn [write_segments segments_of]. case_bool_decide as Hp.
    + destruct p; [|done]. simpl. by rewrite app_nil_r, Nat.add_0_r.
    + set (c := min (length p) MaxSegmentSize).
      assert (0 < c <= length p) by (unfold c, MaxSegmentSize; lia).
      unfold WriteMessage, mbind, M_mbind, on_snd. cbn [fst snd].
      rewrite encrypt_segment by (rewrite length_take; unfold c; lia). cbn [fst snd on_fst append_writer].
      rewrite IH by (rewrite length_drop; lia). rewrite length_drop. cbn [wire nonce_after].
      rewrite <-app_assoc. do 2 f_equal. lia.
Qed.

Lemma write_wire p n k : 0 < length p →
  Write append_writer p ([], NewBoxerEngine n k) =
  (length p, Ok tt, (wire k n (segments_of (length p) p),
    {| secret := k; nonce := nonce_after n (segments_of (length p) p) |})).
Proof.
  intros Hp. unfold Write, NewBoxerEngine. case_bool_decide as Hl.
  - by rewrite write_segments_wire.
  - unfold WriteMessage, mbind, M_mbind, on_snd. cbn [fst snd].
    rewrite encrypt_segment by lia. cbn [fst snd on_fst append_writer].
    destruct p as [|b p]; [simpl in Hp; lia|]. cbn [length]. cbn [segments_of].
    rewrite bool_decide_eq_false_2 by done. rewrite Nat.min_l by lia.
    rewrite firstn_all, skipn_all, app_nil_l.
    destruct (length p); cbn [segments_of wire nonce_after]; by rewrite app_nil_r.
Qed.

Lemma full_never_whole len avail cs : MaxSegmentSize <= len → avail < HeaderLength + MaxSegmentSize →
  Forall (λ c, c <= MaxSegmentSize) cs → ∀ a rest, frame_arrives len avail cs ≠ Whole a rest.
Proof.
  intros Hlen Ha Hcs. revert avail Ha. induction Hcs as [|c cs Hc _ IH]; intros avail Ha a rest;
    cbn [frame_arrives]; (case_bool_decide; [|by rewrite bool_decide_eq_true_2 by lia]); [done|].
  apply IH. lia.
Qed.

Lemma segments_of_head p : MaxSegmentSize <= length p →
  ∃ m ms, segments_of (length p) p = m :: ms ∧ length m = MaxSegmentSize.
Proof.
  intros Hp. assert (length p = S (pred (length p))) as -> by (unfold MaxSegmentSize in Hp; lia).
  cbn [segments_of]. rewrite bool_decide_eq_false_2 by (unfold MaxSegmentSize in Hp; lia).
  eexists _, _. split; [done|]. rewrite length_take. lia.
Qed.

(** A [Write] of 4096 bytes or more reports success, but no reader gets any
    byte of it: its first frame is 4130 bytes, a read of the connection returns
    at most 4096, so one always ends inside that frame, and the reader's next
    [ReadMessage] fails with invalid header however the bytes arrive. *)
Theorem long_write_never_received (p n k : bytes) (chunks : list bytes) :
  MaxSegmentSize <= length p → nonce_wf n → next_nonce_rejects k →
  let '(written, res, (out, _)) := Write append_writer p ([], NewBoxerEngine n k) in
  written = length p ∧ res = Ok tt ∧
  (concat chunks = out → Forall (λ c, length c <= MaxSegmentSize) chunks →
   (ReadMessage (NewUnboxer chunks n k)).1 = Err "invalid header").
Proof.
  intros Hp Hwf Hrej. rewrite write_wire by (unfold MaxSegmentSize in Hp; lia). split_and!; [done..|].
  intros E Hc. destruct (segments_of_head p Hp) as (m & ms & Hs & Hm).
  rewrite Hs in E. cbn [wire] in E.
  assert (segment m) as Hseg by (split; rewrite Hm; unfold MaxSegmentSize; lia).
  pose proof (deliver_spec k n m ms chunks [] Hseg Hwf E) as Hd.
  rewrite ReadMessage_deliver. cbn [NewUnboxer engine r].
  destruct (frame_arrives _ _ _) as [a rest| |] eqn:Ef; [|specialize (Hd Hrej)|done].
  - exfalso. eapply full_never_whole; [| | |exact Ef].
    + by rewrite Hm.
    + unfold HeaderLength. simpl. lia.
    + apply list.Forall_fmap. exact Hc.
  - change (at_nonce k n []) with (NewUnboxerEngine n k) in Hd.
    destruct (deliver _ _) as [res [e rd]]. exact Hd.
Qed.
End RoundTrip.
