(* ===== verification/Tid.v ===== *)
(** * Timestamp identifiers ([pkg/atproto/syntax/tid.go])

    Thirteen base-32 characters in an alphabet whose byte order is its digit
    order, so that comparing identifiers as strings compares their integers; and
    the clock that issues them. *)
From Stdlib Require Import Sorted.
From S2P Require Import Prelude GoStr GoBytes.
#[local] Open Scope string_scope.
#[local] Open Scope list_scope.
#[local] Open Scope Z_scope.

Definition Base32SortAlphabet : string := "234567abcdefghijklmnopqrstuvwxyz".
Definition alphabet : bytes := to_l Base32SortAlphabet.

(** [Base32SortAlphabet[d]] and [strings.IndexByte(Base32SortAlphabet, c)]. *)
Definition alpha_at (d : Z) : ascii := nth (Z.to_nat d) alphabet "2"%char.
Fixpoint index_byte (c : ascii) (l : bytes) (i : Z) : option Z :=
  match l with
  | [] => None
  | a :: l => if Ascii.eqb a c then Some i else index_byte c l (i + 1)
  end.
Definition alpha_index (c : ascii) : option Z := index_byte c alphabet 0.

(** The loop of [NewTIDFromInteger]: [n] characters, the last one first. *)
Fixpoint b32_enc (n : nat) (v : Z) : bytes :=
  match n with
  | O => []
  | S n => b32_enc n (Z.shiftr v 5) ++ [alpha_at (Z.land v 31)]
  end.
Definition NewTIDFromInteger (v : Z) : string :=
  of_l (b32_enc 13 (Z.land (2 ^ 63 - 1) (uint64 v))).

Definition NewTID (unixMicros clockID : Z) : string :=
  NewTIDFromInteger
    (Z.lor (uint64 (Z.shiftl (Z.land unixMicros (2 ^ 53 - 1)) 10)) (Z.land clockID 1023)).

(** The loop of [Integer], in 64 bits. *)
Fixpoint b32_dec (v : Z) (l : bytes) : option Z :=
  match l with
  | [] => Some v
  | c :: l =>
      match alpha_index c with
      | None => None
      | Some d => b32_dec (Z.lor (uint64 (Z.shiftl v 5)) (Z.land d 31)) l
      end
  end.
Definition Integer (t : string) : Z :=
  if bool_decide (String.length t = 13%nat) then default 0 (b32_dec 0 (to_l t)) else 0.
Definition TimeMicros (t : string) : Z := Z.land (Z.shiftr (Integer t) 10) (2 ^ 61 - 1).
Definition ClockID (t : string) : Z := Z.land (Integer t) 1023.

(** [tidRegex]: a first character among the first sixteen, then twelve others. *)
Definition tid_regex (l : bytes) : bool :=
  match l with
  | [] => false
  | c :: l =>
      match alpha_index c with
      | Some d => bool_decide (d < 16)
      | None => false
      end && bool_decide (length l = 12%nat) && forallb (λ c, bool_decide (is_Some (alpha_index c))) l
  end.
Definition ParseTID (raw : string) : result string :=
  if bool_decide (raw = "") then Err "expected TID, got empty string"
  else if bool_decide (String.length raw ≠ 13%nat)
  then Err "TID is wrong length (expected 13 chars)"
  else if tid_regex (to_l raw) then Ok raw
  else Err "TID syntax didn't validate via regex".

(** ** The clock *)
Record TIDClock := { clock_ClockID : Z; lastUnixMicro : Z }.
Definition NewTIDClock (clockID : Z) : TIDClock := {| clock_ClockID := clockID; lastUnixMicro := 0 |}.
Definition ClockFromTID (t : string) : TIDClock :=
  {| clock_ClockID := ClockID t; lastUnixMicro := TimeMicros t |}.
Definition Next (now : Z) (c : TIDClock) : string * TIDClock :=
  let now := if bool_decide (now <= lastUnixMicro c) then lastUnixMicro c + 1 else now in
  (NewTID now (clock_ClockID c), {| clock_ClockID := clock_ClockID c; lastUnixMicro := now |}).
(** The identifiers issued at a sequence of readings of the wall clock. *)
Fixpoint issue (readings : list Z) (c : TIDClock) : list string :=
  match readings with
  | [] => []
  | now :: readings => let r := Next now c in r.1 :: issue readings r.2
  end.

(** [a < b] on Go strings. *)
Definition string_lt (a b : string) : Prop := bytes_ltb (to_l a) (to_l b) = true.

(** ** Digits *)
Lemma alpha_index_at d : 0 <= d < 32 → alpha_index (alpha_at d) = Some d.
Proof.
  intros Hd.
  assert (Forall (λ d, alpha_index (alpha_at d) = Some d) (Z.of_nat <$> seq 0 32)) as Hall
    by (apply (bool_decide_unpack _); vm_compute; exact I).
  rewrite list.Forall_forall in Hall. apply Hall, list_elem_of_fmap.
  exists (Z.to_nat d). split; [lia|]. apply elem_of_seq. lia.
Qed.

Lemma alpha_at_lt d e : 0 <= d < e → e < 32 → ord (alpha_at d) < ord (alpha_at e).
Proof.
  intros Hd He.
  assert (Forall (λ p : Z * Z, p.1 < p.2 → ord (alpha_at p.1) < ord (alpha_at p.2))
    (list_prod (Z.of_nat <$> seq 0 32) (Z.of_nat <$> seq 0 32))) as Hall
    by (apply (bool_decide_unpack _); vm_compute; exact I).
  rewrite list.Forall_forall in Hall. apply (Hall (d, e)); [|simpl; lia].
  apply list_elem_of_In, in_prod; apply list_elem_of_In, list_elem_of_fmap;
    [exists (Z.to_nat d)|exists (Z.to_nat e)]; (split; [lia|apply elem_of_seq; lia]).
Qed.

Lemma alpha_index_bound c d : alpha_index c = Some d → 0 <= d < 32 ∧ alpha_at d = c.
Proof.
  assert (∀ l i, index_byte c l i = Some d → i <= d < i + Z.of_nat (length l) ∧
            nth (Z.to_nat (d - i)) l "2"%char = c) as Hl.
  { induction l as [|a l IH]; intros i; simpl; [done|]. destruct (Ascii.eqb_spec a c) as [->|].
    - intros [= <-]. split; [lia|]. by rewrite Z.sub_diag.
    - intros [Hi Hn]%IH. split; [lia|].
      replace (Z.to_nat (d - i)) with (S (Z.to_nat (d - (i + 1)))) by lia. done. }
  intros [Hi Hn]%Hl. change (length alphabet) with 32%nat in Hi. split; [lia|].
  unfold alpha_at. by rewrite Z.sub_0_r in Hn.
Qed.

Lemma land31 v : 0 <= Z.land v 31 < 32.
Proof. change 31 with (Z.ones 5). rewrite Z.land_ones by lia. apply Z.mod_pos_bound. lia. Qed.
Lemma land31_mod v : Z.land v 31 = v mod 32.
Proof. change 31 with (Z.ones 5). by rewrite Z.land_ones by lia. Qed.
Lemma shiftr5_div v : Z.shiftr v 5 = v / 32.
Proof. by rewrite Z.shiftr_div_pow2 by lia. Qed.

(** A shift to the left and the bits below it do not overlap. *)
Lemma shiftl_lor a b n : 0 <= n → 0 <= b < 2 ^ n → Z.lor (a * 2 ^ n) b = a * 2 ^ n + b.
Proof.
  intros Hn Hb. rewrite <-Z.shiftl_mul_pow2 by lia.
  rewrite <-Z.lxor_lor; [rewrite Z.add_nocarry_lxor; [done|]|];
    apply Z.bits_inj'; intros i Hi; rewrite Z.land_spec, Z.bits_0;
    (destruct (decide (i < n)); [by rewrite Z.shiftl_spec_low|]);
    (destruct (decide (b = 0)) as [->|]; [by rewrite Z.bits_0, andb_false_r|]);
    rewrite (Z.bits_above_log2 b) by (lia || (assert (Z.log2 b < n) by (apply Z.log2_lt_pow2; lia); lia));
    apply andb_false_r.
Qed.

Lemma b32_enc_length n v : length (b32_enc n v) = n.
Proof. revert v. induction n as [|n IH]; intros v; simpl; [done|]. rewrite length_app, IH. simpl. lia. Qed.

Lemma b32_dec_app acc l k : b32_dec acc (l ++ k) = (a ← b32_dec acc l; b32_dec a k).
Proof. revert acc. induction l as [|c l IH]; intros acc; simpl; [done|]. destruct (alpha_index c); [apply IH|done]. Qed.

Lemma b32_step a d : 0 <= a → 0 <= d < 32 → a * 32 + d < 2 ^ 64 →
  Z.lor (uint64 (Z.shiftl a 5)) (Z.land d 31) = a * 32 + d.
Proof.
  intros Ha Hd Hlt. rewrite land31_mod, Z.mod_small by lia.
  unfold uint64. rewrite Z.shiftl_mul_pow2 by lia. change (2 ^ 5) with 32.
  rewrite Z.mod_small by lia. by apply (shiftl_lor a d 5).
Qed.

Lemma b32_dec_enc n acc v : 0 <= acc → 0 <= v < 32 ^ Z.of_nat n →
  acc * 32 ^ Z.of_nat n + v < 2 ^ 64 →
  b32_dec acc (b32_enc n v) = Some (acc * 32 ^ Z.of_nat n + v).
Proof.
  revert v. induction n as [|n IH]; intros v Hacc Hv Hlt.
  { change (32 ^ Z.of_nat 0) with 1 in *. simpl. f_equal. lia. }
  rewrite Nat2Z.inj_succ, Z.pow_succ_r in * by lia. cbn [b32_enc].
  rewrite shiftr5_div, land31_mod. pose proof (Z.div_mod v 32 ltac:(lia)) as Hdm.
  pose proof (Z.mod_pos_bound v 32 ltac:(lia)) as Hm.
  rewrite b32_dec_app, IH; [|done| |nia].
  2:{ split; [apply Z.div_pos; lia|apply Z.div_lt_upper_bound; lia]. }
  simpl. rewrite alpha_index_at by lia. f_equal.
  assert (0 < 32 ^ Z.of_nat n) by lia. assert (0 <= v / 32) by (apply Z.div_pos; lia).
  rewrite b32_step; nia.
Qed.

Lemma b32_enc_dec l acc v : 0 <= acc → b32_dec acc l = Some v →
  (acc + 1) * 32 ^ Z.of_nat (length l) <= 2 ^ 64 →
  acc * 32 ^ Z.of_nat (length l) <= v < (acc + 1) * 32 ^ Z.of_nat (length l) ∧
  b32_enc (length l) v = l.
Proof.
  revert v. induction l as [|c l IH] using rev_ind; intros v Hacc Hd Hlt.
  { simpl in *. simplify_eq. split; [lia|done]. }
  rewrite length_app in *. simpl in *. rewrite Nat.add_1_r in *.
  rewrite Nat2Z.inj_succ, Z.pow_succ_r in * by lia.
  rewrite b32_dec_app in Hd. destruct (b32_dec acc l) as [a|] eqn:E; [|done]. simpl in Hd.
  destruct (alpha_index c) as [d|] eqn:Ec; [|done]. apply alpha_index_bound in Ec as [Hb Hc].
  assert (0 < 32 ^ Z.of_nat (length l)) by lia.
  destruct (IH a) as [Ha Hl]; [done|done|nia|].
  assert (0 <= a) by nia.
  rewrite b32_step in Hd by nia. simplify_eq. split; [nia|]. cbn [b32_enc].
  rewrite shiftr5_div, land31_mod.
  rewrite (Z.add_comm (a * 32)), Z.div_add, Z.div_small, Z_mod_plus_full, Z.mod_small by lia.
  by rewrite Z.add_0_l, Hl.
Qed.

Lemma alpha_valid n v : 0 <= v →
  forallb (λ c, bool_decide (is_Some (alpha_index c))) (b32_enc n v) = true.
Proof.
  revert v. induction n as [|n IH]; intros v Hv; simpl; [done|].
  rewrite forallb_app, IH by (rewrite shiftr5_div; apply Z.div_pos; lia). simpl.
  rewrite alpha_index_at by apply land31. done.
Qed.

(** The first character is the most significant digit. *)
Lemma b32_enc_cons n v :
  b32_enc (S n) v = alpha_at (Z.land (v / 32 ^ Z.of_nat n) 31) :: b32_enc n v.
Proof.
  revert v. induction n as [|n IH]; intros v.
  { cbn [b32_enc]. change (32 ^ Z.of_nat 0) with 1. by rewrite Z.div_1_r. }
  change (b32_enc (S (S n)) v) with (b32_enc (S n) (Z.shiftr v 5) ++ [alpha_at (Z.land v 31)]).
  rewrite IH, shiftr5_div, Z.div_div by lia.
  rewrite Nat2Z.inj_succ, Z.pow_succ_r by lia. cbn [b32_enc]. by rewrite shiftr5_div.
Qed.

(** ** Order *)
Lemma bytes_ltb_snoc a a' x x' : length a = length a' →
  bytes_ltb (a ++ [x]) (a' ++ [x']) =
    bytes_ltb a a' || (bool_decide (a = a') && bool_decide (ord x < ord x')).
Proof.
  revert a'. induction a as [|y a IH]; intros [|y' a'] Hl; simplify_eq; simpl.
  { by rewrite andb_false_r, orb_false_r. }
  rewrite IH by done. destruct (decide (ord y = ord y')) as [E|E].
  - apply ord_inj in E as ->. rewrite (bool_decide_eq_false_2 (ord y' < ord y')) by lia.
    rewrite (bool_decide_eq_true_2 (ord y' = ord y')) by done.
    by rewrite (bool_decide_ext (y' :: a = y' :: a') (a = a')) by naive_solver.
  - rewrite (bool_decide_eq_false_2 (ord y = ord y')) by done. simpl.
    rewrite (bool_decide_eq_false_2 (y :: a = y' :: a')) by congruence. by rewrite andb_false_l, !orb_false_r.
Qed.

Lemma b32_order n v w : 0 <= v < w → w < 32 ^ Z.of_nat n →
  bytes_ltb (b32_enc n v) (b32_enc n w) = true.
Proof.
  revert v w. induction n as [|n IH]; intros v w Hv Hw.
  { change (32 ^ Z.of_nat 0) with 1 in Hw. lia. }
  rewrite Nat2Z.inj_succ, Z.pow_succ_r in Hw by lia. cbn [b32_enc].
  rewrite bytes_ltb_snoc by (by rewrite !b32_enc_length).
  rewrite !shiftr5_div, !land31_mod.
  pose proof (Z.div_mod v 32 ltac:(lia)). pose proof (Z.div_mod w 32 ltac:(lia)).
  pose proof (Z.mod_pos_bound v 32 ltac:(lia)). pose proof (Z.mod_pos_bound w 32 ltac:(lia)).
  assert (0 <= v / 32) by (apply Z.div_pos; lia).
  destruct (decide (v / 32 = w / 32)) as [Heq|Hne].
  - rewrite Heq. rewrite (bool_decide_eq_true_2 (b32_enc n _ = _)) by done.
    rewrite (bool_decide_eq_true_2 (ord _ < ord _)) by (apply alpha_at_lt; lia).
    apply orb_true_r.
  - rewrite IH; [done| |apply Z.div_lt_upper_bound; lia].
    split; [done|]. assert (v / 32 <= w / 32) by (apply Z.div_le_mono; lia). lia.
Qed.

(** ** Integers and identifiers *)
Lemma new_integer_small v : 0 <= v < 2 ^ 63 →
  NewTIDFromInteger v = of_l (b32_enc 13 v).
Proof.
  intros Hv. unfold NewTIDFromInteger, uint64. rewrite Z.mod_small by lia.
  change (2 ^ 63 - 1) with (Z.ones 63). rewrite Z.land_comm, Z.land_ones by lia.
  by rewrite Z.mod_small by lia.
Qed.

Lemma of_l_length l : String.length (of_l l) = length l.
Proof. induction l as [|c l IH]; simpl; [done|]. by rewrite IH. Qed.

Lemma integer_new v : 0 <= v < 2 ^ 63 → Integer (NewTIDFromInteger v) = v.
Proof.
  intros Hv. rewrite new_integer_small by done. unfold Integer.
  rewrite of_l_length, b32_enc_length, bool_decide_eq_true_2 by done.
  rewrite to_of_l, b32_dec_enc; [simpl; lia|lia| |]; simpl; lia.
Qed.

Lemma new_tid_integer m c : 0 <= m < 2 ^ 53 → 0 <= c < 1024 →
  NewTID m c = NewTIDFromInteger (m * 1024 + c).
Proof.
  intros Hm Hc. unfold NewTID, uint64. change (2 ^ 53 - 1) with (Z.ones 53).
  change 1023 with (Z.ones 10). rewrite !Z.land_ones by lia.
  rewrite Z.shiftl_mul_pow2 by lia. change (2 ^ 10) with 1024.
  rewrite (Z.mod_small m) by lia. rewrite (Z.mod_small c) by lia.
  rewrite (Z.mod_small (m * 1024)) by lia. f_equal. by apply (shiftl_lor m c 10).
Qed.

(** ** Properties *)

(** Identifiers round-trip with their 63-bit integers and always parse; and
    comparing two of them as strings compares their integers. *)
Theorem tid_integer_roundtrip v w :
  0 <= v < 2 ^ 63 → 0 <= w < 2 ^ 63 →
  Integer (NewTIDFromInteger v) = v ∧
  ParseTID (NewTIDFromInteger v) = Ok (NewTIDFromInteger v) ∧
  (string_lt (NewTIDFromInteger v) (NewTIDFromInteger w) ↔ v < w).
Proof.
  intros Hv Hw. split; [by apply integer_new|]. split.
  - rewrite new_integer_small by done. unfold ParseTID.
    assert (String.length (of_l (b32_enc 13 v)) = 13%nat) as Hl
      by (by rewrite of_l_length, b32_enc_length).
    rewrite bool_decide_eq_false_2 by (intros E; by rewrite E in Hl).
    rewrite bool_decide_eq_false_2 by (intros Hn; by apply Hn).
    rewrite to_of_l.
    pose proof (alpha_valid 13 v ltac:(lia)) as Hvalid.
    destruct (b32_enc 13 v) as [|c l] eqn:E; [by apply (f_equal length) in E; rewrite b32_enc_length in E|].
    assert (length l = 12%nat) as Hl12.
    { apply (f_equal length) in E. rewrite b32_enc_length in E. simpl in E. lia. }
    simpl in Hvalid. apply andb_true_iff in Hvalid as [Hc Hrest].
    unfold tid_regex. rewrite Hrest, (bool_decide_eq_true_2 (length l = 12%nat)) by done.
    apply bool_decide_eq_true in Hc as [d Hd]. rewrite Hd.
    rewrite bool_decide_eq_true_2; [done|].
    rewrite (b32_enc_cons 12 v) in E. injection E as <- _.
    rewrite alpha_index_at in Hd by apply land31. injection Hd as <-.
    rewrite land31_mod. change (32 ^ Z.of_nat 12) with (2 ^ 60).
    assert (0 <= v / 2 ^ 60 < 8).
    { split; [apply Z.div_pos; lia|apply Z.div_lt_upper_bound; lia]. }
    rewrite Z.mod_small by lia. lia.
  - rewrite !new_integer_small by done. unfold string_lt. rewrite !to_of_l. split.
    + intros Hlt. destruct (Z.lt_trichotomy v w) as [|[->|Hwv]]; [done|..].
      * exfalso. clear -Hlt. induction (b32_enc 13 w) as [|c l IH]; simpl in Hlt; [done|].
        rewrite bool_decide_eq_false_2 in Hlt by lia. apply andb_true_iff in Hlt as [_ ?]. auto.
      * exfalso. pose proof (b32_order 13 w v ltac:(lia) ltac:(simpl; lia)) as Hgt.
        revert Hlt Hgt. generalize (b32_enc 13 v), (b32_enc 13 w). clear.
        intros a. induction a as [|x a IH]; intros [|y b]; simpl; try done.
        rewrite !orb_true_iff, !andb_true_iff, !bool_decide_eq_true.
        intros [?|[? ?]] [?|[? ?]]; try lia. by eapply IH.
    + intros Hlt. apply b32_order; [lia|simpl; lia].
Qed.

(** Parsing accepts identifiers that do not round-trip: a TID that parses
    comes back from its integer exactly when its first character is one of the
    first eight digits, the ones a 63-bit integer needs. *)
Theorem parsed_tid_roundtrip_iff t c rest :
  ParseTID t = Ok t → to_l t = c :: rest →
  NewTIDFromInteger (Integer t) = t ↔ ∃ d, alpha_index c = Some d ∧ d < 8.
Proof.
  intros Hp Ht. unfold ParseTID in Hp. repeat case_bool_decide; try done.
  destruct (tid_regex (to_l t)) eqn:Hr; [|done]. rewrite Ht in Hr. simpl in Hr.
  destruct (alpha_index c) as [d|] eqn:Hd; [|done].
  rewrite !andb_true_iff, !bool_decide_eq_true in Hr. destruct Hr as [[Hd16 Hlen] Hall].
  pose proof (alpha_index_bound c d Hd) as [Hdb _].
  assert (∃ v, b32_dec d rest = Some v) as [v Hv].
  { clear -Hall. revert d. induction rest as [|a l IH]; intros d; simpl in *; [eauto|].
    apply andb_true_iff in Hall as [Ha Hall]. apply bool_decide_eq_true in Ha as [x ->]. by apply IH. }
  destruct (b32_enc_dec rest d v) as [Hb He]; [lia|done|rewrite Hlen; simpl; lia|].
  assert (Integer t = v) as Hi.
  { unfold Integer. rewrite bool_decide_eq_true_2 by lia. rewrite Ht. cbn [b32_dec].
    rewrite Hd, (b32_step 0 d) by lia. change (0 * 32 + d) with d. by rewrite Hv. }
  rewrite Hi. rewrite Hlen in Hb. change (32 ^ Z.of_nat 12) with (2 ^ 60) in Hb. split.
  - intros Hn. exists d. split; [done|]. destruct (decide (d < 8)); [done|]. exfalso.
    assert (Integer (NewTIDFromInteger v) = v) as Hv2 by (by rewrite Hn).
    unfold NewTIDFromInteger, uint64 in Hv2. change (2 ^ 63 - 1) with (Z.ones 63) in Hv2.
    rewrite Z.land_comm, Z.land_ones in Hv2 by lia. rewrite (Z.mod_small v (2 ^ 64)) in Hv2 by lia.
    set (u := v mod 2 ^ 63) in *.
    assert (0 <= u < 2 ^ 63) as Hu by (apply Z.mod_pos_bound; lia).
    fold (of_l (b32_enc 13 u)) in Hv2.
    rewrite <-(new_integer_small u) in Hv2 by done. rewrite integer_new in Hv2 by done. lia.
  - intros (d' & [= <-] & Hd8). rewrite new_integer_small by lia.
    rewrite <-(of_to_l t), Ht. f_equal.
    rewrite (b32_enc_cons 12 v). rewrite Hlen in He. rewrite He. f_equal.
    change (32 ^ Z.of_nat 12) with (2 ^ 60). replace (v / 2 ^ 60) with d.
    + rewrite land31_mod, Z.mod_small by lia. by apply alpha_index_bound.
    + apply Z.div_unique with (v - d * 2 ^ 60); lia.
Qed.

(** The readings an identifier carries. *)
Lemma tid_fields m c : 0 <= m < 2 ^ 53 → 0 <= c < 1024 →
  TimeMicros (NewTID m c) = m ∧ ClockID (NewTID m c) = c.
Proof.
  intros Hm Hc. unfold TimeMicros, ClockID. rewrite new_tid_integer by done.
  rewrite integer_new by lia. rewrite Z.shiftr_div_pow2 by lia.
  change (2 ^ 61 - 1) with (Z.ones 61). change 1023 with (Z.ones 10).
  rewrite !Z.land_ones by lia. change (2 ^ 10) with 1024.
  rewrite (Z.add_comm (m * 1024)), Z.div_add, Z.div_small, Z.add_0_l by lia.
  rewrite Z.mod_small by lia. by rewrite Z_mod_plus_full, Z.mod_small by lia.
Qed.

(** A clock never goes back: however the wall clock jumps, the identifiers
    it issues strictly increase as strings, each carries the clock's own
    identifier, and all come after the identifier the clock was made from. *)
Theorem clock_monotonic readings c0 :
  0 <= clock_ClockID c0 < 1024 → 0 <= lastUnixMicro c0 →
  lastUnixMicro c0 + Z.of_nat (length readings) < 2 ^ 53 →
  Forall (λ now, now + Z.of_nat (length readings) < 2 ^ 53) readings →
  Sorted string_lt (NewTID (lastUnixMicro c0) (clock_ClockID c0) :: issue readings c0) ∧
  Forall (λ t, ClockID t = clock_ClockID c0) (issue readings c0).
Proof.
  revert c0. induction readings as [|now l IH]; intros c0 Hc Hlast Hbound Hnow; cbn [issue].
  { split; [|done]. repeat constructor. }
  inversion Hnow as [|? ? Hn Hl']; subst. cbn [length] in *.
  set (m := if bool_decide (now <= lastUnixMicro c0) then lastUnixMicro c0 + 1 else now).
  assert (lastUnixMicro c0 < m ∧ m + Z.of_nat (length l) < 2 ^ 53) as [Hm Hmb].
  { subst m. case_bool_decide; lia. }
  destruct (IH {| clock_ClockID := clock_ClockID c0; lastUnixMicro := m |}) as [Hs Hf];
    cbn [clock_ClockID lastUnixMicro]; [done|lia|done| |].
  { eapply List.Forall_impl; [|exact Hl']. simpl. intros x Hx. lia. }
  cbn [clock_ClockID lastUnixMicro] in Hs, Hf. unfold Next. cbn [fst snd]. fold m. split.
  - constructor; [exact Hs|]. constructor. rewrite !new_tid_integer by lia.
    apply tid_integer_roundtrip; lia.
  - constructor; [|exact Hf]. apply tid_fields; lia.
Qed.
