(* ===== verification/PublishQueue.v ===== *)
(** * The publish queue ([internal/publishqueue/publisher.go])

    Publish calls are spread over worker lanes by a hash of the DID: each lane is
    a bounded channel with one goroutine that calls the delegate. The goroutines
    and callers interleave: the queue is a step relation. *)
From stdpp Require Import relations.
From S2P Require Import Prelude GoStr GoBytes.
#[local] Open Scope string_scope.
#[local] Open Scope list_scope.
#[local] Open Scope Z_scope.

(** [fnv.New32a]. *)
Definition fnv_offset : Z := 2166136261.
Definition fnv_prime : Z := 16777619.
Definition fnv32a (s : string) : Z :=
  foldl (λ h c, uint32 (Z.lxor h (ord c) * fnv_prime)) fnv_offset (to_l s).

Definition laneIndex (workers : Z) (atDID : string) : nat :=
  if bool_decide (workers <= 1) then 0%nat
  else Z.to_nat (fnv32a atDID mod uint32 workers).

(** [New] replaces a worker count that is not positive by one. *)
Definition lane_count (workers : Z) : Z := if bool_decide (workers <= 0) then 1 else workers.
Definition lane_capacity : nat := 256.

(** A request, named by the call that made it. *)
Record publishRequest := { req_call : nat; req_did : string }.
#[global] Instance publishRequest_eq_dec : EqDecision publishRequest.
Proof. solve_decision. Defined.

(** The lanes, the request each worker is serving, and the history: the requests
    accepted, those handed to the delegate and those answered, in order. *)
Record Queue := {
  lanes : list (list publishRequest);
  serving : list (option publishRequest);
  accepted : list publishRequest;
  started : list publishRequest;
  answered : list publishRequest;
  closed : bool
}.

Section Queue.
Context (workers : Z).

Definition lane_of (r : publishRequest) : nat := laneIndex workers (req_did r).

Definition New : Queue := {|
  lanes := replicate (Z.to_nat workers) []; serving := replicate (Z.to_nat workers) None;
  accepted := []; started := []; answered := []; closed := false |}.

(** The send of [Publish] on its lane: a full lane blocks, one that [Close] has closed
    panics, for the callers that wait too. *)
Definition enqueue (r : publishRequest) (q : Queue) : option (result Queue) :=
  lane ← lanes q !! lane_of r;
  if closed q then Some Panic
  else if bool_decide (length lane < lane_capacity)%nat
  then Some $ Ok {| lanes := <[lane_of r := lane ++ [r]]> (lanes q); serving := serving q;
               accepted := accepted q ++ [r]; started := started q; answered := answered q;
               closed := closed q |}
  else None.

(** An idle worker receives from its lane and calls the delegate. *)
Definition start (i : nat) (q : Queue) : option Queue :=
  match lanes q !! i, serving q !! i with
  | Some (r :: lane), Some None =>
      Some {| lanes := <[i := lane]> (lanes q); serving := <[i := Some r]> (serving q);
              accepted := accepted q; started := started q ++ [r]; answered := answered q;
              closed := closed q |}
  | _, _ => None
  end.

(** The delegate returns and the response is sent (its channel has room). *)
Definition finish (i : nat) (q : Queue) : option Queue :=
  match serving q !! i with
  | Some (Some r) =>
      Some {| lanes := lanes q; serving := <[i := None]> (serving q); accepted := accepted q;
              started := started q; answered := answered q ++ [r]; closed := closed q |}
  | _ => None
  end.

Definition close (q : Queue) : Queue := {|
  lanes := lanes q; serving := serving q; accepted := accepted q; started := started q;
  answered := answered q; closed := true |}.

Inductive step : Queue → Queue → Prop :=
| StepEnqueue r q q' : enqueue r q = Some (Ok q') → step q q'
| StepStart i q q' : start i q = Some q' → step q q'
| StepFinish i q q' : finish i q = Some q' → step q q'
| StepClose q : step q (close q).

Definition reachable (q : Queue) : Prop := rtc step New q.

(** ** The invariant *)
Definition of_lane (i : nat) (l : list publishRequest) : list publishRequest :=
  filter (λ r, lane_of r = i) l.

Definition queue_ok (q : Queue) : Prop :=
  length (lanes q) = Z.to_nat workers ∧ length (serving q) = Z.to_nat workers ∧
  ∀ i lane s, lanes q !! i = Some lane → serving q !! i = Some s →
    Forall (λ r, lane_of r = i) lane ∧ (∀ r, s = Some r → lane_of r = i) ∧
    (length lane ≤ lane_capacity)%nat ∧
    of_lane i (accepted q) = of_lane i (started q) ++ lane ∧
    of_lane i (started q) = of_lane i (answered q) ++ option_list s.

Lemma of_lane_snoc i l r : of_lane i (l ++ [r]) = of_lane i l ++ (if decide (lane_of r = i) then [r] else []).
Proof. unfold of_lane. rewrite list.filter_app, list.filter_cons. done. Qed.

Lemma new_ok : queue_ok New.
Proof.
  split_and!; simpl; [by rewrite length_replicate..|].
  intros i lane s [-> _]%lookup_replicate [-> _]%lookup_replicate. split_and!; try done.
  unfold lane_capacity. simpl. lia.
Qed.

Lemma step_ok q q' : queue_ok q → step q q' → queue_ok q'.
Proof.
  intros (Hl & Hsv & Hq) Hstep. destruct Hstep as [r q q' E|i q q' E|i q q' E|q].
  - unfold enqueue in E. destruct (lanes q !! lane_of r) as [lane|] eqn:Hlane; [|done]. simpl in E.
    destruct (closed q); [done|]. case_bool_decide as Hroom; [|done]. simplify_eq.
    split_and!; simpl; [by rewrite length_insert|done|]. intros j lj s Hj Hs.
    rewrite of_lane_snoc. destruct (decide (lane_of r = j)) as [<-|Hne].
    + rewrite list_lookup_insert_eq in Hj by (by eapply lookup_lt_Some). simplify_eq.
      destruct (Hq _ _ _ Hlane Hs) as (Hf & Hr & Hlen & Ha & Hst). split_and!; try done.
      * apply Forall_app. by split; [|constructor].
      * rewrite length_app. simpl. lia.
      * by rewrite Ha, app_assoc.
    + rewrite list_lookup_insert_ne in Hj by done. rewrite app_nil_r. by apply Hq.
  - unfold start in E. destruct (lanes q !! i) as [[|r lane]|] eqn:Hlane; try done.
    destruct (serving q !! i) as [[|]|] eqn:Hserv; simplify_eq.
    destruct (Hq _ _ _ Hlane Hserv) as (Hf & _ & Hlen & Ha & Hst).
    inversion Hf as [|? ? Hr Hf']; subst.
    split_and!; simpl; [by rewrite length_insert..|]. intros j lj s Hj Hs.
    rewrite of_lane_snoc. destruct (decide (lane_of r = j)) as [<-|Hne].
    + rewrite list_lookup_insert_eq in Hj by (by eapply lookup_lt_Some).
      rewrite list_lookup_insert_eq in Hs by (by eapply lookup_lt_Some). simplify_eq.
      simpl in *. split_and!; try done; [naive_solver|lia| |].
      * by rewrite Ha, <-app_assoc.
      * by rewrite Hst, app_nil_r.
    + rewrite list_lookup_insert_ne in Hj by done.
      rewrite list_lookup_insert_ne in Hs by done. rewrite app_nil_r. by apply Hq.
  - unfold finish in E. destruct (serving q !! i) as [[r|]|] eqn:Hserv; simplify_eq.
    assert (is_Some (lanes q !! i)) as [lane Hlane].
    { apply lookup_lt_is_Some. rewrite Hl, <-Hsv. by eapply lookup_lt_Some. }
    destruct (Hq _ _ _ Hlane Hserv) as (Hf & Hr & Hlen & Ha & Hst).
    specialize (Hr r eq_refl). subst i.
    split_and!; simpl; [done|by rewrite length_insert|]. intros j lj s Hj Hs.
    rewrite of_lane_snoc. destruct (decide (lane_of r = j)) as [<-|Hne].
    + rewrite list_lookup_insert_eq in Hs by (by eapply lookup_lt_Some). simplify_eq.
      split_and!; try done. simpl in *. by rewrite app_nil_r.
    + rewrite list_lookup_insert_ne in Hs by done. rewrite app_nil_r. by apply Hq.
  - split_and!; done.
Qed.

Lemma reachable_ok q : reachable q → queue_ok q.
Proof.
  unfold reachable. generalize new_ok. generalize New. intros q0 H0 Hr.
  induction Hr as [|x y z Hxy _ IH]; [done|]. apply IH. by eapply step_ok.
Qed.

Lemma laneIndex_bound did : 1 <= workers < 2 ^ 32 → (laneIndex workers did < Z.to_nat workers)%nat.
Proof.
  intros Hw. unfold laneIndex. case_bool_decide; [lia|].
  rewrite uint32_small by lia. pose proof (Z.mod_pos_bound (fnv32a did) workers). lia.
Qed.
End Queue.

(** The requests of one DID, in the order of a history. *)
Definition of_did (did : string) (l : list publishRequest) : list publishRequest :=
  filter (λ r, req_did r = did) l.

Lemma of_did_of_lane workers did l :
  of_did did l = of_did did (of_lane workers (laneIndex workers did) l).
Proof.
  unfold of_did, of_lane. rewrite list_filter_filter. apply list_filter_iff.
  intros r. unfold lane_of. naive_solver.
Qed.

(** ** Properties *)

(** C36. Publishes of one DID are delivered in order: in every interleaving of
    callers, workers and [Close], the calls made to the delegate for a DID are a
    prefix of the requests accepted for it, the answers are a prefix of the
    calls, and at most one call for the DID is in progress. *)
Theorem publish_order workers q did :
  1 <= workers < 2 ^ 32 → reachable workers q →
  (∃ waiting, of_did did (accepted q) = of_did did (started q) ++ waiting) ∧
  (∃ current, of_did did (started q) = of_did did (answered q) ++ current ∧
              (length current ≤ 1)%nat).
Proof.
  intros Hw Hr. apply reachable_ok in Hr as (Hl & Hsv & Hq).
  set (i := laneIndex workers did).
  pose proof (laneIndex_bound workers did Hw) as Hi. fold i in Hi.
  destruct (lookup_lt_is_Some_2 (lanes q) i) as [lane Hlane]; [by rewrite Hl|].
  destruct (lookup_lt_is_Some_2 (serving q) i) as [s Hs]; [by rewrite Hsv|].
  destruct (Hq i lane s Hlane Hs) as (_ & _ & _ & Ha & Hst).
  rewrite (of_did_of_lane workers did (accepted q)), (of_did_of_lane workers did (started q)),
    (of_did_of_lane workers did (answered q)). fold i. rewrite Ha, Hst.
  unfold of_did. rewrite !list.filter_app. split; [by eexists|].
  eexists. split; [reflexivity|]. destruct s as [r|]; simpl; [|lia].
  rewrite list.filter_cons. case_decide; simpl; lia.
Qed.

(** Every accepted request is answered: a queue that cannot move any more,
    closed or not, has answered everything it accepted, and no lane ever holds
    more than its capacity. *)
Theorem publish_drains workers q :
  1 <= workers < 2 ^ 32 → reachable workers q →
  Forall (λ lane, length lane ≤ lane_capacity)%nat (lanes q) ∧
  ((∀ i, start i q = None ∧ finish i q = None) →
   ∀ did, of_did did (answered q) = of_did did (accepted q)).
Proof.
  intros Hw Hr. apply reachable_ok in Hr as Hok. pose proof Hok as (Hl & Hsv & Hq). split.
  - apply list.Forall_forall. intros lane [i Hi]%list_elem_of_lookup.
    destruct (lookup_lt_is_Some_2 (serving q) i) as [s Hs].
    { rewrite Hsv, <-Hl. by eapply lookup_lt_Some. }
    by destruct (Hq i lane s Hi Hs) as (_ & _ & ? & _).
  - intros Hstuck did. set (i := laneIndex workers did).
    pose proof (laneIndex_bound workers did Hw) as Hi. fold i in Hi.
    destruct (lookup_lt_is_Some_2 (lanes q) i) as [lane Hlane]; [by rewrite Hl|].
    destruct (lookup_lt_is_Some_2 (serving q) i) as [s Hs]; [by rewrite Hsv|].
    destruct (Hq i lane s Hlane Hs) as (_ & _ & _ & Ha & Hst).
    destruct (Hstuck i) as [Hstart Hfinish]. unfold start, finish in *. rewrite Hlane, Hs in *.
    destruct s; [done|]. destruct lane; [|done].
    rewrite (of_did_of_lane workers did (accepted q)), (of_did_of_lane workers did (answered q)).
    fold i. rewrite Ha, Hst. by rewrite !app_nil_r.
Qed.
