(* ===== verification/Tangle.v ===== *)
(** * Tangles (internal/ssb/message/tangle/order.go, tangle.go)

    The topological order in which the messages of a tangle are sent to a peer,
    the message iterator and the depth of a message. Go's map iteration and the
    order [sort.Slice] leaves behind are parameters: the comparison
    [i < j] looks at positions, not at keys, so it sorts nothing. *)
From S2P Require Import Prelude.
#[local] Open Scope string_scope.
#[local] Open Scope list_scope.
#[local] Open Scope Z_scope.

Record MessageWithTangles := { Key : string; TangleName : string; Root : string;
  Parents : list string; Content : string }.
Definition zero_message : MessageWithTangles :=
  {| Key := ""; TangleName := ""; Root := ""; Parents := []; Content := "" |}.

(** [CycleError] *)
Record CycleError := { Messages : list string }.

(** Reading a missing key of a Go map gives the zero value. *)
Definition kids (m : gmap string (list string)) (k : string) : list string := default [] (m !! k).
Definition degree (m : gmap string Z) (k : string) : Z := default 0 (m !! k).

Section Sort.
Context (map_order sort_slice : list string → list string).

(** The three maps of [Sort]; the first loop only fills in zeros. *)
Definition msg_map (messages : list MessageWithTangles) : gmap string MessageWithTangles :=
  foldl (λ m msg, <[Key msg := msg]> m) ∅ messages.
Definition Graph : Type := gmap string (list string) * gmap string Z.
Definition init_graph (messages : list MessageWithTangles) : Graph :=
  (foldl (λ m msg, <[Key msg := []]> m) ∅ messages, foldl (λ m msg, <[Key msg := 0]> m) ∅ messages).
Definition add_edge (key : string) (g : Graph) (parent : string) : Graph :=
  (<[parent := kids g.1 parent ++ [key]]> g.1, <[key := degree g.2 key + 1]> g.2).
Definition add_parents (msgMap : gmap string MessageWithTangles) (g : Graph) (msg : MessageWithTangles) : Graph :=
  foldl (λ g parent, if bool_decide (is_Some (msgMap !! parent)) then add_edge (Key msg) g parent else g)
    g (Parents msg).
Definition build (messages : list MessageWithTangles) : Graph :=
  foldl (add_parents (msg_map messages)) (init_graph messages) messages.

(** The children of the message just sorted. *)
Definition relax (st : gmap string Z * list string) (child : string) : gmap string Z * list string :=
  let inDegree := <[child := degree st.1 child - 1]> st.1 in
  if bool_decide (degree inDegree child = 0) then (inDegree, sort_slice (st.2 ++ [child]))
  else (inDegree, st.2).

(** The queue loop; it returns the keys sorted, the degrees and the queue left. *)
Fixpoint kahn (fuel : nat) (childrenMap : gmap string (list string)) (inDegree : gmap string Z)
    (queue sorted : list string) : list string * gmap string Z * list string :=
  match fuel with
  | O => (sorted, inDegree, queue)
  | S fuel =>
      match queue with
      | [] => (sorted, inDegree, queue)
      | current :: queue =>
          let '(inDegree, queue) := foldl relax (inDegree, queue) (kids childrenMap current) in
          kahn fuel childrenMap inDegree queue (sorted ++ [current])
      end
  end.

Definition queue0 (inDegree : gmap string Z) : list string :=
  sort_slice (map_order (fst <$> filter (λ p, p.2 = 0) (map_to_list inDegree))).

Definition sort_keys (messages : list MessageWithTangles) : list string * gmap string Z * list string :=
  let '(childrenMap, inDegree) := build messages in
  kahn (length messages) childrenMap inDegree (queue0 inDegree) [].

(** [TopologicalSorter.Sort]; the first result is what the store returned. *)
Definition Sort (messages : string + list MessageWithTangles)
    : list MessageWithTangles * option (string + CycleError) :=
  match messages with
  | inl e => ([], Some (inl e))
  | inr [] => ([], None)
  | inr messages =>
      let '(keys, inDegree, _) := sort_keys messages in
      let sorted := (λ k, default zero_message (msg_map messages !! k)) <$> keys in
      if bool_decide (length sorted ≠ length messages)
      then (sorted, Some (inr {| Messages := map_order (fst <$> filter (λ p, 0 < p.2) (map_to_list inDegree)) |}))
      else (sorted, None)
  end.

(** ** Correctness of the sort *)
Context (map_order_perm : ∀ l, map_order l ≡ₚ l) (sort_slice_perm : ∀ l, sort_slice l ≡ₚ l).

Abbreviation edge := (string * string)%type.
(** How often a key is a child in a list, and the parents still to come. *)
Definition cnt (c : string) (l : list string) : Z := Z.of_nat (length (filter (c =.) l)).
Definition children_of (E : list edge) (p : string) : list string := snd <$> filter (λ e, e.1 = p) E.
Definition waiting (E : list edge) (done : list string) (c : string) : Z :=
  Z.of_nat (length (filter (λ e, e.2 = c ∧ e.1 ∉ done) E)).

Lemma cnt_cons c x l : cnt c (x :: l) = (if bool_decide (x = c) then 1 else 0) + cnt c l.
Proof.
  unfold cnt. rewrite list.filter_cons. case_bool_decide as H; [subst|].
  - rewrite decide_True by done. cbn [length]. lia.
  - rewrite decide_False by congruence. lia.
Qed.
Lemma cnt_nonneg c l : 0 <= cnt c l.
Proof. unfold cnt. lia. Qed.
Lemma cnt_zero c l : cnt c l = 0 ↔ c ∉ l.
Proof.
  induction l as [|x l IH]; [split; [intros _; apply not_elem_of_nil|done]|].
  rewrite cnt_cons, not_elem_of_cons, <-IH. pose proof (cnt_nonneg c l).
  case_bool_decide; split; intros; try lia; naive_solver.
Qed.

Lemma waiting_cons E done c e :
  waiting (e :: E) done c = (if bool_decide (e.2 = c ∧ e.1 ∉ done) then 1 else 0) + waiting E done c.
Proof.
  unfold waiting. rewrite list.filter_cons. case_bool_decide as H.
  - rewrite decide_True by done. cbn [length]. lia.
  - rewrite decide_False by done. lia.
Qed.
Lemma waiting_nonneg E done c : 0 <= waiting E done c.
Proof. unfold waiting. lia. Qed.
Lemma children_of_cons E e p :
  children_of (e :: E) p = (if bool_decide (e.1 = p) then [e.2] else []) ++ children_of E p.
Proof.
  unfold children_of. rewrite list.filter_cons. by case_bool_decide as H;
    [rewrite decide_True by done|rewrite decide_False by done].
Qed.

(** Sorting one more key pays for its edges. *)
Lemma waiting_snoc E done cur c : cur ∉ done →
  waiting E (done ++ [cur]) c = waiting E done c - cnt c (children_of E cur).
Proof.
  intros Hcur. induction E as [|[p k] E IH]; [done|].
  rewrite !waiting_cons, children_of_cons, IH. simpl fst. simpl snd.
  destruct (decide (p = cur)) as [->|Hp].
  - rewrite (bool_decide_eq_true_2 (cur = cur)) by done. cbn [app]. rewrite cnt_cons.
    destruct (decide (k = c)) as [->|Hk].
    + rewrite !(bool_decide_eq_true_2 (c = c)) by done.
      rewrite bool_decide_eq_false_2, bool_decide_eq_true_2; [lia|done|].
      intros [_ H]. apply H, elem_of_app. right. apply list_elem_of_singleton. done.
    + rewrite !bool_decide_eq_false_2 by naive_solver. lia.
  - rewrite (bool_decide_eq_false_2 (p = cur)) by done. cbn [app].
    rewrite (bool_decide_ext (k = c ∧ p ∉ done ++ [cur]) (k = c ∧ p ∉ done)); [lia|].
    rewrite elem_of_app, list_elem_of_singleton. naive_solver.
Qed.
Lemma waiting_zero E done c : waiting E done c = 0 ↔ ∀ p, (p, c) ∈ E → p ∈ done.
Proof.
  induction E as [|[p k] E IH].
  - split; [|done]. intros _ p H. by apply not_elem_of_nil in H.
  - rewrite waiting_cons. pose proof (waiting_nonneg E done c). simpl fst. simpl snd.
    case_bool_decide as H'.
    + split; [lia|]. intros HE. destruct H' as [-> Hp]. exfalso. apply Hp, HE. left.
    + rewrite Z.add_0_l, IH. split; intros HE q.
      * rewrite elem_of_cons. intros [[= -> ->]|Hq]; [|by apply HE].
        destruct (decide (p ∈ done)); naive_solver.
      * intros Hq. apply HE. by right.
Qed.

(** *** The graph the two loops build *)
Definition known (messages : list MessageWithTangles) (k : string) : Prop := k ∈ Key <$> messages.
Definition edges_of (msgMap : gmap string MessageWithTangles) (msg : MessageWithTangles) : list edge :=
  (λ p, (p, Key msg)) <$> filter (λ p, is_Some (msgMap !! p)) (Parents msg).
Definition edges (messages : list MessageWithTangles) : list edge :=
  messages ≫= edges_of (msg_map messages).

Definition link (g : Graph) (e : edge) : Graph := add_edge e.2 g e.1.
Lemma foldl_link g E :
  (∀ p, kids (foldl link g E).1 p = kids g.1 p ++ children_of E p) ∧
  (∀ c, degree (foldl link g E).2 c = degree g.2 c + waiting E [] c) ∧
  (∀ c, is_Some ((foldl link g E).2 !! c) ↔ is_Some (g.2 !! c) ∨ c ∈ E.*2).
Proof.
  revert g. induction E as [|[p k] E IH]; intros g; simpl.
  - split_and!.
    + intros q. by rewrite app_nil_r.
    + intros c. unfold waiting. simpl. lia.
    + intros c. split; [auto|]. intros [H|H]; [done|by apply not_elem_of_nil in H].
  - destruct (IH (link g (p, k))) as (Hk & Hd & Hs). clear IH.
    unfold link, add_edge, kids, degree in *. simpl in *. split_and!.
    + intros q. rewrite Hk, children_of_cons. simpl. destruct (decide (p = q)) as [->|Hne].
      * rewrite lookup_insert_eq, bool_decide_eq_true_2 by done. simpl. by rewrite <-app_assoc.
      * by rewrite lookup_insert_ne, bool_decide_eq_false_2.
    + intros c. rewrite Hd, waiting_cons. simpl. destruct (decide (k = c)) as [->|Hne].
      * rewrite lookup_insert_eq, bool_decide_eq_true_2; [simpl; lia|].
        split; [done|apply not_elem_of_nil].
      * rewrite lookup_insert_ne, bool_decide_eq_false_2 by naive_solver. lia.
    + intros c. rewrite Hs, lookup_insert_is_Some', elem_of_cons. naive_solver.
Qed.

Lemma add_parents_link msgMap g msg : add_parents msgMap g msg = foldl link g (edges_of msgMap msg).
Proof.
  unfold add_parents, edges_of. revert g. induction (Parents msg) as [|p l IH]; intros g; simpl; [done|].
  rewrite IH, list.filter_cons. case_bool_decide; [by rewrite decide_True|by rewrite decide_False].
Qed.
Lemma build_link messages : build messages = foldl link (init_graph messages) (edges messages).
Proof.
  unfold build, edges. generalize (init_graph messages) as g. generalize (msg_map messages) as mm.
  intros mm. induction messages as [|m ms IH]; intros g; [done|].
  simpl. rewrite add_parents_link, IH. by rewrite foldl_app.
Qed.

Lemma foldl_insert_lookup {A} (f : MessageWithTangles → A) (m : gmap string A) ms k :
  foldl (λ m msg, <[Key msg := f msg]> m) m ms !! k =
  match list_find (λ msg, Key msg = k) (rev ms) with Some (_, msg) => Some (f msg) | None => m !! k end.
Proof.
  induction ms as [|x ms IH] using rev_ind; [done|].
  rewrite foldl_app. simpl. rewrite rev_app_distr. simpl.
  destruct (decide (Key x = k)) as [<-|Hne].
  - by rewrite lookup_insert_eq.
  - rewrite lookup_insert_ne, IH by done. by destruct (list_find _ _) as [[]|].
Qed.
Lemma foldl_insert_is_Some {A} (f : MessageWithTangles → A) ms k :
  is_Some (foldl (λ m msg, <[Key msg := f msg]> m) (∅ : gmap string A) ms !! k) ↔ known ms k.
Proof.
  rewrite foldl_insert_lookup. unfold known. rewrite list_elem_of_fmap.
  destruct (list_find _ _) as [[i msg]|] eqn:E.
  - apply list_find_Some in E as (E & <- & _). apply list_elem_of_lookup_2 in E.
    apply list_elem_of_In, in_rev, list_elem_of_In in E. split; eauto.
  - apply list_find_None in E. rewrite list.Forall_forall in E. split; [by intros [? ?]|].
    intros (m & -> & Hm). exfalso. apply (E m); [|done].
    apply list_elem_of_In, in_rev. rewrite rev_involutive. by apply list_elem_of_In.
Qed.

Lemma init_zero messages k : kids (init_graph messages).1 k = [] ∧ degree (init_graph messages).2 k = 0.
Proof.
  unfold init_graph, kids, degree. simpl. rewrite !foldl_insert_lookup. by destruct (list_find _ _) as [[]|].
Qed.

Lemma edges_known messages p c : (p, c) ∈ edges messages →
  known messages p ∧ ∃ m, m ∈ messages ∧ Key m = c ∧ p ∈ Parents m.
Proof.
  unfold edges. rewrite list_elem_of_bind. intros (m & Hm & Hin). unfold edges_of in Hm.
  rewrite list_elem_of_fmap in Hm. destruct Hm as (q & [= -> ->] & Hq).
  apply list_elem_of_filter in Hq as [Hq Hp]. split; [|eauto].
  by apply foldl_insert_is_Some in Hq.
Qed.
Lemma edges_intro messages m p : m ∈ messages → p ∈ Parents m → known messages p →
  (p, Key m) ∈ edges messages.
Proof.
  intros Hm Hp Hk. unfold edges. rewrite list_elem_of_bind. exists m. split; [|done].
  unfold edges_of. rewrite list_elem_of_fmap. exists p. split; [done|].
  apply list_elem_of_filter. split; [|done]. by apply foldl_insert_is_Some.
Qed.

Lemma build_spec messages :
  (∀ p, kids (build messages).1 p = children_of (edges messages) p) ∧
  (∀ c, degree (build messages).2 c = waiting (edges messages) [] c) ∧
  (∀ c, is_Some ((build messages).2 !! c) ↔ known messages c).
Proof.
  rewrite build_link. destruct (foldl_link (init_graph messages) (edges messages)) as (Hk & Hd & Hs).
  split_and!.
  - intros p. rewrite Hk. by rewrite (proj1 (init_zero messages p)).
  - intros c. rewrite Hd. rewrite (proj2 (init_zero messages c)). lia.
  - intros c. rewrite Hs. unfold init_graph. simpl. rewrite foldl_insert_is_Some. split; [|auto].
    intros [H|H]; [done|]. apply list_elem_of_fmap in H as ([p c'] & -> & H).
    apply edges_known in H as (_ & m & Hm & <- & _). unfold known. cbn [snd].
    by apply (list_elem_of_fmap_2 Key).
Qed.

Lemma queue0_spec messages : let d := (build messages).2 in
  NoDup (queue0 d) ∧ (∀ k, k ∈ queue0 d ↔ known messages k ∧ waiting (edges messages) [] k = 0).
Proof.
  intros d. destruct (build_spec messages) as (_ & Hd & Hs). unfold queue0. split.
  - rewrite sort_slice_perm, map_order_perm. eapply sublist_NoDup; [apply (NoDup_fst_map_to_list d)|].
    apply fmap_sublist, sublist_filter.
  - intros k. rewrite sort_slice_perm, map_order_perm, <-Hs, <-Hd, list_elem_of_fmap. unfold degree.
    split.
    + intros ([k' v] & -> & H). apply list_elem_of_filter in H as [Hv H]. simpl in *. subst v.
      apply elem_of_map_to_list in H. fold d. rewrite H. by split; [eexists|].
    + intros [[v Hv] H0]. exists (k, v). split; [done|]. apply list_elem_of_filter.
      fold d in Hv, H0. rewrite Hv in H0. split; [done|]. by apply elem_of_map_to_list.
Qed.

(** *** The queue loop *)
Lemma relax_spec cs d q : (∀ c, c ∈ cs → cnt c cs <= degree d c) →
  ∃ new, (foldl relax (d, q) cs).2 ≡ₚ q ++ new ∧ NoDup new ∧
    (∀ c, c ∈ new ↔ c ∈ cs ∧ degree d c = cnt c cs) ∧
    (∀ c, degree (foldl relax (d, q) cs).1 c = degree d c - cnt c cs).
Proof.
  revert d q. induction cs as [|x cs IH]; intros d q Hge; simpl.
  - exists []. split_and!; [by rewrite app_nil_r|constructor| |].
    + intros c. split; [by intros ?%not_elem_of_nil|by intros [?%not_elem_of_nil _]].
    + intros c. unfold cnt. simpl. lia.
  - set (d' := <[x := degree d x - 1]> d).
    assert (∀ c, degree d' c = degree d c - (if bool_decide (x = c) then 1 else 0)) as Hd'.
    { intros c. unfold d', degree. case_bool_decide; [subst; by rewrite lookup_insert_eq|].
      rewrite lookup_insert_ne by done. lia. }
    assert (degree d' x = degree d x - 1) as Hx by (rewrite Hd', bool_decide_eq_true_2 by done; lia).
    assert (∀ c, c ∈ cs → cnt c cs <= degree d' c) as Hge'.
    { intros c Hc. specialize (Hge c ltac:(by right)). rewrite cnt_cons in Hge. rewrite Hd'. lia. }
    specialize (Hge x ltac:(left)). rewrite cnt_cons, bool_decide_eq_true_2 in Hge by done.
    unfold relax at 2 4. fold d'. cbn [fst snd]. fold d'.
    destruct (decide (degree d' x = 0)) as [H0|H0].
    + rewrite (bool_decide_eq_true_2 (degree d' x = 0)) by done.
      destruct (IH d' (sort_slice (q ++ [x])) Hge') as (new & Hq & Hn & Hin & Hd).
      assert (x ∉ cs) as Hxc by (apply cnt_zero; pose proof (cnt_nonneg x cs); lia).
      exists (x :: new). split_and!.
      * rewrite Hq, sort_slice_perm. by rewrite <-app_assoc.
      * apply list.NoDup_cons. split; [|done]. rewrite Hin. naive_solver.
      * intros c. rewrite !elem_of_cons, Hin, Hd', cnt_cons. destruct (decide (x = c)) as [<-|Hne].
        -- rewrite bool_decide_eq_true_2 by done. pose proof (proj2 (cnt_zero x cs) Hxc). split; [intros _|auto]. split; [auto|lia].
        -- rewrite bool_decide_eq_false_2 by done. split; [intros [->|[? ?]]; [done|split; [auto|lia]]|].
           intros [[->|?] ?]; [done|right; split; [done|lia]].
      * intros c. rewrite Hd, Hd', cnt_cons. lia.
    + rewrite (bool_decide_eq_false_2 (degree d' x = 0)) by done.
      destruct (IH d' q Hge') as (new & Hq & Hn & Hin & Hd).
      exists new. split_and!; [done..| |].
      * intros c. rewrite Hin, elem_of_cons, Hd', cnt_cons. destruct (decide (x = c)) as [<-|Hne].
        -- rewrite bool_decide_eq_true_2 by done. split; [intros [? ?]; split; [auto|lia]|].
           intros [_ E]. split; [|lia]. destruct (decide (x ∈ cs)) as [|Hxc]; [done|].
           apply cnt_zero in Hxc. lia.
        -- rewrite bool_decide_eq_false_2 by done. split; [intros [? ?]; split; [auto|lia]|].
           intros [[->|?] ?]; [done|split; [done|lia]].
      * intros c. rewrite Hd, Hd', cnt_cons. lia.
Qed.

(** What holds each time the loop looks at the queue: a key is sorted or queued
    once all its parents are sorted, and only then. *)
Definition topological (E : list edge) (sorted : list string) : Prop :=
  ∀ S1 c S2, sorted = S1 ++ c :: S2 → ∀ p, (p, c) ∈ E → p ∈ S1.
Record loop_inv (E : list edge) (K : list string) (inDegree : gmap string Z)
    (queue sorted : list string) : Prop := {
  inv_nodup : NoDup (sorted ++ queue);
  inv_degree : ∀ c, degree inDegree c = waiting E sorted c;
  inv_ready : ∀ c, c ∈ sorted ++ queue ↔ c ∈ K ∧ waiting E sorted c = 0;
  inv_topological : topological E sorted;
}.

Lemma topological_snoc E sorted c : topological E sorted → (∀ p, (p, c) ∈ E → p ∈ sorted) →
  topological E (sorted ++ [c]).
Proof.
  intros Ht Hc S1 x S2 Heq p Hp. destruct S2 as [|y S2 _] using rev_ind.
  - apply app_inj_tail in Heq as [-> ->]. by apply Hc.
  - rewrite app_comm_cons, app_assoc in Heq. apply app_inj_tail in Heq as [-> ->]. by eapply Ht.
Qed.

Section Loop.
Context (E : list edge) (K : list string) (E_known : ∀ p c, (p, c) ∈ E → c ∈ K).

Lemma children_edge p c : c ∈ children_of E p ↔ (p, c) ∈ E.
Proof using Type.
  unfold children_of. rewrite list_elem_of_fmap. split.
  - intros ([q c'] & -> & H). apply list_elem_of_filter in H as [Hq H]. simpl in *. by subst.
  - intros H. exists (p, c). split; [done|]. by apply list_elem_of_filter.
Qed.

Lemma loop_step childrenMap inDegree cur queue sorted :
  (∀ p, kids childrenMap p = children_of E p) → loop_inv E K inDegree (cur :: queue) sorted →
  let st := foldl relax (inDegree, queue) (kids childrenMap cur) in
  loop_inv E K st.1 st.2 (sorted ++ [cur]).
Proof using E_known sort_slice_perm.
  intros Hkids [Hnd Hdeg Hready Htopo]. rewrite Hkids. intros st.
  apply list.NoDup_app in Hnd as (Hs & Hsq & Hq). apply list.NoDup_cons in Hq as [Hcq Hq].
  assert (cur ∉ sorted) as Hcur by (intros H; apply (Hsq cur H); left).
  pose proof (λ c, waiting_snoc E sorted cur c Hcur) as Hw.
  assert (cur ∈ K ∧ waiting E sorted cur = 0) as [_ Hw0] by (apply Hready, elem_of_app; right; left).
  destruct (relax_spec (children_of E cur) inDegree queue) as (new & Hperm & Hnew & Hin & Hd).
  { intros c _. rewrite Hdeg. pose proof (waiting_nonneg E (sorted ++ [cur]) c). rewrite Hw in H. lia. }
  fold st in Hperm, Hd.
  assert (∀ c, c ∈ new → c ∉ sorted ++ cur :: queue) as Hfresh.
  { intros c [Hc Ec]%Hin [_ E0]%Hready. rewrite Hdeg, E0 in Ec. symmetry in Ec. by apply cnt_zero in Ec. }
  split.
  - rewrite Hperm, <-app_assoc. cbn [app]. rewrite app_comm_cons, app_assoc.
    apply list.NoDup_app. split_and!; [| |done].
    + apply list.NoDup_app. split_and!; [done|done|by apply list.NoDup_cons].
    + intros c Hc Hc'. by apply (Hfresh c).
  - intros c. rewrite Hd, Hdeg, Hw. done.
  - intros c. rewrite Hperm, <-app_assoc. cbn [app]. rewrite app_comm_cons, app_assoc, elem_of_app, Hready.
    rewrite Hin, Hdeg, Hw, children_edge. pose proof (cnt_nonneg c (children_of E cur)) as Hcn.
    pose proof (waiting_nonneg E (sorted ++ [cur]) c) as Hwn. rewrite Hw in Hwn. split.
    + intros [[? ?]|[? ?]]; (split; [by eauto|lia]).
    + intros [HK E0]. destruct (decide (waiting E sorted c = 0)) as [|Hne]; [by left|right].
      split; [|lia]. apply children_edge. destruct (decide (c ∈ children_of E cur)) as [|Hn]; [done|].
      apply cnt_zero in Hn. lia.
  - apply topological_snoc; [done|]. by apply waiting_zero.
Qed.

Lemma kahn_spec childrenMap fuel inDegree queue sorted :
  (∀ p, kids childrenMap p = children_of E p) → NoDup K →
  (length K <= length sorted + fuel)%nat → loop_inv E K inDegree queue sorted →
  ∃ sorted' d', kahn fuel childrenMap inDegree queue sorted = (sorted', d', []) ∧
    loop_inv E K d' [] sorted'.
Proof using E_known sort_slice_perm.
  intros Hkids HK. revert inDegree queue sorted.
  induction fuel as [|fuel IH]; intros d q sorted Hf Hinv; simpl.
  - destruct q as [|x q]; [by eauto|]. exfalso. destruct Hinv as [Hnd _ Hready _].
    assert (length (sorted ++ x :: q) <= length K)%nat; [|rewrite length_app in *; simpl in *; lia].
    apply submseteq_length, list.NoDup_submseteq; [done|]. by intros c [? _]%Hready.
  - destruct q as [|x q]; [by eauto|].
    pose proof (loop_step _ _ _ _ _ Hkids Hinv) as Hstep. simpl in Hstep.
    destruct (foldl relax (d, q) (kids childrenMap x)) as [d' q']. apply IH; [|done].
    rewrite length_app. simpl. lia.
Qed.
End Loop.

(** *** What [Sort] returns *)
Lemma sort_keys_spec messages : NoDup (Key <$> messages) →
  ∃ keys d, sort_keys messages = (keys, d, []) ∧
    loop_inv (edges messages) (Key <$> messages) d [] keys.
Proof using map_order_perm sort_slice_perm.
  intros Hnd. unfold sort_keys. destruct (build_spec messages) as (Hk & Hd & _).
  destruct (queue0_spec messages) as [Hq Hqin].
  destruct (build messages) as [childrenMap inDegree] eqn:Eb. simpl in *.
  apply (kahn_spec (edges messages)).
  - intros p c (_ & m & Hm & <- & _)%edges_known. by apply (list_elem_of_fmap_2 Key).
  - done.
  - done.
  - simpl. by rewrite length_fmap.
  - split; simpl; [done|done|done|]. intros [|? ?] ? ? ?; discriminate.
Qed.

Lemma msg_map_key messages m : NoDup (Key <$> messages) → m ∈ messages →
  msg_map messages !! Key m = Some m.
Proof using Type.
  intros Hnd Hm. unfold msg_map. rewrite (foldl_insert_lookup (λ x, x)).
  destruct (list_find _ _) as [[i m']|] eqn:E.
  - apply list_find_Some in E as (E & Hk & _). apply list_elem_of_lookup_2 in E.
    apply list_elem_of_In, in_rev, list_elem_of_In in E. f_equal.
    apply list_elem_of_lookup in E as [i1 H1]. apply list_elem_of_lookup in Hm as [i2 H2].
    assert (i1 = i2) as <-; [|by simplify_eq]. eapply NoDup_lookup; [exact Hnd| |];
      rewrite list_lookup_fmap; [by rewrite H1|by rewrite H2, Hk; simpl].
  - apply list_find_None in E. rewrite list.Forall_forall in E. exfalso. apply (E m); [|done].
    apply list_elem_of_In, in_rev. rewrite rev_involutive. by apply list_elem_of_In.
Qed.

Definition message_of (messages : list MessageWithTangles) (k : string) : MessageWithTangles :=
  default zero_message (msg_map messages !! k).
Lemma message_of_key messages m : NoDup (Key <$> messages) → m ∈ messages →
  message_of messages (Key m) = m.
Proof using Type. intros Hnd Hm. unfold message_of. by rewrite msg_map_key. Qed.
Lemma message_of_known messages k : NoDup (Key <$> messages) → known messages k →
  Key (message_of messages k) = k ∧ message_of messages k ∈ messages.
Proof using Type.
  intros Hnd Hk. apply list_elem_of_fmap in Hk as (m & -> & Hm). by rewrite message_of_key.
Qed.

Definition acyclic (messages : list MessageWithTangles) : Prop :=
  ∃ rank : string → nat, ∀ m p, m ∈ messages → p ∈ Parents m → known messages p →
    (rank p < rank (Key m))%nat.

(** Positions in a list without duplicates. *)
Definition position (l : list string) (k : string) : nat := default 0%nat (fst <$> list_find (k =.) l).
Lemma position_before l1 c l2 p : NoDup (l1 ++ c :: l2) → p ∈ l1 →
  (position (l1 ++ c :: l2) p < position (l1 ++ c :: l2) c)%nat.
Proof using Type.
  intros Hnd Hp. apply list.NoDup_app in Hnd as (_ & Hdis & _). unfold position.
  assert (list_find (c =.) (l1 ++ c :: l2) = Some (length l1, c)) as ->.
  { apply list_find_Some. split_and!; [by apply list_lookup_middle|done|].
    intros j y Hj Hlt ->. rewrite lookup_app_l in Hj by done.
    apply list_elem_of_lookup_2 in Hj. apply (Hdis y Hj). left. }
  destruct (list_find_elem_of (p =.) l1 p Hp eq_refl) as [[i y] E].
  rewrite (list_find_app_l (p =.) l1 (c :: l2) i y E). simpl.
  apply list_find_Some in E as (E & _). by apply lookup_lt_Some in E.
Qed.

Lemma sorted_all_acyclic messages d keys : NoDup (Key <$> messages) →
  loop_inv (edges messages) (Key <$> messages) d [] keys →
  (length keys = length messages ↔ acyclic messages).
Proof using Type.
  intros Hnd [Hks Hdeg Hready Htopo]. rewrite app_nil_r in *. split.
  - intros Hlen.
    assert (keys ≡ₚ Key <$> messages) as Hperm.
    { apply submseteq_length_Permutation.
      - apply list.NoDup_submseteq; [done|]. by intros c [? _]%Hready.
      - rewrite length_fmap. lia. }
    exists (position keys). intros m p Hm Hp Hk.
    assert (Key m ∈ keys) as Hin by (rewrite Hperm; by apply (list_elem_of_fmap_2 Key)).
    apply list_elem_of_split in Hin as (l1 & l2 & E).
    rewrite E in *. apply position_before; [done|].
    eapply Htopo; [done|]. by apply edges_intro.
  - intros [rank Hrank]. assert (∀ n k, (rank k < n)%nat → known messages k → k ∈ keys) as Hall.
    { induction n as [|n IH]; [lia|]. intros k Hn Hk. apply Hready. split; [done|].
      apply waiting_zero. intros p (Hp & m & Hm & <- & Hpm)%edges_known. apply IH; [|done].
      specialize (Hrank m p Hm Hpm Hp). lia. }
    assert (keys ≡ₚ Key <$> messages) as ->; [|by rewrite length_fmap].
    apply NoDup_Permutation; [done|done|]. intros k. split; [by intros [? _]%Hready|].
    intros Hk. apply (Hall (S (rank k))); [lia|done].
Qed.

(** C37. [Sort], for every iteration order of Go's maps and every order
    [sort.Slice] may leave the queue in: the messages it returns are distinct
    messages of the tangle, each after all of its parents that are in the tangle;
    it returns an error exactly when the parent references contain a cycle, and
    without one it returns all messages. *)
Theorem sort_correct (messages : list MessageWithTangles) :
  NoDup (Key <$> messages) →
  let '(sorted, err) := Sort (inr messages) in
  NoDup (Key <$> sorted) ∧ (∀ m, m ∈ sorted → m ∈ messages) ∧
  (∀ S1 m S2, sorted = S1 ++ m :: S2 →
     ∀ p, p ∈ Parents m → known messages p → p ∈ Key <$> S1) ∧
  (err = None ↔ acyclic messages) ∧ (err = None → sorted ≡ₚ messages).
Proof using map_order_perm sort_slice_perm.
  intros Hnd. destruct (sort_keys_spec messages Hnd) as (keys & d & Ek & Hinv).
  pose proof (sorted_all_acyclic messages d keys Hnd Hinv) as Hac.
  destruct Hinv as [Hks _ Hready Htopo]. rewrite app_nil_r in Hks, Hready.
  assert (Hkn : ∀ k, k ∈ keys → known messages k) by (by intros k [? _]%Hready).
  assert (Hkey : Key <$> (message_of messages <$> keys) = keys).
  { rewrite <-list_fmap_compose. rewrite <-(list_fmap_id keys) at 2. apply list_fmap_ext.
    intros i k Hi. apply list_elem_of_lookup_2 in Hi. simpl. by apply message_of_known; [|apply Hkn]. }
  assert (Hsort : Sort (inr messages) = (message_of messages <$> keys,
    if bool_decide (length keys ≠ length messages)
    then Some (inr {| Messages := map_order (fst <$> filter (λ p, 0 < p.2) (map_to_list d)) |}) else None)).
  { destruct messages as [|m0 ms]; [|unfold Sort; rewrite Ek, length_fmap; by case_bool_decide].
    assert (keys = []) as ->; [|done]. destruct keys as [|k keys]; [done|].
    exfalso. by apply (not_elem_of_nil k), (Hkn k); left. }
  rewrite Hsort. split_and!.
  - by rewrite Hkey.
  - intros m Hm. apply list_elem_of_fmap in Hm as (k & -> & Hk). by apply message_of_known; [|apply Hkn].
  - intros S1 m S2 E p Hp Hk.
    apply (f_equal (fmap Key)) in E as E'. rewrite Hkey, fmap_app, fmap_cons in E'.
    eapply Htopo; [exact E'|]. apply edges_intro; [|done|done].
    assert (m ∈ message_of messages <$> keys) as Hm by (rewrite E; apply elem_of_app; right; left).
    apply list_elem_of_fmap in Hm as (k & -> & Hk'). by apply message_of_known; [|apply Hkn].
  - rewrite <-Hac. case_bool_decide; split; intros; try done.
  - case_bool_decide as Hlen; [done|]. intros _.
    assert (keys ≡ₚ Key <$> messages) as ->.
    { apply submseteq_length_Permutation.
      - apply list.NoDup_submseteq; [done|]. apply Hkn.
      - rewrite length_fmap. lia. }
    rewrite <-list_fmap_compose. assert (messages = message_of messages ∘ Key <$> messages) as <-; [|done].
    rewrite <-(list_fmap_id messages) at 1. apply list_fmap_ext.
    intros i m Hm. apply list_elem_of_lookup_2 in Hm. simpl. by rewrite message_of_key.
Qed.
End Sort.

(** ** The message iterator *)
Record MessageIterator := { it_messages : list MessageWithTangles; index : nat }.
Definition NewMessageIterator (messages : list MessageWithTangles) : MessageIterator :=
  {| it_messages := messages; index := 0 |}.
Definition Next (mi : MessageIterator) : bool := bool_decide (index mi < length (it_messages mi))%nat.
Definition Message (mi : MessageIterator) : MessageWithTangles * MessageIterator :=
  if bool_decide (length (it_messages mi) <= index mi)%nat then (zero_message, mi)
  else (default zero_message (it_messages mi !! index mi),
        {| it_messages := it_messages mi; index := S (index mi) |}).

(** The loop [for it.Next() { use(it.Message()) }]. *)
Fixpoint iterate (fuel : nat) (mi : MessageIterator) : list MessageWithTangles :=
  match fuel with
  | O => []
  | S fuel => if Next mi then let '(m, mi) := Message mi in m :: iterate fuel mi else []
  end.

Definition GetRootMessage (messages : list MessageWithTangles) : option MessageWithTangles :=
  match list_find (λ msg, length (Parents msg) = 0%nat) messages with
  | Some (_, msg) => Some msg
  | None => head messages
  end.

(** ** The depth of a message *)
Section Depth.
Context (msgMap : gmap string MessageWithTangles).

(** One iteration of the loop over the parents, given the recursive call. *)
Definition deepest (visit : string → gset string → nat * gset string)
    (best : nat * gset string) (parent : string) : nat * gset string :=
  let '(d, visited) := visit parent best.2 in
  ((if bool_decide (best.1 < d)%nat then d else best.1), visited).

(** The recursive closure [dfs] with the map [visited] it shares; [fuel] bounds
    the depth of the recursion. *)
Fixpoint dfs (fuel : nat) (key : string) (depth : nat) (visited : gset string) : nat * gset string :=
  match fuel with
  | O => (depth, visited)
  | S fuel =>
      if bool_decide (key ∈ visited) then (depth, visited)
      else
        let visited := {[key]} ∪ visited in
        match msgMap !! key with
        | None => (depth, visited)
        | Some msg =>
            match Parents msg with
            | [] => (depth, visited)
            | parents =>
                foldl (deepest (λ parent, dfs fuel parent (depth + 1))) (depth, visited) parents
            end
        end
  end.

(** The keys the search has not met yet. *)
Definition unvisited (visited : gset string) : nat := size (dom msgMap ∖ visited).
Lemma unvisited_mono v v' : v ⊆ v' → (unvisited v' <= unvisited v)%nat.
Proof. intros H. unfold unvisited. apply (subseteq_size (C:=gset string)). set_solver. Qed.
Lemma unvisited_visit key v : is_Some (msgMap !! key) → key ∉ v →
  (unvisited ({[key]} ∪ v) < unvisited v)%nat.
Proof.
  intros Hk Hv. unfold unvisited. apply (subset_size (C:=gset string)). apply elem_of_dom in Hk. set_solver.
Qed.

Lemma deepest_parents (visit1 visit2 : string → gset string → nat * gset string) depth bound v ps :
  (∀ p w, (unvisited w < bound)%nat → visit1 p w = visit2 p w ∧ w ⊆ (visit1 p w).2 ∧
     (depth <= (visit1 p w).1 <= depth + bound)%nat) →
  ∀ best w, v ⊆ w → (unvisited w < bound)%nat → (depth <= best <= depth + bound)%nat →
  foldl (deepest visit1) (best, w) ps = foldl (deepest visit2) (best, w) ps ∧
  v ⊆ (foldl (deepest visit1) (best, w) ps).2 ∧
  (depth <= (foldl (deepest visit1) (best, w) ps).1 <= depth + bound)%nat.
Proof.
  intros Hvisit. induction ps as [|p ps IH]; intros best w Hv Hu Hb; cbn [foldl]; [done|].
  destruct (Hvisit p w Hu) as (E & Hs & Hd).
  assert (∃ b, deepest visit1 (best, w) p = (b, (visit1 p w).2) ∧
    deepest visit2 (best, w) p = (b, (visit1 p w).2) ∧ (depth <= b <= depth + bound)%nat) as (b & -> & -> & Hb').
  { unfold deepest. cbn [fst snd]. rewrite <-E. destruct (visit1 p w) as [d w']. eexists.
    split_and!; [done|done|case_bool_decide; simpl in *; lia..]. }
  apply IH; [set_solver| |done]. pose proof (unvisited_mono _ _ Hs). lia.
Qed.

Lemma dfs_fuel fuel1 : ∀ fuel2 key depth v,
  (unvisited v < fuel1)%nat → (unvisited v < fuel2)%nat →
  dfs fuel1 key depth v = dfs fuel2 key depth v ∧ v ⊆ (dfs fuel1 key depth v).2 ∧
  (depth <= (dfs fuel1 key depth v).1 <= depth + unvisited v)%nat.
Proof.
  induction fuel1 as [|fuel1 IH]; intros fuel2 key depth v H1 H2; [lia|].
  destruct fuel2 as [|fuel2]; [lia|]. cbn [dfs].
  case_bool_decide as Hv; [simpl; split_and!; [done|done|lia|lia]|].
  destruct (msgMap !! key) as [msg|] eqn:Hm; [|simpl; split_and!; [done|set_solver|lia|lia]].
  pose proof (unvisited_visit key v ltac:(by eexists) Hv) as Hu.
  destruct (Parents msg) as [|p ps]; [simpl; split_and!; [done|set_solver|lia|lia]|].
  apply deepest_parents; [|set_solver|lia|lia].
  intros q w Hw. destruct (IH fuel2 q (depth + 1)%nat w) as (E & Hs & Hd); [lia..|].
  split_and!; [done|done|lia|lia].
Qed.
End Depth.

Definition GetMessageDepth (msgKey : string) (messages : list MessageWithTangles) : nat :=
  (dfs (msg_map messages) (S (length messages)) msgKey 0 ∅).1.

Lemma msg_map_size messages : (size (dom (msg_map messages)) <= length messages)%nat.
Proof.
  unfold msg_map. induction messages as [|m ms IH] using rev_ind.
  - cbn [foldl]. rewrite size_dom. by rewrite map_size_empty.
  - rewrite foldl_app, length_app. cbn [foldl length]. rewrite size_dom in IH |- *.
    rewrite map_size_insert. destruct (_ !! _); simpl; lia.
Qed.

(** [GetMessageDepth] terminates on every parent graph, cycles included: no
    number of recursion levels beyond one per message changes its answer, which
    is at most the number of messages. *)
Theorem depth_bounded (msgKey : string) (messages : list MessageWithTangles) (fuel : nat) :
  (length messages < fuel)%nat →
  (dfs (msg_map messages) fuel msgKey 0 ∅).1 = GetMessageDepth msgKey messages ∧
  (GetMessageDepth msgKey messages <= length messages)%nat.
Proof.
  intros Hf. pose proof (msg_map_size messages) as Hsz.
  assert (unvisited (msg_map messages) ∅ <= length messages)%nat as Hu.
  { unfold unvisited. by rewrite difference_empty_L. }
  destruct (dfs_fuel (msg_map messages) (S (length messages)) fuel msgKey 0 ∅) as (E & _ & _ & Hd); [lia..|].
  unfold GetMessageDepth. rewrite <-E. split; [done|lia].
Qed.

(** The iterator yields every message once, in order. *)
Theorem iterate_all (messages : list MessageWithTangles) :
  iterate (S (length messages)) (NewMessageIterator messages) = messages.
Proof.
  assert (∀ pre post, iterate (S (length post)) {| it_messages := pre ++ post; index := length pre |} = post) as H;
    [|apply (H [])].
  intros pre post. revert pre. induction post as [|m post IH]; intros pre; cbn [iterate];
    unfold Next, Message; cbn [it_messages index]; rewrite length_app.
  - by rewrite bool_decide_eq_false_2 by (cbn [length]; lia).
  - rewrite bool_decide_eq_true_2, bool_decide_eq_false_2 by (cbn [length]; lia).
    rewrite list_lookup_middle by done. cbn [default]. f_equal. specialize (IH (pre ++ [m])).
    rewrite <-app_assoc, length_app in IH. cbn [app length] in IH. by rewrite Nat.add_1_r in IH.
Qed.
