(* ===== verification/Roomstate.v ===== *)
(** * Room state (internal/ssb/roomstate/roomstate.go) and the streams that watch it

    The peers, attendants and aliases of the room, the bounded channels its
    subscribers read, and [streamAttendants] of
    internal/ssb/muxrpc/handlers/room/room_handler.go, which turns a channel into
    the messages a client of room.attendants receives. *)
From S2P Require Import Prelude GoStr GoBytes Refs.
#[local] Open Scope string_scope.
#[local] Open Scope list_scope.

Record PeerInfo := { ID : FeedRef; Addr : string; Connected : Z }.
Record AttendantEvent := { Type_ : string; EventID : FeedRef }.
Record TunnelEvent := { TType : string; Info : PeerInfo }.
Definition AttendantEventJoined : string := "joined".
Definition AttendantEventLeft : string := "left".
Definition AttendantEventResync : string := "resync".
Definition zero_feed : FeedRef := {| f_algo := ""; f_id := replicate 32 (chr 0) |}.

(** A Go channel of capacity 16. *)
Record chan (E : Type) := { buf : list E; closed : bool }.
Arguments buf {E} _. Arguments closed {E} _. Arguments Build_chan {E} _ _.
Definition capacity : nat := 16.

(** The manager; subscribers are channels, named by numbers, and [achans] and
    [tchans] hold what is in them. *)
Record Manager := { peers : gmap string PeerInfo; attendants : gmap string PeerInfo;
  aliases : gmap string (list FeedRef); subscribers : gset nat; tunnelSubs : gset nat;
  achans : gmap nat (chan AttendantEvent); tchans : gmap nat (chan TunnelEvent); fresh_chan : nat }.
Definition NewManager : Manager :=
  {| peers := ∅; attendants := ∅; aliases := ∅; subscribers := ∅; tunnelSubs := ∅;
     achans := ∅; tchans := ∅; fresh_chan := 0 |}.

Definition set_peers (f : gmap string PeerInfo → gmap string PeerInfo) (m : Manager) : Manager :=
  {| peers := f (peers m); attendants := attendants m; aliases := aliases m;
     subscribers := subscribers m; tunnelSubs := tunnelSubs m; achans := achans m;
     tchans := tchans m; fresh_chan := fresh_chan m |}.
Definition set_attendants (f : gmap string PeerInfo → gmap string PeerInfo) (m : Manager) : Manager :=
  {| peers := peers m; attendants := f (attendants m); aliases := aliases m;
     subscribers := subscribers m; tunnelSubs := tunnelSubs m; achans := achans m;
     tchans := tchans m; fresh_chan := fresh_chan m |}.
Definition set_aliases (f : gmap string (list FeedRef) → gmap string (list FeedRef)) (m : Manager) : Manager :=
  {| peers := peers m; attendants := attendants m; aliases := f (aliases m);
     subscribers := subscribers m; tunnelSubs := tunnelSubs m; achans := achans m;
     tchans := tchans m; fresh_chan := fresh_chan m |}.
Definition set_achans (s : gset nat) (c : gmap nat (chan AttendantEvent)) (m : Manager) : Manager :=
  {| peers := peers m; attendants := attendants m; aliases := aliases m;
     subscribers := s; tunnelSubs := tunnelSubs m; achans := c;
     tchans := tchans m; fresh_chan := fresh_chan m |}.
Definition set_tchans (s : gset nat) (c : gmap nat (chan TunnelEvent)) (m : Manager) : Manager :=
  {| peers := peers m; attendants := attendants m; aliases := aliases m;
     subscribers := subscribers m; tunnelSubs := s; achans := achans m;
     tchans := c; fresh_chan := fresh_chan m |}.
Definition bump (m : Manager) : Manager :=
  {| peers := peers m; attendants := attendants m; aliases := aliases m;
     subscribers := subscribers m; tunnelSubs := tunnelSubs m; achans := achans m;
     tchans := tchans m; fresh_chan := S (fresh_chan m) |}.

(** ** Broadcasts

    One subscriber's [select]: a full channel of attendants is drained and gets a
    resync event, a full channel of peers loses the event. *)
Definition offer_attendant (event : AttendantEvent) (ch : chan AttendantEvent) : chan AttendantEvent :=
  if bool_decide (length (buf ch) < capacity) then {| buf := buf ch ++ [event]; closed := closed ch |}
  else {| buf := [{| Type_ := AttendantEventResync; EventID := zero_feed |}]; closed := closed ch |}.
Definition offer_tunnel (event : TunnelEvent) (ch : chan TunnelEvent) : chan TunnelEvent :=
  if bool_decide (length (buf ch) < capacity) then {| buf := buf ch ++ [event]; closed := closed ch |}
  else ch.

(** Sending on a closed channel panics. *)
Definition any_closed {E} (s : gset nat) (c : gmap nat (chan E)) : bool :=
  bool_decide (Exists (λ p, p.1 ∈ s ∧ closed p.2 = true) (map_to_list c)).
Definition offer_all {E} (offer : chan E → chan E) (s : gset nat) (c : gmap nat (chan E)) : gmap nat (chan E) :=
  map_imap (λ id ch, Some (if bool_decide (id ∈ s) then offer ch else ch)) c.
Definition broadcastAttendantLocked (event : AttendantEvent) (m : Manager) : result Manager :=
  if any_closed (subscribers m) (achans m) then Panic
  else Ok (set_achans (subscribers m) (offer_all (offer_attendant event) (subscribers m) (achans m)) m).
Definition broadcastTunnelLocked (event : TunnelEvent) (m : Manager) : result Manager :=
  if any_closed (tunnelSubs m) (tchans m) then Panic
  else Ok (set_tchans (tunnelSubs m) (offer_all (offer_tunnel event) (tunnelSubs m) (tchans m)) m).

(** ** Operations; [now] is time.Now() *)
Definition AddPeer (id : FeedRef) (addr : string) (now : Z) (m : Manager) : result Manager :=
  let info := {| ID := id; Addr := addr; Connected := now |} in
  broadcastTunnelLocked {| TType := "joined"; Info := info |} (set_peers (<[feed_string id := info]>) m).
Definition RemovePeer (id : FeedRef) (m : Manager) : result Manager :=
  let m' := set_peers (delete (feed_string id)) m in
  match peers m !! feed_string id with
  | Some info => broadcastTunnelLocked {| TType := "left"; Info := info |} m'
  | None => Ok m'
  end.
Definition Peers (m : Manager) : list PeerInfo := (map_to_list (peers m)).*2.
Definition PeerCount (m : Manager) : nat := size (peers m).
Definition HasPeer (id : FeedRef) (m : Manager) : bool := bool_decide (is_Some (peers m !! feed_string id)).

Definition AddAttendant (id : FeedRef) (addr : string) (now : Z) (m : Manager) : result Manager :=
  let existed := bool_decide (is_Some (attendants m !! feed_string id)) in
  let m' := set_attendants (<[feed_string id := {| ID := id; Addr := addr; Connected := now |}]>) m in
  if negb existed then broadcastAttendantLocked {| Type_ := AttendantEventJoined; EventID := id |} m'
  else Ok m'.
Definition RemoveAttendant (id : FeedRef) (m : Manager) : result Manager :=
  let existed := bool_decide (is_Some (attendants m !! feed_string id)) in
  let m' := set_attendants (delete (feed_string id)) m in
  if existed then broadcastAttendantLocked {| Type_ := AttendantEventLeft; EventID := id |} m'
  else Ok m'.
Definition Attendants (m : Manager) : list PeerInfo := (map_to_list (attendants m)).*2.

(** The snapshot, the new channel and its registration, under one lock. *)
Definition SubscribeAttendants (m : Manager) : (list PeerInfo * nat) * Manager :=
  let ch := fresh_chan m in
  ((Attendants m, ch),
   bump (set_achans ({[ch]} ∪ subscribers m) (<[ch := {| buf := []; closed := false |}]> (achans m)) m)).
Definition cancel_attendants (ch : nat) (m : Manager) : Manager :=
  if bool_decide (ch ∈ subscribers m)
  then set_achans (subscribers m ∖ {[ch]})
         (alter (λ c, {| buf := buf c; closed := true |}) ch (achans m)) m
  else m.
Definition SubscribeEndpoints (m : Manager) : (list PeerInfo * nat) * Manager :=
  let ch := fresh_chan m in
  ((Peers m, ch),
   bump (set_tchans ({[ch]} ∪ tunnelSubs m) (<[ch := {| buf := []; closed := false |}]> (tchans m)) m)).
Definition cancel_endpoints (ch : nat) (m : Manager) : Manager :=
  if bool_decide (ch ∈ tunnelSubs m)
  then set_tchans (tunnelSubs m ∖ {[ch]})
         (alter (λ c, {| buf := buf c; closed := true |}) ch (tchans m)) m
  else m.

Definition RegisterAlias (alias : string) (owner : FeedRef) : Manager → Manager :=
  set_aliases (λ a, <[alias := default [] (a !! alias) ++ [owner]]> a).
Definition RevokeAlias (alias : string) : Manager → Manager := set_aliases (delete alias).
Definition ResolveAlias (alias : string) (m : Manager) : list FeedRef * bool :=
  (default [] (aliases m !! alias), bool_decide (is_Some (aliases m !! alias))).
Definition ListAliases (m : Manager) : gmap string (list FeedRef) := aliases m.
Definition AliasCount (m : Manager) : nat := size (aliases m).

(** ** streamAttendants *)

(** The two kinds of message written to the client. *)
Inductive Sent := State (ids : list string) | Event (type id : string).
Record Stream := { sent : list Sent; fetching : bool }.

Section Stream.
Context (bridgeFeed : string).

(** The ids of a snapshot, without the bridge's own feed. *)
Definition visible_ids (snapshot : list PeerInfo) : list string :=
  filter (λ s, s ≠ bridgeFeed) ((λ p, feed_string (ID p)) <$> snapshot).
Definition start_stream (snapshot : list PeerInfo) : Stream :=
  {| sent := [State (visible_ids snapshot)]; fetching := false |}.
(** An event of the channel; a resync makes the handler fetch the attendants,
    which is a separate call on the manager. *)
Definition on_event (evt : AttendantEvent) (s : Stream) : Stream :=
  if bool_decide (Type_ evt = AttendantEventResync) then {| sent := sent s; fetching := true |}
  else if bool_decide (feed_string (EventID evt) = bridgeFeed) then s
  else {| sent := sent s ++ [Event (Type_ evt) (feed_string (EventID evt))]; fetching := fetching s |}.
Definition on_fresh (fresh : list PeerInfo) (s : Stream) : Stream :=
  {| sent := sent s ++ [State (visible_ids fresh)]; fetching := false |}.

(** The manager and the streams over its channels. *)
Record World := { manager : Manager; streams : gmap nat Stream }.
Inductive step : World → World → Prop :=
| step_manager f m' w : f (manager w) = Ok m' →
    (∃ id addr now, f = AddPeer id addr now) ∨ (∃ id, f = RemovePeer id) ∨
    (∃ id addr now, f = AddAttendant id addr now) ∨ (∃ id, f = RemoveAttendant id) ∨
    (∃ alias owner, f = λ m, Ok (RegisterAlias alias owner m)) ∨ (∃ alias, f = λ m, Ok (RevokeAlias alias m)) ∨
    (f = λ m, Ok (SubscribeEndpoints m).2) ∨ (∃ ch, f = λ m, Ok (cancel_endpoints ch m)) →
    step w {| manager := m'; streams := streams w |}
| step_subscribe snapshot ch m' w : SubscribeAttendants (manager w) = ((snapshot, ch), m') →
    step w {| manager := m'; streams := <[ch := start_stream snapshot]> (streams w) |}
| step_receive ch s evt rest c w : streams w !! ch = Some s → fetching s = false →
    achans (manager w) !! ch = Some c → buf c = evt :: rest →
    step w {| manager := set_achans (subscribers (manager w))
                (<[ch := {| buf := rest; closed := closed c |}]> (achans (manager w))) (manager w);
              streams := <[ch := on_event evt s]> (streams w) |}
| step_fetch ch s w : streams w !! ch = Some s → fetching s = true →
    step w {| manager := manager w; streams := <[ch := on_fresh (Attendants (manager w)) s]> (streams w) |}
| step_cancel ch s w : streams w !! ch = Some s →
    step w {| manager := cancel_attendants ch (manager w); streams := delete ch (streams w) |}.
Inductive reachable : World → Prop :=
| reachable_init : reachable {| manager := NewManager; streams := ∅ |}
| reachable_step w w' : reachable w → step w w' → reachable w'.
End Stream.

(** ** What the client of room.attendants knows

    The ids a client holds after applying the messages it was sent. *)
Definition client (view : gset string) (s : Sent) : gset string :=
  match s with
  | State ids => list_to_set ids
  | Event type id =>
      if bool_decide (type = AttendantEventJoined) then {[id]} ∪ view
      else if bool_decide (type = AttendantEventLeft) then view ∖ {[id]} else view
  end.
Definition view (s : Stream) : gset string := foldl client ∅ (sent s).

(** The last thing the events after the last resync say of an id. *)
Definition is_resync (e : AttendantEvent) : Prop := Type_ e = AttendantEventResync.
Definition mention_step (x : string) (o : option bool) (e : AttendantEvent) : option bool :=
  if bool_decide (is_resync e) then None
  else if bool_decide (feed_string (EventID e) = x) then
    if bool_decide (Type_ e = AttendantEventJoined) then Some true
    else if bool_decide (Type_ e = AttendantEventLeft) then Some false else o
  else o.
Definition mention (x : string) (b : list AttendantEvent) : option bool := foldl (mention_step x) None b.

Lemma mention_snoc x b e : mention x (b ++ [e]) = mention_step x (mention x b) e.
Proof. unfold mention. by rewrite foldl_app. Qed.
Lemma mention_from x o b : foldl (mention_step x) o b =
  match mention x b with
  | Some v => Some v
  | None => if bool_decide (Exists is_resync b) then None else o
  end.
Proof.
  induction b as [|e b IH] using rev_ind; [done|].
  rewrite foldl_app, mention_snoc. simpl. rewrite IH. unfold mention_step.
  rewrite (bool_decide_ext (Exists is_resync (b ++ [e])) (Exists is_resync b ∨ is_resync e)).
  2:{ rewrite list.Exists_app, List.Exists_cons, List.Exists_nil. naive_solver. }
  repeat case_bool_decide; destruct (mention x b); naive_solver.
Qed.
Lemma mention_cons x e b : mention x (e :: b) =
  match mention x b with
  | Some v => Some v
  | None => if bool_decide (Exists is_resync b) then None else mention_step x None e
  end.
Proof. unfold mention at 1. simpl. apply mention_from. Qed.

Section Sync.
Context (bridgeFeed : string).

(** A stream is in sync with the attendants [att] when what its channel still
    holds leads from what the client knows to [att]. *)
Record sync (att : gset string) (b : list AttendantEvent) (s : Stream) : Prop := {
  sync_events : ∀ x v, mention x b = Some v → (v = true ↔ x ∈ att);
  sync_view : fetching s = false → ¬ Exists is_resync b →
    ∀ x, x ≠ bridgeFeed → mention x b = None → (x ∈ view s ↔ x ∈ att);
  sync_own : bridgeFeed ∉ view s;
}.

(** The change of the attendants an event announces. *)
Definition announces (e : AttendantEvent) (att att' : gset string) : Prop :=
  (Type_ e = AttendantEventJoined ∧ att' = {[feed_string (EventID e)]} ∪ att) ∨
  (Type_ e = AttendantEventLeft ∧ att' = att ∖ {[feed_string (EventID e)]}).

Lemma mention_announced e att att' x o : announces e att att' →
  mention_step x o e =
    (if bool_decide (feed_string (EventID e) = x) then Some (bool_decide (x ∈ att')) else o) ∧
  (feed_string (EventID e) ≠ x → (x ∈ att' ↔ x ∈ att)).
Proof using Type.
  unfold mention_step, is_resync. intros [[-> ->]|[-> ->]].
  - rewrite (bool_decide_eq_false_2 (_ = AttendantEventResync)), (bool_decide_eq_true_2 (AttendantEventJoined = _)) by done.
    split; [|set_solver]. case_bool_decide; [|done]. f_equal. symmetry. apply bool_decide_eq_true_2. set_solver.
  - rewrite (bool_decide_eq_false_2 (_ = AttendantEventResync)), (bool_decide_eq_false_2 (_ = AttendantEventJoined)),
      (bool_decide_eq_true_2 (AttendantEventLeft = _)) by done.
    split; [|set_solver]. case_bool_decide; [|done]. f_equal. symmetry. apply bool_decide_eq_false_2. set_solver.
Qed.

Lemma sync_offer e att att' c s : announces e att att' → sync att (buf c) s →
  sync att' (buf (offer_attendant e c)) s.
Proof using Type.
  intros Ha [He Hv Ho]. unfold offer_attendant. case_bool_decide; cbn [buf].
  - split; [| |done].
    + intros x v. rewrite mention_snoc. destruct (mention_announced e att att' x (mention x (buf c)) Ha) as [-> Hne].
      case_bool_decide as Hx; [intros [= <-]; apply bool_decide_eq_true|].
      intros Hm. rewrite Hne by done. by apply He.
    + intros Hf Hr x Hxb. rewrite mention_snoc.
      destruct (mention_announced e att att' x (mention x (buf c)) Ha) as [-> Hne].
      case_bool_decide as Hx; [done|]. intros Hm. rewrite Hne by done. apply Hv; [done| |done|done].
      intros Hex. apply Hr. rewrite list.Exists_app. by left.
  - split; [done| |done]. intros _ Hr. exfalso. apply Hr. by left.
Qed.

Lemma view_snoc s x f : view {| sent := sent s ++ [x]; fetching := f |} = client (view s) x.
Proof using Type. unfold view. cbn [sent]. by rewrite foldl_app. Qed.

Lemma sync_receive e rest att s : fetching s = false → sync att (e :: rest) s →
  sync att rest (on_event bridgeFeed e s).
Proof using Type.
  intros Hf [He Hv Ho]. unfold on_event.
  assert (∀ x v, mention x rest = Some v → (v = true ↔ x ∈ att)) as He'.
  { intros x v Hm. apply He. by rewrite mention_cons, Hm. }
  destruct (decide (Type_ e = AttendantEventResync)) as [Hr|Hr].
  { rewrite bool_decide_eq_true_2 by done. by split. }
  rewrite bool_decide_eq_false_2 by done.
  assert (Hvx : ¬ Exists is_resync rest → ∀ x, x ≠ bridgeFeed → mention x rest = None →
    mention_step x None e = None → (x ∈ view s ↔ x ∈ att)).
  { intros Hnr x Hx Hm Hs. apply Hv; [done| |done|].
    - rewrite List.Exists_cons. naive_solver.
    - by rewrite mention_cons, Hm, bool_decide_eq_false_2. }
  assert (Hvm : ¬ Exists is_resync rest → ∀ x v, mention x rest = None →
    mention_step x None e = Some v → (v = true ↔ x ∈ att)).
  { intros Hnr x v Hm Hs. apply He. by rewrite mention_cons, Hm, bool_decide_eq_false_2. }
  unfold mention_step in Hvx, Hvm. setoid_rewrite (bool_decide_eq_false_2 (is_resync e) Hr) in Hvx.
  setoid_rewrite (bool_decide_eq_false_2 (is_resync e) Hr) in Hvm.
  destruct (decide (feed_string (EventID e) = bridgeFeed)) as [Hb|Hb].
  { rewrite bool_decide_eq_true_2 by done. split; [done| |done]. intros _ Hnr x Hx Hm. apply Hvx; [done..|].
    rewrite bool_decide_eq_false_2; [done|congruence]. }
  rewrite bool_decide_eq_false_2 by done. split; [done| |].
  - intros _ Hnr x Hx Hm. specialize (Hvx Hnr x Hx Hm). specialize (λ v, Hvm Hnr x v Hm).
    rewrite view_snoc. unfold client.
    destruct (decide (feed_string (EventID e) = x)) as [Hid|Hid].
    + rewrite bool_decide_eq_true_2 in Hvx, Hvm by done. rewrite Hid.
      destruct (decide (Type_ e = AttendantEventJoined)) as [HJ|HJ].
      { rewrite !(bool_decide_eq_true_2 _ HJ) in *. specialize (Hvm true eq_refl). set_solver. }
      rewrite !(bool_decide_eq_false_2 _ HJ) in *.
      destruct (decide (Type_ e = AttendantEventLeft)) as [HL|HL].
      { rewrite !(bool_decide_eq_true_2 _ HL) in *. specialize (Hvm false eq_refl). set_solver. }
      rewrite !(bool_decide_eq_false_2 _ HL) in *. by apply Hvx.
    + rewrite bool_decide_eq_false_2 in Hvx by done. specialize (Hvx eq_refl).
      repeat case_bool_decide; set_solver.
  - rewrite view_snoc. unfold client. repeat case_bool_decide; set_solver.
Qed.
Lemma visible_ids_elem snapshot x :
  x ∈ visible_ids bridgeFeed snapshot ↔ x ≠ bridgeFeed ∧ ∃ p, p ∈ snapshot ∧ feed_string (ID p) = x.
Proof using Type.
  unfold visible_ids. rewrite list_elem_of_filter, list_elem_of_fmap. naive_solver.
Qed.

(** *** The invariant of the manager and its streams *)
Definition chans_open {E} (s : gset nat) (c : gmap nat (chan E)) : Prop :=
  ∀ i, i ∈ s → ∃ ch, c !! i = Some ch ∧ closed ch = false.
Record manager_inv (m : Manager) : Prop := {
  inv_key : ∀ k p, attendants m !! k = Some p → feed_string (ID p) = k;
  inv_fresh : ∀ i, is_Some (achans m !! i) ∨ is_Some (tchans m !! i) → i < fresh_chan m;
  inv_aopen : chans_open (subscribers m) (achans m);
  inv_topen : chans_open (tunnelSubs m) (tchans m);
}.
Definition streams_inv (m : Manager) (ss : gmap nat Stream) : Prop :=
  ∀ i s, ss !! i = Some s → i ∈ subscribers m ∧
    ∀ ch, achans m !! i = Some ch → sync (dom (attendants m)) (buf ch) s.
Definition world_inv (w : World) : Prop := manager_inv (manager w) ∧ streams_inv (manager w) (streams w).

Lemma any_closed_open {E} s (c : gmap nat (chan E)) : chans_open s c → any_closed s c = false.
Proof using Type.
  intros Ho. apply bool_decide_eq_false_2. rewrite list.Exists_exists.
  intros ([i ch] & Hi & Hs & Hc). simpl in *. apply elem_of_map_to_list in Hi.
  destruct (Ho i Hs) as (ch' & E' & Hc'). simplify_eq. congruence.
Qed.
Lemma offer_all_lookup {E} (offer : chan E → chan E) s c i :
  offer_all offer s c !! i = (λ ch, if bool_decide (i ∈ s) then offer ch else ch) <$> c !! i.
Proof using Type. unfold offer_all. rewrite map_lookup_imap. by destruct (c !! i). Qed.
Lemma offer_all_open {E} (offer : chan E → chan E) s c :
  (∀ ch, closed (offer ch) = closed ch) → chans_open s c → chans_open s (offer_all offer s c).
Proof using Type.
  intros Hc Ho i Hi. destruct (Ho i Hi) as (ch & E' & Hcl). exists (offer ch).
  rewrite offer_all_lookup, E', Hc. cbn. by rewrite bool_decide_eq_true_2.
Qed.
Lemma offer_attendant_closed e ch : closed (offer_attendant e ch) = closed ch.
Proof using Type. unfold offer_attendant. by case_bool_decide. Qed.
Lemma offer_tunnel_closed e ch : closed (offer_tunnel e ch) = closed ch.
Proof using Type. unfold offer_tunnel. by case_bool_decide. Qed.

(** A broadcast to attendants after a change it announces. *)
Lemma broadcast_attendants_inv e m m' f ss :
  manager_inv m → streams_inv m ss →
  announces e (dom (attendants m)) (dom (f (attendants m))) →
  (∀ k p, f (attendants m) !! k = Some p → feed_string (ID p) = k) →
  broadcastAttendantLocked e (set_attendants f m) = Ok m' →
  manager_inv m' ∧ streams_inv m' ss.
Proof using Type.
  intros [Hk Hf Ha Ht] Hs Hann Hk'. unfold broadcastAttendantLocked. cbn.
  rewrite any_closed_open by done. intros [= <-]. split.
  - split; cbn; [done| |by apply offer_all_open; [apply offer_attendant_closed|]|done].
    intros i. rewrite offer_all_lookup, fmap_is_Some. apply Hf.
  - intros i s Hi. destruct (Hs i s Hi) as [Hsub Hsync]. split; [done|]. cbn.
    intros ch. rewrite offer_all_lookup. destruct (achans m !! i) as [c|]; [|done].
    cbn. rewrite bool_decide_eq_true_2 by done. intros [= <-]. eapply sync_offer; [done|by apply Hsync].
Qed.
Lemma broadcast_tunnel_inv e m m' f ss :
  manager_inv m → streams_inv m ss → broadcastTunnelLocked e (set_peers f m) = Ok m' →
  manager_inv m' ∧ streams_inv m' ss.
Proof using Type.
  intros [Hk Hf Ha Ht] Hs. unfold broadcastTunnelLocked. cbn.
  rewrite any_closed_open by done. intros [= <-]. split; [|exact Hs].
  split; cbn; [done| |done|by apply offer_all_open; [apply offer_tunnel_closed|]].
  intros i. rewrite offer_all_lookup, fmap_is_Some. apply Hf.
Qed.
Lemma silent_attendants_inv m f ss : manager_inv m → streams_inv m ss →
  dom (f (attendants m)) = dom (attendants m) →
  (∀ k p, f (attendants m) !! k = Some p → feed_string (ID p) = k) →
  manager_inv (set_attendants f m) ∧ streams_inv (set_attendants f m) ss.
Proof using Type.
  intros [Hk Hf Ha Ht] Hs Hd Hk'. split; [by split|]. intros i s Hi. destruct (Hs i s Hi) as [? Hsync].
  split; [done|]. cbn. rewrite Hd. exact Hsync.
Qed.

Lemma AddAttendant_inv id addr now m m' ss : manager_inv m → streams_inv m ss →
  AddAttendant id addr now m = Ok m' → manager_inv m' ∧ streams_inv m' ss.
Proof using Type.
  intros Hm Hs. unfold AddAttendant.
  assert (∀ k p, <[feed_string id:={| ID := id; Addr := addr; Connected := now |}]> (attendants m) !! k = Some p →
    feed_string (ID p) = k) as Hk'.
  { intros k p [[<- <-]|[_ Hk]]%lookup_insert_Some; [done|by apply (inv_key m Hm)]. }
  case_bool_decide as He; cbn [negb].
  - intros [= <-]. apply silent_attendants_inv; [done|done| |done].
    rewrite dom_insert_L. apply elem_of_dom in He. set_solver.
  - apply broadcast_attendants_inv; [done|done| |done]. left. split; [done|]. by rewrite dom_insert_L.
Qed.
Lemma RemoveAttendant_inv id m m' ss : manager_inv m → streams_inv m ss →
  RemoveAttendant id m = Ok m' → manager_inv m' ∧ streams_inv m' ss.
Proof using Type.
  intros Hm Hs. unfold RemoveAttendant.
  assert (∀ k p, delete (feed_string id) (attendants m) !! k = Some p → feed_string (ID p) = k) as Hk'.
  { intros k p [_ Hk]%lookup_delete_Some. by apply (inv_key m Hm). }
  case_bool_decide as He.
  - apply broadcast_attendants_inv; [done|done| |done]. right. split; [done|]. by rewrite dom_delete_L.
  - intros [= <-]. apply silent_attendants_inv; [done|done| |done].
    rewrite delete_id; [done|]. by apply eq_None_not_Some.
Qed.
Lemma tunnel_subs_inv m ss s c f : manager_inv m → streams_inv m ss →
  chans_open s c → (∀ i, is_Some (c !! i) → i < f) → fresh_chan m <= f →
  let m' := {| peers := peers m; attendants := attendants m; aliases := aliases m;
    subscribers := subscribers m; tunnelSubs := s; achans := achans m; tchans := c; fresh_chan := f |} in
  manager_inv m' ∧ streams_inv m' ss.
Proof using Type.
  intros [Hk Hf Ha Ht] Hs Ho Hc Hle. split; [|exact Hs]. split; cbn; [done| |done|done].
  intros i [Hi|Hi]; [|by apply Hc]. specialize (Hf i (or_introl Hi)). lia.
Qed.

Lemma subscribe_inv m ss snapshot ch m' : manager_inv m → streams_inv m ss →
  SubscribeAttendants m = ((snapshot, ch), m') →
  manager_inv m' ∧ streams_inv m' (<[ch := start_stream bridgeFeed snapshot]> ss).
Proof using Type.
  intros [Hk Hf Ha Ht] Hs [= <- <- <-].
  assert (achans m !! fresh_chan m = None) as Hnew.
  { apply eq_None_not_Some. intros H. specialize (Hf _ (or_introl H)). lia. }
  split.
  - split; cbn; [done| | |done].
    + intros i. rewrite lookup_insert_is_Some'. intros [[<-|H]|H]; [lia| |];
        [specialize (Hf i (or_introl H))|specialize (Hf i (or_intror H))]; lia.
    + intros i [->%elem_of_singleton|Hi]%elem_of_union; [by eexists; rewrite lookup_insert_eq|].
      destruct (Ha i Hi) as (c & E & Hc). exists c. rewrite lookup_insert_ne; [done|congruence].
  - intros i s [[<- <-]|[Hne Hi]]%lookup_insert_Some.
    + split; [cbn; set_solver|]. cbn. intros c. rewrite lookup_insert_eq. intros [= <-].
      split; [done| |].
      * intros _ _ x Hx _. cbn [view start_stream sent foldl client]. unfold view. cbn.
        rewrite elem_of_list_to_set, visible_ids_elem, elem_of_dom. unfold Attendants. split.
        -- intros [_ (p & Hp & <-)]. apply list_elem_of_fmap in Hp as ([k q] & -> & Hp).
           apply elem_of_map_to_list in Hp. cbn. rewrite (Hk _ _ Hp). by eexists.
        -- intros [p Hp]. split; [done|]. exists p. split; [|by apply Hk].
           apply list_elem_of_fmap. exists (x, p). split; [done|]. by apply elem_of_map_to_list.
      * unfold view. cbn. rewrite elem_of_list_to_set, visible_ids_elem. naive_solver.
    + destruct (Hs i s Hi) as [Hsub Hsync]. split; [cbn; set_solver|]. cbn. intros c.
      rewrite lookup_insert_ne by done. apply Hsync.
Qed.

Lemma receive_inv m ss ch s evt rest c : manager_inv m → streams_inv m ss →
  ss !! ch = Some s → fetching s = false → achans m !! ch = Some c → buf c = evt :: rest →
  let m' := set_achans (subscribers m) (<[ch := {| buf := rest; closed := closed c |}]> (achans m)) m in
  manager_inv m' ∧ streams_inv m' (<[ch := on_event bridgeFeed evt s]> ss).
Proof using Type.
  intros [Hk Hf Ha Ht] Hs Hi Hfe Hc Hb. split.
  - split; cbn; [done| | |done].
    + intros i. rewrite lookup_insert_is_Some'. intros [[<-|H]|H]; apply Hf; auto.
    + intros i Hi'. destruct (Ha i Hi') as (c' & E & Hcl). destruct (decide (ch = i)) as [<-|Hne].
      * simplify_eq. eexists. by rewrite lookup_insert_eq.
      * exists c'. by rewrite lookup_insert_ne.
  - intros i s' [[<- <-]|[Hne Hi']]%lookup_insert_Some.
    + destruct (Hs ch s Hi) as [Hsub Hsync]. split; [done|]. cbn. intros c'.
      rewrite lookup_insert_eq. intros [= <-]. cbn [buf]. apply sync_receive; [done|]. rewrite <-Hb. by apply Hsync.
    + destruct (Hs i s' Hi') as [Hsub Hsync]. split; [done|]. cbn. intros c'.
      rewrite lookup_insert_ne by done. apply Hsync.
Qed.

Lemma fetch_inv m ss ch s : manager_inv m → streams_inv m ss → ss !! ch = Some s →
  manager_inv m ∧ streams_inv m (<[ch := on_fresh bridgeFeed (Attendants m) s]> ss).
Proof using Type.
  intros Hm Hs Hi. split; [done|]. intros i s' [[<- <-]|[Hne Hi']]%lookup_insert_Some; [|by apply Hs].
  destruct (Hs ch s Hi) as [Hsub Hsync]. split; [done|]. intros c Hc.
  destruct (Hsync c Hc) as [He _ _]. unfold on_fresh. split; [done| |].
  - intros _ _ x Hx _. rewrite view_snoc. cbn [client].
    rewrite elem_of_list_to_set, visible_ids_elem, elem_of_dom. unfold Attendants. split.
    + intros [_ (p & Hp & <-)]. apply list_elem_of_fmap in Hp as ([k q] & -> & Hp).
      apply elem_of_map_to_list in Hp. cbn. rewrite (inv_key m Hm _ _ Hp). by eexists.
    + intros [p Hp]. split; [done|]. exists p. split; [|by apply (inv_key m Hm)].
      apply list_elem_of_fmap. exists (x, p). split; [done|]. by apply elem_of_map_to_list.
  - rewrite view_snoc. cbn [client]. rewrite elem_of_list_to_set, visible_ids_elem. naive_solver.
Qed.

Lemma cancel_inv m ss ch : manager_inv m → streams_inv m ss →
  manager_inv (cancel_attendants ch m) ∧ streams_inv (cancel_attendants ch m) (delete ch ss).
Proof using Type.
  intros Hm Hs. unfold cancel_attendants. case_bool_decide as Hch; cycle 1.
  { split; [done|]. intros i s [_ Hi]%lookup_delete_Some. by apply Hs. }
  destruct Hm as [Hk Hf Ha Ht]. split.
  - split; cbn; [done| | |done].
    + intros i. rewrite lookup_alter_is_Some. apply Hf.
    + intros i [Hi Hne]%elem_of_difference. destruct (Ha i Hi) as (c & E & Hc). exists c.
      rewrite lookup_alter_ne; [done|]. intros ->. by apply Hne, elem_of_singleton.
  - intros i s [Hne Hi]%lookup_delete_Some. destruct (Hs i s Hi) as [Hsub Hsync]. cbn. split.
    + apply elem_of_difference. split; [done|]. by intros ->%elem_of_singleton.
    + intros c. rewrite lookup_alter_ne by done. apply Hsync.
Qed.

Lemma manager_step_inv m m' ss f : manager_inv m → streams_inv m ss → f m = Ok m' →
  (∃ id addr now, f = AddPeer id addr now) ∨ (∃ id, f = RemovePeer id) ∨
  (∃ id addr now, f = AddAttendant id addr now) ∨ (∃ id, f = RemoveAttendant id) ∨
  (∃ alias owner, f = λ m, Ok (RegisterAlias alias owner m)) ∨ (∃ alias, f = λ m, Ok (RevokeAlias alias m)) ∨
  (f = λ m, Ok (SubscribeEndpoints m).2) ∨ (∃ ch, f = λ m, Ok (cancel_endpoints ch m)) →
  manager_inv m' ∧ streams_inv m' ss.
Proof using Type.
  intros Hm Hs E Hf. destruct Hf as [(id&addr&now&->)|[(id&->)|[(id&addr&now&->)|[(id&->)|Hf]]]].
  - by eapply broadcast_tunnel_inv.
  - unfold RemovePeer in E. destruct (peers m !! _); [by eapply broadcast_tunnel_inv|].
    injection E as <-. split; [|exact Hs]. destruct Hm. by split.
  - by eapply AddAttendant_inv.
  - by eapply RemoveAttendant_inv.
  - pose proof Hm as [Hk Hfr Ha Ht].
    destruct Hf as [(alias&owner&->)|[(alias&->)|[->|(ch&->)]]]; injection E as <-.
    + split; [by split|exact Hs].
    + split; [by split|exact Hs].
    + apply (tunnel_subs_inv m ss ({[fresh_chan m]} ∪ tunnelSubs m)
        (<[fresh_chan m := {| buf := []; closed := false |}]> (tchans m)) (S (fresh_chan m)) Hm Hs); [| |lia].
      * intros i [->%elem_of_singleton|Hi]%elem_of_union; [by eexists; rewrite lookup_insert_eq|].
        destruct (Ht i Hi) as (c & E & Hc). exists c. rewrite lookup_insert_ne; [done|].
        intros <-. specialize (Hfr _ (or_intror (mk_is_Some _ _ E))). lia.
      * cbn. intros i. rewrite lookup_insert_is_Some'. intros [<-|H]; [lia|].
        specialize (Hfr _ (or_intror H)). lia.
    + unfold cancel_endpoints. case_bool_decide as Hch; [|done].
      apply (tunnel_subs_inv m ss (tunnelSubs m ∖ {[ch]})
        (alter (λ c, {| buf := buf c; closed := true |}) ch (tchans m)) (fresh_chan m) Hm Hs); [| |lia].
      * intros i [Hi Hne]%elem_of_difference. destruct (Ht i Hi) as (c & E & Hc). exists c.
        rewrite lookup_alter_ne; [done|]. intros ->. by apply Hne, elem_of_singleton.
      * cbn. intros i. rewrite lookup_alter_is_Some. intros H. by apply (Hfr _ (or_intror H)).
Qed.

Lemma reachable_inv w : reachable bridgeFeed w → world_inv w.
Proof using Type.
  induction 1 as [|w w' _ [Hm Hs] Hstep].
  - split; [split; cbn|].
    + intros k p H. by rewrite lookup_empty in H.
    + intros i [[? H]|[? H]]; by rewrite lookup_empty in H.
    + intros i Hi. by apply elem_of_empty in Hi.
    + intros i Hi. by apply elem_of_empty in Hi.
    + intros i s H. cbn in H. by rewrite lookup_empty in H.
  - destruct Hstep as [f m' w E Hf|snapshot ch m' w E|ch s evt rest c w Hi Hfe Hc Hb|ch s w Hi Hfe|ch s w Hi].
    + by eapply manager_step_inv.
    + by apply subscribe_inv with (m := manager w).
    + by eapply receive_inv.
    + by eapply fetch_inv.
    + by apply cancel_inv.
Qed.

(** C34. A client of room.attendants converges: after any interleaving of room
    changes, subscriptions, deliveries, overflows of the bounded channel,
    resyncs and cancellations, a stream that has nothing left to deliver has
    told its client exactly the attendants of the room, the bridge's own feed
    left out. *)
Theorem attendants_converge (w : World) (ch : nat) (s : Stream) (c : chan AttendantEvent) :
  reachable bridgeFeed w → streams w !! ch = Some s → achans (manager w) !! ch = Some c →
  fetching s = false → buf c = [] →
  view s = dom (attendants (manager w)) ∖ {[bridgeFeed]}.
Proof using Type.
  intros [Hm Hs]%reachable_inv Hi Hc Hf Hb. destruct (Hs ch s Hi) as [_ Hsync].
  destruct (Hsync c Hc) as [_ Hv Ho]. rewrite Hb in Hv. apply set_eq. intros x.
  rewrite elem_of_difference, elem_of_singleton. destruct (decide (x = bridgeFeed)) as [->|Hne]; [naive_solver|].
  rewrite (Hv Hf); [naive_solver| |done|done]. by intros H%List.Exists_nil.
Qed.

(** No change of the room ever sends on a closed channel: the manager's
    operations succeed in every reachable state. *)
Theorem room_never_panics (w : World) (id : FeedRef) (addr : string) (now : Z) :
  reachable bridgeFeed w →
  is_ok (AddPeer id addr now (manager w)) = true ∧ is_ok (RemovePeer id (manager w)) = true ∧
  is_ok (AddAttendant id addr now (manager w)) = true ∧ is_ok (RemoveAttendant id (manager w)) = true.
Proof using Type.
  intros [[_ _ Ha Ht] _]%reachable_inv.
  unfold AddPeer, RemovePeer, AddAttendant, RemoveAttendant, broadcastTunnelLocked, broadcastAttendantLocked.
  cbn. rewrite !any_closed_open by done.
  split_and!; [done|by destruct (peers _ !! _)|by case_bool_decide|by case_bool_decide].
Qed.
End Sync.

(** ** streamEndpoints (internal/ssb/muxrpc/handlers/room/tunnel.go) *)
Definition start_endpoints (snapshot : list PeerInfo) : list Sent :=
  (λ p, Event "joined" (feed_string (ID p))) <$> snapshot.
Definition on_tunnel (evt : TunnelEvent) : Sent := Event (TType evt) (feed_string (ID (Info evt))).

(** A room that [n] peers join one after the other while the client of
    tunnel.endpoints does not read. *)
Definition nth_feed (n : nat) : FeedRef :=
  {| f_algo := RefAlgoFeedSSB1; f_id := chr (Z.of_nat n) :: replicate 31 (chr 0) |}.
Fixpoint join_peers (n : nat) (m : Manager) : result Manager :=
  match n with
  | O => Ok m
  | S n => m ← join_peers n m; AddPeer (nth_feed n) "" 0 m
  end.
Definition endpoints_run (n : nat) : result (list Sent * Manager) :=
  let '((snapshot, ch), m) := SubscribeEndpoints NewManager in
  m ← join_peers n m;
  Ok (start_endpoints snapshot ++ (on_tunnel <$> default [] (buf <$> tchans m !! ch)), m).

(** The tunnel endpoints have no resync: after seventeen joins a client that
    then reads everything its channel holds knows sixteen of the seventeen peers
    the room has. *)
Theorem endpoints_lose_peer :
  match endpoints_run 17 with
  | Ok (sent, m) => HasPeer (nth_feed 16) m = true ∧ PeerCount m = 17 ∧
      size (foldl client ∅ sent) = 16 ∧ feed_string (nth_feed 16) ∉ foldl client ∅ sent
  | _ => False
  end.
Proof. vm_compute. split_and!; try reflexivity. intros H. inversion H. Qed.
