(* ===== verification/Ebt.v ===== *)
(** * Epidemic broadcast trees (internal/ssb/replication/ebt.go)

    The notes peers exchange, the state matrix of what every peer has, the
    sessions, the handler of a replication stream and the history streams it
    starts. The feed store is an argument; encoding/json is modelled at the level
    of the map of integers it reads and writes. *)
From S2P Require Import Prelude GoStr GoBytes Refs.
#[local] Open Scope string_scope.
#[local] Open Scope list_scope.
#[local] Open Scope Z_scope.

(** ** Notes *)
Record Note := { Seq : Z; Replicate : bool; Receive : bool; TangleRootSeq : Z }.
#[export] Instance Note_eq_dec : EqDecision Note.
Proof. solve_decision. Defined.
Abbreviation NetworkFrontier := (gmap string Note) (only parsing).
Abbreviation TangleFrontier := (gmap string Z) (only parsing).

(** [Note.MarshalJSON]: the number written. *)
Definition note_MarshalJSON (n : Note) : Z :=
  if negb (Replicate n) || bool_decide (Seq n = -1) then -1
  else
    let i := int64 (Z.shiftl (Seq n) 1) in
    if negb (Receive n) then Z.lor i 1 else i.
(** One entry of [NetworkFrontier.UnmarshalJSON], and the whole map. *)
Definition note_of (i : Z) : Note :=
  {| Replicate := negb (bool_decide (i = -1));
     Receive := negb (bool_decide (i = -1)) && negb (bool_decide (Z.land i 1 = 1));
     Seq := Z.shiftr i 1; TangleRootSeq := 0 |}.
Definition frontier_UnmarshalJSON (dummy : gmap string Z) : NetworkFrontier :=
  note_of <$> filter (λ p, is_ok (ParseFeedRef p.1) = true) dummy.
Definition frontier_MarshalJSON (nf : NetworkFrontier) : gmap string Z := note_MarshalJSON <$> nf.

(** ** StateMatrix

    [frontiers] is [None] once [Close] has set the map to nil: reading a nil map
    finds nothing, writing to it panics. [updateCh] is a channel of capacity one. *)
Record StateMatrix := { self : string; frontiers : option (gmap string NetworkFrontier);
  tangleFrontiers : gmap string TangleFrontier; updateCh : bool }.
Definition NewStateMatrix (self : option FeedRef) : StateMatrix :=
  {| self := default "" (feed_string <$> self); frontiers := Some ∅; tangleFrontiers := ∅; updateCh := false |}.

Definition GetTangleFrontier (peer : string) (sm : StateMatrix) : TangleFrontier :=
  default ∅ (tangleFrontiers sm !! peer).
Definition SetTangleFrontier (peer : string) (frontier : TangleFrontier) (sm : StateMatrix) : StateMatrix :=
  {| self := self sm; frontiers := frontiers sm;
     tangleFrontiers := <[peer := frontier]> (tangleFrontiers sm); updateCh := updateCh sm |}.
Definition notify (sm : StateMatrix) : StateMatrix :=
  {| self := self sm; frontiers := frontiers sm; tangleFrontiers := tangleFrontiers sm; updateCh := true |}.
(** A receive on the channel [WaitForUpdate] returns. *)
Definition take_update (sm : StateMatrix) : option StateMatrix :=
  if updateCh sm
  then Some {| self := self sm; frontiers := frontiers sm; tangleFrontiers := tangleFrontiers sm; updateCh := false |}
  else None.

Definition frontier_of (who : string) (sm : StateMatrix) : NetworkFrontier :=
  default ∅ (frontiers sm ≫= lookup who).
Definition store_frontier (who : string) (nf : NetworkFrontier) (sm : StateMatrix) : result StateMatrix :=
  match frontiers sm with
  | None => Panic
  | Some m => Ok {| self := self sm; frontiers := Some (<[who := nf]> m);
                    tangleFrontiers := tangleFrontiers sm; updateCh := updateCh sm |}
  end.

(** [SetFeedSeq]; [initializeFeed] is the same code. *)
Definition SetFeedSeq (feed : FeedRef) (seq : Z) (sm : StateMatrix) : result StateMatrix :=
  if bool_decide (self sm = "") then Ok sm
  else
    let selfFrontier := frontier_of (self sm) sm in
    let note := {| Seq := seq; Replicate := true; Receive := true; TangleRootSeq := 0 |} in
    sm ← store_frontier (self sm) (<[feed_string feed := note]> selfFrontier) sm;
    Ok (notify sm).
Definition initializeFeed (feed : FeedRef) (seq : Z) (sm : StateMatrix) : result StateMatrix :=
  SetFeedSeq feed seq sm.

(** [InitializeFromFeedlog]: [feeds] is what [Logs().List()] returns and [log_seq]
    the sequence of a feed's log, [None] when it cannot be opened or read. *)
Definition initialize_one (log_seq : string → option Z) (r : result StateMatrix) (feedID : string) : result StateMatrix :=
  sm ← r;
  match log_seq feedID, ParseFeedRef feedID with
  | Some seq, Ok feedRef => initializeFeed feedRef seq sm
  | _, _ => Ok sm
  end.
Definition InitializeFromFeedlog (feeds : result (list string)) (log_seq : string → option Z)
    (sm : StateMatrix) : result StateMatrix :=
  match feeds with
  | Ok feeds => foldl (initialize_one log_seq) (Ok sm) feeds
  | Err e => Err ("failed to list feeds: " +:+ e)
  | Panic => Panic
  end.

Definition Inspect (peer : string) (sm : StateMatrix) : NetworkFrontier := frontier_of peer sm.
Definition Update (who : string) (update : NetworkFrontier) (sm : StateMatrix) : result (NetworkFrontier * StateMatrix) :=
  let current := update ∪ frontier_of who sm in
  sm ← store_frontier who current sm; Ok (current, sm).

(** [Changed(self, nil)] and [Changed(self, peer)]. *)
Definition differs (myNote theirNote : Note) : bool :=
  negb (bool_decide (Seq myNote = Seq theirNote)) ||
  negb (Bool.eqb (Receive myNote) (Receive theirNote)) ||
  negb (Bool.eqb (Replicate myNote) (Replicate theirNote)).
Definition Changed (self : string) (peer : option string) (sm : StateMatrix) : NetworkFrontier :=
  let selfNf := frontier_of self sm in
  match peer with
  | None => filter (λ p, Replicate p.2 = true) selfNf
  | Some peer =>
      let peerNf := frontier_of peer sm in
      map_imap (λ feed myNote,
        match peerNf !! feed with
        | None => Some myNote
        | Some theirNote => if differs myNote theirNote then Some myNote else None
        end) selfNf
  end.
#[global] Arguments Changed : simpl never.
Definition Export (sm : StateMatrix) : gmap string (gmap string Z) :=
  (λ nf : NetworkFrontier, Seq <$> nf) <$> default ∅ (frontiers sm).
Definition Close (sm : StateMatrix) : StateMatrix :=
  {| self := self sm; frontiers := None; tangleFrontiers := tangleFrontiers sm; updateCh := updateCh sm |}.

(** ** Sessions

    Sessions, cancel functions and the channels of waiters are named by numbers;
    [cancelled] are the cancel functions called and [woken] the channels closed. *)
Record Sessions := { open : gmap string nat; sessions : gmap nat (gmap string nat);
  waiting : gmap string nat; cancelled : gset nat; woken : gset nat; fresh : nat }.
Definition NewSessions : Sessions :=
  {| open := ∅; sessions := ∅; waiting := ∅; cancelled := ∅; woken := ∅; fresh := 0 |}.
Definition Started (addr : string) (s : Sessions) : nat * Sessions :=
  (fresh s,
   {| open := <[addr := fresh s]> (open s); sessions := <[fresh s := ∅]> (sessions s);
      waiting := delete addr (waiting s); cancelled := cancelled s;
      woken := match waiting s !! addr with Some ch => {[ch]} ∪ woken s | None => woken s end;
      fresh := S (fresh s) |}).
Definition Ended (addr : string) (s : Sessions) : Sessions :=
  match open s !! addr with
  | None => s
  | Some session =>
      {| open := delete addr (open s); sessions := sessions s; waiting := waiting s;
         cancelled := list_to_set (map_to_list (default ∅ (sessions s !! session))).*2 ∪ cancelled s;
         woken := woken s; fresh := fresh s |}
  end.
(** [WaitFor] up to its [select]: the channel it waits on, or [None] when the
    session is open and it returns true at once. *)
Definition WaitFor (addr : string) (s : Sessions) : option nat * Sessions :=
  if bool_decide (is_Some (open s !! addr)) then (None, s)
  else (Some (fresh s),
        {| open := open s; sessions := sessions s; waiting := <[addr := fresh s]> (waiting s);
           cancelled := cancelled s; woken := woken s; fresh := S (fresh s) |}).
Definition set_session (session : nat) (subscribed : gmap string nat) (dead : gset nat) (s : Sessions) : Sessions :=
  {| open := open s; sessions := <[session := subscribed]> (sessions s); waiting := waiting s;
     cancelled := dead ∪ cancelled s; woken := woken s; fresh := fresh s |}.
Definition Subscribed (session : nat) (feed : string) (cancel : nat) (s : Sessions) : Sessions :=
  let subscribed := default ∅ (sessions s !! session) in
  let dead := match subscribed !! feed with Some fn => {[fn]} | None => ∅ end in
  set_session session (<[feed := cancel]> subscribed) dead s.
Definition Unsubscribe (session : nat) (feed : string) (s : Sessions) : Sessions :=
  let subscribed := default ∅ (sessions s !! session) in
  let dead := match subscribed !! feed with Some fn => {[fn]} | None => ∅ end in
  set_session session (delete feed subscribed) dead s.

(** ** HandleDuplex *)
Record CreateHistArgs := { hist_ID : FeedRef; hist_Seq : Z; Limit : Z; Live : bool }.

(** [FeedManager.AppendReplicatedMessage], the decoding of a packet as a map of
    integers by encoding/json, and the two ends of the stream. *)
Section Duplex.
Context {Store : Type} (unmarshal : bytes → option (gmap string Z))
  (AppendReplicatedMessage : bytes → Store → result (option FeedRef * Z) * Store)
  (selfRef : FeedRef) (remoteFeed : option FeedRef).

(** The handler's world: [streams] are the history streams started, each with its
    cancel function, and [written] the frontiers written to the peer. *)
Record Duplex := { matrix : StateMatrix; sess : Sessions; store : Store;
  streams : list (nat * CreateHistArgs); written : list (gmap string Z) }.
Definition set_matrix (sm : StateMatrix) (d : Duplex) : Duplex :=
  {| matrix := sm; sess := sess d; store := store d; streams := streams d; written := written d |}.
Definition set_sess (s : Sessions) (d : Duplex) : Duplex :=
  {| matrix := matrix d; sess := s; store := store d; streams := streams d; written := written d |}.
Definition set_store (s : Store) (d : Duplex) : Duplex :=
  {| matrix := matrix d; sess := sess d; store := s; streams := streams d; written := written d |}.
Definition tx_write (nf : NetworkFrontier) (d : Duplex) : Duplex :=
  {| matrix := matrix d; sess := sess d; store := store d; streams := streams d;
     written := written d ++ [frontier_MarshalJSON nf] |}.
(** [context.WithCancel], [session.Subscribed] and the goroutine of the stream. *)
Definition start_stream (session : nat) (feedStr : string) (arg : CreateHistArgs) (d : Duplex) : Duplex :=
  let s := sess d in
  let s' := Subscribed session feedStr (fresh s)
    {| open := open s; sessions := sessions s; waiting := waiting s; cancelled := cancelled s;
       woken := woken s; fresh := S (fresh s) |} in
  {| matrix := matrix d; sess := s'; store := store d; streams := streams d ++ [(fresh s, arg)];
     written := written d |}.

Definition stream_feed (session : nat) (selfNf : NetworkFrontier) (d : Duplex) (entry : string * Note) : Duplex :=
  let '(feedStr, theirNote) := entry in
  match selfNf !! feedStr with
  | None => d
  | Some myNote =>
      if Receive theirNote && bool_decide (Seq theirNote < Seq myNote) then
        match ParseFeedRef feedStr with
        | Ok feed => start_stream session feedStr
            {| hist_ID := feed; hist_Seq := Seq theirNote + 1; Limit := -1; Live := true |} d
        | _ => d
        end
      else d
  end.

(** A frontier the peer sent; calling a method on a nil feed panics. *)
Definition on_frontier (session : nat) (frontierUpdate : NetworkFrontier) (d : Duplex) : result Duplex :=
  match remoteFeed with
  | None => Panic
  | Some remote =>
      p ← Update (feed_string remote) frontierUpdate (matrix d);
      let sm := p.2 in
      let selfNf := frontier_of (feed_string selfRef) sm in
      let d := foldl (stream_feed session selfNf) (set_matrix sm d) (map_to_list frontierUpdate) in
      let wants := Changed (feed_string selfRef) (Some (feed_string remote)) sm in
      Ok (if bool_decide (wants = ∅) then d else tx_write wants d)
  end.

Definition on_packet (session : nat) (data : bytes) (d : Duplex) : result Duplex :=
  match unmarshal data with
  | Some dummy => on_frontier session (frontier_UnmarshalJSON dummy) d
  | None =>
      match AppendReplicatedMessage data (store d) with
      | (Ok (Some author, seq), st) =>
          sm ← SetFeedSeq author seq (matrix d); Ok (set_store st (set_matrix sm d))
      | (Ok (None, _), st) | (Err _, st) => Ok (set_store st d)
      | (Panic, _) => Panic
      end
  end.

(** One turn of the background goroutine that watches [WaitForUpdate]. *)
Definition on_update (d : Duplex) : Duplex :=
  match take_update (matrix d) with
  | None => d
  | Some sm =>
      let wants := Changed (feed_string selfRef) (feed_string <$> remoteFeed) sm in
      let d := set_matrix sm d in
      if bool_decide (wants = ∅) then d else tx_write wants d
  end.

(** The read loop over the packets [rx] delivers before it ends with [rx_err],
    and the whole handler; [first_write] is the error of the first write. *)
Fixpoint read_loop (session : nat) (packets : list (result bytes)) (rx_err : option string) (d : Duplex)
    : result (option string * Duplex) :=
  match packets with
  | [] => Ok (rx_err, d)
  | Ok data :: packets => d ← on_packet session data d; read_loop session packets rx_err d
  | Err e :: _ => Ok (Some e, d)
  | Panic :: _ => Panic
  end.
Definition sendState (d : Duplex) : Duplex := tx_write (Changed (feed_string selfRef) None (matrix d)) d.
Definition HandleDuplex (remoteAddr : string) (first_write : option string)
    (packets : list (result bytes)) (rx_err : option string) (d : Duplex) : result (option string * Duplex) :=
  let '(session, s) := Started remoteAddr (sess d) in
  let d := sendState (set_sess s d) in
  r ← match first_write with
      | Some e => Ok (Some e, d)
      | None => read_loop session packets rx_err d
      end;
  Ok (r.1, set_sess (Ended remoteAddr (sess r.2)) r.2).
End Duplex.

(** ** createStreamHistory

    [GetMessage] and [GetFeedSeq] of the store, the context, the writer and the
    time that passes besides the waits, at each turn of the loop. *)
Inductive Got := Found (msg : bytes) | NotFound | Failed (e : string).
Record HistEnv := { GetMessage : nat → FeedRef → Z → Got; GetFeedSeq : nat → FeedRef → result Z;
  ctx_done : nat → bool; tx_Write : nat → option string; elapses : nat → Z }.

Definition second : Z := 1000000000.
Definition firstDelay : Z := 100000000.
Definition maxRetries : Z := 50.
Definition maxWaitTime : Z := 60 * second.

Record Hist := { seq : Z; retries : Z; retryDelay : Z; startTime : Z; now : Z; sent : Z }.
Inductive turn := Return (err : option string) | Send (h : Hist) (msg : bytes) | Retry (h : Hist).

(** What a turn does with a message that is not there yet. *)
Definition not_found (env : HistEnv) (t : nat) (arg : CreateHistArgs) (h : Hist) : turn :=
  if negb (Live arg) then Return None
  else if bool_decide (maxWaitTime < now h - startTime h) then Return None
  else
    let retries := retries h + 1 in
    let gave_up := bool_decide (maxRetries < retries) in
    let caught_up := match GetFeedSeq env t (hist_ID arg) with
      | Ok currentSeq => bool_decide (seq h <= currentSeq) | _ => false end in
    if gave_up && caught_up then Return None
    else
      let retries := if gave_up then 0 else retries in
      let delay := if gave_up then firstDelay else retryDelay h in
      if ctx_done env t then Return (Some "context canceled")
      else Retry {| seq := seq h; retries := retries;
             retryDelay := if bool_decide (delay < 2 * second) then delay * 2 else delay;
             startTime := startTime h; now := now h + delay + elapses env t; sent := sent h |}.
Definition hist_turn (env : HistEnv) (t : nat) (arg : CreateHistArgs) (h : Hist) : turn :=
  if bool_decide (0 < Limit arg) && bool_decide (Limit arg <= sent h) then Return None
  else match GetMessage env t (hist_ID arg) (seq h) with
    | NotFound => not_found env t arg h
    | Failed e => Return (Some e)
    | Found msg =>
        match tx_Write env t with
        | Some e => Return (Some e)
        | None =>
            Send {| seq := seq h + 1; retries := 0; retryDelay := firstDelay; startTime := now h;
                    now := now h + elapses env t; sent := sent h + 1 |} msg
        end
    end.
(** The loop; [None] when [fuel] turns were not enough. *)
Fixpoint hist_loop (fuel : nat) (env : HistEnv) (t : nat) (arg : CreateHistArgs) (h : Hist)
    : list bytes * option (option string) :=
  match fuel with
  | O => ([], None)
  | S fuel =>
      match hist_turn env t arg h with
      | Return err => ([], Some err)
      | Retry h => hist_loop fuel env (S t) arg h
      | Send h msg => let '(msgs, r) := hist_loop fuel env (S t) arg h in (msg :: msgs, r)
      end
  end.
Definition hist_init (arg : CreateHistArgs) (start : Z) : Hist :=
  {| seq := hist_Seq arg; retries := 0; retryDelay := firstDelay; startTime := start; now := start; sent := 0 |}.
Definition createStreamHistory (fuel : nat) (env : HistEnv) (arg : CreateHistArgs) (start : Z) :=
  hist_loop fuel env 0 arg (hist_init arg start).

(** ** Notes on the wire *)
Lemma lor_double_1 s : Z.lor (2 * s) 1 = 2 * s + 1.
Proof.
  symmetry. apply Z.add_nocarry_lor. change 1 with (Z.ones 1). rewrite Z.land_ones by lia.
  change (2 ^ 1) with 2. rewrite Z.mul_comm. by apply Z_mod_mult.
Qed.
Lemma note_of_bits s (b : bool) : 2 * s + Z.b2z b ≠ -1 →
  note_of (2 * s + Z.b2z b) = {| Seq := s; Replicate := true; Receive := negb b; TangleRootSeq := 0 |}.
Proof.
  intros Hn. unfold note_of. rewrite bool_decide_eq_false_2 by done.
  rewrite Z.shiftr_div_pow2 by lia. change 1 with (Z.ones 1) at 2 4. rewrite Z.land_ones by lia.
  change (2 ^ 1) with 2. replace ((2 * s + Z.b2z b) mod 2) with (Z.b2z b)
    by (destruct b; simpl Z.b2z; Z.to_euclidean_division_equations; lia).
  replace ((2 * s + Z.b2z b) / 2) with s
    by (destruct b; simpl Z.b2z; Z.to_euclidean_division_equations; lia).
  by destruct b.
Qed.
Lemma marshal_bits n : - 2 ^ 62 <= Seq n < 2 ^ 62 → Replicate n = true → Seq n ≠ -1 →
  note_MarshalJSON n = 2 * Seq n + Z.b2z (negb (Receive n)).
Proof.
  intros Hs Hr H1. unfold note_MarshalJSON. rewrite Hr, bool_decide_eq_false_2 by done. cbn [negb orb].
  rewrite Z.shiftl_mul_pow2 by lia. change (2 ^ 1) with 2. rewrite int64_id by lia.
  rewrite (Z.mul_comm (Seq n)). destruct (Receive n); cbn [negb Z.b2z]; [lia|apply lor_double_1].
Qed.

(** A note survives the wire exactly when it is a replicated note with a real
    sequence number, or the canonical note of a feed that is not replicated; the
    number written is the sequence doubled, which fits for sequences below 2^62. *)
Theorem note_roundtrip (n : Note) :
  - 2 ^ 62 <= Seq n < 2 ^ 62 →
  (note_of (note_MarshalJSON n) = n ↔
   TangleRootSeq n = 0 ∧ ((Replicate n = true ∧ Seq n ≠ -1) ∨
                          (Replicate n = false ∧ Receive n = false ∧ Seq n = -1))).
Proof.
  intros Hs. destruct (decide (Replicate n = true ∧ Seq n ≠ -1)) as [[Hr H1]|Hn].
  - rewrite marshal_bits by done. rewrite note_of_bits by (destruct (Receive n); simpl; lia).
    rewrite negb_involutive. destruct n as [sq re rc tr]; simpl in *. subst. naive_solver.
  - assert (note_MarshalJSON n = -1) as ->.
    { unfold note_MarshalJSON. destruct (Replicate n); [|done]. cbn [negb orb].
      rewrite bool_decide_eq_true_2; [done|]. destruct (decide (Seq n = -1)); naive_solver. }
    change (note_of (-1)) with {| Seq := -1; Replicate := false; Receive := false; TangleRootSeq := 0 |}.
    destruct n as [sq re rc tr]; simpl in *. naive_solver.
Qed.

(** ** Sessions *)

(** Two callers waiting for the same address: the second replaces the channel
    of the first, so when the session starts only the second is woken and the
    first waits until its timeout. *)
Theorem earlier_waiter_lost (addr : string) (s : Sessions) :
  open s !! addr = None → (∀ ch, ch ∈ woken s → (ch < fresh s)%nat) →
  let '(first, s1) := WaitFor addr s in
  let '(second, s2) := WaitFor addr s1 in
  let '(_, s3) := Started addr s2 in
  ∃ ch1 ch2, first = Some ch1 ∧ second = Some ch2 ∧ ch1 ≠ ch2 ∧ ch1 ∉ woken s3 ∧ ch2 ∈ woken s3.
Proof.
  intros Ho Hw. unfold WaitFor. rewrite bool_decide_eq_false_2 by (rewrite Ho; by intros [? ?]).
  cbn. rewrite bool_decide_eq_false_2 by (rewrite Ho; by intros [? ?]). cbn.
  rewrite lookup_insert_eq. exists (fresh s), (S (fresh s)). split_and!; [done|done|lia| |set_solver].
  rewrite not_elem_of_union, not_elem_of_singleton. split; [lia|]. intros H%Hw. lia.
Qed.

(** ** The handler *)
Section DuplexProofs.
Context {Store : Type} (selfRef : FeedRef).
Implicit Types d : @Duplex Store.

Lemma store_frontier_Some who nf sm m : frontiers sm = Some m →
  store_frontier who nf sm = Ok {| self := self sm; frontiers := Some (<[who := nf]> m);
    tangleFrontiers := tangleFrontiers sm; updateCh := updateCh sm |}.
Proof using Type. unfold store_frontier. by intros ->. Qed.

Lemma Changed_lookup me peer sm feed : Changed me (Some peer) sm !! feed =
  (frontier_of me sm !! feed) ≫= λ myNote,
    match frontier_of peer sm !! feed with
    | None => Some myNote
    | Some theirNote => if differs myNote theirNote then Some myNote else None
    end.
Proof using Type. unfold Changed. apply map_lookup_imap. Qed.

(** Streams are started in the session; the matrix and what was written stay. *)
Lemma stream_feeds_frame session nf entries d :
  let d' := foldl (stream_feed session nf) d entries in
  matrix d' = matrix d ∧ written d' = written d ∧ store d' = store d.
Proof using Type.
  revert d. induction entries as [|[f n] l IH]; intros d; [done|]. cbn [foldl].
  destruct (IH (stream_feed session nf d (f, n))) as (-> & -> & ->).
  unfold stream_feed, start_stream. by repeat case_match.
Qed.

(** Which streams a frontier starts. *)
Definition wanted (nf : NetworkFrontier) (entry : string * Note) : option CreateHistArgs :=
  match nf !! entry.1 with
  | Some myNote =>
      if Receive entry.2 && bool_decide (Seq entry.2 < Seq myNote) then
        match ParseFeedRef entry.1 with
        | Ok feed => Some {| hist_ID := feed; hist_Seq := Seq entry.2 + 1; Limit := -1; Live := true |}
        | _ => None
        end
      else None
  | None => None
  end.
Lemma stream_feed_wanted session nf d entry :
  stream_feed session nf d entry =
  match wanted nf entry with Some arg => start_stream session entry.1 arg d | None => d end.
Proof using Type. destruct entry as [f n]. unfold stream_feed, wanted. cbn. by repeat case_match. Qed.

Lemma stream_feeds_started session nf entries d :
  (streams (foldl (stream_feed session nf) d entries)).*2 = (streams d).*2 ++ omap (wanted nf) entries.
Proof using Type.
  revert d. induction entries as [|e l IH]; intros d; cbn [foldl]; [by rewrite app_nil_r|].
  rewrite IH, stream_feed_wanted. simpl. destruct (wanted nf e) as [arg|]; [|done].
  unfold start_stream. cbn. by rewrite fmap_app, <-app_assoc.
Qed.

Lemma on_frontier_ok session remote update d m : frontiers (matrix d) = Some m →
  ∃ sm', Update (feed_string remote) update (matrix d) = Ok (update ∪ frontier_of (feed_string remote) (matrix d), sm') ∧
    frontiers sm' = Some (<[feed_string remote := update ∪ frontier_of (feed_string remote) (matrix d)]> m) ∧
    on_frontier selfRef (Some remote) session update d = Ok (
      let own := frontier_of (feed_string selfRef) sm' in
      let d1 := foldl (stream_feed session own) (set_matrix sm' d) (map_to_list update) in
      let wants := Changed (feed_string selfRef) (Some (feed_string remote)) sm' in
      if bool_decide (wants = ∅) then d1 else tx_write wants d1).
Proof using Type.
  intros Hm. unfold Update. rewrite (store_frontier_Some _ _ _ m) by done. eexists. split; [done|].
  split; [done|]. unfold on_frontier, Update. by rewrite (store_frontier_Some _ _ _ m).
Qed.

(** The streams a frontier starts are those of the feeds the peer wants to
    receive and has less of than this node, each from the message after the
    peer's last, live and without limit, one per feed and no other. *)
Theorem duplex_streams_exact (session : nat) (remote : FeedRef) (update : NetworkFrontier) d d' :
  on_frontier selfRef (Some remote) session update d = Ok d' →
  ∃ new, (streams d').*2 = (streams d).*2 ++ new ∧
    ∀ arg, arg ∈ new ↔ ∃ feedStr theirNote myNote,
      update !! feedStr = Some theirNote ∧
      frontier_of (feed_string selfRef) (matrix d') !! feedStr = Some myNote ∧
      Receive theirNote = true ∧ Seq theirNote < Seq myNote ∧
      ParseFeedRef feedStr = Ok (hist_ID arg) ∧
      hist_Seq arg = Seq theirNote + 1 ∧ Limit arg = -1 ∧ Live arg = true.
Proof using Type.
  intros H. destruct (frontiers (matrix d)) as [m|] eqn:Em; cycle 1.
  { unfold on_frontier, Update, store_frontier in H. by rewrite Em in H. }
  destruct (on_frontier_ok session remote update d m Em) as (sm' & _ & _ & E). rewrite E in H.
  cbn zeta in H. injection H as <-. clear E. set (own := frontier_of (feed_string selfRef) sm').
  destruct (stream_feeds_frame session own (map_to_list update) (set_matrix sm' d)) as (Hmx & _ & _).
  pose proof (stream_feeds_started session own (map_to_list update) (set_matrix sm' d)) as Hst.
  set (d1 := foldl _ _ _) in *. cbn in Hmx.
  assert (∀ d2, d2 = (if bool_decide (Changed (feed_string selfRef) (Some (feed_string remote)) sm' = ∅) then d1
    else tx_write (Changed (feed_string selfRef) (Some (feed_string remote)) sm') d1) →
    streams d2 = streams d1 ∧ matrix d2 = sm') as Hd2.
  { intros d2 ->. by case_bool_decide. }
  destruct (Hd2 _ eq_refl) as [-> ->]. clear Hd2. exists (omap (wanted own) (map_to_list update)).
  split; [done|]. intros arg. rewrite list_elem_of_omap. fold own. split.
  - intros ([f n] & Hin%elem_of_map_to_list & Hw). unfold wanted in Hw. cbn in Hw.
    repeat case_match; simplify_eq. apply andb_true_iff in H0 as [? ?%bool_decide_eq_true].
    eexists f, n, _. by split_and!.
  - intros (f & their & my & Hu & Ho & Hr & Hs & Hp & Hq & Hl & Hv). exists (f, their).
    split; [by apply elem_of_map_to_list|]. unfold wanted. cbn. rewrite Ho, Hr, bool_decide_eq_true_2, Hp by done.
    cbn. destruct arg; cbn in Hq, Hl, Hv |- *. by rewrite Hq, Hl, Hv.
Qed.

(** A frontier is answered exactly when, after taking it in, the peer's notes
    miss or contradict a note of this node. *)
Theorem reply_iff_differs (session : nat) (remote : FeedRef) (update : NetworkFrontier) d d' :
  on_frontier selfRef (Some remote) session update d = Ok d' →
  (written d' = written d ↔
   ∀ feed my, frontier_of (feed_string selfRef) (matrix d') !! feed = Some my →
     ∃ their, frontier_of (feed_string remote) (matrix d') !! feed = Some their ∧ differs my their = false).
Proof using Type.
  intros H. destruct (frontiers (matrix d)) as [m|] eqn:Em; cycle 1.
  { unfold on_frontier, Update, store_frontier in H. by rewrite Em in H. }
  destruct (on_frontier_ok session remote update d m Em) as (sm' & _ & _ & E). rewrite E in H.
  cbn zeta in H. injection H as <-. clear E. set (own := frontier_of (feed_string selfRef) sm').
  destruct (stream_feeds_frame session own (map_to_list update) (set_matrix sm' d)) as (Hmx & Hw & _).
  set (d1 := foldl _ _ _) in *. cbn in Hmx, Hw.
  set (wants := Changed (feed_string selfRef) (Some (feed_string remote)) sm').
  assert (wants = ∅ ↔ ∀ feed my, own !! feed = Some my →
     ∃ their, frontier_of (feed_string remote) sm' !! feed = Some their ∧ differs my their = false) as Hwants.
  { unfold wants. rewrite map_empty. split.
    - intros Hemp feed my Hf. specialize (Hemp feed). rewrite Changed_lookup in Hemp. fold own in Hemp.
      rewrite Hf in Hemp. cbn in Hemp. repeat case_match; try done. eauto.
    - intros Hall feed. rewrite Changed_lookup. fold own. destruct (own !! feed) as [my|] eqn:Ef; [|done]. cbn.
      destruct (Hall feed my Ef) as (their & -> & ->). done. }
  case_bool_decide as Hempty.
  - rewrite Hmx, Hw. split; [by intros _; apply Hwants|done].
  - cbn. rewrite Hmx, Hw. split.
    + intros Happ. apply (f_equal length) in Happ. rewrite length_app in Happ. cbn in Happ. lia.
    + intros Hall. by apply Hwants in Hall.
Qed.
End DuplexProofs.

(** ** Two nodes answering each other *)
Section PingPong.
Context {Store : Type}.
Implicit Types d : @Duplex Store.

(** A frontier goes to the node [me] from [peer]; the answer goes back, [n]
    times, with the roles exchanged each time. *)
Fixpoint ping_pong (n : nat) (me peer : FeedRef) (d dpeer : @Duplex Store) (wire : gmap string Z)
    : result (option (gmap string Z)) :=
  match n with
  | O => Ok (Some wire)
  | S n =>
      d' ← on_frontier me (Some peer) 0 (frontier_UnmarshalJSON wire) d;
      match drop (length (written d)) (written d') with
      | [answer] => ping_pong n peer me dpeer d' answer
      | _ => Ok None
      end
  end.

(** A node that has the note [n] of its own for the feed [X]. *)
Definition holds (me : FeedRef) (X : string) (n : Note) d : Prop :=
  is_Some (frontiers (matrix d)) ∧ frontier_of (feed_string me) (matrix d) !! X = Some n.

Lemma frontier_of_insert who who' nf sm m : frontiers sm = Some (<[who := nf]> m) →
  frontier_of who' sm = if bool_decide (who' = who) then nf else default ∅ (m !! who').
Proof using Type.
  intros E. unfold frontier_of. rewrite E. cbn. case_bool_decide as H.
  - subst. by rewrite lookup_insert_eq.
  - by rewrite lookup_insert_ne.
Qed.

Lemma answer_differing me peer X n npeer d wire :
  feed_string me ≠ feed_string peer → is_ok (ParseFeedRef X) = true →
  holds me X n d → wire !! X = Some (note_MarshalJSON npeer) →
  note_of (note_MarshalJSON npeer) = npeer → Seq n ≠ Seq npeer →
  ∃ d' answer, on_frontier me (Some peer) 0 (frontier_UnmarshalJSON wire) d = Ok d' ∧
    written d' = written d ++ [answer] ∧ answer !! X = Some (note_MarshalJSON n) ∧ holds me X n d'.
Proof using Type.
  intros Hne Hx [[m Hm] Hown] Hw Hrt Hseq.
  destruct (on_frontier_ok me 0 peer (frontier_UnmarshalJSON wire) d m Hm) as (sm' & _ & Hf & ->).
  cbn zeta. set (own := frontier_of (feed_string me) sm').
  destruct (stream_feeds_frame 0 own (map_to_list (frontier_UnmarshalJSON wire)) (set_matrix sm' d)) as (Hmx & Hwr & _).
  set (d1 := foldl _ _ _) in *. cbn in Hmx, Hwr.
  assert (Hown' : own !! X = Some n).
  { unfold own. rewrite (frontier_of_insert _ _ _ _ _ Hf), bool_decide_eq_false_2 by done.
    unfold frontier_of in Hown. rewrite Hm in Hown. exact Hown. }
  assert (Hpeer : frontier_of (feed_string peer) sm' !! X = Some npeer).
  { rewrite (frontier_of_insert _ _ _ _ _ Hf), bool_decide_eq_true_2 by done.
    apply lookup_union_Some_l. unfold frontier_UnmarshalJSON. rewrite lookup_fmap.
    rewrite (map_lookup_filter_Some_2 _ wire X (note_MarshalJSON npeer)) by done. cbn. by rewrite Hrt. }
  assert (Hwant : Changed (feed_string me) (Some (feed_string peer)) sm' !! X = Some n).
  { rewrite Changed_lookup. fold own. rewrite Hown'. cbn. rewrite Hpeer. unfold differs.
    by rewrite bool_decide_eq_false_2. }
  rewrite bool_decide_eq_false_2 by (intros Hemp; by rewrite Hemp, lookup_empty in Hwant).
  eexists _, _. split; [done|]. cbn. rewrite Hwr. split_and!; [done| |].
  - unfold frontier_MarshalJSON. by rewrite lookup_fmap, Hwant.
  - unfold holds. cbn. rewrite Hmx. split; [rewrite Hf; by eexists|exact Hown'].
Qed.

(** C38. Two nodes that hold different sequence numbers of a feed never stop
    answering each other: nothing remembers which note was sent, every frontier
    received is answered with the notes that differ, and the answer differs
    again, so however many rounds pass one more frontier is on its way. Only
    appending the missing messages ends the exchange. *)
Theorem replication_never_settles (n : nat) (me peer : FeedRef) (X : string)
    (note_me note_peer : Note) d dpeer wire :
  feed_string me ≠ feed_string peer → is_ok (ParseFeedRef X) = true →
  holds me X note_me d → holds peer X note_peer dpeer →
  note_of (note_MarshalJSON note_me) = note_me → note_of (note_MarshalJSON note_peer) = note_peer →
  Seq note_me ≠ Seq note_peer → wire !! X = Some (note_MarshalJSON note_peer) →
  ∃ answer, ping_pong n me peer d dpeer wire = Ok (Some answer) ∧ is_Some (answer !! X).
Proof using Type.
  revert me peer note_me note_peer d dpeer wire.
  induction n as [|n IH]; intros me peer n1 n2 d dp wire Hne Hx Hh Hhp Hr1 Hr2 Hs Hw.
  - exists wire. split; [done|by eexists].
  - destruct (answer_differing me peer X n1 n2 d wire) as (d' & answer & E & Hwr & Ha & Hh'); [done..|].
    cbn [ping_pong]. rewrite E. cbn [mbind result_mbind result_bind].
    rewrite Hwr, drop_app_length. by eapply IH.
Qed.
End PingPong.

(** ** History streams *)

(** The wait before the [r]th retry and the time waited before it. *)
Fixpoint delay_after (r : nat) : Z :=
  match r with
  | O => firstDelay
  | S r => let delay := delay_after r in if bool_decide (delay < 2 * second) then delay * 2 else delay
  end.
Fixpoint waited (r : nat) : Z :=
  match r with O => 0 | S r => waited r + delay_after r end.

Definition same_but_seq (e1 e2 : HistEnv) : Prop :=
  GetMessage e1 = GetMessage e2 ∧ ctx_done e1 = ctx_done e2 ∧ tx_Write e1 = tx_Write e2 ∧ elapses e1 = elapses e2.

Lemma waited_23 r : (r <= 23)%nat → waited r <= maxWaitTime → (r <= 22)%nat.
Proof.
  intros Hr Hw. destruct (decide (r = 23)%nat) as [->|]; [|lia]. exfalso. revert Hw.
  apply (bool_decide_eq_false (waited 23 <= maxWaitTime)). by vm_compute.
Qed.

(** A state that has polled [r] times in vain since its last message. *)
Definition polled (r : nat) (h : Hist) : Prop :=
  retries h = Z.of_nat r ∧ retryDelay h = delay_after r ∧ waited r <= now h - startTime h.

Lemma poll_step env t arg h r :
  Live arg = true → ¬ (0 < Limit arg) → 0 <= elapses env t → (r <= 23)%nat →
  GetMessage env t (hist_ID arg) (seq h) = NotFound → polled r h →
  match hist_turn env t arg h with
  | Return err => err = None ∨ err = Some "context canceled"
  | Retry h' => polled (S r) h' ∧ seq h' = seq h ∧ (r <= 22)%nat
  | Send _ _ => False
  end ∧ ∀ env', same_but_seq env' env → hist_turn env' t arg h = hist_turn env t arg h.
Proof.
  intros Hlive Hlim Hel Hr Hg (Hre & Hd & Hw). unfold hist_turn.
  rewrite (bool_decide_eq_false_2 (0 < Limit arg)) by done. cbn [andb].
  assert (Hkey : not_found env t arg h = (if bool_decide (maxWaitTime < now h - startTime h) then Return None
    else if ctx_done env t then Return (Some "context canceled")
    else Retry {| seq := seq h; retries := retries h + 1; retryDelay := delay_after (S r);
             startTime := startTime h; now := now h + delay_after r + elapses env t; sent := sent h |})).
  { unfold not_found. rewrite Hlive. cbn [negb]. case_bool_decide; [done|].
    rewrite (bool_decide_eq_false_2 (maxRetries < _)) by (rewrite Hre; unfold maxRetries; lia).
    cbn [andb]. by rewrite Hd. }
  split.
  - rewrite Hg, Hkey. case_bool_decide as Hmax; [by left|]. destruct (ctx_done env t); [by right|].
    split_and!; [|done|apply waited_23; [done|lia]]. unfold polled. cbn [retries retryDelay now startTime].
    split_and!; [lia|done|]. cbn [waited]. lia.
  - intros env' (E1 & E2 & E3 & E4). rewrite E1, Hg. rewrite Hkey. unfold not_found. rewrite Hlive, E2, E4.
    cbn [negb]. case_bool_decide; [done|].
    rewrite (bool_decide_eq_false_2 (maxRetries < _)) by (rewrite Hre; unfold maxRetries; lia).
    cbn [andb]. by rewrite Hd.
Qed.

Lemma poll_loop k : ∀ env t arg h r fuel,
  Live arg = true → ¬ (0 < Limit arg) → (∀ t, 0 <= elapses env t) →
  (∀ t', (t <= t')%nat → GetMessage env t' (hist_ID arg) (seq h) = NotFound) →
  polled r h → (r + k = 23)%nat → (k < fuel)%nat →
  ∃ err, hist_loop fuel env t arg h = ([], Some err) ∧ (err = None ∨ err = Some "context canceled") ∧
    ∀ env', same_but_seq env' env → hist_loop fuel env' t arg h = ([], Some err).
Proof.
  induction k as [|k IH]; intros env t arg h r fuel Hlive Hlim Hel Hg Hp Hr Hf;
    (destruct fuel as [|fuel]; [lia|]); cbn [hist_loop];
    destruct (poll_step env t arg h r Hlive Hlim (Hel t) ltac:(lia) (Hg t ltac:(lia)) Hp) as [Hturn Hsame];
    destruct (hist_turn env t arg h) as [err|h' msg|h'] eqn:Et; try done.
  - exists err. split_and!; [done|done|]. intros env' He. by rewrite (Hsame env' He).
  - destruct Hturn as (_ & _ & Hr22). lia.
  - exists err. split_and!; [done|done|]. intros env' He. by rewrite (Hsame env' He).
  - destruct Hturn as (Hp' & Hseq & _).
    destruct (IH env (S t) arg h' (S r) fuel) as (err & E & Herr & Hs); [done|done|done| |done|lia|lia|].
    { intros t' Ht. rewrite Hseq. apply Hg. lia. }
    exists err. split_and!; [done|done|]. intros env' He. rewrite (Hsame env' He). by apply Hs.
Qed.

(** A live history stream whose next message never comes ends by itself
    within 24 polls, without an error, whatever the store answers about the
    sequence of the feed: the minute of waiting passes long before the fiftieth
    retry, so the branch that asks for the sequence and restarts the backoff is
    never taken. *)
Theorem history_gives_up (env : HistEnv) (arg : CreateHistArgs) (start : Z) (fuel : nat) :
  Live arg = true → Limit arg = -1 → (∀ t, 0 <= elapses env t) →
  (∀ t, GetMessage env t (hist_ID arg) (hist_Seq arg) = NotFound) → (24 <= fuel)%nat →
  ∃ err, createStreamHistory fuel env arg start = ([], Some err) ∧
    (err = None ∨ err = Some "context canceled") ∧
    ∀ env', same_but_seq env' env → createStreamHistory fuel env' arg start = ([], Some err).
Proof.
  intros Hlive Hlim Hel Hg Hf. unfold createStreamHistory.
  apply (poll_loop 23 env 0 arg (hist_init arg start) 0 fuel); [done|lia|done| | |lia|lia].
  - intros t' _. apply Hg.
  - unfold polled, hist_init. cbn. split_and!; [done|done|lia].
Qed.

(** A store that holds a feed and does not change. *)
Definition serves (env : HistEnv) (feed : FeedRef) (log : list bytes) : Prop :=
  (∀ t s, GetMessage env t feed s =
     match (if bool_decide (1 <= s) then log !! Z.to_nat (s - 1) else None) with
     | Some m => Found m | None => NotFound end) ∧
  (∀ t, tx_Write env t = None) ∧ (∀ t, ctx_done env t = false) ∧ (∀ t, 0 <= elapses env t).

Lemma canceled_no env t arg h err : ctx_done env t = false → not_found env t arg h = Return err → err = None.
Proof. unfold not_found. intros ->. by repeat case_match; intros [= <-]. Qed.

Lemma poll_loop_none k env t arg h r fuel log :
  Live arg = true → ¬ (0 < Limit arg) → serves env (hist_ID arg) log →
  (1 <= seq h) → (length log < Z.to_nat (seq h))%nat → polled r h → (r + k = 23)%nat → (k < fuel)%nat →
  hist_loop fuel env t arg h = ([], Some None).
Proof.
  intros Hlive Hlim (Hg & _ & Hc & Hel) Hs Hlog. revert t h r fuel Hs Hlog.
  induction k as [|k IH]; intros t h r fuel Hs Hlog Hp Hr Hf; (destruct fuel as [|fuel]; [lia|]); cbn [hist_loop];
    (assert (Hnf : ∀ t, GetMessage env t (hist_ID arg) (seq h) = NotFound)
      by (intros t'; rewrite Hg, bool_decide_eq_true_2 by done; by rewrite lookup_ge_None_2 by lia));
    destruct (poll_step env t arg h r Hlive Hlim (Hel t) ltac:(lia) (Hnf t) Hp) as [Hturn _];
    destruct (hist_turn env t arg h) as [err|h' msg|h'] eqn:Et; try done.
  - do 2 f_equal. unfold hist_turn in Et. rewrite Hnf, (bool_decide_eq_false_2 (0 < Limit arg)) in Et by done.
    by apply canceled_no in Et.
  - destruct Hturn as (_ & _ & Hr22). lia.
  - do 2 f_equal. unfold hist_turn in Et. rewrite Hnf, (bool_decide_eq_false_2 (0 < Limit arg)) in Et by done.
    by apply canceled_no in Et.
  - destruct Hturn as (Hp' & Hseq & _). apply (IH _ _ (S r)); [lia|lia|done|lia|lia].
Qed.

(** A history stream over a feed that does not change sends every message from
    the requested sequence on, in order and once, and then returns without an
    error, live or not. *)
Theorem history_delivers (env : HistEnv) (arg : CreateHistArgs) (log : list bytes) (start : Z) (fuel : nat) :
  serves env (hist_ID arg) log → Limit arg = -1 → 1 <= hist_Seq arg →
  (length log + 24 <= fuel)%nat →
  createStreamHistory fuel env arg start = (drop (Z.to_nat (hist_Seq arg - 1)) log, Some None).
Proof.
  intros Hserves Hlim Hseq Hf. unfold createStreamHistory.
  assert (∀ k t h fuel, polled 0 h → 1 <= seq h → (length log - Z.to_nat (seq h - 1) <= k)%nat →
    (k + 24 <= fuel)%nat → hist_loop fuel env t arg h = (drop (Z.to_nat (seq h - 1)) log, Some None)) as Hgen.
  { induction k as [|k IH]; intros t h fuel' Hp Hs Hk Hfu.
    all: destruct (decide (Z.to_nat (seq h - 1) < length log)%nat) as [Hlt|Hge].
    all: try lia.
    all: try (rewrite drop_ge by lia; destruct (Live arg) eqn:Hlive;
      [apply (poll_loop_none 23 _ _ _ _ 0 _ log); done || lia|];
      (destruct fuel' as [|fuel']; [lia|]); cbn [hist_loop]; unfold hist_turn;
      rewrite (bool_decide_eq_false_2 (0 < Limit arg)) by lia; cbn [andb];
      rewrite (proj1 Hserves), bool_decide_eq_true_2, lookup_ge_None_2 by lia;
      unfold not_found; by rewrite Hlive).
    destruct fuel' as [|fuel']; [lia|]. cbn [hist_loop]. unfold hist_turn.
    rewrite (bool_decide_eq_false_2 (0 < Limit arg)) by lia. cbn [andb].
    destruct (lookup_lt_is_Some_2 log _ Hlt) as [m Hm].
    destruct Hserves as (Hg & Hw & Hc & Hel). rewrite Hg, bool_decide_eq_true_2, Hm, Hw by done.
    rewrite (IH (S t)); cbn [seq]; [|split_and!; cbn; [done|done|pose proof (Hel t); lia]|lia|lia|lia].
    rewrite (drop_S log m _ Hm). do 3 f_equal. lia. }
  apply (Hgen (length log)); cbn; [split_and!; cbn; [done|done|lia]|done|lia|done].
Qed.
