(* ===== verification/Bencode.v ===== *)
(** * Bencode (internal/ssb/message/bencode/bencode.go)

    The encoding of BendyButt messages: integers, strings, lists and dictionaries.
    A value of a Go [interface{}] is a tree; [string], [[]byte], [String] and so on
    are told apart because the encoder accepts all of them and the decoder
    returns one. *)
From stdpp Require Import sorting.
From S2P Require Import Prelude GoStr GoBytes Base64.
#[local] Open Scope string_scope.
#[local] Open Scope list_scope.
#[local] Open Scope Z_scope.

Definition ErrInvalidBencode : string := "bencode: invalid bencode data".
Definition ErrUnexpectedEnd : string := "bencode: unexpected end of data".
Definition ErrInvalidInteger : string := "bencode: invalid integer".
Definition ErrInvalidString : string := "bencode: invalid string".
Definition ErrUnsupportedType : string := "bencode: unsupported type".

(** ** Values

    [Int] stands for the signed integer types and [Integer], [Uint] for the
    unsigned ones, [Str] for [string] and [String], [Bytes] for [[]byte], [List]
    and [Dict] for the named and the plain composite types, [Nil] for nil, and
    [Other] for the dynamic types that have no case, by their name. A map is a list of entries
    with distinct keys, whose order means nothing. *)
Inductive Value :=
| Int (n : Z)
| Uint (n : Z)
| Str (s : bytes)
| Bytes (b : bytes)
| List (l : list Value)
| Dict (m : list (bytes * Value))
| Nil
| Bool (b : bool)
| Other (type : string).

Section Value_ind.
Context (P : Value → Prop).
Context (HInt : ∀ n, P (Int n)) (HUint : ∀ n, P (Uint n)) (HStr : ∀ s, P (Str s)) (HBytes : ∀ b, P (Bytes b))
  (HList : ∀ l, Forall P l → P (List l)) (HDict : ∀ m, Forall (λ kv, P kv.2) m → P (Dict m))
  (HNil : P Nil) (HBool : ∀ b, P (Bool b)) (HOther : ∀ t, P (Other t)).
Fixpoint Value_nested_ind (v : Value) : P v :=
  match v with
  | Int n => HInt n | Uint n => HUint n | Str s => HStr s | Bytes b => HBytes b
  | List l => HList l ((fix go l : Forall P l :=
      match l with [] => Forall_nil_2 _ | v :: l => Forall_cons_2 _ _ _ (Value_nested_ind v) (go l) end) l)
  | Dict m => HDict m ((fix go m : Forall (λ kv, P kv.2) m :=
      match m with [] => Forall_nil_2 _ | kv :: m => Forall_cons_2 _ _ _ (Value_nested_ind kv.2) (go m) end) m)
  | Nil => HNil | Bool b => HBool b | Other t => HOther t
  end.
End Value_ind.

(** ** Maps as lists of entries *)
Fixpoint get {A} (k : bytes) (m : list (bytes * A)) : option A :=
  match m with
  | [] => None
  | (k', v) :: m => if bool_decide (k = k') then Some v else get k m
  end.
(** [m[k] = v] *)
Fixpoint set {A} (k : bytes) (v : A) (m : list (bytes * A)) : list (bytes * A) :=
  match m with
  | [] => [(k, v)]
  | (k', v') :: m => if bool_decide (k = k') then (k, v) :: m else (k', v') :: set k v m
  end.
Definition SortedKeys {A} (m : list (bytes * A)) : list bytes := sortStrings (fst <$> m).

(** ** Encoding *)

(** [%d:%s] of a string and [i%de] of an integer. *)
Definition encode_string (s : bytes) : bytes := to_l (itoa (Z.of_nat (length s))) ++ to_l ":" ++ s.
Definition encode_int (n : Z) : bytes := to_l "i" ++ to_l (itoa n) ++ to_l "e".

(** The elements of a list, up to the first error. *)
Fixpoint encode_elems (l : list (result bytes)) : result bytes :=
  match l with
  | [] => Ok []
  | e :: l => b ← e; rest ← encode_elems l; Ok (b ++ rest)
  end.
(** The entries of a map in the order of its sorted keys; [entries] are the
    encodings of the values. *)
Fixpoint encode_entries (entries : list (bytes * result bytes)) (keys : list bytes) : result bytes :=
  match keys with
  | [] => Ok []
  | key :: keys =>
      b ← default (Ok (encode_string [])) (get key entries);
      rest ← encode_entries entries keys;
      Ok (encode_string key ++ b ++ rest)
  end.
Fixpoint encodeValue (v : Value) : result bytes :=
  match v with
  | Int n | Uint n => Ok (encode_int n)
  | Str s | Bytes s => Ok (encode_string s)
  | List l => b ← encode_elems (encodeValue <$> l); Ok (to_l "l" ++ b ++ to_l "e")
  | Dict m =>
      b ← encode_entries ((λ kv, (kv.1, encodeValue kv.2)) <$> m) (SortedKeys m);
      Ok (to_l "d" ++ b ++ to_l "e")
  | Nil => Ok (to_l "0:")
  | Bool _ => Err (ErrUnsupportedType +:+ ": bool")
  | Other type => Err (ErrUnsupportedType +:+ ": " +:+ type)
  end.
Definition Encode (v : Value) : result bytes := encodeValue v.

(** ** Decoding

    A reader is the bytes still to come. *)
Fixpoint read_until (c : ascii) (r : bytes) : option (bytes * bytes) :=
  match r with
  | [] => None
  | b :: r => if bool_decide (b = c) then Some ([], r) else
      '(pre, rest) ← read_until c r; Some (b :: pre, rest)
  end.

Definition decodeInteger (r : bytes) : result (Z * bytes) :=
  match read_until "e" r with
  | None => Err ErrUnexpectedEnd
  | Some (buf, r) =>
      match ParseInt (of_l buf) with
      | Some n => Ok (n, r)
      | None => Err ErrInvalidInteger
      end
  end.

(** The digits of a length, up to the colon. *)
Fixpoint read_length (r : bytes) : result (bytes * bytes) :=
  match r with
  | [] => Err ErrUnexpectedEnd
  | b :: r =>
      if bool_decide (b = ":"%char) then Ok ([], r)
      else if negb (is_digit b) then Err ErrInvalidString
      else p ← read_length r; Ok (b :: p.1, p.2)
  end.
(** The largest slice [make] allocates on a 64-bit system; a longer one panics. *)
Definition max_alloc : Z := 2 ^ 48.
Definition decodeString (r : bytes) : result (bytes * bytes) :=
  p ← read_length r;
  match ParseInt (of_l p.1) with
  | None => Err ErrInvalidString
  | Some length =>
      if bool_decide (length < 0) then Err ErrInvalidString
      else if bool_decide (max_alloc < length) then Panic
      else
        let n := Z.to_nat length in
        if bool_decide (n <= List.length p.2)%nat then Ok (take n p.2, drop n p.2)
        else Err ErrUnexpectedEnd
  end.

(** [%c] of a byte *)
Definition rune_of (b : ascii) : string :=
  if bool_decide (ord b < 128) then of_l [b]
  else of_l [chr (192 + ord b / 64); chr (128 + ord b mod 64)].

Fixpoint decodeValue (fuel : nat) (r : bytes) : result (Value * bytes) :=
  match fuel, r with
  | O, _ => Err "out of fuel"
  | _, [] => Ok (Nil, [])
  | S fuel, b :: rest =>
      if bool_decide (b = "i"%char) then p ← decodeInteger rest; Ok (Int p.1, p.2)
      else if bool_decide (b = "l"%char) then p ← decodeList fuel rest; Ok (List p.1, p.2)
      else if bool_decide (b = "d"%char) then p ← decodeDict fuel rest []; Ok (Dict p.1, p.2)
      else if is_digit b then p ← decodeString r; Ok (Str p.1, p.2)
      else Err (ErrInvalidBencode +:+ ": unexpected byte " +:+ rune_of b)
  end
with decodeList (fuel : nat) (r : bytes) : result (list Value * bytes) :=
  match fuel, r with
  | O, _ => Err "out of fuel"
  | _, [] => Err ErrUnexpectedEnd
  | S fuel, peek :: rest =>
      if bool_decide (peek = "e"%char) then Ok ([], rest)
      else p ← decodeValue fuel r; q ← decodeList fuel p.2; Ok (p.1 :: q.1, q.2)
  end
with decodeDict (fuel : nat) (r : bytes) (dict : list (bytes * Value)) : result (list (bytes * Value) * bytes) :=
  match fuel, r with
  | O, _ => Err "out of fuel"
  | _, [] => Err ErrUnexpectedEnd
  | S fuel, peek :: rest =>
      if bool_decide (peek = "e"%char) then Ok (dict, rest)
      else k ← decodeString r; p ← decodeValue fuel k.2; decodeDict fuel p.2 (set k.1 p.1 dict)
  end.
(** Every second call consumes a byte. *)
Definition decode_fuel (b : bytes) : nat := 2 * length b + 3.
Definition DecodeBytes (b : bytes) : result Value := p ← decodeValue (decode_fuel b) b; Ok p.1.

(** ** Helpers *)
Definition EncodeString (s : bytes) : bytes := match Encode (Str s) with Ok b => b | _ => [] end.
Definition EncodeInt64 (i : Z) : bytes := match Encode (Int i) with Ok b => b | _ => [] end.
Definition MustEncode (v : Value) : result bytes := match Encode v with Ok b => Ok b | _ => Panic end.

(** A base64 string with a two byte prefix, as bencode values carry them. *)
Definition DecodeB64String (b : bytes) : result bytes :=
  if bool_decide (length b < 2)%nat then Panic
  else match DecodeString StdEncoding (of_l (drop 2 b)) with
       | Some data => Ok data | None => Err "illegal base64 data" end.

(** ** What an encoding means

    The value the decoder reads back: byte slices are strings, nil is the empty
    string, maps are in the order of their keys. *)
Fixpoint plain (v : Value) : Value :=
  match v with
  | Uint n => Int n
  | Bytes b => Str b
  | Nil => Str []
  | List l => List (plain <$> l)
  | Dict m =>
      let entries := (λ kv, (kv.1, plain kv.2)) <$> m in
      Dict ((λ key, (key, default (Str []) (get key entries))) <$> SortedKeys m)
  | v => v
  end.

(** Integers of 64 bits, strings that can be allocated, maps with one entry per
    key. *)
Inductive encodable : Value → Prop :=
| enc_Int n : - 2 ^ 63 <= n < 2 ^ 63 → encodable (Int n)
| enc_Uint n : 0 <= n < 2 ^ 63 → encodable (Uint n)
| enc_Str s : Z.of_nat (length s) <= max_alloc → encodable (Str s)
| enc_Bytes s : Z.of_nat (length s) <= max_alloc → encodable (Bytes s)
| enc_List l : Forall encodable l → encodable (List l)
| enc_Dict m : NoDup (fst <$> m) → Forall (λ kv, Z.of_nat (length kv.1) <= max_alloc ∧ encodable kv.2) m →
    encodable (Dict m)
| enc_Nil : encodable Nil.

(** ** Reading back what was written *)
Lemma encode_string_length s : (2 <= length (encode_string s))%nat.
Proof.
  unfold encode_string. rewrite !length_app. unfold itoa. rewrite bool_decide_eq_false_2 by lia.
  destruct (itoaN_cons (Z.to_N (Z.of_nat (length s)))) as (c & t & -> & _). simpl. lia.
Qed.

Lemma itoa_nat_digits n : Forall (λ c, is_digit c = true) (to_l (itoa (Z.of_nat n))).
Proof. unfold itoa. rewrite bool_decide_eq_false_2 by lia. apply itoaN_digits. Qed.
Lemma itoa_nat_cons n : ∃ c s, to_l (itoa (Z.of_nat n)) = c :: s ∧ is_digit c = true.
Proof.
  unfold itoa. rewrite bool_decide_eq_false_2 by lia.
  destruct (itoaN_cons (Z.to_N (Z.of_nat n))) as (c & t & -> & ?). simpl. eauto.
Qed.
Lemma digit_ne c d : is_digit c = true → is_digit d = false → c ≠ d.
Proof. intros H1 H2 ->. congruence. Qed.

Lemma itoa_lacks_e n : Forall (λ c, c ≠ "e"%char) (to_l (itoa n)).
Proof.
  assert (∀ m, Forall (λ c, c ≠ "e"%char) (to_l (itoaN m))) as H.
  { intros m. eapply List.Forall_impl; [|apply itoaN_digits]. intros c Hc. by apply (digit_ne c). }
  unfold itoa. case_bool_decide; [|apply H]. constructor; [done|apply H].
Qed.

Lemma read_until_app c l rest : Forall (λ b, b ≠ c) l → read_until c (l ++ c :: rest) = Some (l, rest).
Proof.
  induction 1 as [|b l Hb Hl IH]; simpl; [by rewrite bool_decide_eq_true_2|].
  by rewrite bool_decide_eq_false_2, IH.
Qed.
Lemma read_length_app l rest : Forall (λ c, is_digit c = true) l → read_length (l ++ ":"%char :: rest) = Ok (l, rest).
Proof.
  induction 1 as [|b l Hb Hl IH]; cbn [read_length app]; [by rewrite bool_decide_eq_true_2|].
  rewrite bool_decide_eq_false_2 by (by apply (digit_ne b)). rewrite Hb. cbn [negb]. by rewrite IH.
Qed.

Lemma decode_integer_app n rest : - 2 ^ 63 <= n < 2 ^ 63 →
  decodeInteger (to_l (itoa n) ++ "e"%char :: rest) = Ok (n, rest).
Proof.
  intros Hn. unfold decodeInteger. rewrite read_until_app by apply itoa_lacks_e.
  by rewrite of_to_l, ParseInt_itoa.
Qed.
Lemma decode_string_app s rest : Z.of_nat (length s) <= max_alloc →
  decodeString (encode_string s ++ rest) = Ok (s, rest).
Proof.
  intros Hs. unfold decodeString, encode_string. rewrite <-app_assoc. change (to_l ":" ++ s) with (":"%char :: s).
  cbn [app]. rewrite read_length_app by apply itoa_nat_digits. unfold mbind, result_mbind, result_bind. cbn [fst snd].
  unfold max_alloc in *. rewrite of_to_l, ParseInt_itoa by lia.
  rewrite !bool_decide_eq_false_2 by lia. rewrite Nat2Z.id, bool_decide_eq_true_2 by (rewrite length_app; lia).
  by rewrite take_app_exact, drop_app_exact.
Qed.

(** Every encoding starts with a byte that does not end a list. *)
Definition opens (b : bytes) : Prop := ∃ c rest, b = c :: rest ∧ c ≠ "e"%char.
Lemma encode_string_opens s : opens (encode_string s).
Proof.
  unfold encode_string. destruct (itoa_nat_cons (length s)) as (c & t & -> & Hc).
  eexists c, _. split; [done|]. by apply (digit_ne c).
Qed.
Lemma encode_opens v b : encodeValue v = Ok b → opens b.
Proof.
  destruct v; cbn [encodeValue]; unfold mbind, result_mbind, result_bind; intros H; repeat case_match; simplify_eq;
    try apply encode_string_opens; by eexists _, _.
Qed.

(** The decoder reads [b] back as [v], whatever follows. *)
Definition reads_back (v : Value) (b : bytes) : Prop :=
  ∀ fuel rest, (2 * length b <= fuel)%nat → decodeValue fuel (b ++ rest) = Ok (plain v, rest).

Lemma reads_back_string v s : plain v = Str s → Z.of_nat (length s) <= max_alloc → reads_back v (encode_string s).
Proof.
  intros Hv Hs [|fuel] rest Hf; [pose proof (encode_string_length s); lia|].
  pose proof (decode_string_app s rest Hs) as Hd. revert Hd.
  unfold encode_string. destruct (itoa_nat_cons (length s)) as (c & t & -> & Hc). cbn [app decodeValue]. intros Hd.
  rewrite !bool_decide_eq_false_2 by (by apply (digit_ne c)). by rewrite Hc, Hd, Hv.
Qed.
Lemma reads_back_int v n : plain v = Int n → - 2 ^ 63 <= n < 2 ^ 63 → reads_back v (encode_int n).
Proof.
  intros Hv Hn [|fuel] rest Hf; [simpl in Hf; lia|]. unfold encode_int. rewrite <-!app_assoc. cbn [app decodeValue to_l].
  rewrite bool_decide_eq_true_2 by done. cbn [app]. by rewrite decode_integer_app, Hv.
Qed.

Lemma decode_elems l b rest fuel : Forall (λ v, ∃ b, encodeValue v = Ok b ∧ reads_back v b) l →
  encode_elems (encodeValue <$> l) = Ok b → (2 * length b + 1 <= fuel)%nat →
  decodeList fuel (b ++ "e"%char :: rest) = Ok (plain <$> l, rest).
Proof.
  intros Hl. revert b fuel. induction Hl as [|v l (bv & Ev & Hv) Hl IH]; intros b [|fuel] Hb Hf; try lia; cbn in Hb.
  { injection Hb as <-. cbn. by rewrite bool_decide_eq_true_2. }
  rewrite Ev in Hb. unfold mbind, result_mbind, result_bind in Hb. destruct (encode_elems _) as [bl| |] eqn:El; try done.
  injection Hb as <-. destruct (encode_opens v bv Ev) as (c & t & -> & Hc).
  rewrite length_app in Hf. rewrite <-app_assoc. cbn [app decodeList length] in *.
  rewrite bool_decide_eq_false_2 by done. change (c :: t ++ bl ++ "e"%char :: rest) with ((c :: t) ++ bl ++ "e"%char :: rest).
  rewrite Hv by (simpl; lia). unfold mbind, result_mbind, result_bind. cbn [fst snd].
  by rewrite (IH bl) by (done || lia).
Qed.

(** *** Dictionaries *)
Lemma get_map {A B} (f : A → B) k (m : list (bytes * A)) :
  get k ((λ kv, (kv.1, f kv.2)) <$> m) = f <$> get k m.
Proof. induction m as [|[k' v] m IH]; [done|]. cbn. by case_bool_decide. Qed.
Lemma get_elem {A} k (v : A) m : get k m = Some v → (k, v) ∈ m.
Proof.
  induction m as [|[k' v'] m IH]; [done|]. cbn. case_bool_decide; [intros [= <-]; subst; left|intros H'; right; auto].
Qed.
Lemma get_is_Some {A} k (m : list (bytes * A)) : k ∈ m.*1 → is_Some (get k m).
Proof.
  induction m as [|[k' v'] m IH]; [by intros ?%elem_of_nil|]. cbn. intros [->|H]%elem_of_cons.
  - rewrite bool_decide_eq_true_2 by done. eauto.
  - case_bool_decide; eauto.
Qed.
Lemma set_fresh {A} k (v : A) m : k ∉ m.*1 → set k v m = m ++ [(k, v)].
Proof.
  induction m as [|[k' v'] m IH]; [done|]. cbn. rewrite not_elem_of_cons. intros [Hne H].
  rewrite bool_decide_eq_false_2 by done. by rewrite IH.
Qed.

(** The entries of [keys] in that order, for a map [m] of plain values. *)
Definition entries_at (m : list (bytes * Value)) (keys : list bytes) : list (bytes * Value) :=
  (λ key, (key, default (Str []) (get key m))) <$> keys.

Lemma decode_entries m keys b rest dict fuel :
  Forall (λ kv, Z.of_nat (length kv.1) <= max_alloc ∧ ∃ b, encodeValue kv.2 = Ok b ∧ reads_back kv.2 b) m →
  (∀ k, k ∈ keys → k ∈ m.*1) → NoDup keys → (∀ k, k ∈ keys → k ∉ dict.*1) →
  encode_entries ((λ kv, (kv.1, encodeValue kv.2)) <$> m) keys = Ok b →
  (2 * length b + 1 <= fuel)%nat →
  decodeDict fuel (b ++ "e"%char :: rest) dict =
    Ok (dict ++ entries_at ((λ kv, (kv.1, plain kv.2)) <$> m) keys, rest).
Proof.
  intros Hm. revert b dict fuel. induction keys as [|k keys IH]; intros b dict [|fuel] Hk Hnd Hdict Hb Hf; try lia;
    cbn [encode_entries] in Hb.
  { injection Hb as <-. cbn. rewrite bool_decide_eq_true_2 by done. by rewrite app_nil_r. }
  destruct (get_is_Some k m) as [v Hv]; [apply Hk; left|]. rewrite get_map, Hv in Hb. cbn [fmap option_fmap option_map default id] in Hb.
  pose proof (get_elem _ _ _ Hv) as Hin. rewrite list.Forall_forall in Hm.
  destruct (Hm _ Hin) as (Hlen & bv & Ev & Hback). cbn [fst snd] in *. rewrite Ev in Hb.
  unfold mbind, result_mbind, result_bind in Hb. destruct (encode_entries _ keys) as [bl| |] eqn:El; try done.
  injection Hb as <-. destruct (encode_string_opens k) as (c & t & Ec & Hc).
  apply list.NoDup_cons in Hnd as [Hnk Hnd]. rewrite !length_app in Hf. rewrite <-!app_assoc.
  pose proof (encode_string_length k) as Hkl. rewrite Ec. cbn [app decodeDict].
  rewrite bool_decide_eq_false_2 by done.
  change (c :: t ++ bv ++ bl ++ "e"%char :: rest) with ((c :: t) ++ bv ++ bl ++ "e"%char :: rest). rewrite <-Ec.
  rewrite decode_string_app by done. unfold mbind, result_mbind, result_bind. cbn [fst snd].
  rewrite Hback by lia. cbn [fst snd]. rewrite set_fresh by (apply Hdict; left).
  rewrite (IH bl); [| | done | | done | lia].
  - cbn [entries_at fmap list_fmap]. rewrite get_map, Hv. cbn. by rewrite <-app_assoc.
  - intros k' Hk'. apply Hk. by right.
  - intros k' Hk'. rewrite fmap_app, not_elem_of_app. split; [apply Hdict; by right|]. cbn.
    rewrite list_elem_of_singleton. by intros ->.
Qed.

Lemma encode_elems_ok l : Forall (λ v, ∃ b, encodeValue v = Ok b) l → ∃ b, encode_elems (encodeValue <$> l) = Ok b.
Proof.
  induction 1 as [|v l [b Hb] _ [bl Hbl]]; [by eexists|]. cbn. rewrite Hb. cbn. rewrite Hbl. by eexists.
Qed.
Lemma encode_entries_ok m keys : Forall (λ kv : bytes * Value, ∃ b, encodeValue kv.2 = Ok b) m →
  ∃ b, encode_entries ((λ kv, (kv.1, encodeValue kv.2)) <$> m) keys = Ok b.
Proof.
  intros Hm. induction keys as [|k keys [bl Hbl]]; [by eexists|]. cbn. rewrite get_map.
  destruct (get k m) as [v|] eqn:Hv; cbn.
  - apply get_elem in Hv. rewrite list.Forall_forall in Hm. destruct (Hm _ Hv) as [b Hb]. cbn in Hb.
    rewrite Hb. cbn. rewrite Hbl. by eexists.
  - rewrite Hbl. by eexists.
Qed.

Lemma encodable_reads_back v : encodable v → ∃ b, encodeValue v = Ok b ∧ reads_back v b.
Proof.
  induction v as [n|n|s|s|l IH|m IH| |?|t] using Value_nested_ind; intros H; inversion H; subst; clear H.
  1,2: eexists; split; [done|]; apply reads_back_int; [done|lia].
  1,2: eexists; split; [done|]; by apply reads_back_string.
  - assert (Forall (λ v, ∃ b, encodeValue v = Ok b ∧ reads_back v b) l) as Hl.
    { rewrite list.Forall_forall in *. eauto. }
    destruct (encode_elems_ok l) as [b Hb]; [eapply List.Forall_impl; [|exact Hl]; naive_solver|].
    cbn [encodeValue]. rewrite Hb. eexists. split; [done|]. intros [|fuel] rest Hf; [simpl in Hf; lia|].
    rewrite <-!app_assoc. cbn [app to_l decodeValue]. rewrite (bool_decide_eq_false_2 ("l"%char = "i"%char)) by done.
    rewrite bool_decide_eq_true_2 by done. cbn [length app to_l] in Hf. rewrite length_app in Hf.
    rewrite (decode_elems l b) by (done || (cbn in Hf; lia)). done.
  - assert (Forall (λ kv : bytes * Value, Z.of_nat (length kv.1) <= max_alloc ∧
      ∃ b, encodeValue kv.2 = Ok b ∧ reads_back kv.2 b) m) as Hm.
    { rewrite list.Forall_forall in *. naive_solver. }
    destruct (encode_entries_ok m (SortedKeys m)) as [b Hb]; [eapply List.Forall_impl; [|exact Hm]; naive_solver|].
    cbn [encodeValue]. rewrite Hb. eexists. split; [done|]. intros [|fuel] rest Hf; [simpl in Hf; lia|].
    rewrite <-!app_assoc. cbn [app to_l decodeValue].
    rewrite (bool_decide_eq_false_2 ("d"%char = "i"%char)), (bool_decide_eq_false_2 ("d"%char = "l"%char)) by done.
    rewrite bool_decide_eq_true_2 by done. cbn [length app to_l] in Hf. rewrite length_app in Hf.
    rewrite (decode_entries m (SortedKeys m) b rest [] fuel Hm); [done| | |by intros ? _ ?%elem_of_nil|done|cbn in Hf; lia].
    + intros k. unfold SortedKeys. by rewrite sortStrings_perm.
    + unfold SortedKeys. by rewrite sortStrings_perm.
  - eexists. split; [done|]. by apply (reads_back_string Nil []).
Qed.

Lemma decode_encoding v b junk : encodable v → Encode v = Ok b → DecodeBytes (b ++ junk) = Ok (plain v).
Proof.
  intros Hv Hb. destruct (encodable_reads_back v Hv) as (b' & Hb' & Hback). unfold Encode in Hb.
  assert (b' = b) as -> by congruence.
  unfold DecodeBytes. rewrite Hback; [done|]. unfold decode_fuel. rewrite length_app. lia.
Qed.

(** ** Canonical form *)
Lemma encode_entries_ext e1 e2 keys : (∀ k, k ∈ keys → get k e1 = get k e2) →
  encode_entries e1 keys = encode_entries e2 keys.
Proof.
  induction keys as [|k keys IH]; intros H; [done|]. cbn. rewrite (H k) by left.
  rewrite IH; [done|]. intros k' Hk'. apply H. by right.
Qed.
Lemma get_tabulate {A} (f : bytes → A) k keys : k ∈ keys → get k ((λ key, (key, f key)) <$> keys) = Some (f k).
Proof.
  induction keys as [|k' keys IH]; [by intros ?%elem_of_nil|]. cbn. intros [->|H]%elem_of_cons.
  - by rewrite bool_decide_eq_true_2.
  - case_bool_decide; [by subst|auto].
Qed.
Lemma keys_tabulate {A} (f : bytes → A) keys : ((λ key, (key, f key)) <$> keys).*1 = keys.
Proof. rewrite <-list_fmap_compose. apply list_fmap_id. Qed.
Lemma sorted_keys_elem {A} k (m : list (bytes * A)) : k ∈ SortedKeys m ↔ k ∈ m.*1.
Proof. unfold SortedKeys. by rewrite sortStrings_perm. Qed.

(** The decoder's form of a value has the same encoding. *)
Lemma encode_plain_value v : encodeValue (plain v) = encodeValue v.
Proof.
  induction v as [n|n|s|s|l IH|m IH| |?|t] using Value_nested_ind; try done.
  - cbn [plain encodeValue]. do 2 f_equal. rewrite <-list_fmap_compose. apply list_fmap_ext.
    intros i v Hv. rewrite list.Forall_forall in IH. apply IH. by eapply list_elem_of_lookup_2.
  - cbn [plain encodeValue]. set (entries := (λ kv, (kv.1, plain kv.2)) <$> m).
    set (f := λ key, default (Str []) (get key entries)).
    change ((λ key, (key, default (Str []) (get key entries))) <$> SortedKeys m) with ((λ key, (key, f key)) <$> SortedKeys m).
    assert (SortedKeys ((λ key, (key, f key)) <$> SortedKeys m) = SortedKeys m) as ->.
    { unfold SortedKeys at 1. rewrite keys_tabulate. apply sortStrings_unique. unfold SortedKeys. by rewrite sortStrings_perm. }
    f_equal. apply encode_entries_ext. intros k Hk. rewrite !get_map, get_tabulate by done. cbn.
    unfold f, entries. rewrite get_map. apply sorted_keys_elem in Hk. destruct (get_is_Some k m Hk) as [v Hv].
    rewrite Hv. cbn. apply get_elem in Hv. rewrite list.Forall_forall in IH. specialize (IH _ Hv). cbn in IH. by rewrite IH.
Qed.

(** ** The decoder stops

    Each call consumes a byte or ends the value it reads, so [decode_fuel] levels
    of recursion are enough for every input. *)
Definition shrinks {A} (r : bytes) (x : result (A * bytes)) : Prop :=
  match x with Ok (_, r') => (length r' < length r)%nat | Err e => e ≠ "out of fuel" | Panic => True end.

Lemma read_until_length c r pre rest : read_until c r = Some (pre, rest) → (length rest < length r)%nat.
Proof.
  revert pre. induction r as [|b r IH]; intros pre; [done|]. cbn [read_until]. case_bool_decide.
  - intros [= <- <-]. simpl. lia.
  - destruct (read_until c r) as [[pre' rest']|]; [|done]. intros [= <- <-]. specialize (IH _ eq_refl). simpl. lia.
Qed.
Lemma decode_integer_shrinks r : shrinks r (decodeInteger r).
Proof.
  unfold decodeInteger. destruct (read_until _ r) as [[buf rest]|] eqn:E; [|done].
  apply read_until_length in E. by destruct (ParseInt _).
Qed.
Lemma read_length_shrinks r : shrinks r (read_length r).
Proof.
  induction r as [|b r IH]; [done|]. cbn [read_length]. case_bool_decide; [simpl; lia|].
  destruct (negb _); [done|]. destruct (read_length r) as [[? ?]|e|]; [cbn in *; lia|done|done].
Qed.
Lemma decode_string_shrinks r : shrinks r (decodeString r).
Proof.
  unfold decodeString. pose proof (read_length_shrinks r) as H. destruct (read_length r) as [[buf rest]|e|]; [|done|done].
  cbn in *. destruct (ParseInt _) as [n|]; [|done]. repeat case_bool_decide; try done. cbn. rewrite length_drop. lia.
Qed.

Lemma shrinks_bind {A B} r (x : result (A * bytes)) (k : A * bytes → result (B * bytes)) :
  shrinks r x → (∀ a r', x = Ok (a, r') → (length r' < length r)%nat → shrinks r (k (a, r'))) →
  shrinks r (x ≫= k).
Proof. destruct x as [[a r']|e|]; cbn; [|done|done]. intros H Hk. by apply Hk. Qed.
Lemma shrinks_le {A} r r' (x : result (A * bytes)) : (length r' <= length r)%nat → shrinks r' x → shrinks r x.
Proof. destruct x as [[a r'']|e|]; cbn; [lia|done|done]. Qed.

Lemma bind_agree {A B} r (x1 x2 : result (A * bytes)) (k1 k2 : A * bytes → result (B * bytes)) :
  x1 = x2 ∧ shrinks r x1 →
  (∀ a r', x1 = Ok (a, r') → (length r' < length r)%nat → k1 (a, r') = k2 (a, r') ∧ shrinks r (k1 (a, r'))) →
  x1 ≫= k1 = x2 ≫= k2 ∧ shrinks r (x1 ≫= k1).
Proof. intros [<- Hx]. destruct x1 as [[a r']|e|]; [|done|done]. intros Hk. by apply Hk. Qed.

(** With enough fuel for the input, more fuel changes nothing. *)
Definition value_agrees (r : bytes) : Prop := ∀ f1 f2, (2 * length r + 1 <= f1)%nat → (2 * length r + 1 <= f2)%nat →
  decodeValue f1 r = decodeValue f2 r ∧ (r ≠ [] → shrinks r (decodeValue f1 r)).
Definition list_agrees (r : bytes) : Prop := ∀ f1 f2, (2 * length r + 2 <= f1)%nat → (2 * length r + 2 <= f2)%nat →
  decodeList f1 r = decodeList f2 r ∧ shrinks r (decodeList f1 r).
Definition dict_agrees (r : bytes) : Prop := ∀ f1 f2 dict, (2 * length r + 2 <= f1)%nat → (2 * length r + 2 <= f2)%nat →
  decodeDict f1 r dict = decodeDict f2 r dict ∧ shrinks r (decodeDict f1 r dict).

Lemma value_agrees_step b r : list_agrees r → dict_agrees r → value_agrees (b :: r).
Proof.
  intros Hl Hd [|f1] [|f2] H1 H2; try (simpl in *; lia). cbn [length] in H1, H2. cbn [decodeValue].
  assert (length r <= length (b :: r))%nat as Hle by (simpl; lia).
  repeat case_bool_decide.
  - split; [done|]. intros _. apply shrinks_bind; [apply (shrinks_le _ r); [done|apply decode_integer_shrinks]|done].
  - destruct (bind_agree (b :: r) (decodeList f1 r) (decodeList f2 r) (λ p, Ok (List p.1, p.2)) (λ p, Ok (List p.1, p.2)))
      as [E Hs]; [|by intros|by split].
    destruct (Hl f1 f2) as [-> Hs]; [lia|lia|]. split; [done|]. by eapply shrinks_le.
  - destruct (bind_agree (b :: r) (decodeDict f1 r []) (decodeDict f2 r []) (λ p, Ok (Dict p.1, p.2)) (λ p, Ok (Dict p.1, p.2)))
      as [E Hs]; [|by intros|by split].
    destruct (Hd f1 f2 []) as [-> Hs]; [lia|lia|]. split; [done|]. by eapply shrinks_le.
  - destruct (is_digit b); (split; [done|]); intros _; [|done]. apply shrinks_bind; [apply decode_string_shrinks|done].
Qed.
Lemma list_agrees_step b r : value_agrees (b :: r) → (∀ r', (length r' <= length r)%nat → list_agrees r') →
  list_agrees (b :: r).
Proof.
  intros Hv Hl [|f1] [|f2] H1 H2; try (simpl in *; lia). cbn [length] in H1, H2. cbn [decodeList].
  case_bool_decide; [split; [done|simpl; lia]|].
  destruct (Hv f1 f2) as [Ev Hs]; [simpl; lia|simpl; lia|]. apply bind_agree; [by split; [|apply Hs]|].
  intros v r' _ Hr'. cbn [fst snd length] in *. destruct (Hl r' ltac:(lia) f1 f2) as [El Hsl]; [lia|lia|].
  apply bind_agree; [|done]. split; [done|]. by eapply shrinks_le; [|done]; simpl; lia.
Qed.
Lemma dict_agrees_step b r : (∀ r', (length r' <= length r)%nat → value_agrees r') →
  (∀ r', (length r' <= length r)%nat → dict_agrees r') → dict_agrees (b :: r).
Proof.
  intros Hv Hd [|f1] [|f2] dict H1 H2; try (simpl in *; lia). cbn [length] in H1, H2. cbn [decodeDict].
  case_bool_decide; [split; [done|simpl; lia]|].
  apply bind_agree; [split; [done|apply decode_string_shrinks]|]. intros k r1 _ Hr1. cbn [fst snd length] in *.
  destruct (Hv r1 ltac:(lia) f1 f2) as [Ev Hs]; [lia|lia|]. destruct r1 as [|c r1].
  - destruct f1 as [|f1], f2 as [|f2]; try lia. cbn [decodeValue]. cbn.
    destruct f1, f2; try (simpl in *; lia). done.
  - apply bind_agree; [split; [done|]; eapply shrinks_le; [|by apply Hs]; simpl in *; lia|].
    intros v r2 Ev2 Hr2. cbn [fst snd] in *.
    destruct (Hd r2 ltac:(simpl in *; lia) f1 f2 (set k v dict)) as [Ed Hsd]; [simpl in *; lia|simpl in *; lia|].
    split; [done|]. by eapply shrinks_le; [|done]; simpl in *; lia.
Qed.
Lemma decoders_agree n r : (length r <= n)%nat → value_agrees r ∧ list_agrees r ∧ dict_agrees r.
Proof.
  revert r. induction n as [|n IH]; intros [|b r] Hr; try (simpl in Hr; lia).
  1,2: split_and!; [intros [|f1] [|f2]|intros [|f1] [|f2]|intros [|f1] [|f2]]; intros; simpl in *; try lia; by split.
  simpl in Hr. destruct (IH r) as (_ & Hl & Hd); [lia|]. pose proof (value_agrees_step b r Hl Hd) as Hv.
  split_and!; [done| |].
  - apply list_agrees_step; [done|]. intros r' Hr'. apply IH. lia.
  - apply dict_agrees_step; intros r' Hr'; apply IH; lia.
Qed.

(** Decoding terminates on every input: no recursion deeper than twice the
    input is made, so more fuel than [decode_fuel] changes nothing, and the fuel
    never runs out. *)
Theorem decode_terminates (b : bytes) (fuel : nat) : (decode_fuel b <= fuel)%nat →
  decodeValue fuel b = decodeValue (decode_fuel b) b ∧ decodeValue fuel b ≠ Err "out of fuel".
Proof.
  intros Hf. unfold decode_fuel in *. destruct (decoders_agree (length b) b) as (Hv & _ & _); [done|].
  destruct (Hv fuel (2 * length b + 3)%nat) as [E Hs]; [lia|lia|]. split; [done|].
  destruct b as [|c b]; [by destruct fuel|]. specialize (Hs ltac:(done)). by destruct (decodeValue fuel _) as [[]|e|]; [|intros [= ->]|].
Qed.

(** C40. Bencode round-trips: every value of 64-bit integers, allocatable strings
    and maps with distinct keys encodes, and the decoder reads it back in its plain
    form from the start of any input, whatever follows: the bytes after the first
    value are ignored. *)
Theorem bencode_roundtrip (v : Value) : encodable v →
  ∃ b, Encode v = Ok b ∧ ∀ junk, DecodeBytes (b ++ junk) = Ok (plain v).
Proof.
  intros Hv. destruct (encodable_reads_back v Hv) as (b & Hb & _). exists b. split; [done|].
  intros junk. by apply decode_encoding.
Qed.

(** The decoder allocates what a length announces before it looks at the input:
    a string length that [make] cannot allocate panics, so sixteen bytes from a
    peer are enough. *)
Theorem announced_length_panics (n : Z) (rest : bytes) : max_alloc < n < 2 ^ 63 →
  DecodeBytes (to_l (itoa n) ++ ":"%char :: rest) = Panic.
Proof.
  intros Hn. unfold DecodeBytes, decode_fuel. set (k := (2 * _ + 3)%nat). assert (k = S (pred k)) as -> by lia.
  pose proof (itoa_nat_cons (Z.to_nat n)) as (c & t & E & Hc). pose proof (itoa_nat_digits (Z.to_nat n)) as Hd.
  rewrite Z2Nat.id in E, Hd by (unfold max_alloc in Hn; lia).
  assert (decodeString (to_l (itoa n) ++ ":"%char :: rest) = Panic) as Hs.
  { unfold decodeString. rewrite read_length_app by done. unfold mbind, result_mbind, result_bind. cbn [fst snd].
    unfold max_alloc in *. rewrite of_to_l, ParseInt_itoa by lia. rewrite bool_decide_eq_false_2 by lia.
    by rewrite bool_decide_eq_true_2 by lia. }
  revert Hs. rewrite E. cbn [app decodeValue]. intros Hs.
  rewrite !bool_decide_eq_false_2 by (by apply (digit_ne c)). by rewrite Hc, Hs.
Qed.
