(* ===== verification/RepoTree.v ===== *)
(** * Repositories read from CAR files (pkg/atproto/repo/repo.go)

    A repository is a signed commit over a search tree of records; the blocks of a
    CAR file hold both. The tree is walked in order and searched; its nodes share
    key prefixes. CAR framing and CBOR are libraries: the readers of a file, a
    commit and a node are arguments. *)
From S2P Require Import Prelude GoStr.
#[local] Open Scope string_scope.
#[local] Open Scope list_scope.
#[local] Open Scope Z_scope.

(** CIDs by their text, blocks by their bytes. *)
Record SignedCommit := { Did : string; Version : Z; Prev : option string; Data : string; Sig : string; Rev : string }.
Record TreeEntry := { PrefixLen : Z; KeySuffix : string; Val : string; Tree : option string }.
Record NodeData := { Left : option string; Entries : list TreeEntry }.
Record mstEntry := { Key : string; Value : string; entry_Tree : option string }.
Record mstNode := { node_Left : option string; node_List : list mstEntry }.

Definition memBlockstore : Type := gmap string string.
Definition Get (bs : memBlockstore) (id : string) : result string :=
  match bs !! id with Some block => Ok block | None => Err ("block " +:+ id +:+ " not found") end.
Definition Put (id block : string) (bs : memBlockstore) : memBlockstore := <[id := block]> bs.

Record Repo := { commit : SignedCommit; bs : memBlockstore; root : string }.

(** [car.NewCarReader] and [cbornode.DecodeInto]: the roots of a file (a file without
    roots does not open) and its blocks, the last of which may fail to be read. *)
Record CarReader := { Roots : string * list string; Blocks : list (string * string); ReadErr : option string }.
Class CarCbor := { NewCarReader : string → result CarReader; decode_commit : string → result SignedCommit;
  decode_node : string → result NodeData }.

(** The bytes of [s] up to position [n]; a negative position panics. *)
Definition slice_to (s : string) (n : Z) : result string :=
  if bool_decide (n < 0) then Panic else Ok (of_l (take (Z.to_nat n) (to_l s))).

Section Repo.
Context `{CarCbor}.

Definition ingestCAR (r : string) : result (memBlockstore * string) :=
  reader ← wrap "open car reader: " (NewCarReader r);
  match ReadErr reader with
  | Some e => Err ("read car block: " +:+ e)
  | None => mret (foldl (λ bs b, Put b.1 b.2 bs) ∅ (Blocks reader), (Roots reader).1)
  end.

Definition ReadRepoFromCar (r : string) : result Repo :=
  '(bs, rootCID) ← ingestCAR r;
  c ← wrap "load repo commit: " (block ← Get bs rootCID; decode_commit block);
  mret {| commit := c; bs := bs; root := Data c |}.

(** ** Nodes *)
Fixpoint load_entries (lastKey : string) (entries : list TreeEntry) : result (list mstEntry) :=
  match entries with
  | [] => mret []
  | e :: entries =>
      let prefixLen := if bool_decide (PrefixLen e > Z.of_nat (String.length lastKey)) then Z.of_nat (String.length lastKey) else PrefixLen e in
      prefix ← slice_to lastKey prefixLen;
      let key := prefix +:+ KeySuffix e in
      rest ← load_entries key entries;
      mret ({| Key := key; Value := Val e; entry_Tree := Tree e |} :: rest)
  end.
Definition ensureLoaded (bs : memBlockstore) (id : string) : result mstNode :=
  block ← Get bs id;
  data ← decode_node block;
  entries ← load_entries "" (Entries data);
  mret {| node_Left := Left data; node_List := entries |}.

(** ** The walk and the search

    One unit of fuel per level of the tree; [fuel_enough] says how much is
    enough. Without fuel the stack overflows. *)
Fixpoint walk_list {W} (walk : string → M W unit) (from : string) (cb : string → string → M W unit) (l : list mstEntry) : M W unit :=
  match l with
  | [] => mret tt
  | e :: l =>
      _ ← (if String.leb from (Key e) then cb (Key e) (Value e) else mret tt);
      _ ← match entry_Tree e with Some t => walk t | None => mret tt end;
      walk_list walk from cb l
  end.
Fixpoint walkMST {W} (fuel : nat) (bs : memBlockstore) (id from : string) (cb : string → string → M W unit) : M W unit :=
  match fuel with
  | O => mlift Panic
  | S fuel =>
      n ← mlift (ensureLoaded bs id);
      _ ← match node_Left n with Some l => walkMST fuel bs l from cb | None => mret tt end;
      walk_list (λ t, walkMST fuel bs t from cb) from cb (node_List n)
  end.

Fixpoint find_list (find : string → result (option string)) (path : string) (l : list mstEntry) : result (option string) :=
  match l with
  | [] => mret None
  | e :: l =>
      if bool_decide (Key e = path) then mret (Some (Value e))
      else match entry_Tree e with
      | None => find_list find path l
      | Some t => v ← find t; match v with Some v => mret (Some v) | None => find_list find path l end
      end
  end.
Fixpoint findRecordCID (fuel : nat) (bs : memBlockstore) (id path : string) : result (option string) :=
  match fuel with
  | O => Panic
  | S fuel =>
      n ← ensureLoaded bs id;
      v ← match node_Left n with Some l => findRecordCID fuel bs l path | None => mret None end;
      match v with Some v => mret (Some v) | None => find_list (λ t, findRecordCID fuel bs t path) path (node_List n) end
  end.

(** One level per block of the store, and one for the block that is missing. *)
Definition tree_fuel (bs : memBlockstore) : nat := S (size bs).

Definition ForEach {W} (r : Repo) (prefix : string) (cb : string → string → M W unit) : M W unit :=
  walkMST (tree_fuel (bs r)) (bs r) (root r) (TrimSpace prefix) cb.

(** The CID and the bytes of a record. *)
Definition GetRecordBytes (r : Repo) (path : string) : result (string * string) :=
  found ← findRecordCID (tree_fuel (bs r)) (bs r) (root r) (TrimSpace path);
  match found with
  | None => Err "resolving rpath within mst: not found"
  | Some recordCID => block ← Get (bs r) recordCID; mret (recordCID, block)
  end.

(** ** The records of a tree, in order *)
Fixpoint list_contents (contents : string → result (list (string * string))) (l : list mstEntry) : result (list (string * string)) :=
  match l with
  | [] => mret []
  | e :: l =>
      sub ← match entry_Tree e with Some t => contents t | None => mret [] end;
      rest ← list_contents contents l;
      mret ((Key e, Value e) :: sub ++ rest)
  end.
Fixpoint contents (fuel : nat) (bs : memBlockstore) (id : string) : result (list (string * string)) :=
  match fuel with
  | O => Panic
  | S fuel =>
      n ← ensureLoaded bs id;
      left ← match node_Left n with Some l => contents fuel bs l | None => mret [] end;
      rest ← list_contents (contents fuel bs) (node_List n);
      mret (left ++ rest)
  end.
End Repo.

(** Every record of [l] in turn, until one fails. *)
Fixpoint for_each {W} (cb : string → string → M W unit) (l : list (string * string)) : M W unit :=
  match l with [] => mret tt | p :: l => _ ← cb p.1 p.2; for_each cb l end.
Fixpoint assoc (path : string) (l : list (string * string)) : option string :=
  match l with [] => None | p :: l => if bool_decide (p.1 = path) then Some p.2 else assoc path l end.

Lemma mbind_ext {W A B} (m : M W A) (k1 k2 : A → M W B) w : (∀ a w, k1 a w = k2 a w) → mbind k1 m w = mbind k2 m w.
Proof. intros Hk. unfold mbind, M_mbind. destruct (m w) as [[a|e|] w']; [apply Hk|done..]. Qed.
Lemma mbind_cong {W A B} (m1 m2 : M W A) (k1 k2 : A → M W B) w :
  m1 w = m2 w → (∀ a w, k1 a w = k2 a w) → mbind k1 m1 w = mbind k2 m2 w.
Proof. intros Hm Hk. unfold mbind, M_mbind. rewrite Hm. destruct (m2 w) as [[a|e|] w']; [apply Hk|done..]. Qed.
Lemma mbind_assoc {W A B C} (m : M W A) (f : A → M W B) (g : B → M W C) w :
  mbind g (mbind f m) w = mbind (λ a, mbind g (f a)) m w.
Proof. unfold mbind, M_mbind. by destruct (m w) as [[a|e|] w']. Qed.
Lemma mret_bind {W A B} (a : A) (k : A → M W B) w : mbind k (mret a) w = k a w.
Proof. done. Qed.
Lemma for_each_app {W} (cb : string → string → M W unit) l k w :
  for_each cb (l ++ k) w = (_ ← for_each cb l; for_each cb k) w.
Proof.
  revert w. induction l as [|p l IH]; intros w; [done|]. simpl for_each. rewrite mbind_assoc. apply mbind_ext. intros _ w'. apply IH.
Qed.
Lemma assoc_app path l k : assoc path (l ++ k) = match assoc path l with Some v => Some v | None => assoc path k end.
Proof. induction l as [|p l IH]; [done|]. simpl. by case_bool_decide. Qed.

Section Laws.
Context `{CarCbor}.

(** ** The walk visits the records in order, the search finds the first *)
Definition from_on (from : string) (l : list (string * string)) : list (string * string) :=
  filter (λ p, String.leb from p.1 = true) l.
Lemma from_on_app from l k : from_on from (l ++ k) = from_on from l ++ from_on from k.
Proof. apply list.filter_app. Qed.

Lemma walk_list_spec {W} (walk : string → M W unit) cont from cb l ls :
  (∀ e t lt w, e ∈ l → entry_Tree e = Some t → cont t = Ok lt → walk t w = for_each cb (from_on from lt) w) →
  list_contents cont l = Ok ls → ∀ w, walk_list walk from cb l w = for_each cb (from_on from ls) w.
Proof.
  revert ls. induction l as [|e l IH]; intros ls Hw Hl w; simpl in Hl.
  { injection Hl as <-. done. }
  apply result_bind_ok in Hl as (sub & Hsub & (rest & Hrest & [= <-])%result_bind_ok).
  assert (∀ w, walk_list walk from cb l w = for_each cb (from_on from rest) w) as IH'.
  { apply IH; [|done]. intros e' t lt w' He'. apply Hw. by right. }
  assert (∀ w, (_ ← match entry_Tree e with Some t => walk t | None => mret tt end; walk_list walk from cb l) w =
    for_each cb (from_on from (sub ++ rest)) w) as Htail.
  { intros w'. rewrite from_on_app, for_each_app. apply mbind_cong; [|intros _; apply IH'].
    destruct (entry_Tree e) as [t|] eqn:Et; [eapply Hw; [left|done..]|]. by injection Hsub as <-. }
  cbn [walk_list]. unfold from_on. rewrite list.filter_cons. cbn [fst]. destruct (String.leb from (Key e)) eqn:E.
  - rewrite decide_True by done. cbn [for_each]. apply mbind_ext. intros _. exact Htail.
  - rewrite decide_False by done. rewrite mret_bind. apply Htail.
Qed.
Lemma walk_spec {W} fuel bs id from (cb : string → string → M W unit) l :
  contents fuel bs id = Ok l → ∀ w, walkMST fuel bs id from cb w = for_each cb (from_on from l) w.
Proof.
  revert id l. induction fuel as [|fuel IH]; intros id l Hl w; [done|]. cbn [contents] in Hl. cbn [walkMST].
  apply result_bind_ok in Hl as (n & -> & Hl). apply result_bind_ok in Hl as (left & Hleft & (rest & Hrest & [= <-])%result_bind_ok).
  change (mlift (Ok n)) with (mret (M := M W) n). rewrite mret_bind, from_on_app, for_each_app. apply mbind_cong.
  - destruct (node_Left n) as [lft|]; [by apply IH|]. by injection Hleft as <-.
  - intros _. eapply walk_list_spec; [|exact Hrest]. intros e t lt w' _ _ Ht. by apply IH.
Qed.

Lemma find_list_spec find cont path l ls :
  (∀ e t lt, e ∈ l → entry_Tree e = Some t → cont t = Ok lt → find t = Ok (assoc path lt)) →
  list_contents cont l = Ok ls → find_list find path l = Ok (assoc path ls).
Proof.
  revert ls. induction l as [|e l IH]; intros ls Hf Hl; simpl in Hl.
  { injection Hl as <-. done. }
  apply result_bind_ok in Hl as (sub & Hsub & (rest & Hrest & [= <-])%result_bind_ok).
  assert (find_list find path l = Ok (assoc path rest)) as IH'.
  { apply IH; [|done]. intros e' t lt He'. apply Hf. by right. }
  cbn [find_list assoc fst snd]. case_bool_decide; [done|]. rewrite assoc_app. destruct (entry_Tree e) as [t|] eqn:Et.
  - rewrite (Hf e t sub) by (done || left). change (Ok (assoc path sub) ≫= ?k) with (k (assoc path sub)). cbv beta.
    by destruct (assoc path sub).
  - by injection Hsub as <-.
Qed.
Lemma find_spec fuel bs id path l : contents fuel bs id = Ok l → findRecordCID fuel bs id path = Ok (assoc path l).
Proof.
  revert id l. induction fuel as [|fuel IH]; intros id l Hl; [done|]. cbn [contents] in Hl. cbn [findRecordCID].
  apply result_bind_ok in Hl as (n & -> & Hl). apply result_bind_ok in Hl as (left & Hleft & (rest & Hrest & [= <-])%result_bind_ok).
  change (Ok n ≫= ?k) with (k n). cbv beta. rewrite assoc_app.
  assert (match node_Left n with Some l => findRecordCID fuel bs l path | None => mret None end = Ok (assoc path left)) as ->.
  { destruct (node_Left n) as [lft|]; [by apply IH|]. by injection Hleft as <-. }
  change (Ok (assoc path left) ≫= ?k) with (k (assoc path left)). cbv beta. destruct (assoc path left); [done|].
  eapply find_list_spec; [|exact Hrest]. intros e t lt _ _. apply IH.
Qed.

(** ** The fuel is enough when no block contains itself *)
Definition child (bs : memBlockstore) (p c : string) : Prop :=
  ∃ n, ensureLoaded bs p = Ok n ∧ (node_Left n = Some c ∨ ∃ e, e ∈ node_List n ∧ entry_Tree e = Some c).

Section Fuel.
Context (bs : memBlockstore) (rank : string → nat) (ranked : ∀ p c, child bs p c → (rank c < rank p)%nat).

Definition below (id : string) : nat := size (filter (λ x, rank x ≤ rank id)%nat (dom bs : gset string)).
Lemma below_bound id : (below id < tree_fuel bs)%nat.
Proof.
  unfold below, tree_fuel. apply Nat.lt_succ_r. rewrite <-(size_dom (D := gset string) bs). apply subseteq_size. set_solver.
Qed.
Lemma below_child p c : child bs p c → (below c < below p)%nat.
Proof.
  intros Hc. pose proof (ranked p c Hc) as Hr. destruct Hc as (n & Hn & _).
  unfold below. apply (subset_size (C := gset string)). apply result_bind_ok in Hn as (b & Hb & _). unfold Get in Hb. destruct (bs !! p) eqn:Hp; [|done].
  split.
  - intros x. rewrite !elem_of_filter. intros [? ?]. split; [lia|done].
  - intros Hsub. assert (p ∈ filter (λ x, rank x ≤ rank c)%nat (dom bs : gset string)) as Hin.
    { apply Hsub. apply elem_of_filter. split; [lia|]. by apply elem_of_dom. }
    apply elem_of_filter in Hin as [? _]. lia.
Qed.

Lemma walk_list_ext {W} (walk1 walk2 : string → M W unit) from cb l w :
  (∀ e t w, e ∈ l → entry_Tree e = Some t → walk1 t w = walk2 t w) → walk_list walk1 from cb l w = walk_list walk2 from cb l w.
Proof.
  revert w. induction l as [|e l IH]; intros w Hw; [done|]. cbn [walk_list]. apply mbind_ext. intros _ w1. apply mbind_cong.
  - destruct (entry_Tree e) as [t|] eqn:Et; [eapply Hw; [left|done]|done].
  - intros _ w2. apply IH. intros e' t w' He'. apply Hw. by right.
Qed.
Lemma walk_fuel {W} f1 f2 id from (cb : string → string → M W unit) w :
  (below id < f1)%nat → (below id < f2)%nat → walkMST f1 bs id from cb w = walkMST f2 bs id from cb w.
Proof.
  revert f2 id w. induction f1 as [|f1 IH]; intros f2 id w H1 H2; [lia|]. destruct f2 as [|f2]; [lia|]. cbn [walkMST].
  destruct (ensureLoaded bs id) as [n|e|] eqn:Hn; [|done..]. change (mlift (Ok n)) with (mret (M := M W) n). rewrite !mret_bind.
  assert (∀ c, child bs id c → ∀ w, walkMST f1 bs c from cb w = walkMST f2 bs c from cb w) as Hc.
  { intros c Hc w'. apply below_child in Hc. apply IH; lia. }
  apply mbind_cong.
  - destruct (node_Left n) as [l|] eqn:El; [|done]. apply Hc. exists n. auto.
  - intros _ w1. apply walk_list_ext. intros e t w2 He Ht. apply Hc. exists n. eauto.
Qed.
Lemma find_list_ext find1 find2 path l :
  (∀ e t, e ∈ l → entry_Tree e = Some t → find1 t = find2 t) → find_list find1 path l = find_list find2 path l.
Proof.
  induction l as [|e l IH]; intros Hf; [done|]. cbn [find_list]. case_bool_decide; [done|].
  rewrite IH by (intros ????; eapply Hf; [by right|done]). destruct (entry_Tree e) as [t|] eqn:Et; [|done].
  by rewrite (Hf e t) by (done || left).
Qed.
Lemma find_fuel f1 f2 id path :
  (below id < f1)%nat → (below id < f2)%nat → findRecordCID f1 bs id path = findRecordCID f2 bs id path.
Proof.
  revert f2 id. induction f1 as [|f1 IH]; intros f2 id H1 H2; [lia|]. destruct f2 as [|f2]; [lia|]. cbn [findRecordCID].
  destruct (ensureLoaded bs id) as [n|e|] eqn:Hn; [|done..]. change (Ok n ≫= ?k) with (k n). cbv beta.
  assert (∀ c, child bs id c → findRecordCID f1 bs c path = findRecordCID f2 bs c path) as Hc.
  { intros c Hc. apply below_child in Hc. apply IH; lia. }
  assert (match node_Left n with Some l => findRecordCID f1 bs l path | None => mret None end =
    match node_Left n with Some l => findRecordCID f2 bs l path | None => mret None end) as ->.
  { destruct (node_Left n) as [l|] eqn:El; [|done]. apply Hc. exists n. auto. }
  destruct (match node_Left n with Some l => findRecordCID f2 bs l path | None => mret None end) as [[v|]|e|]; [done| |done..].
  change (Ok None ≫= ?k) with (k (@None string)). cbv beta iota. apply find_list_ext. intros e t He Ht. apply Hc. exists n. eauto.
Qed.
End Fuel.
End Laws.

(** ** Properties *)
Section Properties.
Context `{CarCbor}.

Lemma from_on_empty l : from_on "" l = l.
Proof. unfold from_on. induction l as [|p l IH]; [done|]. rewrite list.filter_cons, decide_True, IH; [done|]. by destruct p as [[|] ?]. Qed.

(** C21. The walk and the search of a repository agree: if its tree holds the records
    [l], in order, the walk visits exactly those, and a record is found exactly
    when it is among them, with the CID of the first entry of its path. *)
Theorem repo_reads_agree r l : contents (tree_fuel (bs r)) (bs r) (root r) = Ok l →
  (∀ W (cb : string → string → M W unit) w, ForEach r "" cb w = for_each cb l w) ∧
  (∀ path, GetRecordBytes r path =
     match assoc (TrimSpace path) l with
     | None => Err "resolving rpath within mst: not found"
     | Some c => block ← Get (bs r) c; mret (c, block)
     end).
Proof.
  intros Hl. split.
  - intros W cb w. unfold ForEach. rewrite (walk_spec _ _ _ _ _ _ Hl). change (TrimSpace "") with "". by rewrite from_on_empty.
  - intros path. unfold GetRecordBytes. rewrite (find_spec _ _ _ _ _ Hl). by destruct (assoc (TrimSpace path) l).
Qed.

(** The walk and the search end: no block of a store named by hashes contains
    itself, so the tree is at most as deep as it has blocks, and with that fuel
    both have the result they have with any larger one. *)
Theorem repo_reads_terminate (b : memBlockstore) (rank : string → nat) fuel id :
  (∀ p c, child b p c → (rank c < rank p)%nat) → (tree_fuel b <= fuel)%nat →
  (∀ W from (cb : string → string → M W unit) w, walkMST fuel b id from cb w = walkMST (tree_fuel b) b id from cb w) ∧
  (∀ path, findRecordCID fuel b id path = findRecordCID (tree_fuel b) b id path).
Proof.
  intros Hr Hf. pose proof (below_bound b rank Hr id). split; [intros; apply (walk_fuel _ rank Hr)|intros; apply (find_fuel _ rank Hr)]; lia.
Qed.

(** A node with a negative prefix length crashes the process that reads it: the
    key is cut at a negative position, which panics instead of failing. *)
Theorem negative_prefix_panics b id block data pre e post :
  b !! id = Some block → decode_node block = Ok data → Entries data = pre ++ e :: post →
  Forall (λ x, 0 <= PrefixLen x) pre → PrefixLen e < 0 → ensureLoaded b id = Panic.
Proof.
  intros Hb Hd He Hpre Hneg. unfold ensureLoaded, Get. rewrite Hb. simpl. rewrite Hd. simpl. rewrite He.
  enough (∀ k, load_entries k (pre ++ e :: post) = Panic) as -> by done. clear He.
  induction Hpre as [|x pre Hx _ IH]; intros k; simpl.
  - rewrite bool_decide_eq_false_2 by lia. unfold slice_to. by rewrite bool_decide_eq_true_2 by lia.
  - set (n := if bool_decide _ then _ else _). assert (0 <= n) by (unfold n; case_bool_decide; lia).
    unfold slice_to. rewrite bool_decide_eq_false_2 by lia. simpl. by rewrite IH.
Qed.
End Properties.
