(* ===== verification/Backfill.v ===== *)
(** * Backfills of one repository (internal/backfill/backfill.go)

    The host of a repository is found, its file downloaded, and each record of a
    supported collection that passes the filter handed to a processor. *)
From S2P Require Import Prelude GoStr Regex AtSyntax Mapper Identity RepoTree.
#[local] Open Scope string_scope.
#[local] Open Scope list_scope.
#[local] Open Scope Z_scope.

Record Stats := { Processed : Z; Skipped : Z; Errors : Z }.
Definition no_stats : Stats := {| Processed := 0; Skipped := 0; Errors := 0 |}.
Definition one_processed (s : Stats) : Stats := {| Processed := Processed s + 1; Skipped := Skipped s; Errors := Errors s |}.
Definition one_skipped (s : Stats) : Stats := {| Processed := Processed s; Skipped := Skipped s + 1; Errors := Errors s |}.
Definition one_error (s : Stats) : Stats := {| Processed := Processed s; Skipped := Skipped s; Errors := Errors s + 1 |}.

Record SinceFilter := { since_Raw : string; Timestamp : option Z; Sequence : option Z; SequenceNotice : string }.
Definition notice : string :=
  "sequence-based filtering is not available for sync.getRepo snapshots; processing all supported records".

(** [time.Parse] of a text in a layout, as an instant; the field createdAt of a
    record ([None]: the record does not decode, [Some ""]: it has none). *)
Record Clockwork := { time_Parse : string → string → option Z; createdAt : string → option string }.
Definition RFC3339 : string := "2006-01-02T15:04:05Z07:00".
Definition layouts : list string := [RFC3339; "2006-01-02"; "2006-01-02 15:04:05"].

Record DIDResult := { res_DID : string; PDSHost : string; Status : DIDStatus; res_Stats : Stats; res_Err : option IdErr }.

Definition collectionFromPath (path : string) : option string :=
  match SplitN path "/" 2 with
  | [collection; _] => if bool_decide (collection = "") then None else Some collection
  | _ => None
  end.
Definition isSupportedCollection (collection : string) : bool :=
  bool_decide (collection ∈ [RecordTypePost; RecordTypeLike; RecordTypeFollow; RecordTypeBlock; RecordTypeProfile]).

Section Since.
Context `{UnicodeCase} (clk : Clockwork).
Fixpoint first_layout (ls : list string) (raw : string) : option Z :=
  match ls with
  | [] => None
  | layout :: ls => match time_Parse clk layout raw with Some t => Some t | None => first_layout ls raw end
  end.
Definition ParseSince (raw : string) : result SinceFilter :=
  let trimmed := TrimSpace raw in
  if bool_decide (trimmed = "") then Ok {| since_Raw := trimmed; Timestamp := None; Sequence := None; SequenceNotice := "" |}
  else match ParseInt trimmed with
  | Some seq => Ok {| since_Raw := trimmed; Timestamp := None; Sequence := Some seq; SequenceNotice := notice |}
  | None =>
      match first_layout layouts trimmed with
      | Some ts => Ok {| since_Raw := trimmed; Timestamp := Some ts; Sequence := None; SequenceNotice := "" |}
      | None => Err ("invalid --since value " +:+ Quote raw +:+ " (expected unix-seq integer or timestamp)")
      end
  end.
Definition Include (f : SinceFilter) (recordJSON : string) : bool :=
  match Timestamp f with
  | None => true
  | Some since =>
      match createdAt clk recordJSON with
      | None => true
      | Some created =>
          if bool_decide (created = "") then true
          else match time_Parse clk RFC3339 created with Some t => negb (bool_decide (t < since)) | None => true end
      end
  end.
End Since.

Section Backfill.
Context `{UnicodeCase} `{CarCbor} {W : Type} (clk : Clockwork).
(** [lexutil.CborDecodeValue] and [json.Marshal]. *)
Context (cborToJSON : string → result string).
(** [ProcessRecord]: DID, URI, CID, collection and JSON of a record. *)
Context (ProcessRecord : string → string → string → string → string → M W unit).
#[local] Abbreviation M := (M (W * Stats)).

Definition count (f : Stats → Stats) : M unit := mmodify (λ w, (w.1, f w.2)).
(** The callback of the walk; it never fails. *)
Definition backfill_record (rr : Repo) (did : string) (since : SinceFilter) (path : string) (_ : string) : M unit :=
  match collectionFromPath path with
  | None => count one_skipped
  | Some collection =>
      if negb (isSupportedCollection collection) then count one_skipped
      else
        got ← mtry (mlift (GetRecordBytes rr path));
        match got with
        | Ok (cc, recordCBOR) =>
            decoded ← mtry (mlift (cborToJSON recordCBOR));
            match decoded with
            | Ok recordJSON =>
                if negb (Include clk since recordJSON) then count one_skipped
                else
                  r ← mtry (on_fst (ProcessRecord did ("at://" +:+ did +:+ "/" +:+ path) cc collection recordJSON));
                  match r with Err _ => count one_error | _ => count one_processed end
            | _ => count one_error
            end
        | _ => count one_error
        end
  end.

(** [processRepoCAR]; the statistics are those of the world. *)
Definition processRepoCAR (carBytes did : string) (since : SinceFilter) : M unit :=
  rr ← mlift (wrap ("read repo car did=" +:+ did +:+ ": ") (ReadRepoFromCar carBytes));
  mwrap ("iterate repo did=" +:+ did +:+ ": ") (ForEach rr "" (backfill_record rr did since)).

Definition failed (did host : string) (status : DIDStatus) (e : IdErr) : DIDResult :=
  {| res_DID := did; PDSHost := host; Status := status; res_Stats := no_stats; res_Err := Some e |}.
(** [RunForDID]; a resolver or a fetcher may be missing. *)
Definition RunForDID (did : string) (since : SinceFilter) (resolver : option (string → fallible string))
    (fetcher : option (string → string → fallible string)) : M DIDResult := λ w,
  match resolver, fetcher with
  | None, _ => (Ok (failed did "" StatusTransportError (plain_err "backfill host resolver is nil")), w)
  | Some _, None => (Ok (failed did "" StatusTransportError (plain_err "backfill repo fetcher is nil")), w)
  | Some ResolvePDSEndpoint, Some FetchRepo =>
      match ResolvePDSEndpoint did with
      | inl e => (Ok (failed did "" (classifyDIDResult (Some e)) e), w)
      | inr host =>
          match FetchRepo host did with
          | inl e => (Ok (failed did host (classifyDIDResult (Some e)) (wrap_id ("sync.getRepo did=" +:+ did +:+ " pds_host=" +:+ host +:+ ": ") e)), w)
          | inr carBytes =>
              match processRepoCAR carBytes did since (w.1, no_stats) with
              | (Ok _, w') => (Ok {| res_DID := did; PDSHost := host; Status := StatusSuccess; res_Stats := w'.2; res_Err := None |}, w')
              | (Err e, w') => (Ok (failed did host (classifyDIDResult (Some (plain_err e))) (plain_err e)), w')
              | (Panic, w') => (Panic, w')
              end
          end
      end
  end.

(** ** What a backfill does, decided by the repository alone *)
Inductive Decision := DSkip | DError | DPanic | DProcess (uri cid collection json : string).
Definition decide_record (rr : Repo) (did : string) (since : SinceFilter) (path : string) : Decision :=
  match collectionFromPath path with
  | None => DSkip
  | Some collection =>
      if negb (isSupportedCollection collection) then DSkip
      else match GetRecordBytes rr path with
      | Ok (cc, cbor) =>
          match cborToJSON cbor with
          | Ok json => if negb (Include clk since json) then DSkip else DProcess ("at://" +:+ did +:+ "/" +:+ path) cc collection json
          | Err _ => DError
          | Panic => DPanic
          end
      | Err _ => DError
      | Panic => DPanic
      end
  end.
Definition plan (rr : Repo) (did : string) (since : SinceFilter) (l : list (string * string)) : list Decision :=
  map (λ p, decide_record rr did since p.1) l.
Definition carry_out_one (did : string) (d : Decision) : M unit :=
  match d with
  | DSkip => count one_skipped
  | DError => count one_error
  | DPanic => mlift Panic
  | DProcess uri cid collection json =>
      r ← mtry (on_fst (ProcessRecord did uri cid collection json));
      match r with Err _ => count one_error | _ => count one_processed end
  end.
Fixpoint carry_out (did : string) (ds : list Decision) : M unit :=
  match ds with [] => mret tt | d :: ds => _ ← carry_out_one did d; carry_out did ds end.

Lemma record_decided rr did since path cid w : backfill_record rr did since path cid w = carry_out_one did (decide_record rr did since path) w.
Proof.
  unfold backfill_record, decide_record. destruct (collectionFromPath path) as [collection|]; [|done].
  destruct (negb (isSupportedCollection collection)); [done|]. unfold mbind at 1, M_mbind at 1, mtry at 1, mlift at 1.
  destruct (GetRecordBytes rr path) as [[cc cbor]|e|]; [|done..]. unfold mbind at 1, M_mbind at 1, mtry at 1, mlift at 1.
  destruct (cborToJSON cbor) as [json|e|]; [|done..]. by destruct (negb (Include clk since json)).
Qed.
Lemma walk_decided rr did since l w : for_each (backfill_record rr did since) l w = carry_out did (plan rr did since l) w.
Proof.
  revert w. induction l as [|p l IH]; intros w; [done|]. cbn [for_each plan map carry_out]. apply mbind_cong; [apply record_decided|].
  intros _ w1. apply IH.
Qed.
Lemma carry_out_never_err did ds w e w' : carry_out did ds w ≠ (Err e, w').
Proof.
  revert w. induction ds as [|d ds IH]; intros w; [done|]. cbn [carry_out].
  assert (∀ e w', carry_out_one did d w ≠ (Err e, w')) as H1.
  { intros e' w1. destruct d; cbn [carry_out_one]; try done. unfold mbind, M_mbind, mtry, on_fst.
    by destruct (ProcessRecord did uri cid collection json w.1) as [[u|e''|] v]. }
  intros [Hc|(u & w1 & _ & Hc)]%mbind_err; [by apply H1 in Hc|by apply IH in Hc].
Qed.
Definition total (s : Stats) : Z := Processed s + Skipped s + Errors s.
Lemma carry_out_total did ds w w' : carry_out did ds w = (Ok tt, w') → total w'.2 = total w.2 + Z.of_nat (length ds).
Proof.
  revert w. induction ds as [|d ds IH]; intros w; [intros [= <-]; simpl; lia|]. cbn [carry_out]. intros (x & w1 & H1 & H2%IH)%mbind_ok.
  assert (total w1.2 = total w.2 + 1) as Ht.
  { destruct d; cbn [carry_out_one] in H1; try (injection H1 as _ <-; unfold total; simpl; lia); [done|].
    apply mbind_ok in H1 as (r & w2 & Hr & Hc). unfold mtry, on_fst in Hr.
    destruct (ProcessRecord did uri cid collection json w.1) as [[u|e|] v]; [| |done]; injection Hr as <- <-;
      injection Hc as _ <-; unfold total; simpl; lia. }
  simpl length. lia.
Qed.
End Backfill.

(** ** Properties *)
Section Properties.
Context `{UnicodeCase} `{CarCbor} {W : Type} (clk : Clockwork) (cborToJSON : string → result string)
  (ProcessRecord : string → string → string → string → string → M W unit).

(** C3. A backfill is its plan: whatever the processor answers, the records of the
    repository are decided one by one, in the order of the tree, by the repository
    and the filter alone, and in the end every record was counted exactly once, as
    processed, skipped or failed. *)
Theorem backfill_is_its_plan carBytes did since rr l w :
  ReadRepoFromCar carBytes = Ok rr → contents (tree_fuel (bs rr)) (bs rr) (root rr) = Ok l →
  let r := processRepoCAR clk cborToJSON ProcessRecord carBytes did since (w, no_stats) in
  r = carry_out ProcessRecord did (plan clk cborToJSON rr did since l) (w, no_stats) ∧
  (∀ w', r = (Ok tt, w') → Processed w'.2 + Skipped w'.2 + Errors w'.2 = Z.of_nat (length l)).
Proof.
  intros Hr Hl. cbv zeta.
  assert (processRepoCAR clk cborToJSON ProcessRecord carBytes did since (w, no_stats) =
    carry_out ProcessRecord did (plan clk cborToJSON rr did since l) (w, no_stats)) as ->.
  { unfold processRepoCAR. rewrite Hr. cbn [wrap]. change (mlift (Ok rr)) with (mret (M := M (W * Stats)) rr). rewrite mret_bind.
    unfold mwrap, ForEach. rewrite (walk_spec _ _ _ _ _ _ Hl). change (TrimSpace "") with "". rewrite from_on_empty, walk_decided.
    destruct (carry_out _ _ _ _) as [[u|e|] w1] eqn:E; try done. by apply carry_out_never_err in E. }
  split; [done|]. intros w' Hw. apply carry_out_total in Hw. unfold total, plan in Hw. rewrite length_map in Hw. exact Hw.
Qed.
End Properties.
