(* ===== verification/AtIndexDB.v ===== *)
(** * The tables of the repository index (internal/db/atproto.go)

    The cursor of the relay, the repositories that are followed, the commits that
    wait for a backfill, the records and the log of their changes. A statement is
    its effect on the tables; [now] is the time of the statement. *)
From stdpp Require Import sorting.
From S2P Require Import Prelude GoStr.
#[local] Open Scope string_scope.
#[local] Open Scope list_scope.
#[local] Open Scope Z_scope.

Definition DefaultPageLimit : Z := 100.

Record ATProtoSource := { SourceKey : string; RelayURL : string; LastSeq : Z; ConnectedAt : option Z; src_UpdatedAt : Z }.
Record ATProtoRepo := { DID : string; Tracking : bool; Reason : string; SyncState : string; Generation : Z;
  CurrentRev : string; CurrentCommitCID : string; CurrentDataCID : string; LastFirehoseSeq : option Z;
  LastBackfillAt : option Z; LastEventCursor : option Z; Handle : string; PDSURL : string;
  AccountActive : option bool; AccountStatus : string; LastIdentityAt : option Z; LastAccountAt : option Z;
  LastError : string; repo_CreatedAt : Z; repo_UpdatedAt : Z }.
Record ATProtoCommitBufferItem := { item_ID : Z; item_DID : string; item_Generation : Z; item_Rev : string; item_Seq : Z;
  RawEventJSON : string; item_CreatedAt : Z }.
Record ATProtoRecord := { rec_DID : string; rec_Collection : string; rec_RKey : string; rec_ATURI : string; rec_ATCID : string;
  rec_RecordJSON : string; LastRev : string; rec_LastSeq : option Z; Deleted : bool; DeletedAt : option Z;
  rec_CreatedAt : Z; rec_UpdatedAt : Z }.
Record ATProtoRecordEvent := { Cursor : Z; ev_DID : string; ev_Collection : string; ev_RKey : string; ev_ATURI : string;
  ev_ATCID : string; ev_Action : string; Live : bool; ev_Rev : string; ev_Seq : option Z; ev_RecordJSON : string; ev_CreatedAt : Z }.

(** The columns the service assigns. *)
Definition with_tracking (v_Tracking : bool) (r : ATProtoRepo) : ATProtoRepo :=
  Build_ATProtoRepo (DID r) v_Tracking (Reason r) (SyncState r) (Generation r) (CurrentRev r) (CurrentCommitCID r)
    (CurrentDataCID r) (LastFirehoseSeq r) (LastBackfillAt r) (LastEventCursor r) (Handle r) (PDSURL r)
    (AccountActive r) (AccountStatus r) (LastIdentityAt r) (LastAccountAt r) (LastError r) (repo_CreatedAt r)
    (repo_UpdatedAt r).
Definition with_reason (v_Reason : string) (r : ATProtoRepo) : ATProtoRepo :=
  Build_ATProtoRepo (DID r) (Tracking r) v_Reason (SyncState r) (Generation r) (CurrentRev r) (CurrentCommitCID r)
    (CurrentDataCID r) (LastFirehoseSeq r) (LastBackfillAt r) (LastEventCursor r) (Handle r) (PDSURL r)
    (AccountActive r) (AccountStatus r) (LastIdentityAt r) (LastAccountAt r) (LastError r) (repo_CreatedAt r)
    (repo_UpdatedAt r).
Definition with_generation (v_Generation : Z) (r : ATProtoRepo) : ATProtoRepo :=
  Build_ATProtoRepo (DID r) (Tracking r) (Reason r) (SyncState r) v_Generation (CurrentRev r) (CurrentCommitCID r)
    (CurrentDataCID r) (LastFirehoseSeq r) (LastBackfillAt r) (LastEventCursor r) (Handle r) (PDSURL r)
    (AccountActive r) (AccountStatus r) (LastIdentityAt r) (LastAccountAt r) (LastError r) (repo_CreatedAt r)
    (repo_UpdatedAt r).
Definition with_sync (v_SyncState : string) (r : ATProtoRepo) : ATProtoRepo :=
  Build_ATProtoRepo (DID r) (Tracking r) (Reason r) v_SyncState (Generation r) (CurrentRev r) (CurrentCommitCID r)
    (CurrentDataCID r) (LastFirehoseSeq r) (LastBackfillAt r) (LastEventCursor r) (Handle r) (PDSURL r)
    (AccountActive r) (AccountStatus r) (LastIdentityAt r) (LastAccountAt r) (LastError r) (repo_CreatedAt r)
    (repo_UpdatedAt r).
Definition with_error (v_LastError : string) (r : ATProtoRepo) : ATProtoRepo :=
  Build_ATProtoRepo (DID r) (Tracking r) (Reason r) (SyncState r) (Generation r) (CurrentRev r) (CurrentCommitCID r)
    (CurrentDataCID r) (LastFirehoseSeq r) (LastBackfillAt r) (LastEventCursor r) (Handle r) (PDSURL r)
    (AccountActive r) (AccountStatus r) (LastIdentityAt r) (LastAccountAt r) v_LastError (repo_CreatedAt r)
    (repo_UpdatedAt r).
Definition with_head (v_CurrentRev : string) (v_CurrentCommitCID : string) (r : ATProtoRepo) : ATProtoRepo :=
  Build_ATProtoRepo (DID r) (Tracking r) (Reason r) (SyncState r) (Generation r) v_CurrentRev v_CurrentCommitCID
    (CurrentDataCID r) (LastFirehoseSeq r) (LastBackfillAt r) (LastEventCursor r) (Handle r) (PDSURL r)
    (AccountActive r) (AccountStatus r) (LastIdentityAt r) (LastAccountAt r) (LastError r) (repo_CreatedAt r)
    (repo_UpdatedAt r).
Definition with_snapshot (v_CurrentRev : string) (v_CurrentDataCID : string) (r : ATProtoRepo) : ATProtoRepo :=
  Build_ATProtoRepo (DID r) (Tracking r) (Reason r) (SyncState r) (Generation r) v_CurrentRev (CurrentCommitCID r)
    v_CurrentDataCID (LastFirehoseSeq r) (LastBackfillAt r) (LastEventCursor r) (Handle r) (PDSURL r) (AccountActive r)
    (AccountStatus r) (LastIdentityAt r) (LastAccountAt r) (LastError r) (repo_CreatedAt r) (repo_UpdatedAt r).
Definition with_seq (v_LastFirehoseSeq : option Z) (r : ATProtoRepo) : ATProtoRepo :=
  Build_ATProtoRepo (DID r) (Tracking r) (Reason r) (SyncState r) (Generation r) (CurrentRev r) (CurrentCommitCID r)
    (CurrentDataCID r) v_LastFirehoseSeq (LastBackfillAt r) (LastEventCursor r) (Handle r) (PDSURL r) (AccountActive r)
    (AccountStatus r) (LastIdentityAt r) (LastAccountAt r) (LastError r) (repo_CreatedAt r) (repo_UpdatedAt r).
Definition with_backfilled (v_LastBackfillAt : option Z) (r : ATProtoRepo) : ATProtoRepo :=
  Build_ATProtoRepo (DID r) (Tracking r) (Reason r) (SyncState r) (Generation r) (CurrentRev r) (CurrentCommitCID r)
    (CurrentDataCID r) (LastFirehoseSeq r) v_LastBackfillAt (LastEventCursor r) (Handle r) (PDSURL r) (AccountActive r)
    (AccountStatus r) (LastIdentityAt r) (LastAccountAt r) (LastError r) (repo_CreatedAt r) (repo_UpdatedAt r).
Definition with_cursor (v_LastEventCursor : option Z) (r : ATProtoRepo) : ATProtoRepo :=
  Build_ATProtoRepo (DID r) (Tracking r) (Reason r) (SyncState r) (Generation r) (CurrentRev r) (CurrentCommitCID r)
    (CurrentDataCID r) (LastFirehoseSeq r) (LastBackfillAt r) v_LastEventCursor (Handle r) (PDSURL r) (AccountActive r)
    (AccountStatus r) (LastIdentityAt r) (LastAccountAt r) (LastError r) (repo_CreatedAt r) (repo_UpdatedAt r).
Definition with_handle (v_Handle : string) (r : ATProtoRepo) : ATProtoRepo :=
  Build_ATProtoRepo (DID r) (Tracking r) (Reason r) (SyncState r) (Generation r) (CurrentRev r) (CurrentCommitCID r)
    (CurrentDataCID r) (LastFirehoseSeq r) (LastBackfillAt r) (LastEventCursor r) v_Handle (PDSURL r) (AccountActive r)
    (AccountStatus r) (LastIdentityAt r) (LastAccountAt r) (LastError r) (repo_CreatedAt r) (repo_UpdatedAt r).
Definition with_identity_at (v_LastIdentityAt : option Z) (r : ATProtoRepo) : ATProtoRepo :=
  Build_ATProtoRepo (DID r) (Tracking r) (Reason r) (SyncState r) (Generation r) (CurrentRev r) (CurrentCommitCID r)
    (CurrentDataCID r) (LastFirehoseSeq r) (LastBackfillAt r) (LastEventCursor r) (Handle r) (PDSURL r)
    (AccountActive r) (AccountStatus r) v_LastIdentityAt (LastAccountAt r) (LastError r) (repo_CreatedAt r)
    (repo_UpdatedAt r).
Definition with_pds (v_PDSURL : string) (r : ATProtoRepo) : ATProtoRepo :=
  Build_ATProtoRepo (DID r) (Tracking r) (Reason r) (SyncState r) (Generation r) (CurrentRev r) (CurrentCommitCID r)
    (CurrentDataCID r) (LastFirehoseSeq r) (LastBackfillAt r) (LastEventCursor r) (Handle r) v_PDSURL (AccountActive r)
    (AccountStatus r) (LastIdentityAt r) (LastAccountAt r) (LastError r) (repo_CreatedAt r) (repo_UpdatedAt r).
Definition with_account (v_AccountActive : option bool) (v_LastAccountAt : option Z) (r : ATProtoRepo) : ATProtoRepo :=
  Build_ATProtoRepo (DID r) (Tracking r) (Reason r) (SyncState r) (Generation r) (CurrentRev r) (CurrentCommitCID r)
    (CurrentDataCID r) (LastFirehoseSeq r) (LastBackfillAt r) (LastEventCursor r) (Handle r) (PDSURL r) v_AccountActive
    (AccountStatus r) (LastIdentityAt r) v_LastAccountAt (LastError r) (repo_CreatedAt r) (repo_UpdatedAt r).
Definition with_account_status (v_AccountStatus : string) (r : ATProtoRepo) : ATProtoRepo :=
  Build_ATProtoRepo (DID r) (Tracking r) (Reason r) (SyncState r) (Generation r) (CurrentRev r) (CurrentCommitCID r)
    (CurrentDataCID r) (LastFirehoseSeq r) (LastBackfillAt r) (LastEventCursor r) (Handle r) (PDSURL r)
    (AccountActive r) v_AccountStatus (LastIdentityAt r) (LastAccountAt r) (LastError r) (repo_CreatedAt r)
    (repo_UpdatedAt r).
Definition with_times (v_repo_CreatedAt : Z) (v_repo_UpdatedAt : Z) (r : ATProtoRepo) : ATProtoRepo :=
  Build_ATProtoRepo (DID r) (Tracking r) (Reason r) (SyncState r) (Generation r) (CurrentRev r) (CurrentCommitCID r)
    (CurrentDataCID r) (LastFirehoseSeq r) (LastBackfillAt r) (LastEventCursor r) (Handle r) (PDSURL r)
    (AccountActive r) (AccountStatus r) (LastIdentityAt r) (LastAccountAt r) (LastError r) v_repo_CreatedAt
    v_repo_UpdatedAt.

Definition record_key : Type := string * string * string.
(** Sources, repositories and records by primary key; the commit buffer in the order
    of its ids, the log in the order of its cursors. *)
Record IndexDB := { sources : gmap string ATProtoSource; repos : gmap string ATProtoRepo; buffer : list ATProtoCommitBufferItem;
  buffer_next : Z; records : gmap record_key ATProtoRecord; event_log : list ATProtoRecordEvent }.
Definition set_sources (f : gmap string ATProtoSource → gmap string ATProtoSource) (d : IndexDB) : IndexDB :=
  Build_IndexDB (f (sources d)) (repos d) (buffer d) (buffer_next d) (records d) (event_log d).
Definition set_repos (f : gmap string ATProtoRepo → gmap string ATProtoRepo) (d : IndexDB) : IndexDB :=
  Build_IndexDB (sources d) (f (repos d)) (buffer d) (buffer_next d) (records d) (event_log d).
Definition set_buffer (l : list ATProtoCommitBufferItem) (next : Z) (d : IndexDB) : IndexDB :=
  Build_IndexDB (sources d) (repos d) l next (records d) (event_log d).
Definition set_records (f : gmap record_key ATProtoRecord → gmap record_key ATProtoRecord) (d : IndexDB) : IndexDB :=
  Build_IndexDB (sources d) (repos d) (buffer d) (buffer_next d) (f (records d)) (event_log d).
Definition set_log (l : list ATProtoRecordEvent) (d : IndexDB) : IndexDB :=
  Build_IndexDB (sources d) (repos d) (buffer d) (buffer_next d) (records d) l.
Definition empty_db : IndexDB := Build_IndexDB ∅ ∅ [] 1 ∅ [].

(** ** Sources and repositories *)
Definition UpsertATProtoSource (now : Z) (s : ATProtoSource) : IndexDB → IndexDB :=
  set_sources <[SourceKey s := {| SourceKey := SourceKey s; RelayURL := RelayURL s; LastSeq := LastSeq s;
    ConnectedAt := ConnectedAt s; src_UpdatedAt := now |}]>.
Definition GetATProtoSource (key : string) (d : IndexDB) : option ATProtoSource := sources d !! key.
Definition UpsertATProtoRepo (now : Z) (r : ATProtoRepo) : IndexDB → IndexDB :=
  set_repos (λ t, <[DID r := with_times (match t !! DID r with Some o => repo_CreatedAt o | None => now end) now r]> t).
Definition GetATProtoRepo (did : string) (d : IndexDB) : option ATProtoRepo := repos d !! did.
Definition string_le (a b : string) : Prop := String.leb a b = true.
#[global] Instance string_le_dec a b : Decision (string_le a b) := decide (String.leb a b = true).
Definition ListTrackedATProtoRepos (state : string) (d : IndexDB) : list ATProtoRepo :=
  let tracked := merge_sort (λ a b, string_le (DID a) (DID b)) (filter (λ r, Tracking r = true) ((map_to_list (repos d)).*2)) in
  if bool_decide (state = "") then tracked else filter (λ r, SyncState r = state) tracked.

(** ** The commit buffer *)
Definition same_commit (did : string) (generation : Z) (rev : string) (i : ATProtoCommitBufferItem) : bool :=
  bool_decide (item_DID i = did ∧ item_Generation i = generation ∧ item_Rev i = rev).
Definition AddATProtoCommitBufferItem (now : Z) (did : string) (generation : Z) (rev : string) (seq : Z) (raw : string) (d : IndexDB) : IndexDB :=
  if existsb (same_commit did generation rev) (buffer d)
  then set_buffer (map (λ i, if same_commit did generation rev i
         then Build_ATProtoCommitBufferItem (item_ID i) did generation rev seq raw (item_CreatedAt i) else i) (buffer d)) (buffer_next d) d
  else set_buffer (buffer d ++ [Build_ATProtoCommitBufferItem (buffer_next d) did generation rev seq raw now]) (buffer_next d + 1) d.
(** [ORDER BY seq, rev]. *)
Definition buffer_le (a b : ATProtoCommitBufferItem) : Prop :=
  item_Seq a < item_Seq b ∨ item_Seq a = item_Seq b ∧ string_le (item_Rev a) (item_Rev b).
#[global] Instance buffer_le_dec a b : Decision (buffer_le a b).
Proof. unfold buffer_le. apply _. Defined.
Definition of_generation (did : string) (generation : Z) (i : ATProtoCommitBufferItem) : Prop :=
  item_DID i = did ∧ item_Generation i = generation.
#[global] Instance of_generation_dec did generation i : Decision (of_generation did generation i).
Proof. unfold of_generation. apply _. Defined.
Definition ListATProtoCommitBufferItems (did : string) (generation : Z) (d : IndexDB) : list ATProtoCommitBufferItem :=
  merge_sort buffer_le (filter (of_generation did generation) (buffer d)).
Definition DeleteATProtoCommitBufferItems (did : string) (generation : Z) (d : IndexDB) : IndexDB :=
  set_buffer (filter (λ i, ¬ of_generation did generation i) (buffer d)) (buffer_next d) d.

(** ** Records *)
Definition key_of (r : ATProtoRecord) : record_key := (rec_DID r, rec_Collection r, rec_RKey r).
(** The URI of a record is unique: another row with it fails the statement. *)
Definition uri_taken (r : ATProtoRecord) (t : gmap record_key ATProtoRecord) : bool :=
  existsb (λ kv : record_key * ATProtoRecord, bool_decide (rec_ATURI kv.2 = rec_ATURI r ∧ kv.1 ≠ key_of r)) (map_to_list t).
Definition stored_record (old : option ATProtoRecord) (now : Z) (r : ATProtoRecord) : ATProtoRecord :=
  Build_ATProtoRecord (rec_DID r) (rec_Collection r) (rec_RKey r) (rec_ATURI r) (rec_ATCID r) (rec_RecordJSON r) (LastRev r)
    (rec_LastSeq r) (Deleted r) (DeletedAt r) (match old with Some o => rec_CreatedAt o | None => now end) now.
Definition UpsertATProtoRecord (now : Z) (r : ATProtoRecord) (d : IndexDB) : result IndexDB :=
  if uri_taken r (records d)
  then Err ("upsert atproto record " +:+ rec_ATURI r +:+ ": UNIQUE constraint failed: atproto_records.at_uri")
  else Ok (set_records (λ t, <[key_of r := stored_record (t !! key_of r) now r]> t) d).
Definition GetATProtoRecord (atURI : string) (d : IndexDB) : option ATProtoRecord :=
  head (filter (λ r, rec_ATURI r = atURI) ((map_to_list (records d)).*2)).
(** The [cursor] argument of the listing is not used. *)
Definition ListATProtoRecords (did collection cursor : string) (limit : Z) (d : IndexDB) : list ATProtoRecord :=
  let limit := if bool_decide (limit <= 0) then DefaultPageLimit else limit in
  take (Z.to_nat limit) (merge_sort (λ a b, string_le (rec_ATURI a) (rec_ATURI b))
    (filter (λ r, rec_DID r = did ∧ rec_Collection r = collection) ((map_to_list (records d)).*2))).

(** ** The event log

    The cursor is an autoincremented key, and no statement deletes events. *)
Definition next_cursor (d : IndexDB) : Z := Z.of_nat (length (event_log d)) + 1.
Definition with_event_cursor (c now : Z) (e : ATProtoRecordEvent) : ATProtoRecordEvent :=
  Build_ATProtoRecordEvent c (ev_DID e) (ev_Collection e) (ev_RKey e) (ev_ATURI e) (ev_ATCID e) (ev_Action e) (Live e) (ev_Rev e)
    (ev_Seq e) (ev_RecordJSON e) now.
Definition AppendATProtoEvent (now : Z) (e : ATProtoRecordEvent) (d : IndexDB) : IndexDB :=
  set_log (event_log d ++ [with_event_cursor (next_cursor d) now e]) d.
Definition ListATProtoEventsAfter (cursor limit : Z) (d : IndexDB) : list ATProtoRecordEvent :=
  let limit := if bool_decide (limit <= 0) then DefaultPageLimit else limit in
  take (Z.to_nat limit) (filter (λ e, cursor < Cursor e) (event_log d)).
Definition GetLatestATProtoEventCursor (d : IndexDB) : option Z := Cursor <$> list.last (event_log d).
