(* ===== verification/AtIndex.v ===== *)
(** * The repository index (internal/atindex/service.go)

    The firehose's commits of the followed repositories become rows of the record
    table and events of a log that subscribers read. A repository that is not in
    step with its commits is fetched as a whole by a worker, and the commits that
    arrive meanwhile wait in a buffer. *)
From S2P Require Import Prelude GoStr Regex AtSyntax RepoTree AtIndexDB.
#[local] Open Scope string_scope.
#[local] Open Scope list_scope.
#[local] Open Scope Z_scope.

Definition StatePending : string := "pending".
Definition StateBackfilling : string := "backfilling".
Definition StateSynced : string := "synced".
Definition StateDesynchronized : string := "desynchronized".
Definition StateDeleted : string := "deleted".
Definition StateDeactivated : string := "deactivated".
Definition StateTakendown : string := "takendown".
Definition StateSuspended : string := "suspended".
Definition StateError : string := "error".

(** What the service uses of the events of the firehose. *)
Record RepoOp := { op_Action : string; op_Path : string; op_Prev : option string }.
Record Commit := { c_Blocks : string; c_Commit : string; c_Ops : list (option RepoOp); c_Repo : string; c_Rev : string;
  c_Seq : Z; c_Since : option string }.
Record Identity := { i_Did : string; i_Handle : option string; i_Seq : Z; i_Time : string }.
Record Account := { a_Active : bool; a_Did : string; a_Seq : Z; a_Status : option string; a_Time : string }.

Inductive Notification :=
| NRecord (cursor : Z) (event : ATProtoRecordEvent)
| NIdentity (did handle : string) (seq : Z) (time : string)
| NAccount (did : string) (active : bool) (status : string) (seq : Z) (time : string).

(** A channel of a subscriber: what it holds, and whether it was closed. *)
Record Channel := { pending : list Notification; closed : bool }.
Definition channel_capacity : nat := 256.
Definition queue_capacity : nat := 1024.

(** The database, the worker's queue with the set of its members, the channels and
    which of them are subscribed; the calls made to the outside so far. *)
Record IndexWorld := { db : IndexDB; queued : gset string; queue : list string; channels : gmap nat Channel;
  subscribers : gset nat; nextSubID : nat; calls : nat }.
Definition set_db (d : IndexDB) (w : IndexWorld) : IndexWorld :=
  Build_IndexWorld d (queued w) (queue w) (channels w) (subscribers w) (nextSubID w) (calls w).
Definition set_queue (s : gset string) (q : list string) (w : IndexWorld) : IndexWorld :=
  Build_IndexWorld (db w) s q (channels w) (subscribers w) (nextSubID w) (calls w).
Definition set_channels (c : gmap nat Channel) (s : gset nat) (w : IndexWorld) : IndexWorld :=
  Build_IndexWorld (db w) (queued w) (queue w) c s (nextSubID w) (calls w).
Definition count_call (w : IndexWorld) : IndexWorld :=
  Build_IndexWorld (db w) (queued w) (queue w) (channels w) (subscribers w) (nextSubID w) (S (calls w)).

(** The outside, by the number of calls made before: the clock, the failures of the
    database, the bridged accounts and whether they are active, identity resolution
    and downloads (either may be missing), the JSON of a CBOR record, the JSON of a
    commit, how a pointer prints. [env_full] is a send on a full queue: what the
    world is when the queue has room, or [None] when the context ends first. *)
Record IndexEnv := {
  env_now : nat → Z;
  env_db_err : nat → option string;
  env_account : nat → string → option bool;
  env_relayURL : string;
  env_resolver : option (nat → string → result string);
  env_fetcher : option (nat → string → string → result string);
  env_record_json : string → result string;
  env_marshal : Commit → result string;
  env_unmarshal : string → result Commit;
  env_pointer : nat → string;
  env_full : IndexWorld → option IndexWorld
}.
Definition sourceKey : string := "default-relay".

(** ** Helpers *)
Definition isKnownSyncState (state : string) : bool :=
  bool_decide (state ∈ [StatePending; StateBackfilling; StateSynced; StateDesynchronized; StateDeleted; StateDeactivated;
                        StateTakendown; StateSuspended; StateError]).
Definition shouldQueueTrack (state : string) : bool :=
  bool_decide (state ∈ [""; StatePending; StateBackfilling; StateDesynchronized; StateError]).
Definition existingATCID (existing : option ATProtoRecord) (op : RepoOp) : string :=
  match existing with
  | Some e => if blank (rec_ATCID e) then default "" (op_Prev op) else rec_ATCID e
  | None => default "" (op_Prev op)
  end.
Definition existingJSON (existing : option ATProtoRecord) : string :=
  match existing with Some e => rec_RecordJSON e | None => "" end.
Definition new_repo (did reason : string) : ATProtoRepo :=
  Build_ATProtoRepo did true (TrimSpace reason) StatePending 1 "" "" "" None None None "" "" None "" None None "" 0 0.

Section Service.
Context `{UnicodeCase} `{CarCbor} (env : IndexEnv).
#[local] Abbreviation M := (M IndexWorld).

Definition collectionAndRKey (path : string) : option (string * string) :=
  match SplitN (TrimSpace path) "/" 2 with
  | [c; k] =>
      if bool_decide (c = "" ∨ k = "") then None
      else match ParseNSID c, ParseRecordKey k with Ok collection, Ok rkey => Some (collection, rkey) | _, _ => None end
  | _ => None
  end.

(** ** Calls to the outside *)
Definition now : M Z := λ w, (Ok (env_now env (calls w)), count_call w).
(** A statement fails, or has its effect. *)
Definition statement {A} (f : IndexDB → result A * IndexDB) : M A := λ w,
  match env_db_err env (calls w) with
  | Some e => (Err e, count_call w)
  | None => let '(r, d) := f (db w) in (r, set_db d (count_call w))
  end.
Definition query {A} (f : IndexDB → A) : M A := statement (λ d, (Ok (f d), d)).
Definition update (f : Z → IndexDB → IndexDB) : M unit := λ w, statement (λ d, (Ok tt, f (env_now env (calls w)) d)) w.
Definition db_UpsertATProtoRepo (r : ATProtoRepo) : M unit := update (λ t, UpsertATProtoRepo t r).
Definition db_UpsertATProtoRecord (r : ATProtoRecord) : M unit := λ w,
  statement (λ d, match UpsertATProtoRecord (env_now env (calls w)) r d with Ok d' => (Ok tt, d') | Err e => (Err e, d) | Panic => (Panic, d) end) w.
Definition db_AppendATProtoEvent (e : ATProtoRecordEvent) : M Z := λ w,
  statement (λ d, (Ok (next_cursor d), AppendATProtoEvent (env_now env (calls w)) e d)) w.
Definition db_GetBridgedAccount (did : string) : M (option bool) := λ w, query (λ _, env_account env (calls w) did) w.

(** ** The queue and the subscribers *)
Definition push_queue (did : string) (w : IndexWorld) : IndexWorld := set_queue (queued w) (queue w ++ [did]) w.
Definition enqueue (did : string) : M unit := λ w,
  if bool_decide (did ∈ queued w) then (Ok tt, w)
  else
    let w := set_queue ({[did]} ∪ queued w) (queue w) w in
    if bool_decide (length (queue w) < queue_capacity)%nat then (Ok tt, push_queue did w)
    else match env_full env w with
    | Some w => (Ok tt, push_queue did w)
    | None => (Ok tt, set_queue (queued w ∖ {[did]}) (queue w) w)
    end.
Definition dequeue (did : string) : M unit := mmodify (λ w, set_queue (queued w ∖ {[did]}) (queue w) w).

Definition has_room (c : Channel) : bool := bool_decide (length (pending c) < channel_capacity)%nat.
(** Every subscriber gets the notification; one whose channel is full is closed and
    removed. *)
Definition broadcast (note : Notification) : M unit := mmodify (λ w,
  set_channels
    (map_imap (λ id c, Some (if bool_decide (id ∈ subscribers w)
       then if has_room c then {| pending := pending c ++ [note]; closed := closed c |} else {| pending := pending c; closed := true |}
       else c)) (channels w))
    (filter (λ id, match channels w !! id with Some c => has_room c | None => true end = true) (subscribers w)) w).

(** ** Following a repository *)
Definition updateSourceCursor (seq : Z) : M unit :=
  connected ← now;
  update (λ t, UpsertATProtoSource t {| SourceKey := sourceKey; RelayURL := TrimSpace (env_relayURL env); LastSeq := seq;
    ConnectedAt := Some connected; src_UpdatedAt := 0 |}).

Definition keep_reason (reason : string) (r : ATProtoRepo) : ATProtoRepo := if blank reason then r else with_reason (TrimSpace reason) r.
Definition TrackRepo (did reason : string) : M unit :=
  let did := TrimSpace did in
  if bool_decide (did = "") then mfail "track repo requires did"
  else
    repoInfo ← query (GetATProtoRepo did);
    match repoInfo with
    | None => _ ← db_UpsertATProtoRepo (new_repo did reason); enqueue did
    | Some r =>
        let r := keep_reason reason (with_tracking true r) in
        let r := if bool_decide (Generation r <= 0) then with_generation 1 r else r in
        let r := if bool_decide (SyncState r = "") || negb (isKnownSyncState (SyncState r)) then with_sync StatePending r else r in
        _ ← db_UpsertATProtoRepo r;
        if shouldQueueTrack (SyncState r) then enqueue did else mret tt
    end.

Definition RequestResync (did reason : string) : M unit :=
  let did := TrimSpace did in
  if bool_decide (did = "") then mfail "resync repo requires did"
  else
    repoInfo ← query (GetATProtoRepo did);
    let r := match repoInfo with
      | None => new_repo did reason
      | Some r =>
          let r := keep_reason reason (with_tracking true r) in
          let r := with_generation (if bool_decide (Generation r <= 0) then 1 else Generation r + 1) r in
          with_error "" (with_sync StatePending r)
      end in
    _ ← db_UpsertATProtoRepo r;
    enqueue did.

Definition UntrackRepo (did : string) : M unit :=
  repoInfo ← query (GetATProtoRepo did);
  match repoInfo with
  | None => mret tt
  | Some r => db_UpsertATProtoRepo (with_tracking false r)
  end.

(** The followed repository; an active bridged account is followed on the way. *)
Definition ensureTracked (did : string) : M (option ATProtoRepo) :=
  repoInfo ← query (GetATProtoRepo did);
  match repoInfo with
  | Some r => if Tracking r then mret (Some r) else
      account ← db_GetBridgedAccount did;
      (match account with Some true => _ ← TrackRepo did "active_bridged_account"; query (GetATProtoRepo did) | _ => mret None end)
  | None =>
      account ← db_GetBridgedAccount did;
      (match account with Some true => _ ← TrackRepo did "active_bridged_account"; query (GetATProtoRepo did) | _ => mret None end)
  end.

(** ** Records and events *)
Definition upsert_event (did collection rkey uri cid rev json : string) (seq : option Z) (live : bool) : ATProtoRecordEvent :=
  Build_ATProtoRecordEvent 0 did collection rkey uri cid "upsert" live rev seq json 0.
Definition at_uri (did path : string) : string := "at://" +:+ did +:+ "/" +:+ path.

Definition recordFromRepoPath (snapshot : Repo) (did path rev : string) (seq : option Z) (live : bool) :
    result (option (ATProtoRecord * ATProtoRecordEvent)) :=
  match collectionAndRKey path with
  | None => mret None
  | Some (collection, rkey) =>
      '(recordCID, rawCBOR) ← GetRecordBytes snapshot path;
      recordJSON ← env_record_json env rawCBOR;
      mret (Some (
        Build_ATProtoRecord did collection rkey (at_uri did path) recordCID recordJSON rev seq false None 0 0,
        upsert_event did collection rkey (at_uri did path) recordCID rev recordJSON seq live))
  end.

(** The record is stored, its event logged and sent; the cursor of the event. *)
Definition publish_change (record : ATProtoRecord) (event : ATProtoRecordEvent) : M Z :=
  _ ← db_UpsertATProtoRecord record;
  cursor ← db_AppendATProtoEvent event;
  _ ← broadcast (NRecord cursor (with_event_cursor cursor (ev_CreatedAt event) event));
  mret cursor.

Definition delete_change (evt : Commit) (op : RepoOp) (collection rkey : string) (live : bool) : M Z :=
  let atURI := at_uri (c_Repo evt) (op_Path op) in
  existing ← query (GetATProtoRecord atURI);
  t ← now;
  let record := Build_ATProtoRecord (c_Repo evt) collection rkey atURI (existingATCID existing op) (existingJSON existing) (c_Rev evt)
    (Some (c_Seq evt)) true (Some t) (match existing with Some e => rec_CreatedAt e | None => 0 end) 0 in
  publish_change record
    (Build_ATProtoRecordEvent 0 (c_Repo evt) collection rkey atURI (rec_ATCID record) "delete" live (c_Rev evt)
       (Some (c_Seq evt)) (rec_RecordJSON record) 0).

Definition apply_op (snapshot : Repo) (evt : Commit) (live : bool) (lastCursor : Z) (op : option RepoOp) : M Z :=
  match op with
  | None => mlift Panic
  | Some op =>
      match collectionAndRKey (op_Path op) with
      | None => mret lastCursor
      | Some (collection, rkey) =>
          if bool_decide (op_Action op = "create" ∨ op_Action op = "update") then
            found ← mlift (recordFromRepoPath snapshot (c_Repo evt) (op_Path op) (c_Rev evt) (Some (c_Seq evt)) live);
            match found with
            | None => mret lastCursor
            | Some (record, event) => publish_change record event
            end
          else if bool_decide (op_Action op = "delete") then delete_change evt op collection rkey live
          else mret lastCursor
      end
  end.
Fixpoint apply_ops (snapshot : Repo) (evt : Commit) (live : bool) (lastCursor : Z) (ops : list (option RepoOp)) : M Z :=
  match ops with
  | [] => mret lastCursor
  | op :: ops => c ← apply_op snapshot evt live lastCursor op; apply_ops snapshot evt live c ops
  end.

Definition failure {A} (r : result A) : option string := match r with Err e => Some e | _ => None end.
(** The repository's row that [applyCommit] leaves in the caller's variable, and its
    error. *)
Definition committed (evt : Commit) (lastCursor : Z) (r : ATProtoRepo) : ATProtoRepo :=
  let r := with_seq (Some (c_Seq evt)) (with_head (c_Rev evt) (c_Commit evt) r) in
  if bool_decide (lastCursor > 0) then with_cursor (Some lastCursor) r else r.
Definition applyCommit (r : ATProtoRepo) (evt : Commit) (live : bool) : M (ATProtoRepo * option string) :=
  applied ← mtry (snapshot ← mlift (ReadRepoFromCar (c_Blocks evt)); apply_ops snapshot evt live 0 (c_Ops evt));
  match applied with
  | Ok lastCursor =>
      let r := committed evt lastCursor r in
      stored ← mtry (db_UpsertATProtoRepo r);
      mret (r, failure stored)
  | Err e => mret (r, Some e)
  | Panic => mlift Panic
  end.

(** ** The firehose *)
Definition bufferCommit (evt : Commit) (generation : Z) : M unit :=
  raw ← mlift (env_marshal env evt);
  _ ← update (λ t, AddATProtoCommitBufferItem t (c_Repo evt) generation (c_Rev evt) (c_Seq evt) raw);
  enqueue (c_Repo evt).

Definition markDesynchronized (r : ATProtoRepo) (evt : Commit) (reason : string) : M unit :=
  let r := with_seq (Some (c_Seq evt)) (with_error reason (with_sync StateDesynchronized (with_generation (Generation r + 1) r))) in
  _ ← db_UpsertATProtoRepo r;
  _ ← bufferCommit evt (Generation r);
  enqueue (DID r).

(** The pointer of [since] is printed, not the revision. *)
Definition break_reason (r : ATProtoRepo) (evt : Commit) : M string := λ w,
  (Ok ("commit continuity break current=" +:+ CurrentRev r +:+ " since=" +:+
     match c_Since evt with None => "<nil>" | Some _ => env_pointer env (calls w) end), w).

Definition already_applied (r : ATProtoRepo) (evt : Commit) : bool :=
  bool_decide (CurrentRev r = c_Rev evt) && bool_decide (TrimSpace (CurrentCommitCID r) = c_Commit evt).
Definition follows (r : ATProtoRepo) (evt : Commit) : bool :=
  match c_Since evt with None => false | Some since => bool_decide (TrimSpace since = CurrentRev r) end.

(** A commit of a synchronised repository. *)
Definition handle_synced (r : ATProtoRepo) (evt : Commit) : M unit :=
  if negb (bool_decide (CurrentRev r = "")) && already_applied r evt then updateSourceCursor (c_Seq evt)
  else if negb (bool_decide (CurrentRev r = "")) && negb (follows r evt) then
    reason ← break_reason r evt;
    _ ← markDesynchronized r evt reason;
    updateSourceCursor (c_Seq evt)
  else
    '(_, err) ← applyCommit r evt true;
    match err with Some e => mfail e | None => updateSourceCursor (c_Seq evt) end.

Definition HandleCommit (evt : option Commit) : M unit :=
  match evt with
  | None => mret tt
  | Some evt =>
      if blank (c_Repo evt) then mret tt
      else
        repoInfo ← ensureTracked (c_Repo evt);
        match repoInfo with
        | None => updateSourceCursor (c_Seq evt)
        | Some r =>
            let r := if bool_decide (Generation r <= 0) then with_generation 1 r else r in
            if bool_decide (SyncState r = StateSynced) then handle_synced r evt
            else _ ← bufferCommit evt (Generation r); updateSourceCursor (c_Seq evt)
        end
  end.

Definition HandleIdentity (evt : option Identity) : M unit :=
  match evt with
  | None => mret tt
  | Some evt =>
      if blank (i_Did evt) then mret tt
      else
        repoInfo ← ensureTracked (i_Did evt);
        match repoInfo with
        | None => updateSourceCursor (i_Seq evt)
        | Some r =>
            let r := match i_Handle evt with Some h => with_handle (TrimSpace h) r | None => r end in
            t ← now;
            let r := with_identity_at (Some t) r in
            r ← (λ w, match env_resolver env with
                 | Some resolve => if bool_decide (PDSURL r = "")
                     then (Ok (match resolve (calls w) (i_Did evt) with Ok endpoint => with_pds endpoint r | _ => r end), count_call w)
                     else (Ok r, w)
                 | None => (Ok r, w)
                 end);
            _ ← db_UpsertATProtoRepo r;
            _ ← updateSourceCursor (i_Seq evt);
            broadcast (NIdentity (i_Did evt) (Handle r) (i_Seq evt) (i_Time evt))
        end
  end.

(** The account states that are states of a repository. *)
Definition apply_status (status : option string) (r : ATProtoRepo) : ATProtoRepo :=
  match status with
  | None => r
  | Some s =>
      let s := TrimSpace s in
      let r := with_account_status s r in
      if bool_decide (s ∈ [StateDeleted; StateDeactivated; StateTakendown; StateSuspended]) then with_sync s r else r
  end.
Definition HandleAccount (evt : option Account) : M unit :=
  match evt with
  | None => mret tt
  | Some evt =>
      if blank (a_Did evt) then mret tt
      else
        repoInfo ← ensureTracked (a_Did evt);
        match repoInfo with
        | None => updateSourceCursor (a_Seq evt)
        | Some r =>
            t ← now;
            let r := apply_status (a_Status evt) (with_seq (Some (a_Seq evt)) (with_account (Some (a_Active evt)) (Some t) r)) in
            let r := if a_Active evt && bool_decide (SyncState r = "") then with_sync StatePending r else r in
            _ ← db_UpsertATProtoRepo r;
            _ ← updateSourceCursor (a_Seq evt);
            broadcast (NAccount (a_Did evt) (a_Active evt) (AccountStatus r) (a_Seq evt) (a_Time evt))
        end
  end.

(** ** The worker *)
Definition failRepo {A} (r : ATProtoRepo) (err : string) : M A :=
  stored ← mtry (db_UpsertATProtoRepo (with_error err (with_sync StateError r)));
  match failure stored with
  | Some e => mfail (err +:+ " (also failed to update repo state: " +:+ e +:+ ")")
  | None => mfail err
  end.

(** The buffered commits, in the order of the firehose; the repository's row and the
    error, as in [applyCommit]. *)
Fixpoint drain_items (r : ATProtoRepo) (items : list ATProtoCommitBufferItem) : M (ATProtoRepo * option string) :=
  match items with
  | [] => mret (r, None)
  | item :: items =>
      match env_unmarshal env (RawEventJSON item) with
      | Ok evt =>
          '(r, err) ← applyCommit r evt true;
          match err with Some e => mret (r, Some e) | None => drain_items r items end
      | Err e => mret (r, Some ("decode buffered commit " +:+ item_DID item +:+ "/" +:+ item_Rev item +:+ ": " +:+ e))
      | Panic => mlift Panic
      end
  end.
Definition drainBufferedCommits (r : ATProtoRepo) : M (ATProtoRepo * option string) :=
  items ← mtry (query (ListATProtoCommitBufferItems (DID r) (Generation r)));
  match items with
  | Ok items =>
      '(r, err) ← drain_items r items;
      match err with
      | Some e => mret (r, Some e)
      | None => deleted ← mtry (update (λ _, DeleteATProtoCommitBufferItems (DID r) (Generation r))); mret (r, failure deleted)
      end
  | Err e => mret (r, Some e)
  | Panic => mlift Panic
  end.

(** The first half of [runBackfill]: the row is read and marked. *)
Definition backfill_start (did : string) : M (option ATProtoRepo) :=
  repoInfo ← query (GetATProtoRepo did);
  match repoInfo with
  | None => mret None
  | Some r =>
      if negb (Tracking r) then mret None
      else
        let r := with_error "" (with_sync StateBackfilling r) in
        _ ← db_UpsertATProtoRepo r;
        mret (Some r)
  end.

(** The network: the host, the download, the snapshot. *)
Definition resolve_host (did : string) : M (option (result string)) := λ w,
  match env_resolver env, env_fetcher env with
  | Some resolve, Some _ => (Ok (Some (resolve (calls w) did)), count_call w)
  | _, _ => (Ok None, w)
  end.
Definition fetch_repo (endpoint did : string) : M (result string) := λ w,
  match env_fetcher env with
  | Some fetch => (Ok (fetch (calls w) endpoint did), count_call w)
  | None => (Ok Panic, w)
  end.

(** A record of the snapshot; the second component is the last cursor. *)
Definition backfill_record (r : ATProtoRepo) (snapshot : Repo) (path : string) (_ : string) : Prelude.M (IndexWorld * Z) unit :=
  found ← mlift (recordFromRepoPath snapshot (DID r) path (Rev (commit snapshot)) None false);
  match found with
  | None => mret tt
  | Some (record, event) => c ← on_fst (publish_change record event); mmodify (λ w, (w.1, c))
  end.

Definition backfill_records (r : ATProtoRepo) (snapshot : Repo) : M Z := λ w,
  match ForEach snapshot "" (backfill_record r snapshot) (w, 0) with
  | (Ok _, (w', c)) => (Ok c, w')
  | (Err e, (w', _)) => (Err e, w')
  | (Panic, (w', _)) => (Panic, w')
  end.

(** What the row becomes when the snapshot is complete. *)
Definition backfilled (snapshot : Repo) (t lastCursor : Z) (r : ATProtoRepo) : ATProtoRepo :=
  let r := with_backfilled (Some t) (with_snapshot (Rev (commit snapshot)) (Data (commit snapshot)) (with_sync StateSynced r)) in
  if bool_decide (lastCursor > 0) then with_cursor (Some lastCursor) r else r.

(** The records of a snapshot, the buffered commits and the final row. *)
Definition backfill_snapshot (r : ATProtoRepo) (snapshot : Repo) : M unit :=
  walked ← mtry (backfill_records r snapshot);
  match walked with
  | Ok lastCursor =>
      '(r, err) ← drainBufferedCommits r;
      match err with
      | Some e => failRepo r e
      | None => t ← now; db_UpsertATProtoRepo (backfilled snapshot t lastCursor r)
      end
  | Err e => failRepo r e
  | Panic => mlift Panic
  end.

(** The second half of [runBackfill], with the row its first half read. *)
Definition backfill_finish (r : ATProtoRepo) : M unit :=
  host ← resolve_host (DID r);
  match host with
  | None => failRepo r "backfill resolver/fetcher not configured"
  | Some (Err e) => failRepo r e
  | Some Panic => mlift Panic
  | Some (Ok endpoint) =>
      let r := with_pds endpoint r in
      car ← fetch_repo endpoint (DID r);
      match car with
      | Err e => failRepo r e
      | Panic => mlift Panic
      | Ok carBytes =>
          match ReadRepoFromCar carBytes with
          | Err e => failRepo r e
          | Panic => mlift Panic
          | Ok snapshot => backfill_snapshot r snapshot
          end
      end
  end.

Definition runBackfill (did : string) : M unit :=
  started ← backfill_start did;
  match started with None => mret tt | Some r => backfill_finish r end.

(** One turn of [runWorker]: the error is only logged. *)
Definition worker_turn : M unit := λ w,
  match queue w with
  | [] => (Ok tt, w)
  | did :: rest => (_ ← dequeue did; _ ← mtry (runBackfill did); mret tt) (set_queue (queued w) rest w)
  end.
End Service.
