(* ===== verification/AtIndexProofs.v ===== *)
(** * The repository index: what its tables say

    The log is the history of the record table; commits change both only in step;
    what a backfill leaves behind. *)
From S2P Require Import Prelude GoStr Regex AtSyntax RepoTree AtIndexDB AtIndex.
#[local] Open Scope string_scope.
#[local] Open Scope list_scope.
#[local] Open Scope Z_scope.

Create HintDb keeps discriminated.

(** ** The log as a history of the records *)
Definition view : Type := string * string * string * string * option Z * bool.
Definition record_view (r : ATProtoRecord) : view :=
  (rec_ATURI r, rec_ATCID r, rec_RecordJSON r, LastRev r, rec_LastSeq r, Deleted r).
Definition event_view (e : ATProtoRecordEvent) : view :=
  (ev_ATURI e, ev_ATCID e, ev_RecordJSON e, ev_Rev e, ev_Seq e, bool_decide (ev_Action e = "delete")).
Definition event_key (e : ATProtoRecordEvent) : record_key := (ev_DID e, ev_Collection e, ev_RKey e).
(** What a subscriber that reads the whole log knows. *)
Definition replay (log : list ATProtoRecordEvent) : gmap record_key view :=
  foldl (λ m e, <[event_key e := event_view e]> m) ∅ log.

Definition cursors_ok (log : list ATProtoRecordEvent) : Prop :=
  ∀ i e, log !! i = Some e → Cursor e = Z.of_nat i + 1.
Definition log_ok (d : IndexDB) : Prop :=
  record_view <$> records d = replay (event_log d) ∧ cursors_ok (event_log d).

Lemma replay_snoc log e : replay (log ++ [e]) = <[event_key e := event_view e]> (replay log).
Proof. unfold replay. by rewrite foldl_app. Qed.
Lemma cursors_snoc log e : cursors_ok log → Cursor e = Z.of_nat (length log) + 1 → cursors_ok (log ++ [e]).
Proof.
  intros Hl He i e' Hi. apply lookup_app_Some in Hi as [Hi|[Hi Hi']]; [by apply Hl|].
  apply list_lookup_singleton_Some in Hi' as [Hi' <-]. rewrite He. lia.
Qed.

(** A change of the database that leaves records and log alone. *)
Definition quiet (f : IndexDB → IndexDB) : Prop := ∀ d, records (f d) = records d ∧ event_log (f d) = event_log d.
Lemma quiet_source t s : quiet (UpsertATProtoSource t s).
Proof. done. Qed.
Lemma quiet_repo t r : quiet (UpsertATProtoRepo t r).
Proof. done. Qed.
Lemma quiet_buffer t did g rev seq raw : quiet (AddATProtoCommitBufferItem t did g rev seq raw).
Proof. intros d. unfold AddATProtoCommitBufferItem. by destruct (existsb _ _). Qed.
Lemma add_records t did g rev seq raw d : records (AddATProtoCommitBufferItem t did g rev seq raw d) = records d.
Proof. apply quiet_buffer. Qed.
Lemma add_log t did g rev seq raw d : event_log (AddATProtoCommitBufferItem t did g rev seq raw d) = event_log d.
Proof. apply quiet_buffer. Qed.
Lemma add_repos t did g rev seq raw d : repos (AddATProtoCommitBufferItem t did g rev seq raw d) = repos d.
Proof. unfold AddATProtoCommitBufferItem. by destruct (existsb _ _). Qed.
Lemma quiet_unbuffer did g : quiet (DeleteATProtoCommitBufferItems did g).
Proof. done. Qed.
#[export] Hint Resolve quiet_source quiet_repo quiet_buffer quiet_unbuffer : go.

(** A property of the records, the log and the number of calls made. *)
Definition on_log (P : nat → gmap record_key ATProtoRecord → list ATProtoRecordEvent → Prop) (w : IndexWorld) : Prop :=
  P (calls w) (records (db w)) (event_log (db w)).
Definition grows (P : nat → gmap record_key ATProtoRecord → list ATProtoRecordEvent → Prop) : Prop :=
  ∀ n r l, P n r l → P (S n) r l.

Section Walk.
Context `{CarCbor} {W : Type} (I : W → Prop).
Lemma hoare_walk_list (walk : string → M W unit) from cb l :
  (∀ t, hoare I (walk t) (λ _, True)) → (∀ k v, hoare I (cb k v) (λ _, True)) → hoare I (walk_list walk from cb l) (λ _, True).
Proof.
  intros Hw Hcb. induction l as [|e l IH]; [by apply hoare_ret|]. cbn [walk_list].
  eapply hoare_bind; [destruct (String.leb _ _); [apply Hcb|by apply hoare_ret]|]. intros _ _.
  eapply hoare_bind; [destruct (entry_Tree e); [apply Hw|by apply hoare_ret]|]. intros _ _. exact IH.
Qed.
Lemma hoare_walk fuel bs id from (cb : string → string → M W unit) :
  (∀ k v, hoare I (cb k v) (λ _, True)) → hoare I (walkMST fuel bs id from cb) (λ _, True).
Proof.
  intros Hcb. revert id. induction fuel as [|fuel IH]; intros id; [by apply hoare_lift|]. cbn [walkMST].
  eapply (hoare_bind _ _ _ (λ _, True)); [by apply hoare_lift|]. intros n _.
  eapply (hoare_bind _ _ _ (λ _, True)); [destruct (node_Left n); [apply IH|by apply hoare_ret]|]. intros _ _.
  by apply hoare_walk_list.
Qed.
End Walk.

Section Log.
Context `{UnicodeCase} `{CarCbor} (env : IndexEnv).
Context (P : nat → gmap record_key ATProtoRecord → list ATProtoRecordEvent → Prop) (P_grows : grows P).
(** While a send waits for room, the others keep the property too. *)
Hypothesis full_keeps : ∀ w w', on_log P w → env_full env w = Some w' → on_log P w'.
#[local] Abbreviation keeps := (hoare (on_log P)).

Lemma keeps_count w : on_log P w → on_log P (count_call w).
Proof. apply P_grows. Qed.
Hint Resolve keeps_count : core.
Lemma keeps_update f : (∀ t, quiet (f t)) → keeps (update env f) (λ _, True).
Proof.
  intros Hf w Hw. split; [|done]. unfold update, statement. destruct (env_db_err env (calls w)); [by apply keeps_count|].
  apply keeps_count in Hw. unfold on_log in *. simpl in *. by destruct (Hf (env_now env (calls w)) (db w)) as [-> ->].
Qed.
Lemma keeps_query {A} (f : IndexDB → A) : keeps (query env f) (λ _, True).
Proof. intros w Hw%keeps_count. split; [|done]. unfold query, statement. by destruct (env_db_err env (calls w)). Qed.
Lemma keeps_now : keeps (now env) (λ _, True).
Proof. intros w Hw%keeps_count. by split. Qed.
Lemma keeps_account did : keeps (db_GetBridgedAccount env did) (λ _, True).
Proof. intros w Hw. unfold db_GetBridgedAccount. by apply keeps_query. Qed.
Lemma keeps_enqueue did : keeps (enqueue env did) (λ _, True).
Proof.
  intros w Hw. unfold enqueue. repeat case_bool_decide; [done..|].
  destruct (env_full env _) as [w'|] eqn:E; [|done]. split; [|done]. unfold push_queue.
  apply full_keeps in E; [exact E|exact Hw].
Qed.
Lemma keeps_dequeue did : keeps (dequeue did) (λ _, True).
Proof. by intros w Hw. Qed.
Lemma keeps_broadcast note : keeps (broadcast note) (λ _, True).
Proof. by intros w Hw. Qed.
Lemma keeps_repo r : keeps (db_UpsertATProtoRepo env r) (λ _, True).
Proof. apply keeps_update. intros t. apply quiet_repo. Qed.
Lemma keeps_source seq : keeps (updateSourceCursor env seq) (λ _, True).
Proof. eapply hoare_bind; [apply keeps_now|]. intros t _. apply keeps_update. intros t'. apply quiet_source. Qed.
Hint Resolve keeps_query keeps_now keeps_account keeps_enqueue keeps_dequeue keeps_broadcast keeps_repo keeps_source : keeps.

Lemma keeps_try {A} (m : M IndexWorld A) : keeps m (λ _, True) → keeps (mtry m) (λ _, True).
Proof. intros Hm. eapply hoare_weaken; [by apply hoare_try|done]. Qed.
Ltac keeps_step :=
  match goal with
  | |- hoare _ (mbind _ _) _ => apply (hoare_bind _ _ _ (λ _, True)); [|intros ? _]
  | |- hoare _ (mtry _) _ => apply keeps_try
  | |- hoare _ (let _ := _ in _) _ => cbv zeta
  | |- hoare _ (update _ _) _ => apply keeps_update; intros ?; auto with go
  | |- _ => hoare_step
  end.
Ltac keeps_all := repeat first [solve [eauto with keeps] | keeps_step]; try done.

Lemma keeps_track did reason : keeps (TrackRepo env did reason) (λ _, True).
Proof. unfold TrackRepo. keeps_all. Qed.
Hint Resolve keeps_track : keeps.
Lemma keeps_resync did reason : keeps (RequestResync env did reason) (λ _, True).
Proof. unfold RequestResync. keeps_all. Qed.
Lemma keeps_untrack did : keeps (UntrackRepo env did) (λ _, True).
Proof. unfold UntrackRepo. keeps_all. Qed.
Lemma keeps_ensure did : keeps (ensureTracked env did) (λ _, True).
Proof. unfold ensureTracked. keeps_all. Qed.
Hint Resolve keeps_ensure : keeps.
Lemma keeps_buffer evt g : keeps (bufferCommit env evt g) (λ _, True).
Proof. unfold bufferCommit. keeps_all. Qed.
Hint Resolve keeps_buffer : keeps.
Lemma keeps_desync r evt reason : keeps (markDesynchronized env r evt reason) (λ _, True).
Proof. unfold markDesynchronized. keeps_all. Qed.
Lemma keeps_identity evt : keeps (HandleIdentity env evt) (λ _, True).
Proof.
  unfold HandleIdentity. keeps_all.
  all: intros w Hw; split; [|done]; destruct (env_resolver env); [case_bool_decide|]; (done || by apply keeps_count).
Qed.
Lemma keeps_account_event evt : keeps (HandleAccount env evt) (λ _, True).
Proof. unfold HandleAccount. keeps_all. Qed.
Lemma keeps_start did : keeps (backfill_start env did) (λ _, True).
Proof. unfold backfill_start. keeps_all. Qed.
Lemma keeps_fail {A} r err : keeps (failRepo (A := A) env r err) (λ _, True).
Proof. unfold failRepo. keeps_all. Qed.

(** ** Writers *)
Section Writers.
(** What the writes of records keep. *)
Hypothesis change_keeps : ∀ record event, event_key event = key_of record → event_view event = record_view record →
  keeps (publish_change env record event) (λ _, True).
Hint Resolve keeps_desync keeps_fail : keeps.

Lemma found_views snapshot did path rev seq live record event :
  recordFromRepoPath env snapshot did path rev seq live = Ok (Some (record, event)) →
  event_key event = key_of record ∧ event_view event = record_view record.
Proof.
  unfold recordFromRepoPath. destruct (collectionAndRKey path) as [[c k]|]; [|done].
  intros ([cid raw] & _ & (json & _ & [= <- <-])%result_bind_ok)%result_bind_ok. done.
Qed.
Lemma keeps_delete evt op c k live : keeps (delete_change env evt op c k live) (λ _, True).
Proof. unfold delete_change. keeps_all. Qed.
Lemma keeps_op snapshot evt live c op : keeps (apply_op env snapshot evt live c op) (λ _, True).
Proof.
  unfold apply_op. destruct op as [op|]; [|by apply hoare_lift]. destruct (collectionAndRKey _) as [[col k]|]; [|by apply hoare_ret].
  case_bool_decide; [|case_bool_decide; [apply keeps_delete|by apply hoare_ret]].
  eapply (hoare_bind _ _ _ (λ f, ∀ p, f = Some p → event_key p.2 = key_of p.1 ∧ event_view p.2 = record_view p.1)).
  - apply hoare_lift. intros f Hf p ->. destruct p. by eapply found_views.
  - intros [[record event]|] Hp; [|by apply hoare_ret]. destruct (Hp _ eq_refl). by apply change_keeps.
Qed.
Lemma keeps_ops snapshot evt live c ops : keeps (apply_ops env snapshot evt live c ops) (λ _, True).
Proof.
  revert c. induction ops as [|op ops IH]; intros c; [by apply hoare_ret|]. cbn [apply_ops].
  eapply hoare_bind; [apply keeps_op|]. intros c' _. apply IH.
Qed.
Hint Resolve keeps_ops : keeps.
Lemma keeps_apply r evt live : keeps (applyCommit env r evt live) (λ _, True).
Proof. unfold applyCommit. keeps_all. Qed.
Hint Resolve keeps_apply : keeps.
Lemma keeps_synced r evt : keeps (handle_synced env r evt) (λ _, True).
Proof. unfold handle_synced. keeps_all. Qed.
Hint Resolve keeps_synced : keeps.
Lemma keeps_commit evt : keeps (HandleCommit env evt) (λ _, True).
Proof. unfold HandleCommit. keeps_all. Qed.
Lemma keeps_drain_items r items : keeps (drain_items env r items) (λ _, True).
Proof. revert r. induction items as [|i items IH]; intros r; cbn [drain_items]; keeps_all. Qed.
Hint Resolve keeps_drain_items : keeps.
Lemma keeps_drain r : keeps (drainBufferedCommits env r) (λ _, True).
Proof. unfold drainBufferedCommits. keeps_all. Qed.
Hint Resolve keeps_drain : keeps.
Lemma keeps_records r snapshot : keeps (backfill_records env r snapshot) (λ _, True).
Proof.
  intros w Hw. split; [|done]. unfold backfill_records.
  assert (hoare (λ v : IndexWorld * Z, on_log P v.1 ∧ True) (ForEach snapshot "" (backfill_record env r snapshot)) (λ _, True)) as Hh.
  { apply hoare_walk. intros k v. unfold backfill_record.
    eapply (hoare_bind _ _ _ (λ f, ∀ p, f = Some p → event_key p.2 = key_of p.1 ∧ event_view p.2 = record_view p.1)).
    - apply hoare_lift. intros f Hf p ->. destruct p. by eapply found_views.
    - intros [[record event]|] Hp; [|by apply hoare_ret]. destruct (Hp _ eq_refl).
      eapply hoare_bind; [apply (hoare_on_fst (on_log P) (λ _, True)), change_keeps; done|]. intros c _. by intros w1 Hw1. }
  destruct (Hh (w, 0) (conj Hw I)) as [[Hi _] _]. destruct (ForEach _ _ _ _) as [[[]|e|] [w' c]]; exact Hi.
Qed.
Hint Resolve keeps_records : keeps.
Lemma keeps_snapshot r snapshot : keeps (backfill_snapshot env r snapshot) (λ _, True).
Proof. unfold backfill_snapshot. keeps_all. Qed.
Hint Resolve keeps_snapshot : keeps.
Lemma keeps_finish r : keeps (backfill_finish env r) (λ _, True).
Proof.
  unfold backfill_finish. eapply (hoare_bind _ _ _ (λ _, True)).
  { intros w Hw. split; [|done]. unfold resolve_host. destruct (env_resolver env), (env_fetcher env); (done || by apply keeps_count). }
  intros [[endpoint|e|]|] _; [|apply keeps_fail|by apply hoare_lift|apply keeps_fail].
  eapply (hoare_bind _ _ _ (λ _, True)).
  { intros w Hw. split; [|done]. unfold fetch_repo. destruct (env_fetcher env); (done || by apply keeps_count). }
  intros car _. keeps_all.
Qed.
Hint Resolve keeps_finish keeps_start : keeps.
Lemma keeps_backfill did : keeps (runBackfill env did) (λ _, True).
Proof. unfold runBackfill. keeps_all. Qed.
Lemma keeps_worker : keeps (worker_turn env) (λ _, True).
Proof.
  intros w Hw. unfold worker_turn. destruct (queue w) as [|did rest] eqn:E; [done|].
  assert (keeps (_ ← dequeue did; _ ← mtry (runBackfill env did); mret tt) (λ _, True)) as Hk.
  { pose proof keeps_backfill. keeps_all. }
  by apply Hk.
Qed.
End Writers.
End Log.

(** ** Histories of the service *)
Inductive op :=
| OTrack (did reason : string)
| OResync (did reason : string)
| OUntrack (did : string)
| OCommit (evt : option Commit)
| OIdentity (evt : option Identity)
| OAccount (evt : option Account)
| OStart (did : string)      (* the worker marks a repository *)
| OFinish (r : ATProtoRepo)  (* and finishes with the row it read, at any later time *)
| OWorker.                   (* a turn of the worker without interruption *)

Section Histories.
Context `{UnicodeCase} `{CarCbor} (env : IndexEnv).
Definition run_op (o : op) : M IndexWorld unit :=
  match o with
  | OTrack did reason => TrackRepo env did reason
  | OResync did reason => RequestResync env did reason
  | OUntrack did => UntrackRepo env did
  | OCommit evt => HandleCommit env evt
  | OIdentity evt => HandleIdentity env evt
  | OAccount evt => HandleAccount env evt
  | OStart did => _ ← dequeue did; _ ← backfill_start env did; mret tt
  | OFinish r => backfill_finish env r
  | OWorker => worker_turn env
  end.
(** Errors end a call, not the service. *)
Definition run (ops : list op) (w : IndexWorld) : IndexWorld := foldl (λ w o, (run_op o w).2) w ops.
Definition new_world : IndexWorld := Build_IndexWorld empty_db ∅ [] ∅ ∅ 0 0.

Lemma op_keeps P o : grows P →
  (∀ w w', on_log P w → env_full env w = Some w' → on_log P w') →
  (∀ record event, event_key event = key_of record → event_view event = record_view record →
     hoare (on_log P) (publish_change env record event) (λ _, True)) →
  hoare (on_log P) (run_op o) (λ _, True).
Proof.
  intros Hg Hf Hc. destruct o; simpl.
  - by apply keeps_track.
  - by apply keeps_resync.
  - by apply keeps_untrack.
  - by apply keeps_commit.
  - by apply keeps_identity.
  - by apply keeps_account_event.
  - eapply hoare_bind; [apply keeps_dequeue|]. intros _ _. eapply hoare_bind; [by apply keeps_start|]. intros _ _. by apply hoare_ret.
  - by apply keeps_finish.
  - by apply keeps_worker.
Qed.
Lemma run_keeps P ops w : grows P →
  (∀ w w', on_log P w → env_full env w = Some w' → on_log P w') →
  (∀ record event, event_key event = key_of record → event_view event = record_view record →
     hoare (on_log P) (publish_change env record event) (λ _, True)) →
  on_log P w → on_log P (run ops w).
Proof.
  intros Hg Hf Hc. revert w. induction ops as [|o ops IH]; intros w Hw; [done|]. simpl. apply IH.
  by apply (op_keeps P o Hg Hf Hc).
Qed.

(** The records that a reader of the log knows otherwise than the table has them, and
    the statements that failed among the first [n] calls. *)
Definition torn (r : gmap record_key ATProtoRecord) (l : list ATProtoRecordEvent) : gset record_key :=
  filter (λ k, record_view <$> r !! k ≠ replay l !! k) (dom r ∪ dom (replay l)).
Definition failures (n : nat) : nat := length (filter (λ i, is_Some (env_db_err env i)) (List.seq 0 n)).
Definition consistent (n : nat) (r : gmap record_key ATProtoRecord) (l : list ATProtoRecordEvent) : Prop :=
  (size (torn r l) ≤ failures n)%nat ∧ cursors_ok l.

Lemma elem_of_torn r l k : k ∈ torn r l ↔ record_view <$> r !! k ≠ replay l !! k.
Proof.
  unfold torn. rewrite elem_of_filter, elem_of_union, !elem_of_dom. split; [by intros [? _]|]. intros Hk. split; [done|].
  destruct (r !! k); [by left; eexists|]. destruct (replay l !! k); [by right; eexists|done].
Qed.
Lemma torn_none r l : size (torn r l) = 0%nat → record_view <$> r = replay l.
Proof.
  intros Hs%size_empty_inv. apply map_eq. intros k. rewrite lookup_fmap. apply dec_stable. intros Hk%elem_of_torn.
  rewrite Hs in Hk. set_solver.
Qed.
Lemma failures_S n : failures (S n) = (failures n + if env_db_err env n then 1 else 0)%nat.
Proof.
  unfold failures. rewrite List.seq_S, list.filter_app, length_app, Nat.add_0_l. f_equal.
  destruct (env_db_err env n) eqn:E; [rewrite list.filter_cons_True by (rewrite E; by eexists)|rewrite list.filter_cons_False by (rewrite E; by intros [])]; done.
Qed.
Lemma failures_none n : (∀ i, env_db_err env i = None) → failures n = 0%nat.
Proof. intros Hdb. induction n as [|n IH]; [done|]. by rewrite failures_S, IH, Hdb. Qed.
Lemma consistent_grows : grows consistent.
Proof. intros n r l [Hs Hc]. split; [|done]. rewrite failures_S. lia. Qed.

Lemma change_consistent record event :
  event_key event = key_of record → event_view event = record_view record →
  hoare (on_log consistent) (publish_change env record event) (λ _, True).
Proof.
  intros Hk Hv w Hw. split; [|done]. unfold publish_change, db_UpsertATProtoRecord, statement, mbind, M_mbind.
  destruct (env_db_err env (calls w)) eqn:E1; [by apply consistent_grows|].
  unfold UpsertATProtoRecord. destruct (uri_taken record _); [by apply consistent_grows|].
  unfold db_AppendATProtoEvent, statement. apply consistent_grows in Hw as [Hs Hl]. simpl in Hs, Hl. cbn [calls set_db count_call].
  assert (∀ v : ATProtoRecord, record_view v = event_view event → ∀ l, torn (<[key_of record := v]> (records (db w))) l ⊆ {[key_of record]} ∪ torn (records (db w)) l) as Hone.
  { intros v _ l k. rewrite elem_of_union, elem_of_singleton, !elem_of_torn. destruct (decide (key_of record = k)) as [->|]; [by left|].
    rewrite lookup_insert_ne by done. by right. }
  assert (∀ old t, record_view (stored_record old t record) = event_view event) as Hst by (rewrite Hv; done).
  destruct (env_db_err env (S (calls w))) eqn:E2; unfold on_log, consistent; simpl;
    match goal with |- context [<[key_of record := ?x]> (records (db w))] => set (v := x) end;
    assert (record_view v = event_view event) as Hview by apply Hst.
  - split; [|done]. rewrite (failures_S (S (calls w))), E2.
    pose proof (subseteq_size _ _ (Hone v Hview (event_log (db w)))) as H1. rewrite size_union_alt, size_singleton in H1.
    pose proof (subseteq_size (torn (records (db w)) (event_log (db w)) ∖ {[key_of record]}) (torn (records (db w)) (event_log (db w))) ltac:(set_solver)). lia.
  - split; [|by apply cursors_snoc]. rewrite (failures_S (S (calls w))), E2, Nat.add_0_r. etrans; [|exact Hs]. apply subseteq_size.
    intros k. rewrite !elem_of_torn, replay_snoc. change (event_key (with_event_cursor _ _ event)) with (event_key event).
    change (event_view (with_event_cursor _ _ event)) with (event_view event). rewrite Hk.
    destruct (decide (key_of record = k)) as [->|]; [|by rewrite !lookup_insert_ne by done].
    rewrite !lookup_insert_eq. cbn [fmap option_fmap option_map]. by rewrite Hview.
Qed.

(** C9. The event log is the history of the record table. After any sequence of calls,
    events of the firehose and turns of the worker, also with other calls between the
    worker's reading of a repository and its writing of the records: a reader who
    replays the log knows every record as the table has it (URI, CID, content,
    revision, sequence number, deletion), but for at most one record for each
    statement that failed, and all of them when none failed; the cursors count the
    events from one. The upsert of a record and the append of its event, two
    statements without a transaction, are one step here: between them only a failure
    may come, not the other goroutine (see [crossed_changes_disagree]). *)
Theorem log_is_history ops :
  (∀ w w', on_log consistent w → env_full env w = Some w' → on_log consistent w') →
  let w := run ops new_world in
  (size (torn (records (db w)) (event_log (db w))) ≤ failures (calls w))%nat ∧
  cursors_ok (event_log (db w)) ∧
  ((∀ n, env_db_err env n = None) → record_view <$> records (db w) = replay (event_log (db w))).
Proof.
  intros Hf w. assert (on_log consistent w) as [Hs Hc].
  { apply run_keeps; [apply consistent_grows|exact Hf|intros; by apply change_consistent|]. by split. }
  split_and!; [done..|]. intros Hdb. apply torn_none. rewrite failures_none in Hs by done. lia.
Qed.

(** Two goroutines that change one record, the worker and the firehose, with both
    upserts before both appends in the other order: the log ends with the change that
    the table no longer has. *)
Lemma crossed_changes_disagree record1 event1 record2 event2 w w1 w2 w3 w4 c1 c2 :
  key_of record1 = key_of record2 → event_key event1 = key_of record1 → event_view event1 = record_view record1 →
  record_view record1 ≠ record_view record2 →
  db_UpsertATProtoRecord env record1 w = (Ok tt, w1) → db_UpsertATProtoRecord env record2 w1 = (Ok tt, w2) →
  db_AppendATProtoEvent env event2 w2 = (Ok c2, w3) → db_AppendATProtoEvent env event1 w3 = (Ok c1, w4) →
  key_of record1 ∈ torn (records (db w4)) (event_log (db w4)).
Proof.
  intros Hk Hk1 Hv1 Hne E1 E2 E3 E4. revert Hk Hk1 Hv1 Hne.
  unfold db_UpsertATProtoRecord, db_AppendATProtoEvent, statement, UpsertATProtoRecord in *.
  repeat (case_match; simplify_eq/=). intros Hk Hk1 Hv1 Hne. rewrite elem_of_torn.
  rewrite replay_snoc. change (event_key (with_event_cursor _ _ event1)) with (event_key event1).
  change (event_view (with_event_cursor _ _ event1)) with (event_view event1). rewrite Hk1, Hk, !lookup_insert_eq.
  intros Hv%(inj Some). apply Hne. by rewrite <-Hv1, <-Hv.
Qed.
End Histories.

(** ** Commits in step *)
Section Step.
Context `{UnicodeCase} `{CarCbor} (env : IndexEnv).
(** Nothing else touches the database while a send waits. *)
Hypothesis full_waits : ∀ w w', env_full env w = Some w' → db w' = db w.

Lemma hoare_query {A} I (f : IndexDB → A) : (∀ w w', db w' = db w → I w → I w') → hoare I (query env f) (λ a, ∃ w, I w ∧ a = f (db w)).
Proof.
  intros HI w Hw. unfold query, statement. destruct (env_db_err env (calls w)); simpl.
  - split; [|done]. by apply (HI w).
  - split; [by apply (HI w)|]. intros a [= <-]. eauto.
Qed.
Lemma hoare_upsert I r : (∀ w w', db w' = db w → I w → I w') → (∀ w t, I w → I (set_db (UpsertATProtoRepo t r (db w)) w)) →
  hoare I (db_UpsertATProtoRepo env r) (λ _, True).
Proof.
  intros HI Hr w Hw. split; [|done]. unfold db_UpsertATProtoRepo, update, statement. destruct (env_db_err env (calls w)); simpl.
  - by apply (HI w).
  - eapply (HI (set_db (UpsertATProtoRepo (env_now env (calls w)) r (db w)) w)); [done|]. by apply Hr.
Qed.
Lemma hoare_enqueue I did : (∀ w w', db w' = db w → I w → I w') → hoare I (enqueue env did) (λ _, True).
Proof.
  intros HI w Hw. split; [|done]. unfold enqueue. repeat case_bool_decide; [done|by apply (HI w)|].
  destruct (env_full env _) as [w'|] eqn:E; [|by apply (HI w)]. apply full_waits in E. by apply (HI w).
Qed.

(** [evt] is the next commit of the row [r]. *)
Definition in_step (r : ATProtoRepo) (evt : Commit) : Prop :=
  SyncState r = StateSynced ∧ (CurrentRev r = "" ∨ follows r evt = true ∧ already_applied r evt = false).

(** Every row is stored under its DID. *)
Definition keyed (d : IndexDB) : Prop := ∀ k r, repos d !! k = Some r → DID r = k.
Lemma keyed_upsert t r d : keyed d → keyed (UpsertATProtoRepo t r d).
Proof.
  intros Hd k r'. simpl. destruct (decide (k = DID r)) as [->|Hk].
  - rewrite lookup_insert_eq. by intros [= <-].
  - rewrite lookup_insert_ne by done. apply Hd.
Qed.

Section Evt.
Context (d : IndexDB) (evt : Commit).
Definition frozen (w : IndexWorld) : Prop :=
  records (db w) = records d ∧ event_log (db w) = event_log d ∧ keyed (db w) ∧
  ∀ r, repos (db w) !! c_Repo evt = Some r → ¬ in_step r evt.
Lemma frozen_db w w' : db w' = db w → frozen w → frozen w'.
Proof. unfold frozen. by intros ->. Qed.
Lemma frozen_upsert r : (DID r = c_Repo evt → ¬ in_step r evt) → hoare frozen (db_UpsertATProtoRepo env r) (λ _, True).
Proof.
  intros Hr. apply hoare_upsert; [apply frozen_db|]. intros w t (Hrec & Hlog & Hk & Hrow). split_and!; [done..|by apply keyed_upsert|].
  simpl. intros row. destruct (decide (DID r = c_Repo evt)) as [Hd|Hd].
  - rewrite Hd, lookup_insert_eq. intros [= <-]. exact (Hr Hd).
  - rewrite lookup_insert_ne by done. apply Hrow.
Qed.

(** The columns on which being in step depends. *)
Definition same_step (r r' : ATProtoRepo) : Prop :=
  (SyncState r' = StateSynced → SyncState r = StateSynced) ∧ CurrentRev r' = CurrentRev r ∧ CurrentCommitCID r' = CurrentCommitCID r.
Lemma same_step_in r r' : same_step r r' → in_step r' evt → in_step r evt.
Proof. intros (Hs & Hr & Hc) [Hs' Hin]. unfold in_step, follows, already_applied in *. rewrite Hr, Hc in Hin. auto. Qed.
Lemma same_step_refl r : same_step r r.
Proof. done. Qed.
Lemma same_step_reason reason r r' : same_step r r' → same_step r (keep_reason reason r').
Proof. unfold keep_reason. by destruct (blank reason). Qed.
Lemma same_step_generation r r' : same_step r r' → same_step r (if bool_decide (Generation r' <= 0) then with_generation 1 r' else r').
Proof. by case_bool_decide. Qed.

Lemma frozen_track reason : hoare frozen (TrackRepo env (c_Repo evt) reason) (λ _, True).
Proof.
  unfold TrackRepo. cbv zeta. case_bool_decide; [by apply hoare_fail|].
  eapply hoare_bind; [apply hoare_query, frozen_db|]. intros q (w0 & (_ & _ & Hk & Hrow) & ->).
  destruct (GetATProtoRepo (TrimSpace (c_Repo evt)) (db w0)) as [r|] eqn:Hr.
  - set (r1 := if bool_decide (Generation _ <= 0) then _ else _).
    assert (same_step r r1) as Hs1 by by apply same_step_generation, same_step_reason.
    set (r2 := if bool_decide (SyncState r1 = "") || _ then _ else _).
    assert (same_step r r2) as Hs2.
    { unfold r2. destruct (_ || _); [|done]. split; [done|exact (proj2 Hs1)]. }
    assert (DID r2 = DID r) as Hd.
    { unfold r2, r1, keep_reason. repeat (case_match; simpl); done. }
    eapply hoare_bind; [apply frozen_upsert|].
    + rewrite Hd, (Hk _ _ Hr). intros Heq Hin%(same_step_in _ _ Hs2). eapply Hrow; [by rewrite <-Heq|done].
    + intros _ _. destruct (shouldQueueTrack _); [apply hoare_enqueue, frozen_db|by apply hoare_ret].
  - eapply hoare_bind; [apply frozen_upsert|].
    + intros _ [Hs _]. done.
    + intros _ _. apply hoare_enqueue, frozen_db.
Qed.

Lemma frozen_ensure : hoare frozen (ensureTracked env (c_Repo evt)) (λ q, ∀ r, q = Some r → ¬ in_step r evt).
Proof.
  assert (hoare frozen (query env (GetATProtoRepo (c_Repo evt))) (λ q, ∀ r, q = Some r → ¬ in_step r evt)) as Hq.
  { eapply hoare_weaken; [apply hoare_query, frozen_db|]. intros q (w & (_ & _ & _ & Hrow) & ->) r. apply Hrow. }
  assert (hoare frozen (account ← db_GetBridgedAccount env (c_Repo evt);
     (match account with Some true => _ ← TrackRepo env (c_Repo evt) "active_bridged_account"; query env (GetATProtoRepo (c_Repo evt)) | _ => mret None end))
     (λ q, ∀ r, q = Some r → ¬ in_step r evt)) as Ha.
  { eapply (hoare_bind _ _ _ (λ _, True)).
    - intros w Hw. split; [|done]. unfold db_GetBridgedAccount, query, statement. by destruct (env_db_err env (calls w)).
    - intros [[]|] _; [|by apply hoare_ret..]. eapply hoare_bind; [apply frozen_track|]. intros _ _. exact Hq. }
  unfold ensureTracked. eapply hoare_bind; [exact Hq|]. intros [r|] Hr; [|exact Ha].
  destruct (Tracking r); [|exact Ha]. by apply hoare_ret.
Qed.

Lemma frozen_update f : (∀ t, quiet (f t) ∧ ∀ d, repos (f t d) = repos d) → hoare frozen (update env f) (λ _, True).
Proof.
  intros Hf w Hw. split; [|done]. unfold update, statement. destruct (env_db_err env (calls w)); [exact Hw|].
  destruct (Hf (env_now env (calls w))) as [Hq Hr]. specialize (Hq (db w)). specialize (Hr (db w)). unfold frozen, keyed in *. simpl.
  destruct Hq as [-> ->]. by rewrite Hr.
Qed.
Lemma frozen_source seq : hoare frozen (updateSourceCursor env seq) (λ _, True).
Proof. eapply (hoare_bind _ _ _ (λ _, True)); [by intros w Hw|]. intros t _. apply frozen_update. intros t'. by split; [apply quiet_source|]. Qed.
Lemma frozen_buffer g : hoare frozen (bufferCommit env evt g) (λ _, True).
Proof.
  unfold bufferCommit. eapply (hoare_bind _ _ _ (λ _, True)); [by apply hoare_lift|]. intros raw _.
  eapply hoare_bind; [apply frozen_update|].
  - intros t. split; [apply quiet_buffer|]. intros d'. apply add_repos.
  - intros _ _. apply hoare_enqueue, frozen_db.
Qed.
Lemma frozen_commit : hoare frozen (HandleCommit env (Some evt)) (λ _, True).
Proof.
  unfold HandleCommit. destruct (blank (c_Repo evt)); [by apply hoare_ret|].
  eapply hoare_bind; [apply frozen_ensure|]. intros [r|] Hr; [|apply frozen_source]. specialize (Hr r eq_refl). cbv zeta.
  set (r1 := if bool_decide (Generation r <= 0) then _ else _).
  assert (¬ in_step r1 evt) as Hr1 by (intros Hin; by eapply Hr, same_step_in, Hin; apply same_step_generation).
  case_bool_decide as Hs; [|eapply hoare_bind; [apply frozen_buffer|intros _ _; apply frozen_source]].
  unfold handle_synced. destruct (bool_decide (CurrentRev r1 = "")) eqn:Hrev; simpl.
  { apply bool_decide_eq_true in Hrev. exfalso. apply Hr1. split; auto. }
  destruct (already_applied r1 evt) eqn:Ha; [apply frozen_source|]. destruct (follows r1 evt) eqn:Hf; simpl.
  { exfalso. apply Hr1. split; auto. }
  eapply (hoare_bind _ _ _ (λ _, True)); [by intros w Hw|]. intros reason _.
  eapply hoare_bind; [|intros _ _; apply frozen_source]. unfold markDesynchronized. cbv zeta.
  eapply hoare_bind; [apply frozen_upsert; by intros _ [? _]|]. intros _ _.
  eapply hoare_bind; [apply frozen_buffer|]. intros _ _. apply hoare_enqueue, frozen_db.
Qed.
End Evt.

Lemma commit_in_step evt w :
  keyed (db w) →
  let d' := db (HandleCommit env (Some evt) w).2 in
  records d' ≠ records (db w) ∨ event_log d' ≠ event_log (db w) →
  ∃ r, repos (db w) !! c_Repo evt = Some r ∧ in_step r evt.
Proof.
  intros Hk d' Hd. destruct (repos (db w) !! c_Repo evt) as [r|] eqn:Hr.
  - destruct (decide (SyncState r = StateSynced)) as [Hs|Hs].
    2:{ exfalso. destruct (frozen_commit (db w) evt w) as [(Hrec & Hlog & _) _]; [|by destruct Hd].
        split_and!; [done..|]. intros r'. rewrite Hr. intros [= <-] [? _]. done. }
    destruct (decide (CurrentRev r = "" ∨ follows r evt = true ∧ already_applied r evt = false)) as [Hin|Hin]; [by exists r|].
    exfalso. destruct (frozen_commit (db w) evt w) as [(Hrec & Hlog & _) _]; [|by destruct Hd].
    split_and!; [done..|]. intros r'. rewrite Hr. intros [= <-] [_ ?]. done.
  - exfalso. destruct (frozen_commit (db w) evt w) as [(Hrec & Hlog & _) _]; [|by destruct Hd].
    split_and!; [done..|]. intros r'. by rewrite Hr.
Qed.

(** The calls and events that write neither records nor log. *)
Definition writes_no_record (o : op) : Prop :=
  match o with OCommit (Some _) | OFinish _ | OWorker => False | _ => True end.
Lemma others_write_nothing o w : writes_no_record o →
  records (db (run_op env o w).2) = records (db w) ∧ event_log (db (run_op env o w).2) = event_log (db w).
Proof.
  intros Ho. set (P := λ (_ : nat) r l, r = records (db w) ∧ l = event_log (db w)).
  assert (grows P) as Hg by (by intros n r l).
  assert (∀ w1 w2, on_log P w1 → env_full env w1 = Some w2 → on_log P w2) as Hf.
  { intros w1 w2 Hw E%full_waits. unfold on_log, P in *. by rewrite E. }
  assert (hoare (on_log P) (run_op env o) (λ _, True)) as Hh; [|by apply Hh].
  destruct o as [| | |[]| | | | |]; try done; simpl.
  - by apply keeps_track.
  - by apply keeps_resync.
  - by apply keeps_untrack.
  - by apply keeps_identity.
  - by apply keeps_account_event.
  - eapply hoare_bind; [apply keeps_dequeue|]. intros _ _. eapply hoare_bind; [by apply keeps_start|]. intros _ _. by apply hoare_ret.
Qed.

(** C11. Outside a backfill records change in step only: whatever the database answers,
    of the calls, the events of the firehose and the start of a backfill only a commit
    changes the record table or the log, and then the row of its repository said it was
    synchronised, and the commit names the revision of that row as the one before it
    and was not applied before; a row without a revision takes any commit. The finish
    of a backfill writes the records of its snapshot, and then applies the commits that
    were buffered meanwhile with no such check ([AtScenarios.gap_is_drained]). *)
Theorem commits_apply_in_step o w :
  keyed (db w) →
  let d' := db (run_op env o w).2 in
  records d' ≠ records (db w) ∨ event_log d' ≠ event_log (db w) →
  (∃ evt r, o = OCommit (Some evt) ∧ repos (db w) !! c_Repo evt = Some r ∧ SyncState r = StateSynced ∧
     (CurrentRev r = "" ∨ follows r evt = true ∧ already_applied r evt = false)) ∨
  (∃ r, o = OFinish r) ∨ o = OWorker.
Proof.
  intros Hk d' Hd.
  assert (¬ writes_no_record o) as Hno by (intros Ho; destruct (others_write_nothing o w Ho); by destruct Hd).
  destruct o as [| | |[evt|]| | | | |]; try by destruct (Hno I).
  - left. destruct (commit_in_step evt w Hk Hd) as (r & Hr & Hs & Hin). by exists evt, r.
  - right. left. eauto.
  - by right; right.
Qed.
End Step.

(** ** What a backfill leaves *)
Section Backfill.
Context `{UnicodeCase} `{CarCbor} (env : IndexEnv).

(** The columns a commit does not change. *)
Definition same_base (r r' : ATProtoRepo) : Prop :=
  DID r' = DID r ∧ Tracking r' = Tracking r ∧ Generation r' = Generation r ∧ Handle r' = Handle r ∧
  AccountActive r' = AccountActive r ∧ AccountStatus r' = AccountStatus r.
Lemma same_base_trans r1 r2 r3 : same_base r1 r2 → same_base r2 r3 → same_base r1 r3.
Proof. unfold same_base. intros (? & ? & ? & ? & ? & ?) (? & ? & ? & ? & ? & ?). split_and!; congruence. Qed.
Lemma apply_base r evt live w r' err w' : applyCommit env r evt live w = (Ok (r', err), w') → same_base r r'.
Proof.
  unfold applyCommit. intros (applied & w1 & _ & Hr)%mbind_ok. destruct applied as [c|e|].
  - apply mbind_ok in Hr as (stored & w2 & _ & [= <- _ _]). unfold committed. by case_bool_decide.
  - by injection Hr as <- _ _.
  - done.
Qed.
Lemma drain_items_base r items w r' err w' : drain_items env r items w = (Ok (r', err), w') → same_base r r'.
Proof.
  revert r w. induction items as [|i items IH]; intros r w; cbn [drain_items]; [by intros [= <- _ _]|].
  destruct (env_unmarshal env (RawEventJSON i)) as [evt|e|]; [|by intros [= <- _ _]|done].
  intros ([r1 e1] & w1 & Ha%apply_base & Hr)%mbind_ok. destruct e1 as [e|]; [by injection Hr as <- _ _|].
  eapply same_base_trans; [exact Ha|by eapply IH].
Qed.
Lemma drain_base r w r' err w' : drainBufferedCommits env r w = (Ok (r', err), w') → same_base r r'.
Proof.
  unfold drainBufferedCommits. intros (items & w1 & _ & Hr)%mbind_ok. destruct items as [items|e|]; [|by injection Hr as <- _ _|done].
  apply mbind_ok in Hr as ([r1 e1] & w2 & Hd%drain_items_base & Hr). destruct e1; [by injection Hr as <- _ _|].
  by apply mbind_ok in Hr as (deleted & w3 & _ & [= <- _ _]).
Qed.
Lemma update_ok f w w' : update env f w = (Ok tt, w') → db w' = f (env_now env (calls w)) (db w).
Proof. unfold update, statement. destruct (env_db_err env (calls w)); [done|]. by intros [= <-]. Qed.
Lemma fail_not_ok {A} r e w (a : A) w' : failRepo env r e w ≠ (Ok a, w').
Proof.
  unfold failRepo. intros (stored & w1 & _ & Hr)%mbind_ok. by destruct (failure stored).
Qed.

(** What the row of a repository is after a backfill, whatever commits were drained
    and whatever was written to the row since it was read. *)
Definition row_of_snapshot (r : ATProtoRepo) (snapshot : Repo) (row : ATProtoRepo) : Prop :=
  same_base r row ∧ SyncState row = StateSynced ∧ CurrentRev row = Rev (commit snapshot) ∧ CurrentDataCID row = Data (commit snapshot).
Lemma backfill_row r snapshot w w' : backfill_snapshot env r snapshot w = (Ok tt, w') →
  ∃ row, repos (db w') !! DID r = Some row ∧ row_of_snapshot r snapshot row.
Proof.
  unfold backfill_snapshot. intros (walked & w1 & _ & Hr)%mbind_ok. destruct walked as [c|e|]; [|by apply fail_not_ok in Hr|done].
  apply mbind_ok in Hr as ([r1 err] & w2 & Hd%drain_base & Hr). destruct err; [by apply fail_not_ok in Hr|].
  apply mbind_ok in Hr as (t & w3 & _ & Hu%update_ok). rewrite Hu. simpl.
  assert (DID (backfilled snapshot t c r1) = DID r) as Hdid.
  { unfold backfilled. destruct Hd as [<- _]. by case_bool_decide. }
  rewrite Hdid, lookup_insert_eq. eexists. split; [done|]. unfold row_of_snapshot, same_base, backfilled in *.
  case_bool_decide; simpl; split_and!; try done; apply Hd.
Qed.

(** ** Calls that succeed

    [runs m w Q]: from [w] the call returns, and [Q] holds of the result and the
    world it leaves. *)
Definition runs {A} (m : M IndexWorld A) (w : IndexWorld) (Q : A → IndexWorld → Prop) : Prop :=
  ∃ a w', m w = (Ok a, w') ∧ Q a w'.
Lemma runs_ret {A} (a : A) w (Q : A → IndexWorld → Prop) : Q a w → runs (mret a) w Q.
Proof. intros HQ. by exists a, w. Qed.
Lemma runs_bind {A B} (m : M IndexWorld A) (k : A → M IndexWorld B) w Q : runs m w (λ a w', runs (k a) w' Q) → runs (mbind k m) w Q.
Proof. intros (a & w1 & Hm & b & w2 & Hk & HQ). exists b, w2. split; [|done]. apply mbind_ok. eauto. Qed.
Lemma runs_lift {A} (a : A) w (Q : A → IndexWorld → Prop) : Q a w → runs (mlift (Ok a)) w Q.
Proof. intros HQ. by exists a, w. Qed.
Lemma runs_fun {A} (f : IndexWorld → A) (g : IndexWorld → IndexWorld) w (Q : A → IndexWorld → Prop) :
  Q (f w) (g w) → runs (λ w, (Ok (f w), g w)) w Q.
Proof. intros HQ. by exists (f w), (g w). Qed.

Section Reliable.
Hypothesis reliable : ∀ n, env_db_err env n = None.
Lemma runs_query {A} (f : IndexDB → A) w Q : Q (f (db w)) (count_call w) → runs (query env f) w Q.
Proof. intros HQ. exists (f (db w)), (count_call w). split; [|done]. unfold query, statement. rewrite reliable. by destruct w. Qed.
Lemma runs_update f w (Q : unit → IndexWorld → Prop) :
  Q tt (set_db (f (env_now env (calls w)) (db w)) (count_call w)) → runs (update env f) w Q.
Proof. intros HQ. eexists tt, _. split; [|exact HQ]. unfold update, statement. by rewrite reliable. Qed.
Lemma runs_source seq w (Q : unit → IndexWorld → Prop) :
  (∀ w', repos (db w') = repos (db w) → records (db w') = records (db w) → event_log (db w') = event_log (db w) →
     buffer (db w') = buffer (db w) → queued w' = queued w → queue w' = queue w → Q tt w') → runs (updateSourceCursor env seq) w Q.
Proof. intros HQ. apply runs_bind, (runs_fun (λ w, env_now env (calls w)) count_call), runs_update. by apply HQ. Qed.
Lemma runs_enqueue did w (Q : unit → IndexWorld → Prop) :
  (did ∈ queued w ∨ (length (queue w) < queue_capacity)%nat) →
  (∀ w', db w' = db w → did ∈ queued w' → queued w ⊆ queued w' → Q tt w') → runs (enqueue env did) w Q.
Proof.
  intros Hroom HQ. unfold runs, enqueue. case_bool_decide as Hin.
  - exists tt, w. split; [done|]. by apply HQ.
  - destruct Hroom as [?|Hroom]; [done|]. cbv zeta. rewrite bool_decide_eq_true_2 by exact Hroom.
    eexists tt, _. split; [done|]. apply HQ; simpl; [done|set_solver..].
Qed.

(** A commit that does not follow the row's revision: the repository leaves step,
    in a new generation, with the commit in the buffer and the DID in the queue;
    the records stay. *)
Lemma continuity_break evt r raw w :
  env_marshal env evt = Ok raw → blank (c_Repo evt) = false →
  (length (queue w) < queue_capacity)%nat →
  repos (db w) !! c_Repo evt = Some r → DID r = c_Repo evt → Tracking r = true → 1 <= Generation r → SyncState r = StateSynced →
  CurrentRev r ≠ "" → already_applied r evt = false → follows r evt = false →
  ∃ w' row, HandleCommit env (Some evt) w = (Ok tt, w') ∧ repos (db w') !! c_Repo evt = Some row ∧
    SyncState row = StateDesynchronized ∧ Generation row = Generation r + 1 ∧ CurrentRev row = CurrentRev r ∧
    c_Repo evt ∈ queued w' ∧ records (db w') = records (db w) ∧ event_log (db w') = event_log (db w).
Proof.
  intros Hm Hb Hq Hr Hd Ht Hg Hs Hrev Ha Hf.
  unfold HandleCommit. rewrite Hb. enough (runs (repoInfo ← ensureTracked env (c_Repo evt);
    match repoInfo with
    | None => updateSourceCursor env (c_Seq evt)
    | Some r =>
        let r := if bool_decide (Generation r <= 0) then with_generation 1 r else r in
        if bool_decide (SyncState r = StateSynced) then handle_synced env r evt
        else _ ← bufferCommit env evt (Generation r); updateSourceCursor env (c_Seq evt)
    end) w (λ _ w', ∃ row, repos (db w') !! c_Repo evt = Some row ∧
    SyncState row = StateDesynchronized ∧ Generation row = Generation r + 1 ∧ CurrentRev row = CurrentRev r ∧
    c_Repo evt ∈ queued w' ∧ records (db w') = records (db w) ∧ event_log (db w') = event_log (db w))) as ([] & w' & Hrun & row & Hrow).
  { exists w', row. by split. }
  apply runs_bind. unfold ensureTracked. apply runs_bind, runs_query. unfold GetATProtoRepo. rewrite Hr, Ht. apply runs_ret. cbv zeta.
  rewrite (bool_decide_eq_false_2 (Generation r <= 0)) by lia. rewrite bool_decide_eq_true_2 by done.
  unfold handle_synced. rewrite bool_decide_eq_false_2 by done. rewrite Ha, Hf. cbn [negb andb].
  apply runs_bind, (runs_fun _ (λ w, w)). apply runs_bind. unfold markDesynchronized. cbv zeta. apply runs_bind, runs_update.
  apply runs_bind. unfold bufferCommit. apply runs_bind. rewrite Hm. apply runs_lift. apply runs_bind, runs_update.
  apply runs_enqueue; [right; exact Hq|]. intros w1 Hw1 Hin1 _.
  apply runs_enqueue; [left; simpl; by rewrite Hd|]. intros w2 Hw2 Hin2 Hsub.
  apply runs_source. intros w3 Hrepos Hrec Hlog _ Hqueued _. rewrite Hrepos, Hrec, Hlog, Hw2, Hw1, Hqueued.
  cbn [db set_db]. rewrite add_repos, add_records, add_log.
  simpl. rewrite Hd, lookup_insert_eq. eexists. split; [done|]. split_and!; try done. by apply Hsub.
Qed.

(** After a backfill the repository stands at the revision of the snapshot, also
    when it has applied later commits from the buffer: the next commit that names
    another predecessor, be it the successor of those or one that the snapshot
    already contained, is not applied but desynchronises the repository and queues
    it for another backfill. *)
Theorem snapshot_forgets_buffer r snapshot evt raw since w w1 :
  backfill_snapshot env r snapshot w = (Ok tt, w1) → Tracking r = true → 1 <= Generation r → Rev (commit snapshot) ≠ "" →
  c_Repo evt = DID r → blank (DID r) = false → env_marshal env evt = Ok raw → (length (queue w1) < queue_capacity)%nat →
  c_Since evt = Some since → TrimSpace since ≠ Rev (commit snapshot) → c_Rev evt ≠ Rev (commit snapshot) →
  ∃ w2 row, HandleCommit env (Some evt) w1 = (Ok tt, w2) ∧ repos (db w2) !! DID r = Some row ∧
    SyncState row = StateDesynchronized ∧ Generation row = Generation r + 1 ∧ CurrentRev row = Rev (commit snapshot) ∧
    DID r ∈ queued w2 ∧ records (db w2) = records (db w1) ∧ event_log (db w2) = event_log (db w1).
Proof.
  intros Hb Ht Hg Hrev Hdid Hblank Hm Hq Hs Hsne Hrne. apply backfill_row in Hb as (row & Hrow & Hbase & Hst & Hcur & _).
  destruct Hbase as (Hd & Htr & Hgen & _). rewrite <-Hdid in *. rewrite <-Hgen, <-Hcur.
  eapply continuity_break; try done; try congruence; try lia.
  - unfold already_applied. by rewrite bool_decide_eq_false_2 by congruence.
  - unfold follows. rewrite Hs. apply bool_decide_eq_false. congruence.
Qed.
End Reliable.
End Backfill.

(** ** A backfill and the calls around it *)
Section Overwrite.
Context `{UnicodeCase} `{CarCbor} (env : IndexEnv).
Lemma same_base_pds endpoint r r' : same_base (with_pds endpoint r) r' → same_base r r'.
Proof. done. Qed.

(** A backfill that succeeds writes the row it read at its start: whatever the row
    says by then, a closed account, an end of the tracking, a resync request with
    its new generation or a new handle, it says again what it said before, and
    that the repository is synchronised. *)
Theorem backfill_overwrites_row r w w' :
  backfill_finish env r w = (Ok tt, w') →
  ∃ row, repos (db w') !! DID r = Some row ∧ SyncState row = StateSynced ∧
    Tracking row = Tracking r ∧ Generation row = Generation r ∧ Handle row = Handle r ∧
    AccountActive row = AccountActive r ∧ AccountStatus row = AccountStatus r.
Proof.
  unfold backfill_finish. intros (host & w1 & _ & Hr)%mbind_ok.
  destruct host as [[endpoint|e|]|]; [|by apply fail_not_ok in Hr|done|by apply fail_not_ok in Hr]. cbv zeta in Hr.
  apply mbind_ok in Hr as (car & w2 & _ & Hr). destruct car as [car|e|]; [|by apply fail_not_ok in Hr|done].
  destruct (ReadRepoFromCar car) as [snapshot|e|]; [|by apply fail_not_ok in Hr|done].
  apply backfill_row in Hr as (row & Hrow & Hb%same_base_pds & Hs & _). exists row.
  destruct Hb as (_ & ? & ? & ? & ? & ?). by split_and!.
Qed.
End Overwrite.
