(* ===== verification/AtSubscribe.v ===== *)
(** * Subscriptions to the repository index

    [Service.Subscribe] of internal/atindex/service.go registers a live channel,
    then replays the log and goes on with the live notifications, in a goroutine of
    its own; writers append to the log and broadcast afterwards. The bridge
    (cmd/bridge-cli/app.go) consumes the stream and saves its cursor. *)
From stdpp Require Import relations.
From S2P Require Import Prelude GoStr Regex AtSyntax RepoTree AtIndexDB AtIndex AtIndexProofs.
#[local] Open Scope string_scope.
#[local] Open Scope list_scope.
#[local] Open Scope Z_scope.

Definition replay_limit : Z := 256.
Definition out_capacity : nat := 256.

(** Where the goroutine is: replaying, with the rest of the batch it read, following
    the live channel, or gone. *)
Inductive phase := Replaying (batch : list ATProtoRecordEvent) | Following | Done.

(** The live channel, the cursor, what was sent to the stream, and how much of that
    the consumer has taken. *)
Record Sub := { at_phase : phase; live : Channel; nextCursor : Z; sent : list Notification; taken : nat }.
Definition with_phase (p : phase) (s : Sub) : Sub := Build_Sub p (live s) (nextCursor s) (sent s) (taken s).
Definition with_live (c : Channel) (s : Sub) : Sub := Build_Sub (at_phase s) c (nextCursor s) (sent s) (taken s).
Definition with_next (c : Z) (s : Sub) : Sub := Build_Sub (at_phase s) (live s) c (sent s) (taken s).

Definition Subscribe (cursor : Z) : Sub := Build_Sub (Replaying []) {| pending := []; closed := false |} cursor [] 0.

(** The send on the stream, which has room for 256 notifications; a full stream ends
    the subscription. *)
Definition send (n : Notification) (p : phase) (s : Sub) : Sub :=
  if bool_decide (length (sent s) - taken s < out_capacity)%nat
  then Build_Sub p (live s) (nextCursor s) (sent s ++ [n]) (taken s)
  else with_phase Done s.

(** The next step of the goroutine, if it is not waiting. *)
Definition replay_step (log : list ATProtoRecordEvent) (batch : list ATProtoRecordEvent) (s : Sub) : Sub :=
  match batch with
  | e :: batch => send (NRecord (Cursor e) e) (Replaying batch) (with_next (Cursor e) s)
  | [] =>
      match ListATProtoEventsAfter (nextCursor s) replay_limit (set_log log empty_db) with
      | [] => with_phase Following s
      | batch => with_phase (Replaying batch) s
      end
  end.
Definition follow_step (s : Sub) : option Sub :=
  match pending (live s) with
  | [] => if closed (live s) then Some (with_phase Done s) else None
  | n :: rest =>
      let s := with_live {| pending := rest; closed := closed (live s) |} s in
      match n with
      | NRecord c _ => if bool_decide (c <= nextCursor s) then Some s else Some (send n Following (with_next c s))
      | _ => Some (send n Following s)
      end
  end.
Definition goroutine_step (log : list ATProtoRecordEvent) (s : Sub) : option Sub :=
  match at_phase s with
  | Replaying batch => Some (replay_step log batch s)
  | Following => follow_step s
  | Done => None
  end.

(** What a broadcast does to the channel of a subscriber. *)
Definition receive (n : Notification) (s : Sub) : Sub :=
  match at_phase s with
  | Done => s
  | _ => if closed (live s) then s
         else if has_room (live s) then with_live {| pending := pending (live s) ++ [n]; closed := false |} s
         else with_live {| pending := pending (live s); closed := true |} s
  end.

(** ** Writers, the goroutine and the consumer

    A writer appends an event, then broadcasts it; [writers] of them are at work
    at once. Other notifications are broadcast without an event. *)
Record System := { log : list ATProtoRecordEvent; unsent : list ATProtoRecordEvent; sub : Sub }.
Definition is_record (n : Notification) : bool := match n with NRecord _ _ => true | _ => false end.

Inductive step (writers : nat) : System → System → Prop :=
| StepAppend e s : (length (unsent s) < writers)%nat → Cursor e = Z.of_nat (length (log s)) + 1 →
    step writers s {| log := log s ++ [e]; unsent := unsent s ++ [e]; sub := sub s |}
| StepBroadcast e l k s : unsent s = l ++ e :: k →
    step writers s {| log := log s; unsent := l ++ k; sub := receive (NRecord (Cursor e) e) (sub s) |}
| StepNotify n s : is_record n = false → step writers s {| log := log s; unsent := unsent s; sub := receive n (sub s) |}
| StepGoroutine s' s : goroutine_step (log s) (sub s) = Some s' → step writers s {| log := log s; unsent := unsent s; sub := s' |}
| StepTake s : (taken (sub s) < length (sent (sub s)))%nat →
    step writers s {| log := log s; unsent := unsent s;
      sub := Build_Sub (at_phase (sub s)) (live (sub s)) (nextCursor (sub s)) (sent (sub s)) (S (taken (sub s))) |}
| StepCancel s : step writers s {| log := log s; unsent := unsent s; sub := with_phase Done (sub s) |}.

(** A subscription that starts at [cursor] on a log in use. *)
Definition start (cursor : Z) (l u : list ATProtoRecordEvent) : System := {| log := l; unsent := u; sub := Subscribe cursor |}.

Definition records_of (l : list Notification) : list ATProtoRecordEvent :=
  omap (λ n, match n with NRecord _ e => Some e | _ => None end) l.
Definition after (c : Z) (l : list ATProtoRecordEvent) : list ATProtoRecordEvent := filter (λ e, c < Cursor e) l.
Definition upto (c : Z) (l : list ATProtoRecordEvent) : list ATProtoRecordEvent := filter (λ e, Cursor e <= c) l.

(** ** One writer: the subscriber sees the log *)
Lemma after_drop c l : cursors_ok l → after c l = drop (Z.to_nat c) l.
Proof.
  unfold after, cursors_ok. intros Hl.
  assert (∀ k i, (∀ j e, k !! j = Some e → Cursor e = Z.of_nat (i + j) + 1) → filter (λ e, c < Cursor e) k = drop (Z.to_nat c - i) k) as Hgen.
  { intros k. induction k as [|e k IH]; intros i Hk; [by rewrite drop_nil|]. rewrite list.filter_cons.
    pose proof (Hk 0%nat e eq_refl) as He. rewrite (IH (S i)).
    2:{ intros j x Hj. rewrite (Hk (S j) x Hj). lia. }
    case_decide as Hc.
    - replace (Z.to_nat c - i)%nat with 0%nat by lia. replace (Z.to_nat c - S i)%nat with 0%nat by lia. done.
    - replace (Z.to_nat c - i)%nat with (S (Z.to_nat c - S i)) by lia. done. }
  rewrite (Hgen l 0%nat Hl). by rewrite Nat.sub_0_r.
Qed.

(** The subscription [s] started at position [s0] of the log [l]; [u] are the events
    not broadcast yet. [wm] events of the log are behind the live channel. *)
Definition live_ok (l u : list ATProtoRecordEvent) (wm : nat) (c : Channel) : Prop :=
  if closed c then records_of (pending c) `prefix_of` drop wm l else records_of (pending c) ++ u = drop wm l.
Definition cursors_match (n : Notification) : Prop := match n with NRecord c e => c = Cursor e | _ => True end.
Definition sub_ok (l u : list ATProtoRecordEvent) (s0 : nat) (s : Sub) : Prop :=
  records_of (sent s) `prefix_of` drop s0 l ∧ Forall cursors_match (pending (live s)) ∧
  (at_phase s ≠ Done → ∃ wm,
     records_of (sent s) = drop s0 (take (Z.to_nat (nextCursor s)) l) ∧
     (Z.to_nat (nextCursor s) = s0 ∨ (s0 ≤ Z.to_nat (nextCursor s))%nat ∧ (Z.to_nat (nextCursor s) ≤ length l)%nat) ∧
     (wm ≤ length l)%nat ∧ live_ok l u wm (live s) ∧
     match at_phase s with
     | Replaying batch => batch `prefix_of` drop (Z.to_nat (nextCursor s)) l
     | Following => (wm ≤ Z.to_nat (nextCursor s))%nat
     | Done => True
     end).
Definition unsent_ok (l u : list ATProtoRecordEvent) : Prop := u = [] ∨ ∃ l' e, l = l' ++ [e] ∧ u = [e].
Definition sys_ok (cursor : Z) (s : System) : Prop :=
  cursors_ok (log s) ∧ unsent_ok (log s) (unsent s) ∧ sub_ok (log s) (unsent s) (Z.to_nat cursor) (sub s).

Lemma records_app l k : records_of (l ++ k) = records_of l ++ records_of k.
Proof. apply omap_app. Qed.
Lemma records_other n : is_record n = false → records_of [n] = [].
Proof. by destruct n. Qed.
Lemma next_event (l : list ATProtoRecordEvent) n e k : cursors_ok l → drop n l = e :: k →
  Cursor e = Z.of_nat n + 1 ∧ (n < length l)%nat ∧ drop (S n) l = k ∧ take (S n) l = take n l ++ [e].
Proof.
  intros Hl Hd. assert (l !! n = Some e) as He by (rewrite <-(Nat.add_0_r n), <-lookup_drop, Hd; done).
  split; [by apply Hl|]. pose proof (lookup_lt_Some _ _ _ He). split; [done|]. split.
  - rewrite <-Nat.add_1_r, <-drop_drop, Hd. done.
  - by apply take_S_r.
Qed.
Lemma drop_take_snoc {A} s0 n (l : list A) e : (s0 ≤ n)%nat → (n ≤ length l)%nat → take (S n) l = take n l ++ [e] →
  drop s0 (take (S n) l) = drop s0 (take n l) ++ [e].
Proof. intros Hs Hn ->. rewrite drop_app_le; [done|]. rewrite length_take. lia. Qed.
Lemma prefix_drop_take {A} s0 n (l : list A) : drop s0 (take n l) `prefix_of` drop s0 l.
Proof. rewrite <-(take_drop n l) at 2. destruct (decide (s0 ≤ length (take n l))%nat) as [H|H].
  - rewrite drop_app_le by done. by apply prefix_app_r.
  - rewrite (drop_ge (take n l)) by lia. apply prefix_nil.
Qed.

(** A send keeps a subscription well formed when it is the next event, or none. *)
Lemma send_other l u s0 n p s : is_record n = false → sub_ok l u s0 (with_phase p s) → sub_ok l u s0 (send n p s).
Proof.
  intros Hn (Hs & Hm & Hok). unfold send. case_bool_decide; [|by split_and!].
  split_and!; simpl; [by rewrite records_app, records_other, app_nil_r|done|].
  intros Hp. destruct (Hok Hp) as (wm & ? & ?). exists wm. by rewrite records_app, records_other, app_nil_r.
Qed.
Lemma send_event l u s0 e p s n :
  cursors_ok l → Cursor e = Z.of_nat n + 1 → (n < length l)%nat → take (S n) l = take n l ++ [e] → (s0 ≤ n)%nat →
  records_of (sent s) = drop s0 (take n l) → Forall cursors_match (pending (live s)) → nextCursor s = Cursor e →
  (∃ wm, (wm ≤ length l)%nat ∧ live_ok l u wm (live s) ∧ match p with
     | Replaying batch => batch `prefix_of` drop (S n) l | Following => (wm ≤ S n)%nat | Done => True end) →
  sub_ok l u s0 (send (NRecord (Cursor e) e) p s).
Proof.
  intros Hl He Hn Htake Hs0 Hsent Hm Hnext (wm & Hwm & Hlive & Hp). assert (Z.to_nat (Cursor e) = S n) as Hto by lia.
  unfold send. case_bool_decide.
  - assert (records_of (sent s ++ [NRecord (Cursor e) e]) = drop s0 (take (S n) l)) as Hrec.
    { rewrite records_app, Hsent, drop_take_snoc with (e := e) by (done || lia). done. }
    split_and!; simpl; [rewrite Hrec; apply prefix_drop_take|done|]. intros _. exists wm. rewrite Hnext, Hto.
    split_and!; [done|lia|done|done|]. by destruct p.
  - split_and!; simpl; [rewrite Hsent; apply prefix_drop_take|done|done].
Qed.

Lemma after_limit c l : cursors_ok l → ListATProtoEventsAfter c replay_limit (set_log l empty_db) = take 256 (drop (Z.to_nat c) l).
Proof. intros Hl. rewrite <-after_drop by done. done. Qed.

Lemma replay_ok l u s0 batch s : cursors_ok l → at_phase s = Replaying batch → sub_ok l u s0 s → sub_ok l u s0 (replay_step l batch s).
Proof.
  intros Hl Hp (Hs & Hm & Hok). rewrite Hp in Hok. destruct (Hok ltac:(done)) as (wm & Hsent & Hs0 & Hwm & Hlive & Hb).
  destruct batch as [|e batch]; simpl.
  - rewrite after_limit by done. destruct (take 256 (drop (Z.to_nat (nextCursor s)) l)) as [|e b] eqn:Hbatch.
    + split_and!; [done..|]. intros _. exists wm. split_and!; [done..|]. simpl.
      destruct (drop (Z.to_nat (nextCursor s)) l) eqn:Hd; [|done]. apply (f_equal length) in Hd. rewrite length_drop in Hd. simpl in Hd. lia.
    + split_and!; [done..|]. intros _. exists wm. split_and!; [done..|]. simpl. rewrite <-Hbatch. apply prefix_take.
  - destruct Hb as [k Hk]. simpl in Hk. destruct (next_event _ _ _ _ Hl Hk) as (Hcur & Hlt & Hrest & Htake).
    eapply send_event; try done; [lia|]. exists wm. split_and!; [done..|]. rewrite Hrest. by exists k.
Qed.

Lemma follow_ok l u s0 s s' : cursors_ok l → at_phase s = Following → sub_ok l u s0 s → follow_step s = Some s' → sub_ok l u s0 s'.
Proof.
  intros Hl Hp (Hs & Hm & Hok) Hf. rewrite Hp in Hok. destruct (Hok ltac:(done)) as (wm & Hsent & Hs0 & Hwml & Hlive & Hwm).
  unfold follow_step in Hf. destruct (pending (live s)) as [|n rest] eqn:Hpend.
  { destruct (closed (live s)); [|done]. injection Hf as <-. split_and!; simpl; [done|by rewrite Hpend|done]. }
  inversion Hm as [|? ? Hn Hrest]; subst.
  assert (∀ wm', live_ok l u wm' {| pending := rest; closed := closed (live s) |} → (wm' ≤ length l)%nat →
    (wm' ≤ Z.to_nat (nextCursor s))%nat →
    sub_ok l u s0 (with_phase Following (with_live {| pending := rest; closed := closed (live s) |} s))) as Hskip.
  { intros wm' Hl' Hw1 Hw2. split_and!; simpl; [done..|]. intros _. by exists wm'. }
  destruct (is_record n) eqn:Hrec.
  - destruct n as [c e|?|?]; try done. simpl in Hn. subst c.
    assert (∃ k, drop wm l = e :: k ∧ live_ok l u (S wm) {| pending := rest; closed := closed (live s) |}) as (k & Hk & Hl').
    { unfold live_ok in *. rewrite Hpend in Hlive. simpl in *. destruct (closed (live s)).
      - destruct Hlive as [k Hk]. exists (records_of rest ++ k). split; [done|].
        destruct (next_event _ _ _ _ Hl Hk) as (_ & _ & -> & _). by exists k.
      - exists (records_of rest ++ u). split; [done|]. by destruct (next_event _ _ _ _ Hl (eq_sym Hlive)) as (_ & _ & -> & _). }
    destruct (next_event _ _ _ _ Hl Hk) as (Hcur & Hlt & Hdrop & Htake). case_bool_decide as Hle; injection Hf as <-.
    + replace (with_live _ s) with (with_phase Following (with_live {| pending := rest; closed := closed (live s) |} s))
        by (unfold with_phase, with_live; simpl; by rewrite Hp).
      simpl in Hle. apply (Hskip (S wm) Hl'); lia.
    + simpl in Hle. assert (Z.to_nat (nextCursor s) = wm) as Hwm' by lia. rewrite Hwm' in *.
      eapply send_event; try done; [lia|]. exists (S wm). split_and!; [lia|done|lia].
  - assert (Hlive' : live_ok l u wm {| pending := rest; closed := closed (live s) |}).
    { unfold live_ok in *. rewrite Hpend in Hlive. simpl in *. by destruct n. }
    assert (s' = send n Following (with_live {| pending := rest; closed := closed (live s) |} s)) as -> by (by destruct n; simplify_eq).
    apply send_other; [done|]. by apply (Hskip wm).
Qed.

Lemma goroutine_ok l u s0 s s' : cursors_ok l → sub_ok l u s0 s → goroutine_step l s = Some s' → sub_ok l u s0 s'.
Proof.
  intros Hl Hs. unfold goroutine_step. destruct (at_phase s) as [batch| |] eqn:Hp; [intros [= <-]; by apply replay_ok| |done].
  by apply follow_ok.
Qed.
Lemma done_ok l u s0 s : sub_ok l u s0 s → sub_ok l u s0 (with_phase Done s).
Proof. intros (? & ? & _). by split_and!. Qed.
Lemma prefix_drop_app {A} n (l k : list A) : drop n l `prefix_of` drop n (l ++ k).
Proof. rewrite drop_app. by apply prefix_app_r. Qed.
Lemma append_ok l e s0 s : sub_ok l [] s0 s → sub_ok (l ++ [e]) [e] s0 s.
Proof.
  intros (Hs & Hm & Hok). split_and!; [etrans; [exact Hs|apply prefix_drop_app]|done|].
  intros Hd. destruct (Hok Hd) as (wm & Hsent & Hs0 & Hwm & Hlive & Hphase). exists wm. rewrite length_app. split_and!.
  - rewrite Hsent. destruct Hs0 as [->|[Hs0 Hn]].
    + rewrite !(drop_ge (take _ _)); [done|rewrite length_take; lia..].
    + by rewrite take_app_le.
  - destruct Hs0; [by left|right]; lia.
  - lia.
  - unfold live_ok in *. destruct (closed (live s)); [etrans; [exact Hlive|apply prefix_drop_app]|].
    rewrite app_nil_r in Hlive. by rewrite drop_app_le, Hlive by done.
  - destruct (at_phase s); [|done..]. etrans; [exact Hphase|apply prefix_drop_app].
Qed.
Lemma receive_ok l u u' n s0 s : sub_ok l u s0 s → cursors_match n → (closed (live s) = false → records_of [n] ++ u' = u) → sub_ok l u' s0 (receive n s).
Proof.
  intros (Hs & Hm & Hok) Hn Hu. assert (at_phase s = Done ∨ at_phase s ≠ Done) as [E|E] by (destruct (at_phase s); auto).
  { unfold receive. rewrite E. split_and!; [done..|]. by rewrite E. }
  assert (receive n s = if closed (live s) then s
    else if has_room (live s) then with_live {| pending := pending (live s) ++ [n]; closed := false |} s
    else with_live {| pending := pending (live s); closed := true |} s) as -> by (unfold receive; by destruct (at_phase s)).
  destruct (Hok E) as (wm & Hsent & Hs0 & Hwm & Hlive & Hphase). unfold live_ok in Hlive.
  assert (∀ c, Forall cursors_match (pending c) → live_ok l u' wm c → sub_ok l u' s0 (with_live c s)) as Hre.
  { intros c Hc Hl. split_and!; simpl; [done..|]. intros _. exists wm. by split_and!. }
  destruct (closed (live s)) eqn:Hc.
  { replace s with (with_live (live s) s) by (by destruct s). apply Hre; [done|]. unfold live_ok. by rewrite Hc. }
  rewrite <-(Hu eq_refl) in Hlive. destruct (has_room (live s)); apply Hre; unfold live_ok; simpl; [|..|done|].
  - apply Forall_app_2; [done|by constructor].
  - rewrite records_app, <-app_assoc. exact Hlive.
  - by eexists.
Qed.

Lemma step_keeps cursor s s' : step 1 s s' → sys_ok cursor s → sys_ok cursor s'.
Proof.
  intros Hstep (Hl & Hu & Hs). destruct Hstep as [e s Hlt Hc|e l k s He|n s Hn|s' s Hg|s Ht|s]; unfold sys_ok; simpl.
  - assert (unsent s = []) as E by (destruct (unsent s); simpl in Hlt; [done|lia]). rewrite E in *. split_and!.
    + by apply cursors_snoc.
    + right. by exists (log s), e.
    + by apply append_ok.
  - destruct Hu as [Hu|(l' & e' & Hlog & Hu)]; rewrite Hu in He; [by destruct l|].
    assert (l = [] ∧ k = [] ∧ e = e') as (-> & -> & ->) by (destruct l as [|? [|? ?]]; simplify_eq/=; done).
    split_and!; [done|by left|]. eapply receive_ok; [exact Hs|done|]. by rewrite Hu.
  - split_and!; [done..|]. eapply receive_ok; [exact Hs|by destruct n|]. by rewrite records_other.
  - split_and!; [done..|]. by eapply goroutine_ok.
  - by split_and!.
  - split_and!; [done..|by apply done_ok].
Qed.
Lemma start_ok cursor l u : cursors_ok l → unsent_ok l u → sys_ok cursor (start cursor l u).
Proof.
  intros Hl Hu. split_and!; [done..|]. split_and!; simpl; [apply prefix_nil|constructor|].
  intros _. exists (length l - length u)%nat. split_and!; [|by left|lia| |apply prefix_nil].
  - rewrite drop_ge; [done|]. rewrite length_take. lia.
  - unfold live_ok. simpl. destruct Hu as [->|(l' & e & -> & ->)]; simpl.
    + rewrite drop_ge; [done|lia].
    + rewrite length_app. simpl. replace (length l' + 1 - 1)%nat with (length l') by lia. by rewrite drop_app_length.
Qed.

(** ** Properties *)

(** C10. With one writer at a time a subscription shows the log: in every interleaving of
    the writer, other notifications, the goroutine and the consumer, the events
    sent to the consumer are a prefix of the events after its cursor, in order,
    none twice and none left out; once the goroutine follows the live channel and
    nothing is under way, they are all of them. *)
Theorem subscriber_sees_log cursor l u s :
  cursors_ok l → unsent_ok l u → rtc (step 1) (start cursor l u) s →
  records_of (sent (sub s)) `prefix_of` after cursor (log s) ∧
  (at_phase (sub s) = Following → pending (live (sub s)) = [] → closed (live (sub s)) = false → unsent s = [] →
   records_of (sent (sub s)) = after cursor (log s)).
Proof.
  intros Hl Hu Hr. assert (sys_ok cursor s) as (Hls & _ & Hsent & _ & Hok).
  { generalize (start_ok cursor l u Hl Hu). induction Hr as [|x y z Hxy _ IH]; [done|]. intros Hx. apply IH. by eapply step_keeps. }
  rewrite after_drop by done. split; [done|]. intros Hp Hpend Hopen Hun. rewrite Hp in Hok.
  destruct (Hok ltac:(done)) as (wm & -> & Hs0 & Hwm & Hlive & Hn). unfold live_ok in Hlive. rewrite Hopen, Hpend, Hun in Hlive.
  apply (f_equal length) in Hlive. rewrite length_drop in Hlive. simpl in Hlive. rewrite take_ge by lia. done.
Qed.

(** With two writers, as the worker and the firehose are, an event can be skipped:
    the one logged later is broadcast first, and the earlier one then looks like
    one that was replayed. *)
Definition ev (c : Z) : ATProtoRecordEvent :=
  Build_ATProtoRecordEvent c "did:plc:a" "app.bsky.feed.post" "k" "at://did:plc:a/app.bsky.feed.post/k" "cid" "upsert" true "rev" None "{}" 0.
Theorem two_writers_skip_an_event :
  ∃ s, rtc (step 2) (start 0 [] []) s ∧ log s = [ev 1; ev 2] ∧ unsent s = [] ∧ at_phase (sub s) = Following ∧
    pending (live (sub s)) = [] ∧ closed (live (sub s)) = false ∧ records_of (sent (sub s)) = [ev 2].
Proof.
  eexists. split.
  - eapply rtc_l; [eapply (StepGoroutine 2); reflexivity|].
    eapply rtc_l; [apply (StepAppend 2 (ev 1)); [simpl; lia|done]|].
    eapply rtc_l; [apply (StepAppend 2 (ev 2)); [simpl; lia|done]|].
    eapply rtc_l; [apply (StepBroadcast 2 (ev 2) [ev 1] []); done|].
    eapply rtc_l; [apply (StepBroadcast 2 (ev 1) [] []); done|].
    eapply rtc_l; [eapply (StepGoroutine 2); reflexivity|].
    eapply rtc_l; [eapply (StepGoroutine 2); reflexivity|]. apply rtc_refl.
  - by vm_compute.
Qed.

(** ** A long replay *)
Fixpoint iterate (n : nat) (l : list ATProtoRecordEvent) (s : Sub) : Sub :=
  match n with O => s | S n => match goroutine_step l s with Some s' => iterate n l s' | None => s end end.
Lemma iterate_add n m l s : iterate (n + m) l s = iterate m l (iterate n l s).
Proof.
  revert s. induction n as [|n IH]; intros s; [done|]. simpl. destruct (goroutine_step l s) eqn:E; [apply IH|].
  clear IH. revert E. destruct m; [done|]. simpl. by intros ->.
Qed.
Lemma records_notes b : records_of (map (λ e, NRecord (Cursor e) e) b) = b.
Proof. induction b as [|e b IH]; [done|]. change (e :: records_of (map (λ e, NRecord (Cursor e) e) b) = e :: b). by rewrite IH. Qed.
Lemma iterate_step n l s s' : goroutine_step l s = Some s' → iterate (S n) l s = iterate n l s'.
Proof. simpl. by intros ->. Qed.
Lemma iterate_sends l batch k s : cursors_ok l → at_phase s = Replaying batch → taken s = 0%nat → (length (sent s) + length batch ≤ 256)%nat →
  drop (Z.to_nat (nextCursor s)) l = batch ++ k →
  ∃ c, iterate (length batch) l s = Build_Sub (Replaying []) (live s) c (sent s ++ map (λ e, NRecord (Cursor e) e) batch) 0 ∧
       drop (Z.to_nat c) l = k.
Proof.
  intros Hl. revert s. induction batch as [|e batch IH]; intros s Hp Ht Hlen Hd; simpl in *.
  { exists (nextCursor s). rewrite app_nil_r. split; [|done]. destruct s; simpl in *. by subst. }
  unfold goroutine_step. rewrite Hp. simpl. unfold send. simpl. rewrite Ht, Nat.sub_0_r.
  rewrite bool_decide_eq_true_2 by (unfold out_capacity; lia).
  destruct (next_event _ _ _ _ Hl Hd) as (Hc & _ & Hrest & _).
  destruct (IH (Build_Sub (Replaying batch) (live s) (Cursor e) (sent s ++ [NRecord (Cursor e) e]) 0)) as (c & -> & Hk); simpl; try done.
  - rewrite length_app. simpl. lia.
  - by rewrite <-Hrest, Hc; f_equal; lia.
  - exists c. split; [|done]. simpl. by rewrite <-app_assoc.
Qed.

(** A replay of more than 256 events outruns its consumer: unless the consumer takes
    events meanwhile, the goroutine fills the stream with the first 256 of them and
    ends the subscription. *)
Theorem long_replay_ends cursor l : cursors_ok l → (256 < length (after cursor l))%nat →
  let s := iterate 259 l (Subscribe cursor) in
  at_phase s = Done ∧ records_of (sent s) = take 256 (after cursor l).
Proof.
  intros Hl. rewrite after_drop by done. intros Hlen. set (d := drop (Z.to_nat cursor) l) in *.
  assert (goroutine_step l (Subscribe cursor) = Some (with_phase (Replaying (take 256 d)) (Subscribe cursor))) as Hread.
  { unfold goroutine_step, replay_step. simpl. rewrite after_limit by done. fold d.
    destruct (take 256 d) eqn:E; [|done]. apply (f_equal length) in E. rewrite length_take in E. cbn [length] in E. lia. }
  assert (length (take 256 d) = 256)%nat as H256 by (rewrite length_take; lia).
  destruct (iterate_sends l (take 256 d) (drop 256 d) (with_phase (Replaying (take 256 d)) (Subscribe cursor))) as (c & Hsent & Hc); try done.
  { simpl. lia. }
  { by rewrite take_drop. }
  set (s2 := Build_Sub (Replaying []) _ c _ 0) in Hsent. assert (length (sent s2) = 256)%nat as Hlen2 by (unfold s2; simpl; by rewrite length_map).
  assert (∃ e k, drop 256 d = e :: k) as (e & k & Hk).
  { destruct (drop 256 d) eqn:E; [|eauto]. apply (f_equal length) in E. rewrite length_drop in E. cbn [length] in E. lia. }
  assert (goroutine_step l s2 = Some (with_phase (Replaying (e :: take 255 k)) s2)) as H3.
  { unfold goroutine_step, replay_step. cbn [at_phase s2]. rewrite after_limit by done. cbn [nextCursor s2]. rewrite Hc, Hk. done. }
  assert (goroutine_step l (with_phase (Replaying (e :: take 255 k)) s2) = Some (with_phase Done (with_next (Cursor e) (with_phase (Replaying (e :: take 255 k)) s2)))) as H4.
  { unfold goroutine_step, replay_step, send. cbn [at_phase with_phase sent with_next taken]. rewrite Hlen2.
    by rewrite bool_decide_eq_false_2 by (unfold out_capacity; simpl; lia). }
  change 259%nat with (S (256 + 2))%nat. rewrite (iterate_step _ _ _ _ Hread), iterate_add.
  rewrite H256 in Hsent. rewrite Hsent, (iterate_step _ _ _ _ H3), (iterate_step _ _ _ _ H4). cbn [iterate]. split; [done|].
  apply records_notes.
Qed.

(** ** The consumer of the bridge (startIndexerConsumer, readATProtoEventCursor)

    Events go to the processor; the cursor of an event it accepted is saved, the
    error of one it did not is logged. *)
Definition event_cursor_key : string := "atproto_event_cursor".
Section Consumer.
Context {W : Type} (handle : ATProtoRecordEvent → M W unit).
(** Whether saving a cursor succeeds; if not, that is logged as well. *)
Context (saves : Z → bool).

Definition consume_note (n : Notification) : M (W * gmap string string) unit :=
  match n with
  | NRecord c e =>
      handled ← mtry (on_fst (handle e));
      match handled with
      | Ok _ => if saves c then mmodify (λ w, (w.1, <[event_cursor_key := itoa c]> w.2)) else mret tt
      | _ => mret tt
      end
  | _ => mret tt
  end.
Fixpoint consume (notes : list Notification) : M (W * gmap string string) unit :=
  match notes with [] => mret tt | n :: notes => _ ← consume_note n; consume notes end.

Definition readATProtoEventCursor (state : gmap string string) : result Z :=
  match state !! event_cursor_key with
  | None => Ok 0
  | Some value =>
      if blank value then Ok 0
      else match ParseInt (TrimSpace value) with
      | Some c => Ok c
      | None => Err ("parse atproto_event_cursor " +:+ quoted value)
      end
  end.

Lemma itoa_trimmed z : TrimSpace (itoa z) = itoa z ∧ itoa z ≠ "".
Proof.
  assert (∀ n, Forall graphic (to_l (itoaN n))) as Hd.
  { intros n. eapply Forall_impl; [|apply itoaN_digits]. intros c. unfold is_digit, graphic. rewrite bool_decide_eq_true. lia. }
  assert (∀ n, itoaN n ≠ "") as Hne by (intros n; destruct (itoaN_cons n) as (c & s & -> & _); done).
  unfold itoa. case_bool_decide; (split; [apply TrimSpace_graphic|]); try done; try apply Hd; try apply Hne.
  constructor; [|apply Hd]. unfold graphic. vm_compute. intuition congruence.
Qed.
Lemma read_saved c state : - 2 ^ 63 <= c < 2 ^ 63 → readATProtoEventCursor (<[event_cursor_key := itoa c]> state) = Ok c.
Proof.
  intros Hc. destruct (itoa_trimmed c) as [Ht Hne]. unfold readATProtoEventCursor. rewrite lookup_insert_eq. unfold blank. rewrite Ht.
  rewrite bool_decide_eq_false_2 by done. by rewrite ParseInt_itoa.
Qed.
Lemma consume_app l k w : consume (l ++ k) w = (_ ← consume l; consume k) w.
Proof.
  revert w. induction l as [|n l IH]; intros w; [done|]. simpl. rewrite mbind_assoc. apply mbind_ext. intros _ w'. apply IH.
Qed.

(** Events the processor refuses are lost: once a later event was accepted, a
    subscription from the saved cursor shows only the events after that one, to
    which nothing refused before belongs. *)
Theorem refused_events_are_lost notes c e w w1 w2 log x :
  consume notes w = (Ok tt, w1) → handle e w1.1 = (Ok tt, w2) → saves c = true → 0 <= c < 2 ^ 63 → Cursor x <= c →
  ∃ w3, consume (notes ++ [NRecord c e]) w = (Ok tt, w3) ∧ readATProtoEventCursor w3.2 = Ok c ∧ x ∉ after c log.
Proof.
  intros Hn Hh Hs Hc Hx. eexists (w2, <[event_cursor_key := itoa c]> w1.2). split_and!.
  - rewrite consume_app. apply mbind_ok. exists tt, w1. split; [done|]. simpl. unfold mbind, M_mbind, mtry, on_fst. rewrite Hh. simpl. by rewrite Hs.
  - apply read_saved. lia.
  - unfold after. intros [? _]%list_elem_of_filter. lia.
Qed.
End Consumer.
