(* ===== verification/Firehose.v ===== *)
(** * The firehose client (internal/firehose/client.go, pkg/atproto/firehose/firehose.go)

    A websocket delivers frames of CBOR, each a commit, an identity or an account
    event, or a notice. The client hands them to its handler, and connects again
    when the stream breaks, after a wait that doubles up to a bound and is
    jittered. *)
From S2P Require Import Prelude GoStr GoBytes RepoTree AtIndexDB AtIndex.
#[local] Open Scope string_scope.
#[local] Open Scope list_scope.
#[local] Open Scope Z_scope.

(** An error value: its text, and what [errors.Is] says of its chain. *)
Record GoErr := { Error : string; is_Canceled : bool; is_DeadlineExceeded : bool; is_EOF : bool }.
Definition new_err (text : string) : GoErr := {| Error := text; is_Canceled := false; is_DeadlineExceeded := false; is_EOF := false |}.
(** [fmt.Errorf("ctx: %w", err)] *)
Definition wrap_err (ctx : string) (e : GoErr) : GoErr :=
  {| Error := ctx +:+ Error e; is_Canceled := is_Canceled e; is_DeadlineExceeded := is_DeadlineExceeded e; is_EOF := is_EOF e |}.
Definition or_err {A B} (ctx : string) (r : GoErr + A) (k : A → GoErr + B) : GoErr + B :=
  match r with inl e => inl (wrap_err ctx e) | inr a => k a end.

(** ** Frames *)
Definition EvtKindErrorFrame : Z := -1.
Definition EvtKindMessage : Z := 1.
Record EventHeader := { hdr_Op : Z; MsgType : string }.
Record ErrorFrame := { frame_Error : string; frame_Message : option string }.
Record repoOpWire := { wire_Action : string; wire_Cid : option string; wire_Path : string; wire_Prev : option string }.
Record commitWire := { wire_Blocks : string; wire_Commit : string; wire_Ops : list (option repoOpWire); wire_Repo : string;
  wire_Rev : string; wire_Seq : Z; wire_Since : option string }.
Record Event := { RepoCommit : option Commit; RepoSync : bool; RepoIdentity : option Identity; RepoAccount : option Account;
  RepoInfo : option string; ErrorEvent : option ErrorFrame }.
Definition no_event : Event := Build_Event None false None None None None.

(** [cbornode.DecodeReader] of the header, which leaves the rest of the message,
    and of each payload. *)
Class FrameCbor := { decode_header : string → GoErr + (EventHeader * string); decode_error_frame : string → GoErr + ErrorFrame;
  decode_wire : string → GoErr + commitWire; decode_sync : string → GoErr + unit; decode_identity : string → GoErr + Identity;
  decode_account : string → GoErr + Account; decode_info : string → GoErr + string }.

Definition convert_op (op : repoOpWire) : RepoOp := {| op_Action := wire_Action op; op_Path := wire_Path op; op_Prev := wire_Prev op |}.
Definition convertCommitWire (w : commitWire) : Commit :=
  {| c_Blocks := wire_Blocks w; c_Commit := wire_Commit w; c_Ops := map (λ op, Some (convert_op op)) (omap id (wire_Ops w));
     c_Repo := wire_Repo w; c_Rev := wire_Rev w; c_Seq := wire_Seq w; c_Since := wire_Since w |}.

Section Frames.
Context `{UnicodeCase} `{FrameCbor}.
Definition ReadEvent (r : string) : GoErr + Event :=
  or_err "decode firehose header: " (decode_header r) (λ '(header, r),
  if bool_decide (hdr_Op header = EvtKindErrorFrame) then
    or_err "decode firehose error frame: " (decode_error_frame r) (λ f, inr (Build_Event None false None None None (Some f)))
  else if negb (bool_decide (hdr_Op header = EvtKindMessage)) then inl (new_err ("unsupported firehose event op " +:+ itoa (hdr_Op header)))
  else if bool_decide (MsgType header = "#commit") then
    or_err "decode commit event: " (decode_wire r) (λ w, inr (Build_Event (Some (convertCommitWire w)) false None None None None))
  else if bool_decide (MsgType header = "#sync") then
    or_err "decode sync event: " (decode_sync r) (λ _, inr (Build_Event None true None None None None))
  else if bool_decide (MsgType header = "#identity") then
    or_err "decode identity event: " (decode_identity r) (λ i, inr (Build_Event None false (Some i) None None None))
  else if bool_decide (MsgType header = "#account") then
    or_err "decode account event: " (decode_account r) (λ a, inr (Build_Event None false None (Some a) None None))
  else if bool_decide (MsgType header = "#info") then
    or_err "decode info event: " (decode_info r) (λ i, inr (Build_Event None false None None (Some i) None))
  else inl (new_err ("unsupported firehose message type " +:+ Quote (MsgType header)))).
End Frames.

(** ** Errors that end the client *)
Section Classify.
Context `{UnicodeCase}.
Definition IsFatalStreamError (err : option GoErr) : bool :=
  match err with
  | None => false
  | Some e =>
      if is_Canceled e || is_DeadlineExceeded e then false
      else if is_EOF e then false
      else
        let msg := ToLower (Error e) in
        if Contains msg "build stream url" then true
        else if Contains msg "status=401" || Contains msg "status=403" || Contains msg "status=404" then true
        else if Contains msg "unsupported protocol scheme" then true
        else if Contains msg "malformed" && Contains msg "url" then true
        else false
  end.
End Classify.

(** ** Waits *)
Definition millisecond : Z := 10 ^ 6.
Definition second : Z := 1000 * millisecond.
Record ReconnectConfig := { InitialBackoff : Z; MaxBackoff : Z; Jitter : Z }.
Definition positive_or (z d : Z) : Z := if bool_decide (z <= 0) then d else z.
Definition with_defaults (cfg : ReconnectConfig) : ReconnectConfig :=
  {| InitialBackoff := positive_or (InitialBackoff cfg) (2 * second); MaxBackoff := positive_or (MaxBackoff cfg) (60 * second);
     Jitter := positive_or (Jitter cfg) (750 * millisecond) |}.
(** [rand.Int63n(n)], which panics without a positive bound; [rnd] is in its range. *)
Definition Int63n (rnd : Z → Z) (n : Z) : result Z := if bool_decide (n <= 0) then Panic else Ok (rnd n).
Definition jitterDuration (rnd : Z → Z) (base jitter : Z) : result Z :=
  let base := if bool_decide (base <= 0) then 2 * second else base in
  if bool_decide (jitter <= 0) then Ok base
  else
    n ← Int63n rnd (int64 (int64 (2 * jitter) + 1));
    let offset := int64 (n - jitter) in
    let d := int64 (base + offset) in
    if bool_decide (d < 250 * millisecond) then Ok (250 * millisecond) else Ok d.
Definition next_backoff (cfg : ReconnectConfig) (backoff : Z) : Z :=
  let backoff := int64 (backoff * 2) in
  if bool_decide (backoff > MaxBackoff cfg) then MaxBackoff cfg else backoff.

(** ** The client *)
(** How a handler answers: nothing, an error, or a panic. *)
Record Handler (W : Type) := { HandleCommit : Commit → M W (option GoErr);
  HandleIdentity : option (Identity → M W (option GoErr)); HandleAccount : option (Account → M W (option GoErr)) }.
Arguments HandleCommit {W}.
Arguments HandleIdentity {W}.
Arguments HandleAccount {W}.

(** What the loop of a stream meets: a context that ended, a failed read, a text
    message, a binary message. A stream that has nothing more to say stays open. *)
Inductive Incoming := IDone (e : GoErr) | IFailed (e : GoErr) | IText | IBinary (message : string).
(** A connection: does setting its deadline fail, and what it delivers. *)
Record Conn := { conn_deadline : option GoErr; incoming : list Incoming }.
(** [DialContext]: an error with the status of the answer, if there was one. *)
Inductive Dialed := DialFailed (status : option Z) (e : GoErr) | DialOk (con : Conn).
(** A call that returned, or a stream that is still open. *)
Inductive End := Returned (e : option GoErr) | Open.

Record Client (W : Type) := { relayURL : string; handler : Handler W; cursor : option Z }.
Arguments relayURL {W}.
Arguments handler {W}.
Arguments cursor {W}.
Definition NewClient {W} (url : string) (h : Handler W) (withCursor : option Z) : Client W :=
  {| relayURL := if bool_decide (url = "") then "wss://bsky.network/xrpc/com.atproto.sync.subscribeRepos" else url;
     handler := h; cursor := withCursor |}.

Section Client.
Context `{UnicodeCase} `{FrameCbor} {W : Type} (c : Client W).
#[local] Abbreviation M := (M W).
(** [url.Parse], [Query().Set] and [String]. *)
Context (set_query : string → string → string → GoErr + string).

Definition streamURL : GoErr + string :=
  match cursor c with
  | None => inr (relayURL c)
  | Some n => if bool_decide (n <= 0) then inr (relayURL c) else set_query (relayURL c) "cursor" (itoa n)
  end.

Definition handleRepoCommit (evt : Commit) : M unit :=
  if existsb (λ op, match op with None => true | Some _ => false end) (c_Ops evt) then mlift Panic
  else _ ← HandleCommit (handler c) evt; mret tt.
(** One event; an error ends the stream. *)
Definition handle_event (event : Event) : M (option GoErr) :=
  match RepoCommit event, RepoInfo event, RepoIdentity event, RepoAccount event with
  | Some evt, _, _, _ => _ ← handleRepoCommit evt; mret None
  | None, Some _, _, _ => mret None
  | None, None, Some i, _ => match HandleIdentity (handler c) with Some h => h i | None => mret None end
  | None, None, None, Some a => match HandleAccount (handler c) with Some h => h a | None => mret None end
  | None, None, None, None => mret None
  end.
Fixpoint stream_loop (l : list Incoming) : M End :=
  match l with
  | [] => mret Open
  | IDone e :: _ => mret (Returned (Some e))
  | IFailed e :: _ => mret (Returned (Some (wrap_err "read firehose frame: " e)))
  | IText :: _ => mret (Returned (Some (new_err "expected binary message from subscription endpoint")))
  | IBinary message :: l =>
      match ReadEvent message with
      | inl e => mret (Returned (Some e))
      | inr event => err ← handle_event event; match err with Some e => mret (Returned (Some e)) | None => stream_loop l end
      end
  end.
Definition handleStream (con : Conn) : M End :=
  match conn_deadline con with
  | Some e => mret (Returned (Some (wrap_err "set initial read deadline: " e)))
  | None => stream_loop (incoming con)
  end.

(** [Run], with what the dialer does for a URL. *)
Definition Run (dial : string → Dialed) : M End :=
  match streamURL with
  | inl e => mret (Returned (Some (wrap_err "build stream URL: " e)))
  | inr url =>
      match dial url with
      | DialFailed (Some status) e => mret (Returned (Some (wrap_err ("failed to dial (status=" +:+ itoa status +:+ "): ") e)))
      | DialFailed None e => mret (Returned (Some (wrap_err "failed to dial: " e)))
      | DialOk con => handleStream con
      end
  end.
End Client.

(** ** Connecting again *)
Section Reconnect.
Context `{UnicodeCase} {W : Type} (cfg : ReconnectConfig).
(** The attempts, the random numbers, and whether the context ends during the wait
    after an attempt. *)
Context (runOnce : nat → M W End) (rnd : nat → Z → Z) (done_waiting : nat → option GoErr).

(** What the attempts so far were: their errors and the waits after them. *)
Definition history : Type := list (GoErr * Z).
Inductive LoopEnd := LReturned (e : option GoErr) | LOpen | LRunning.

(** The loop from attempt [i], for at most [fuel] attempts. *)
Fixpoint reconnect_loop (fuel i : nat) (backoff : Z) : M W (history * LoopEnd) :=
  match fuel with
  | O => mret ([], LRunning)
  | S fuel =>
      r ← runOnce i;
      match r with
      | Open => mret ([], LOpen)
      | Returned None => mret ([], LReturned None)
      | Returned (Some e) =>
          if is_Canceled e then mret ([], LReturned (Some e))
          else if IsFatalStreamError (Some e) then mret ([], LReturned (Some e))
          else
            sleepFor ← mlift (jitterDuration (rnd i) backoff (Jitter cfg));
            match done_waiting i with
            | Some d => mret ([(e, sleepFor)], LReturned (Some d))
            | None =>
                '(h, last) ← reconnect_loop fuel (S i) (next_backoff cfg backoff);
                mret ((e, sleepFor) :: h, last)
            end
      end
  end.
Definition runWithReconnectLoop (fuel : nat) : M W (history * LoopEnd) := reconnect_loop fuel 0 (InitialBackoff cfg).
End Reconnect.
Definition RunWithReconnect `{UnicodeCase} `{FrameCbor} {W} (c : Client W) set_query (cfg : ReconnectConfig)
    (dial : nat → string → Dialed) rnd done_waiting (fuel : nat) : M W (history * LoopEnd) :=
  runWithReconnectLoop (with_defaults cfg) (λ i, Run c set_query (dial i)) rnd done_waiting fuel.

(** ** Where a client starts (cmd/bridge-cli/helpers.go) *)
Definition legacy_cursor (state : result (option string)) : result (option Z) :=
  value ← state;
  match value with
  | None => mret None
  | Some v =>
      if blank v then mret (Some 0)
      else match ParseInt (TrimSpace v) with Some seq => mret (Some seq) | None => Err ("parse firehose_seq state " +:+ v) end
  end.
Definition readFirehoseCursor (source : result (option ATProtoSource)) (state : result (option string)) : result (option Z) :=
  match source with
  | Ok (Some s) => if bool_decide (LastSeq s > 0) then mret (Some (LastSeq s)) else legacy_cursor state
  | _ => legacy_cursor state
  end.

(** The repository index as the handler of a client; [as_err] says what [errors.Is]
    finds in its errors. *)
Section IndexClient.
Context `{UnicodeCase} `{CarCbor} (env : IndexEnv) (as_err : string → GoErr).
Definition answered (m : M IndexWorld unit) : M IndexWorld (option GoErr) :=
  r ← mtry m; mret (match r with Err e => Some (as_err e) | _ => None end).
Definition index_handler : Handler IndexWorld :=
  {| HandleCommit evt := answered (AtIndex.HandleCommit env (Some evt));
     HandleIdentity := Some (λ evt, answered (AtIndex.HandleIdentity env (Some evt)));
     HandleAccount := Some (λ evt, answered (AtIndex.HandleAccount env (Some evt))) |}.
End IndexClient.

(** ** Waits are bounded *)
Section Waits.
Context (cfg : ReconnectConfig).
(** The wait before the jitter of attempt [k]. *)
Definition base (k : nat) : Z := if bool_decide (k = O) then InitialBackoff cfg else Z.min (MaxBackoff cfg) (InitialBackoff cfg * 2 ^ Z.of_nat k).
Definition sane : Prop := 0 < InitialBackoff cfg < 2 ^ 62 ∧ 0 < MaxBackoff cfg < 2 ^ 62 ∧ 0 < Jitter cfg < 2 ^ 61.

Lemma next_backoff_min b : 0 < b < 2 ^ 62 → next_backoff cfg b = Z.min (MaxBackoff cfg) (b * 2).
Proof. intros Hb. unfold next_backoff. rewrite int64_id by lia. case_bool_decide; lia. Qed.
Lemma base_bound k : sane → 0 < base k < 2 ^ 62.
Proof.
  intros (Hi & Hm & _). unfold base. case_bool_decide; [done|]. assert (0 < InitialBackoff cfg * 2 ^ Z.of_nat k) by nia. lia.
Qed.
Lemma base_next k : sane → next_backoff cfg (base k) = base (S k).
Proof.
  intros Hs. rewrite next_backoff_min by by apply base_bound. destruct Hs as (Hi & Hm & _). unfold base at 2.
  rewrite bool_decide_eq_false_2, Nat2Z.inj_succ, Z.pow_succ_r by lia. unfold base. case_bool_decide as Hk.
  - subst. simpl Z.of_nat. rewrite Z.pow_0_r. lia.
  - assert (0 < InitialBackoff cfg * 2 ^ Z.of_nat k) by nia. lia.
Qed.
Lemma jitter_bounds rnd b d : (∀ n, 0 < n → 0 <= rnd n < n) → 0 < b < 2 ^ 62 → 0 < Jitter cfg < 2 ^ 61 →
  jitterDuration rnd b (Jitter cfg) = Ok d →
  Z.max (250 * millisecond) (b - Jitter cfg) <= d <= Z.max (250 * millisecond) (b + Jitter cfg).
Proof.
  intros Hr Hb Hj. unfold jitterDuration, Int63n. rewrite (bool_decide_eq_false_2 (b <= 0)), (bool_decide_eq_false_2 (Jitter cfg <= 0)) by lia.
  rewrite (int64_id (2 * _)), int64_id by lia. rewrite bool_decide_eq_false_2 by lia. simpl.
  pose proof (Hr (2 * Jitter cfg + 1) ltac:(lia)) as Hn. rewrite (int64_id (rnd _ - _)), int64_id by lia.
  case_bool_decide; intros [= <-]; lia.
Qed.
End Waits.

Section Reconnecting.
Context `{UnicodeCase} {W : Type} (cfg : ReconnectConfig).
Context (runOnce : nat → M W End) (rnd : nat → Z → Z) (done_waiting : nat → option GoErr).
Definition ends (e : GoErr) : bool := is_Canceled e || IsFatalStreamError (Some e).

Lemma mtake {A B} (m : M W A) (k : A → M W B) w b w' : mbind k m w = (Ok b, w') → ∃ a w1, m w = (Ok a, w1) ∧ k a w1 = (Ok b, w').
Proof. by intros (a & w1 & Hm & Hk)%mbind_ok; eauto. Qed.

(** One turn of the loop. *)
Lemma reconnect_cases fuel i b w h last w' : reconnect_loop cfg runOnce rnd done_waiting (S fuel) i b w = (Ok (h, last), w') →
  ∃ r w1, runOnce i w = (Ok r, w1) ∧ match r with
  | Open => h = [] ∧ last = LOpen
  | Returned None => h = [] ∧ last = LReturned None
  | Returned (Some e) =>
      if ends e then h = [] ∧ last = LReturned (Some e)
      else ∃ d, jitterDuration (rnd i) b (Jitter cfg) = Ok d ∧ match done_waiting i with
        | Some x => h = [(e, d)] ∧ last = LReturned (Some x)
        | None => ∃ h', h = (e, d) :: h' ∧
            reconnect_loop cfg runOnce rnd done_waiting fuel (S i) (next_backoff cfg b) w1 = (Ok (h', last), w')
        end
  end.
Proof.
  cbn [reconnect_loop]. intros (r & w1 & Hr & Hk)%mtake. exists r, w1. split; [done|]. unfold ends.
  destruct r as [[e|]|]; [|by injection Hk as <- <- _..].
  destruct (is_Canceled e); [by injection Hk as <- <- _|]. cbn [orb].
  destruct (IsFatalStreamError (Some e)); [by injection Hk as <- <- _|].
  apply mtake in Hk as (d & w2 & [Hd ->]%mlift_ok & Hk). exists d. split; [done|].
  destruct (done_waiting i); [by injection Hk as <- <- _|]. apply mtake in Hk as ([h' last'] & w3 & Hl & [= <- <- <-]). eauto.
Qed.

Lemma loop_waits fuel i w h last w' : sane cfg → (∀ i n, 0 < n → 0 <= rnd i n < n) →
  reconnect_loop cfg runOnce rnd done_waiting fuel i (base cfg i) w = (Ok (h, last), w') →
  ∀ k e d, h !! k = Some (e, d) →
  Z.max (250 * millisecond) (base cfg (i + k) - Jitter cfg) <= d <= Z.max (250 * millisecond) (base cfg (i + k) + Jitter cfg).
Proof.
  intros Hs Hr. revert i w h. induction fuel as [|fuel IH]; intros i w h Hl k e d Hk; [by injection Hl as <- _ _|].
  apply reconnect_cases in Hl as (r & w1 & _ & Hl).
  destruct r as [[e'|]|]; [|by destruct Hl as [-> _]..]. destruct (ends e'); [by destruct Hl as [-> _]|].
  destruct Hl as (d' & Hd & Hl). apply jitter_bounds in Hd; [|by apply Hr|by apply base_bound|apply Hs].
  destruct (done_waiting i).
  - destruct Hl as [-> _]. destruct k as [|k]; [|done]. injection Hk as <- <-. by rewrite Nat.add_0_r.
  - destruct Hl as (h' & -> & Hl). destruct k as [|k]; [injection Hk as <- <-; by rewrite Nat.add_0_r|].
    rewrite base_next in Hl by done. specialize (IH _ _ _ Hl k e d Hk). by replace (i + S k)%nat with (S i + k)%nat by lia.
Qed.
Lemma loop_ends fuel i b w h last w' : reconnect_loop cfg runOnce rnd done_waiting fuel i b w = (Ok (h, last), w') →
  Forall (λ p, ends p.1 = false) h ∧ match last with
  | LReturned None => ∃ j w1 w2, runOnce j w1 = (Ok (Returned None), w2)
  | LReturned (Some e) => ends e = true ∨ ∃ j, done_waiting j = Some e
  | LOpen => True
  | LRunning => length h = fuel
  end.
Proof.
  revert i b w h. induction fuel as [|fuel IH]; intros i b w h Hl; [by injection Hl as <- <- _|].
  apply reconnect_cases in Hl as (r & w1 & Hr & Hl). destruct r as [[e'|]|]; [|destruct Hl as [-> ->]; eauto..].
  destruct (ends e') eqn:He; [destruct Hl as [-> ->]; auto|]. destruct Hl as (d & _ & Hl). destruct (done_waiting i) as [x|] eqn:Hx.
  - destruct Hl as [-> ->]. split; [by constructor|]. right. eauto.
  - destruct Hl as (h' & -> & Hl). apply IH in Hl as [Hh Hl]. split; [by constructor|]. destruct last; try done. simpl. by rewrite Hl.
Qed.
End Reconnecting.

(** ** Properties *)
Section Properties.
Context `{UnicodeCase} `{FrameCbor} {W : Type} (c : Client W) (set_query : string → string → string → GoErr + string).

Definition never_nil (m : M W End) : Prop := ∀ w w', m w ≠ (Ok (Returned None), w').
Lemma stream_never_nil l : never_nil (stream_loop c l).
Proof.
  induction l as [|[e|e| |m] l IH]; try (by intros ? ?). cbn [stream_loop]. destruct (ReadEvent m) as [e|ev]; [by intros ? ?|].
  intros w w' (r & w1 & _ & Hk)%mtake. destruct r; [done|by apply IH in Hk].
Qed.
Lemma run_never_nil dial : never_nil (Run c set_query dial).
Proof.
  unfold Run. destruct (streamURL c set_query) as [e|url]; [by intros ? ?|].
  destruct (dial url) as [[s|] e|con]; try (by intros ? ?). unfold handleStream. destruct (conn_deadline con); [by intros ? ?|].
  apply stream_never_nil.
Qed.

(** The waits between connections: the one after attempt [k] lies within the jitter
    of the initial backoff doubled [k] times, or of the maximum where that is less;
    none is shorter than a quarter of a second. *)
Theorem waits_are_bounded cfg dial rnd done_waiting fuel w h last w' :
  sane (with_defaults cfg) → (∀ i n, 0 < n → 0 <= rnd i n < n) →
  RunWithReconnect c set_query cfg dial rnd done_waiting fuel w = (Ok (h, last), w') →
  ∀ k e d, h !! k = Some (e, d) →
  let b := base (with_defaults cfg) k in let j := Jitter (with_defaults cfg) in
  Z.max (250 * millisecond) (b - j) <= d <= Z.max (250 * millisecond) (b + j).
Proof.
  intros Hs Hr Hl k e d Hk. cbv zeta. change k with (0 + k)%nat at 1 2. by eapply loop_waits.
Qed.

(** The client gives up only for a reason: every error it waited after was neither
    a cancellation nor fatal, it returns a cancellation, a fatal error or the end of
    its context, never nil, and otherwise it made all its attempts. *)
Theorem client_gives_up_for_a_reason cfg dial rnd done_waiting fuel w h last w' :
  RunWithReconnect c set_query cfg dial rnd done_waiting fuel w = (Ok (h, last), w') →
  Forall (λ p, ends p.1 = false) h ∧ match last with
  | LReturned None => False
  | LReturned (Some e) => ends e = true ∨ ∃ i, done_waiting i = Some e
  | LOpen => True
  | LRunning => length h = fuel
  end.
Proof.
  intros [Hh Hl]%loop_ends. split; [done|]. destruct last as [[e|]| |]; try done. destruct Hl as (j & w1 & w2 & Hl).
  by apply run_never_nil in Hl.
Qed.

(** A message that is a commit. *)
Definition commit_of (message : string) : option Commit := match ReadEvent message with inr ev => RepoCommit ev | inl _ => None end.
Lemma wire_ops_present message evt : commit_of message = Some evt → existsb (λ op, match op with None => true | Some _ => false end) (c_Ops evt) = false.
Proof.
  unfold commit_of, ReadEvent, or_err. intros Hc. repeat (case_match; simplify_eq/=).
  induction (omap id (wire_Ops _)) as [|op l IH]; [done|exact IH].
Qed.
(** Every commit to the handler in turn, whatever it answers. *)
Fixpoint handle_all (commits : list Commit) : M W unit :=
  match commits with [] => mret tt | evt :: commits => _ ← HandleCommit (handler c) evt; handle_all commits end.

(** A stream of commits is the handler on each of them in order: no commit crashes
    the client, and what the handler answers neither ends the stream nor repeats
    the commit. *)
Theorem every_commit_is_handled messages commits l w : Forall2 (λ m evt, commit_of m = Some evt) messages commits →
  stream_loop c (map IBinary messages ++ l) w = (_ ← handle_all commits; stream_loop c l) w.
Proof.
  intros Hm. revert w. induction Hm as [|m evt messages commits Hm _ IH]; intros w; [done|]. cbn [map app stream_loop handle_all].
  pose proof (wire_ops_present _ _ Hm) as Ho. unfold commit_of in Hm. destruct (ReadEvent m) as [e|ev]; [done|].
  unfold handle_event, handleRepoCommit. rewrite Hm, Ho.
  unfold mbind, M_mbind. destruct (HandleCommit (handler c) evt w) as [[r|e|] w1]; [|done..]. cbn. apply IH.
Qed.
End Properties.

Section IndexProperties.
Context `{UnicodeCase} `{FrameCbor} `{CarCbor} (env : IndexEnv) (as_err : string → GoErr).

(** Whatever the index does with a commit, it ends by saving its number. *)
Lemma handled_saves_cursor evt w w' : blank (c_Repo evt) = false → AtIndex.HandleCommit env (Some evt) w = (Ok tt, w') →
  ∃ s, sources (db w') !! sourceKey = Some s ∧ LastSeq s = c_Seq evt.
Proof.
  intros Hb. unfold AtIndex.HandleCommit. rewrite Hb.
  assert (∀ seq w, updateSourceCursor env seq w = (Ok tt, w') → ∃ s, sources (db w') !! sourceKey = Some s ∧ LastSeq s = seq) as Hs.
  { intros seq w0. unfold updateSourceCursor. intros (t & w1 & Hnow & Hu)%mtake. unfold update, statement in Hu.
    destruct (env_db_err env _); [done|]. injection Hu as <-. cbn. eexists. split; [by rewrite lookup_insert_eq|done]. }
  intros (r & w1 & _ & Hk)%mtake. destruct r as [r|]; [|by apply Hs in Hk]. case_bool_decide.
  - unfold handle_synced in Hk. destruct (_ && already_applied _ _); [by apply Hs in Hk|]. destruct (_ && negb (follows _ _)).
    + apply mtake in Hk as (reason & w2 & _ & (u & w3 & _ & Hk)%mtake). by apply Hs in Hk.
    + apply mtake in Hk as ([x [e|]] & w2 & _ & Hk); [done|by apply Hs in Hk].
  - apply mtake in Hk as (u & w2 & _ & Hk). by apply Hs in Hk.
Qed.

(** A commit the index refused is passed over: the stream goes on, and once a later
    commit is handled the saved cursor lies behind it, so that a restart does not
    ask for the refused one again. *)
Theorem refused_commit_is_passed c refused later m1 m2 w w1 w2 e state :
  handler c = index_handler env as_err → commit_of m1 = Some refused → commit_of m2 = Some later →
  AtIndex.HandleCommit env (Some refused) w = (Err e, w1) → AtIndex.HandleCommit env (Some later) w1 = (Ok tt, w2) →
  blank (c_Repo later) = false → 0 < c_Seq later →
  stream_loop c [IBinary m1; IBinary m2] w = (Ok Open, w2) ∧
  readFirehoseCursor (Ok (GetATProtoSource sourceKey (db w2))) state = Ok (Some (c_Seq later)).
Proof.
  intros Hc Hm1 Hm2 Href Hok Hb Hseq. split.
  - change [IBinary m1; IBinary m2] with (map IBinary [m1; m2] ++ []). rewrite (every_commit_is_handled c _ [refused; later]) by by repeat constructor.
    assert (HandleCommit (handler c) refused w = (Ok (Some (as_err e)), w1)) as Hr1
      by (rewrite Hc; unfold index_handler; cbn [HandleCommit]; unfold answered, mbind, M_mbind, mtry; by rewrite Href).
    assert (HandleCommit (handler c) later w1 = (Ok None, w2)) as Hr2
      by (rewrite Hc; unfold index_handler; cbn [HandleCommit]; unfold answered, mbind, M_mbind, mtry; by rewrite Hok).
    unfold handle_all, mbind, M_mbind. by rewrite Hr1, Hr2.
  - destruct (handled_saves_cursor _ _ _ Hb Hok) as (s & Hs & Hl). unfold GetATProtoSource, readFirehoseCursor. rewrite Hs, Hl.
    by rewrite bool_decide_eq_true_2 by lia.
Qed.
End IndexProperties.
