(* ===== verification/Crypto.v ===== *)
(** * Signatures and hashes

    The interfaces of crypto/ed25519 and crypto/sha256 the message formats are
    proved against: a signature of a key pair verifies under its public key, and
    the lengths are the fixed ones. *)
From S2P Require Import Prelude GoStr GoBytes.

Class Ed25519 := {
  KeyPair : Type;
  Public : KeyPair → bytes;
  ed_Sign : KeyPair → bytes → bytes;
  ed_Verify : bytes → bytes → bytes → bool
}.
Class Ed25519Laws (ed : Ed25519) := {
  public_length kp : length (Public kp) = 32;
  sign_length kp msg : length (ed_Sign kp msg) = 64;
  verify_sign kp msg : ed_Verify (Public kp) msg (ed_Sign kp msg) = true
}.
Class Sha256 := { sha256 : bytes → bytes }.
Class Sha256Laws (sh : Sha256) := { sha256_length b : length (sha256 b) = 32 }.

Definition SignatureSize : nat := 64.
