(* ===== verification/Bendy.v ===== *)
(** * BendyButt messages (internal/ssb/message/bendy/message.go)

    Metafeed messages: a bencoded list of a header and a signature, the content
    signed on its own, every field in its binary encoding. *)
From S2P Require Import Prelude GoStr GoBytes Base64 Refs Bfe Crypto Bencode.
#[local] Open Scope string_scope.
#[local] Open Scope list_scope.
#[local] Open Scope Z_scope.

Definition MaxMessageSize : nat := 8192.
Definition ErrInvalidMessage : string := "bendy: invalid message".
Definition ErrInvalidSequence : string := "bendy: invalid sequence number".
Definition ErrInvalidAuthor : string := "bendy: invalid author format".
Definition ErrInvalidPrevious : string := "bendy: invalid previous format".
Definition ErrInvalidTimestamp : string := "bendy: invalid timestamp".
Definition ErrMessageTooLarge : string := "bendy: message too large".
Definition ErrInvalidContent : string := "bendy: invalid content section".
Definition ErrInvalidSignature : string := "bendy: invalid signature".
Definition bendySignPrefix : bytes := to_l "bendybutt".
Definition bendyFeedFormatCode : Z := code_of FeedFormatCodes "bendybutt-v1".
Definition bendyMessageFormatCode : Z := code_of MessageFormatCodes "bendybutt-v1".

Record Message := { Author : bytes; Sequence : Z; Previous : bytes; Timestamp : Z;
  ContentSection : list Value; Signature : bytes }.

Definition isBFENil (v : bytes) : bool := bool_decide (v = EncodeNil).

(** A field with a binary prefix: its length and first two bytes. *)
Definition bfe_field (b : bytes) (type format : Z) : bool :=
  bool_decide (length b = 34%nat) && bool_decide (byte_at b 0 = type) && bool_decide (byte_at b 1 = format).

Definition Validate (m : Message) : result unit :=
  if bool_decide (Sequence m < 1) then Err ErrInvalidSequence
  else if negb (bfe_field (Author m) TypeFeed bendyFeedFormatCode) then Err ErrInvalidAuthor
  else if negb (if bool_decide (Sequence m = 1) then isBFENil (Previous m)
                else bfe_field (Previous m) TypeMessage bendyMessageFormatCode) then Err ErrInvalidPrevious
  else if bool_decide (Timestamp m < 0) then Err ErrInvalidTimestamp
  else if negb (bool_decide (length (ContentSection m) = 2%nat)) then Err ErrInvalidContent
  else Ok tt.

Definition payload (m : Message) : Value :=
  List [Bytes (Author m); Int (Sequence m); Bytes (Previous m); Int (Timestamp m); List (ContentSection m)].
Definition ToBencode (m : Message) : Value := List [payload m; Bytes (Signature m)].

(** [Message.Encode], which [Key] hashes. *)
Definition message_Encode (m : Message) : result bytes :=
  encoded ← Encode (ToBencode m);
  if bool_decide (MaxMessageSize < length encoded)%nat then Err ErrMessageTooLarge else Ok encoded.

Definition asBytes (v : Value) : option bytes :=
  match v with Bytes b | Str b => Some b | _ => None end.

Fixpoint convertStringsToBytes (v : Value) : Value :=
  match v with
  | Str s => Bytes s
  | List l => List (convertStringsToBytes <$> l)
  | Dict m => Dict ((λ kv, (kv.1, convertStringsToBytes kv.2)) <$> m)
  | v => v
  end.

Definition FromStoredMessage (encoded : bytes) : result Message :=
  decoded ← DecodeBytes encoded;
  match decoded with
  | List [List payload; sig] =>
      match asBytes sig with
      | None => Err ErrInvalidSignature
      | Some sig =>
          match payload with
          | [author; seq; prev; ts; cs] =>
              match asBytes author with
              | None => Err ErrInvalidAuthor
              | Some author =>
                  match seq with
                  | Int seq =>
                      match asBytes prev, prev with
                      | None, Nil | Some _, _ =>
                          match ts with
                          | Int ts =>
                              match cs with
                              | List cs => Ok {| Author := author; Sequence := seq; Previous := default [] (asBytes prev);
                                  Timestamp := ts; ContentSection := convertStringsToBytes <$> cs; Signature := sig |}
                              | _ => Err ErrInvalidContent
                              end
                          | _ => Err ErrInvalidTimestamp
                          end
                      | None, _ => Err ErrInvalidPrevious
                      end
                  | _ => Err ErrInvalidSequence
                  end
              end
          | _ => Err ErrInvalidMessage
          end
      end
  | _ => Err ErrInvalidMessage
  end.

(** The content of a new message, its strings, booleans and nils as bytes. *)
Fixpoint encodeValueToBFE (v : Value) : Value :=
  match v with
  | Str s => Bytes (drop 2 (Bfe.EncodeString s))
  | Bool b => Bytes [chr TypeGeneric; chr 1; chr (if b then 1 else 0)]
  | Nil => Bytes EncodeNil
  | Dict m => Dict ((λ kv, (drop 2 (Bfe.EncodeString kv.1), encodeValueToBFE kv.2)) <$> m)
  | List l => List (encodeValueToBFE <$> l)
  | v => v
  end.
Definition encodeContentToBFE (content : list (bytes * Value)) : Value := encodeValueToBFE (Dict content).

Section Signatures.
Context {ed : Ed25519} {sh : Sha256}.

Definition Key (m : Message) : result bytes := encoded ← message_Encode m; Ok (sha256 encoded).
Definition ToRefsMessage (m : Message) : result MessageRef := key ← Key m; NewMessageRef key "bendybutt-v1".

Definition set_content_signature (sig : bytes) (m : Message) : Message :=
  {| Author := Author m; Sequence := Sequence m; Previous := Previous m; Timestamp := Timestamp m;
     ContentSection := <[1%nat := Bytes sig]> (ContentSection m); Signature := Signature m |}.
Definition set_signature (sig : bytes) (m : Message) : Message :=
  {| Author := Author m; Sequence := Sequence m; Previous := Previous m; Timestamp := Timestamp m;
     ContentSection := ContentSection m; Signature := sig |}.

(** The signed message; its signature is what the method returns. *)
Definition Sign (kp : KeyPair) (m : Message) : result Message :=
  match ContentSection m with
  | [content; _] =>
      contentBytes ← Encode content;
      let m := set_content_signature (EncodeSignature (ed_Sign kp (bendySignPrefix ++ contentBytes))) m in
      payloadBytes ← Encode (payload m);
      Ok (set_signature (EncodeSignature (ed_Sign kp payloadBytes)) m)
  | _ => Err ErrInvalidContent
  end.

(** A signature field over some bytes, by the key of the author. *)
Definition check_signature (pubKey : bytes) (signed : result bytes) (field : option bytes) : result unit :=
  match field ≫= λ b, match DecodeSignature b with Ok sig => Some sig | _ => None end with
  | None => Err ErrInvalidSignature
  | Some sig =>
      msg ← signed;
      if ed_Verify pubKey msg sig then Ok tt else Err ErrInvalidSignature
  end.
Definition Verify (m : Message) : result unit :=
  _ ← Validate m;
  let authorPubKey := take 32 (drop 2 (Author m)) in
  let content := default Nil (ContentSection m !! 0%nat) in
  let contentSigField := ContentSection m !! 1%nat ≫= asBytes in
  _ ← check_signature authorPubKey (b ← Encode content; Ok (bendySignPrefix ++ b)) contentSigField;
  check_signature authorPubKey (Encode (payload m)) (Some (Signature m)).

Definition CreateMessage (author : bytes) (sequence : Z) (previous : bytes) (timestamp : Z)
    (content : list (bytes * Value)) (kp : KeyPair) : result Message :=
  let previous := if bool_decide (sequence = 1) && bool_decide (previous = []) then EncodeNil else previous in
  let msg := {| Author := author; Sequence := sequence; Previous := previous; Timestamp := timestamp;
    ContentSection := [encodeContentToBFE content; Bytes (EncodeSignature (replicate SignatureSize (chr 0)))];
    Signature := [] |} in
  _ ← Validate msg;
  Sign kp msg.
End Signatures.

(** ** The codec *)
Lemma encode_convert v : encodeValue (convertStringsToBytes v) = encodeValue v.
Proof.
  induction v as [n|n|s|s|l IH|m IH| |?|t] using Value_nested_ind; try done; cbn [convertStringsToBytes encodeValue].
  - do 2 f_equal. rewrite <-list_fmap_compose. apply list_fmap_ext. intros i v Hv.
    rewrite list.Forall_forall in IH. apply IH. by eapply list_elem_of_lookup_2.
  - do 2 f_equal.
    + rewrite <-list_fmap_compose. apply list_fmap_ext. intros i [k v] Hv. cbn. f_equal.
      rewrite list.Forall_forall in IH. apply (IH (k, v)). by eapply list_elem_of_lookup_2.
    + unfold SortedKeys. f_equal. rewrite <-list_fmap_compose. by apply list_fmap_ext; intros ? [].
Qed.
(** What the decoder and the conversion make of a value encodes as before. *)
Definition reread (v : Value) : Value := convertStringsToBytes (plain v).
Lemma encode_reread v : encodeValue (reread v) = encodeValue v.
Proof. unfold reread. by rewrite encode_convert, encode_plain_value. Qed.

(** The message a stored encoding is read back as. *)
Definition reread_message (m : Message) : Message :=
  {| Author := Author m; Sequence := Sequence m; Previous := Previous m; Timestamp := Timestamp m;
     ContentSection := reread <$> ContentSection m; Signature := Signature m |}.

Lemma encode_list_ext l l' : (encodeValue <$> l) = (encodeValue <$> l') → encodeValue (List l) = encodeValue (List l').
Proof. cbn. by intros ->. Qed.
Lemma encode_reread_payload m : encodeValue (payload (reread_message m)) = encodeValue (payload m).
Proof.
  apply encode_list_ext. cbn [fmap list_fmap]. do 4 f_equal. f_equal. apply encode_list_ext. cbn.
  rewrite <-list_fmap_compose. apply list_fmap_ext. intros i v _. apply encode_reread.
Qed.
Lemma encode_reread_message m : message_Encode (reread_message m) = message_Encode m.
Proof.
  unfold message_Encode. replace (Encode (ToBencode (reread_message m))) with (Encode (ToBencode m)); [done|].
  apply encode_list_ext. cbn [fmap list_fmap]. f_equal. symmetry. apply encode_reread_payload.
Qed.

(** A message whose fields the codec can carry. *)
Definition storable (m : Message) : Prop := encodable (ToBencode m).
Lemma from_stored_encode m enc junk : storable m → message_Encode m = Ok enc →
  FromStoredMessage (enc ++ junk) = Ok (reread_message m).
Proof.
  intros Hm He. unfold message_Encode in He. apply result_bind_ok in He as (b & Hb & He).
  case_bool_decide; [done|]. injection He as <-. unfold FromStoredMessage.
  rewrite (decode_encoding _ _ _ Hm Hb). cbn. unfold reread_message, reread. by rewrite <-list_fmap_compose.
Qed.

(** ** Signing *)
Section Signed.
Context {ed : Ed25519} {edl : Ed25519Laws ed} {sh : Sha256}.

Lemma decode_signature_encode sig : length sig = 64%nat → DecodeSignature (EncodeSignature sig) = Ok sig.
Proof.
  intros H. unfold DecodeSignature, EncodeSignature. cbn [app]. rewrite bool_decide_eq_false_2 by (simpl; lia).
  change (drop 2 _) with sig. rewrite (take_ge sig) by lia. reflexivity.
Qed.
Lemma check_signature_signed kp msg signed : signed = Ok msg →
  check_signature (Public kp) signed (Some (EncodeSignature (ed_Sign kp msg))) = Ok tt.
Proof.
  intros ->. unfold check_signature. cbn [mbind option_bind]. rewrite decode_signature_encode by apply sign_length.
  cbn. by rewrite verify_sign.
Qed.
Lemma author_key kp : take 32 (drop 2 (EncodeFeed "bendybutt-v1" (Public kp))) = Public kp.
Proof. unfold EncodeFeed. change (drop 2 _) with (Public kp). apply take_ge. pose proof (public_length kp). lia. Qed.

Lemma verify_ext m m' : Author m = Author m' → Validate m = Validate m' → Signature m = Signature m' →
  encodeValue <$> ContentSection m = encodeValue <$> ContentSection m' →
  ContentSection m !! 1%nat ≫= asBytes = ContentSection m' !! 1%nat ≫= asBytes →
  encodeValue (payload m) = encodeValue (payload m') → Verify m = Verify m'.
Proof.
  intros Ha Hv Hs Hc Hf Hp. unfold Verify, Encode. rewrite Ha, Hv, Hs, Hf, Hp.
  assert (encodeValue (default Nil (ContentSection m !! 0%nat)) = encodeValue (default Nil (ContentSection m' !! 0%nat))) as ->; [|done].
  destruct (ContentSection m), (ContentSection m'); try done. by injection Hc.
Qed.

Lemma verify_reread content sig m : ContentSection m = [content; Bytes sig] → Verify (reread_message m) = Verify m.
Proof.
  intros Hc. apply verify_ext; try done.
  - unfold Validate, reread_message. cbn. by rewrite length_fmap.
  - cbn. rewrite <-list_fmap_compose. apply list_fmap_ext. intros i v _. apply encode_reread.
  - unfold reread_message. cbn. by rewrite Hc.
  - apply encode_reread_payload.
Qed.

Lemma verify_intro kp m content b pb :
  Validate m = Ok tt → take 32 (drop 2 (Author m)) = Public kp →
  ContentSection m = [content; Bytes (EncodeSignature (ed_Sign kp (bendySignPrefix ++ b)))] →
  Encode content = Ok b → Encode (payload m) = Ok pb → Signature m = EncodeSignature (ed_Sign kp pb) →
  Verify m = Ok tt.
Proof.
  intros Hv Ha Hc Hb Hpb Hs. unfold Verify. rewrite Hv, Ha, Hc, Hpb, Hs.
  apply result_bind_ok. exists tt. split; [done|]. apply result_bind_ok. exists tt.
  split; apply check_signature_signed; [|done]. by change (default Nil _) with content; rewrite Hb.
Qed.

Lemma created_verifies author sequence previous timestamp content kp m :
  author = EncodeFeed "bendybutt-v1" (Public kp) →
  CreateMessage author sequence previous timestamp content kp = Ok m →
  Verify m = Ok tt ∧ ∃ sig, ContentSection m = [encodeContentToBFE content; Bytes (EncodeSignature sig)] ∧
    length sig = 64%nat ∧ Author m = author ∧ Sequence m = sequence ∧ Timestamp m = timestamp ∧
    Previous m = (if bool_decide (sequence = 1) && bool_decide (previous = []) then EncodeNil else previous) ∧
    ∃ sig', Signature m = EncodeSignature sig' ∧ length sig' = 64%nat.
Proof.
  intros Ha H. unfold CreateMessage in H. set (prev := if bool_decide (sequence = 1) && _ then _ else _) in *.
  apply result_bind_ok in H as ([] & Hv & H). unfold Sign in H. cbn [ContentSection] in H.
  apply result_bind_ok in H as (b & Hb & H). apply result_bind_ok in H as (pb & Hpb & H). injection H as <-.
  split; [|eexists; split_and!; [done|apply sign_length|done|done|done|done|eexists; split; [done|apply sign_length]]].
  eapply verify_intro; [exact Hv| |done|done|exact Hpb|done]. rewrite Ha. apply author_key.
Qed.

(** A BendyButt message that [CreateMessage] signs verifies, also after it was
    encoded, sent and read back, and keeps its key; so does any input that starts
    with the encoding: the bytes after it are neither rejected nor signed. *)
Theorem created_message_verifies author sequence previous timestamp content kp m enc :
  author = EncodeFeed "bendybutt-v1" (Public kp) →
  CreateMessage author sequence previous timestamp content kp = Ok m →
  storable m → message_Encode m = Ok enc →
  Verify m = Ok tt ∧ ∀ junk, ∃ m', FromStoredMessage (enc ++ junk) = Ok m' ∧ Verify m' = Ok tt ∧ Key m' = Key m ∧
    Author m' = author ∧ Sequence m' = sequence ∧ Previous m' = Previous m ∧ Timestamp m' = timestamp.
Proof.
  intros Ha Hc Hs He. destruct (created_verifies _ _ _ _ _ _ _ Ha Hc) as (Hv & sig & Hcs & _ & HA & HS & HT & HP & _).
  split; [done|]. intros junk. exists (reread_message m). split_and!; try done.
  - by apply from_stored_encode.
  - by rewrite (verify_reread _ _ _ Hcs).
  - unfold Key. by rewrite encode_reread_message.
Qed.
End Signed.
