(* ===== verification/Formats.v ===== *)
(** * Feed and message formats (internal/ssb/formats/registry.go)

    The registry of the formats the node knows, what it supports of each, and the
    error it returns for the others. *)
From S2P Require Import Prelude GoStr GoBytes Refs.
#[local] Open Scope string_scope.
#[local] Open Scope list_scope.

Inductive Kind := KindFeed | KindMessage.
Inductive SupportStatus := StatusSupported | StatusPartial | StatusUnsupported.
#[export] Instance SupportStatus_eq_dec : EqDecision SupportStatus.
Proof. solve_decision. Defined.

Definition FeedEd25519 : string := "ed25519".
Definition FeedBendyButtV1 : string := "bendybutt-v1".
Definition FeedGabbyGroveV1 : string := "gabbygrove-v1".
Definition FeedBamboo : string := "bamboo".
Definition FeedIndexedV1 : string := "indexed-v1".
Definition MessageSHA256 : string := "sha256".
Definition MessageBendyButtV1 : string := "bendybutt-v1".
Definition MessageGabbyGroveV1 : string := "gabbygrove-v1".
Definition MessageBamboo : string := "bamboo".
Definition MessageIndexedV1 : string := "indexed-v1".

Record Descriptor := { Name : string; kind : Kind; Status : SupportStatus; Description : string }.
Record Registry := { feeds : gmap string Descriptor; messages : gmap string Descriptor }.

Definition unimplemented (name : string) (k : Kind) (what : string) : string * Descriptor :=
  (name, {| Name := name; kind := k; Status := StatusUnsupported;
            Description := "recognized " +:+ what +:+ " ref, replication not implemented" |}).
Definition NewRegistry : Registry := {|
  feeds := list_to_map [
    (FeedEd25519, {| Name := FeedEd25519; kind := KindFeed; Status := StatusSupported;
       Description := "classic SSB feed over ed25519 SHS identities" |});
    (FeedBendyButtV1, {| Name := FeedBendyButtV1; kind := KindFeed; Status := StatusPartial;
       Description := "metafeed/BendyButt feed; parser and validation exist, replication is gated by raw-byte storage" |});
    unimplemented FeedGabbyGroveV1 KindFeed "feed"; unimplemented FeedBamboo KindFeed "feed";
    unimplemented FeedIndexedV1 KindFeed "feed"];
  messages := list_to_map [
    (MessageSHA256, {| Name := MessageSHA256; kind := KindMessage; Status := StatusSupported;
       Description := "classic signed JSON message ref" |});
    (MessageBendyButtV1, {| Name := MessageBendyButtV1; kind := KindMessage; Status := StatusPartial;
       Description := "BendyButt message parser and validation exist, full history compatibility is gated" |});
    unimplemented MessageGabbyGroveV1 KindMessage "message"; unimplemented MessageBamboo KindMessage "message";
    unimplemented MessageIndexedV1 KindMessage "message"]
|}.
Definition DefaultRegistry : Registry := NewRegistry.

(** The receiver of a registry method may be nil: the default one is used. *)
Definition receiver (r : option Registry) : Registry := default DefaultRegistry r.
Definition Feed (format : string) (r : option Registry) : option Descriptor := feeds (receiver r) !! format.
Definition Message (format : string) (r : option Registry) : option Descriptor := messages (receiver r) !! format.
Definition FeedStatus (format : string) (r : option Registry) : SupportStatus :=
  match Feed format r with Some d => Status d | None => StatusUnsupported end.
Definition MessageStatus (format : string) (r : option Registry) : SupportStatus :=
  match Message format r with Some d => Status d | None => StatusUnsupported end.

(** ** The error *)
Record UnsupportedFormatError := { err_Kind : Kind; err_FeedFormat : string; err_MessageFormat : string;
  Method : string; Phase : string }.
Definition UnsupportedFeed (format method phase : string) : UnsupportedFormatError :=
  {| err_Kind := KindFeed; err_FeedFormat := format; err_MessageFormat := ""; Method := method; Phase := phase |}.
Definition UnsupportedMessage (format method phase : string) : UnsupportedFormatError :=
  {| err_Kind := KindMessage; err_FeedFormat := ""; err_MessageFormat := format; Method := method; Phase := phase |}.
Definition ErrorKind (e : UnsupportedFormatError) : string :=
  match err_Kind e with KindFeed => "unsupported_feed_format" | KindMessage => "unsupported_message_format" end.
Definition Error (e : UnsupportedFormatError) : string :=
  let format := match err_Kind e with KindFeed => err_FeedFormat e | KindMessage => err_MessageFormat e end in
  Join ([ErrorKind e] ++
        (if blank format then [] else ["format=" +:+ format]) ++
        (if blank (Method e) then [] else ["method=" +:+ TrimSpace (Method e)]) ++
        (if blank (Phase e) then [] else ["phase=" +:+ TrimSpace (Phase e)])) " ".

Definition EnsureFeedSupported (format method phase : string) (r : option Registry) : option UnsupportedFormatError :=
  if bool_decide (FeedStatus format r = StatusSupported) then None else Some (UnsupportedFeed format method phase).
Definition EnsureMessageSupported (format method phase : string) (r : option Registry) : option UnsupportedFormatError :=
  if bool_decide (MessageStatus format r = StatusSupported) then None else Some (UnsupportedMessage format method phase).

(** ** Formats of references; the empty string is no format *)
Definition FeedFromRef (ref : option FeedRef) : string := match ref with Some r => f_algo r | None => "" end.
Definition MessageFromRef (ref : option MessageRef) : string := match ref with Some r => m_algo r | None => "" end.
Definition FeedFromString (feed : string) : string :=
  match ParseFeedRef feed with Ok r => FeedFromRef (Some r) | _ => "" end.
Definition MessageFromString (message : string) : string :=
  match ParseMessageRef message with Ok r => MessageFromRef (Some r) | _ => "" end.
Definition MessageFromFeed (format : string) : string :=
  if bool_decide (format = FeedEd25519) then MessageSHA256
  else if bool_decide (format = FeedBendyButtV1) then MessageBendyButtV1
  else if bool_decide (format = FeedGabbyGroveV1) then MessageGabbyGroveV1
  else if bool_decide (format = FeedBamboo) then MessageBamboo
  else if bool_decide (format = FeedIndexedV1) then MessageIndexedV1
  else "".
Definition IsClassic (feed msg : string) : bool :=
  bool_decide (feed = FeedEd25519) && bool_decide (msg = MessageSHA256).

Definition ParseFeedAlgo (value : string) : result string :=
  let value := TrimSpace value in
  match Feed value (Some DefaultRegistry) with
  | Some _ => Ok value
  | None => Err ("ssb formats: unknown feed format " +:+ quoted value)
  end.
Definition ParseMessageAlgo (value : string) : result string :=
  let value := TrimSpace value in
  match Message value (Some DefaultRegistry) with
  | Some _ => Ok value
  | None => Err ("ssb formats: unknown message format " +:+ quoted value)
  end.

(** ** Properties *)

(** The formats of the registry are those of parsed references, and classic feeds
    are the only ones whose messages are supported. *)
Theorem registry_complete (f : FeedRef) :
  f_algo f ∈ feed_algos →
  ParseFeedAlgo (f_algo f) = Ok (f_algo f) ∧
  ParseMessageAlgo (MessageFromFeed (f_algo f)) = Ok (MessageFromFeed (f_algo f)) ∧
  (EnsureFeedSupported (f_algo f) "" "" None = None ↔ f_algo f = FeedEd25519).
Proof.
  intros H. unfold feed_algos in H. repeat (apply elem_of_cons in H as [->|H]);
    [split_and!; vm_compute; try reflexivity; split; congruence..|by apply elem_of_nil in H].
Qed.
