(* ===== verification/Legacy.v ===== *)
(** * Classic messages (internal/ssb/message/legacy/message.go, sign.go)

    The text of a classic SSB message, its signature and its key. encoding/json is
    an interface: what it reads from a document and what it writes for a value. *)
From S2P Require Import Prelude GoStr GoBytes Base64 Refs Crypto.
#[local] Open Scope string_scope.
#[local] Open Scope list_scope.
#[local] Open Scope Z_scope.

Definition HashAlgorithm : string := "sha256".
Definition ErrInvalidSignature : string := "legacy: invalid signature".
Definition ErrSignatureTooShort : string := "legacy: signature too short".
Definition ErrSignatureTooLong : string := "legacy: signature too long".
Definition ErrInvalidBase64 : string := "legacy: invalid base64".
Definition ErrInvalidSignatureLength : string := "legacy: signature wrong length".
Definition ErrInvalidFeedAlgorithm : string := "legacy: invalid feed algorithm".
Definition ErrSignatureNotFound : string := "legacy: signature not found".
Definition signatureSuffix : string := ".sig.ed25519".

Definition nl : string := String newline EmptyString.
Definition quote : ascii := "034"%char.
Definition trim (b : bytes) : bytes := to_l (TrimSpace (of_l b)).

(** ** JSON

    [signedMessageJSON] is the struct a signed message is decoded into, its
    content still raw. [object_fields] is [json.Unmarshal] into a
    [map[string]json.RawMessage], [array_elems] into a [[]json.RawMessage], and
    [object_keys] the string tokens at key positions a [json.Decoder] yields. *)
Record signedMessageJSON := { raw_Previous : option MessageRef; raw_Author : FeedRef; raw_Sequence : Z;
  raw_Timestamp : Z; raw_Hash : string; raw_Content : bytes; raw_Signature : string }.
Class JSON := {
  Content : Type;
  content_of_string : bytes → Content;
  json_Unmarshal : bytes → option Content;
  json_Marshal : Content → result bytes;
  object_fields : bytes → option (list (bytes * bytes));
  object_keys : bytes → list bytes;
  array_elems : bytes → option (list bytes);
  parseSignedMessageJSONRaw : bytes → result signedMessageJSON
}.
(** The raw values of a document are proper parts of it. *)
Class JSONLaws (js : JSON) := {
  fields_shorter data m k v : object_fields data = Some m → (k, v) ∈ m → (length v < length data)%nat;
  elems_shorter data l v : array_elems data = Some l → v ∈ l → (length v < length data)%nat
}.

(** ** Signatures *)
Definition DecodedLen (n : nat) : nat := n / 4 * 3.
Definition TrimSuffix (s suffix : bytes) : bytes := take (length s - length suffix) s.
Definition HasSuffix (s suffix : bytes) : bool := bool_decide (suffix = drop (length s - length suffix) s).

Definition NewSignatureFromBase64 (input : bytes) : result bytes :=
  if negb (HasSuffix input (to_l signatureSuffix)) then Err ErrInvalidSignature
  else
    let b64 := TrimSuffix input (to_l signatureSuffix) in
    let gotLen := DecodedLen (length b64) in
    if bool_decide (gotLen < SignatureSize)%nat then Err ErrSignatureTooShort
    else if bool_decide (SignatureSize + 2 < gotLen)%nat then Err ErrSignatureTooLong
    else match DecodeString StdEncoding (of_l b64) with
      | None => Err ErrInvalidBase64
      | Some decoded =>
          if bool_decide (length decoded = SignatureSize) then Ok decoded else Err ErrInvalidSignatureLength
      end.

Definition ParseSignatureString (input : string) : result bytes :=
  let trimmed := TrimSpace input in
  if bool_decide (trimmed = "") then Err ErrInvalidSignature
  else match NewSignatureFromBase64 (to_l trimmed) with
    | Ok sig => Ok sig
    | Err err =>
        match DecodeString StdEncoding trimmed with
        | None => Err err
        | Some decoded =>
            if bool_decide (length decoded = SignatureSize) then Ok decoded else Err ErrInvalidSignatureLength
        end
    | Panic => Panic
    end.

(** The signed text and the signature of a signed message: the last quoted string
    and the last comma before it are cut out. *)
Definition ExtractSignature (b : bytes) : result (bytes * bytes) :=
  match LastIndex quote b with
  | None => Err ErrSignatureNotFound
  | Some endIdx =>
      match LastIndex quote (take endIdx b) with
      | None => Err ErrSignatureNotFound
      | Some startIdx =>
          match LastIndex "," (take startIdx b) with
          | None => Err ErrSignatureNotFound
          | Some commaIdx =>
              sigData ← NewSignatureFromBase64 (drop (startIdx + 1) (take endIdx b));
              Ok (take commaIdx b ++ drop (endIdx + 1) b, sigData)
          end
      end
  end.

(** ** Lines *)
Fixpoint split_lines (data : bytes) : list bytes :=
  match data with
  | [] => [[]]
  | c :: data =>
      if bool_decide (c = newline) then [] :: split_lines data
      else match split_lines data with l :: ls => (c :: l) :: ls | [] => [[c]] end
  end.
Definition join_lines (lines : list bytes) : bytes :=
  match lines with [] => [] | l :: ls => l ++ concat ((λ x, newline :: x) <$> ls) end.
Definition indentJSONFragment (data prefix : bytes) : bytes :=
  match split_lines data with [] => [] | l :: ls => join_lines (l :: ((λ x, prefix ++ x) <$> ls)) end.

(** ** V8 binary strings

    [[]rune(s)]: the decoding of UTF-8, a replacement rune for each byte that
    starts no valid sequence. *)
Definition rune_error : Z := 65533.
Definition within (lo x hi : Z) : bool := bool_decide (lo <= x <= hi).
Definition cont (x : Z) : bool := within 128 x 191.
Definition second_of_three (x0 x1 : Z) : bool :=
  if bool_decide (x0 = 224) then within 160 x1 191
  else if bool_decide (x0 = 237) then within 128 x1 159
  else within 225 x0 239 && cont x1.
Definition second_of_four (x0 x1 : Z) : bool :=
  if bool_decide (x0 = 240) then within 144 x1 191
  else if bool_decide (x0 = 244) then within 128 x1 143
  else within 241 x0 243 && cont x1.
Fixpoint runes (l : bytes) : list Z :=
  match l with
  | [] => []
  | b0 :: l1 =>
      let x0 := ord b0 in
      if bool_decide (x0 < 128) then x0 :: runes l1
      else match l1 with
      | [] => [rune_error]
      | b1 :: l2 =>
          let x1 := ord b1 in
          if within 194 x0 223 && cont x1 then Z.land x0 31 * 64 + Z.land x1 63 :: runes l2
          else match l2 with
          | [] => rune_error :: runes l1
          | b2 :: l3 =>
              let x2 := ord b2 in
              if second_of_three x0 x1 && cont x2
              then Z.land x0 15 * 4096 + Z.land x1 63 * 64 + Z.land x2 63 :: runes l3
              else match l3 with
              | [] => rune_error :: runes l1
              | b3 :: l4 =>
                  let x3 := ord b3 in
                  if second_of_four x0 x1 && cont x2 && cont x3
                  then Z.land x0 7 * 262144 + Z.land x1 63 * 4096 + Z.land x2 63 * 64 + Z.land x3 63 :: runes l4
                  else rune_error :: runes l1
              end
          end
      end
  end.
(** The low bytes of the UTF-16 code units of a rune. *)
Definition v8_units (r : Z) : bytes :=
  if bool_decide (r < 65536) then [chr (Z.land r 255)]
  else
    let r := r - 65536 in
    [chr (Z.land (55296 + Z.shiftr r 10) 255); chr (Z.land (56320 + Z.land r 1023) 255)].
Definition V8Binary (data : bytes) : bytes := runes data ≫= v8_units.

(** Escapes of a string: two quoted, five named, the other control characters. *)
Definition hex_digit (d : Z) : ascii := nth (Z.to_nat d) (to_l "0123456789abcdef") "0"%char.
Definition escape_byte (c : ascii) : bytes :=
  let backslash := "092"%char in
  if bool_decide (c = quote) || bool_decide (c = backslash) then [backslash; c]
  else if bool_decide (ord c = 8) then [backslash; "b"%char]
  else if bool_decide (ord c = 12) then [backslash; "f"%char]
  else if bool_decide (ord c = 10) then [backslash; "n"%char]
  else if bool_decide (ord c = 13) then [backslash; "r"%char]
  else if bool_decide (ord c = 9) then [backslash; "t"%char]
  else if bool_decide (ord c < 32) then backslash :: to_l "u00" ++ [hex_digit (ord c / 16); hex_digit (ord c mod 16)]
  else [c].
Definition escapeString (s : bytes) : bytes := s ≫= escape_byte.

Section Messages.
Context {js : JSON} {ed : Ed25519} {sh : Sha256}.

(** ** Pretty printing *)

(** [getKeysInOrder], with the fallback to the sorted keys of the map. *)
Definition keys_in_order (data : bytes) (obj : list (bytes * bytes)) : list bytes :=
  match object_keys data with [] => sortStrings (fst <$> obj) | keys => keys end.
Fixpoint field (k : bytes) (obj : list (bytes * bytes)) : option bytes :=
  match obj with [] => None | (k', v) :: obj => if bool_decide (k = k') then Some v else field k obj end.

(** The loops over keys and elements; [format] prints one value, [i] is the
    index. *)
Fixpoint format_fields (format : bytes → result bytes) (indent : string) (obj : list (bytes * bytes))
    (i : nat) (keys : list bytes) : result bytes :=
  match keys with
  | [] => Ok []
  | k :: keys =>
      match field k obj with
      | None => format_fields format indent obj (S i) keys
      | Some val =>
          v ← format val;
          rest ← format_fields format indent obj (S i) keys;
          Ok ((if bool_decide (0 < i)%nat then to_l ("," +:+ nl) else []) ++ to_l indent ++
              to_l ("  " +:+ quote_char) ++ k ++ to_l (quote_char +:+ ": ") ++ v ++ rest)
      end
  end.
Fixpoint format_elems (format : bytes → result bytes) (indent : string) (i : nat) (arr : list bytes) : result bytes :=
  match arr with
  | [] => Ok []
  | elem :: arr =>
      v ← format elem;
      rest ← format_elems format indent (S i) arr;
      Ok ((if bool_decide (0 < i)%nat then to_l "," else []) ++ to_l nl ++ to_l indent ++ to_l "  " ++ v ++ rest)
  end.

Definition indent_of (depth : nat) : string := of_l (concat (replicate depth (to_l "  "))).
(** [formatJSON]; [fuel] bounds the nesting. *)
Fixpoint formatJSON (fuel : nat) (data : bytes) (depth : nat) : result bytes :=
  match fuel with
  | O => Err "out of fuel"
  | S fuel =>
      let data := trim data in
      let indent := indent_of depth in
      match data with
      | [] => Ok []
      | c :: _ =>
          if bool_decide (c = "{"%char) then
            match object_fields data with
            | None => Ok data
            | Some obj =>
                fields ← format_fields (λ v, formatJSON fuel v (S depth)) indent obj 0 (keys_in_order data obj);
                Ok (to_l ("{" +:+ nl) ++ fields ++ to_l nl ++ to_l indent ++ to_l "}")
            end
          else if bool_decide (c = "["%char) then
            match array_elems data with
            | None => Ok data
            | Some arr =>
                elems ← format_elems (λ v, formatJSON fuel v (S depth)) indent 0 arr;
                Ok (to_l "[" ++ elems ++ (if bool_decide (arr = []) then [] else to_l nl ++ to_l indent) ++ to_l "]")
            end
          else Ok data
      end
  end.
Definition PrettyPrint (input : bytes) : result bytes := formatJSON (S (length input)) input 0.
Definition CanonicalJSON (data : bytes) : bytes := match PrettyPrint data with Ok b => b | _ => data end.

Definition HashMessage (content : bytes) : bytes := sha256 (V8Binary content).
Definition NewMessageRef (hash : bytes) : result MessageRef := Refs.NewMessageRef hash RefAlgoMessageSSB1.

(** ** Messages *)
Record Message := { Previous : option MessageRef; Author : FeedRef; Sequence : Z; Timestamp : Z;
  Hash : string; content : Content }.
Record SignedMessage := { message : Message; Signature : bytes }.

Definition marshalLegacyContent (c : Content) : result bytes :=
  data ← json_Marshal c;
  pretty ← PrettyPrint data;
  Ok (indentJSONFragment pretty (to_l "  ")).

(** The lines before the content, the same in every printer. *)
Definition header_lines (previous : option MessageRef) (author : FeedRef) (sequence timestamp : Z) (hash : string) : bytes :=
  to_l ("{" +:+ nl +:+
    "  " +:+ quoted "previous" +:+ ": " +:+
      match previous with Some r => quoted (message_string r) | None => "null" end +:+ "," +:+ nl +:+
    "  " +:+ quoted "author" +:+ ": " +:+ quoted (feed_string author) +:+ "," +:+ nl +:+
    "  " +:+ quoted "sequence" +:+ ": " +:+ itoa sequence +:+ "," +:+ nl +:+
    "  " +:+ quoted "timestamp" +:+ ": " +:+ itoa timestamp +:+ "," +:+ nl +:+
    "  " +:+ quoted "hash" +:+ ": " +:+ quoted hash +:+ "," +:+ nl +:+
    "  " +:+ quoted "content" +:+ ": ").
Definition message_header (m : Message) : bytes :=
  header_lines (Previous m) (Author m) (Sequence m) (Timestamp m) (Hash m).
Definition signature_line (sig : bytes) : bytes :=
  to_l ("," +:+ nl +:+ "  " +:+ quoted "signature" +:+ ": " +:+ quote_char) ++
  to_l (EncodeToString StdEncoding sig) ++ to_l signatureSuffix ++ to_l quote_char.

Definition marshalForSigning (m : Message) : result bytes :=
  c ← marshalLegacyContent (content m);
  Ok (message_header m ++ c ++ to_l nl ++ to_l "}").
Definition marshalWithSignature (m : Message) (sig : bytes) : result bytes :=
  c ← marshalLegacyContent (content m);
  Ok (message_header m ++ c ++ signature_line sig ++ to_l nl ++ to_l "}").

(** The same from the fields of a decoded message, its content printed again. *)
Definition marshalSignedMessageJSON (raw : signedMessageJSON) (includeSignature : bool) : result bytes :=
  c ← PrettyPrint (trim (raw_Content raw));
  line ← (if includeSignature then sig ← ParseSignatureString (raw_Signature raw); Ok (signature_line sig) else Ok []);
  Ok (header_lines (raw_Previous raw) (raw_Author raw) (raw_Sequence raw) (raw_Timestamp raw) (raw_Hash raw) ++
      indentJSONFragment c (to_l "  ") ++ line ++ to_l nl ++ to_l "}").

Definition signing_algo (f : FeedRef) : bool :=
  bool_decide (f_algo f = RefAlgoFeedSSB1) || bool_decide (f_algo f = RefAlgoFeedBendyButt).
Definition verifySignature (pubKey content sig : bytes) : bool :=
  bool_decide (length sig = SignatureSize) && bool_decide (length pubKey = 32%nat) && ed_Verify pubKey content sig.
(** [Signature.Verify] *)
Definition signature_Verify (s content : bytes) (r : FeedRef) : result unit :=
  if negb (signing_algo r) then Err ErrInvalidFeedAlgorithm
  else if negb (ed_Verify (f_id r) content s) then Err ErrInvalidSignature
  else Ok tt.
Definition Verify (m : SignedMessage) : result unit :=
  contentToSign ← marshalForSigning (message m);
  if negb (signing_algo (Author (message m)))
  then Err ("legacy: unsupported feed algorithm: " +:+ f_algo (Author (message m)))
  else if negb (verifySignature (f_id (Author (message m))) contentToSign (Signature m)) then Err ErrInvalidSignature
  else Ok tt.

(** The key, the signature and the message with its hash field set. *)
Definition Sign (kp : KeyPair) (m : Message) : result (MessageRef * bytes * Message) :=
  let m := {| Previous := Previous m; Author := Author m; Sequence := Sequence m; Timestamp := Timestamp m;
              Hash := HashAlgorithm; content := content m |} in
  contentToSign ← marshalForSigning m;
  let sig := ed_Sign kp contentToSign in
  msgToHash ← marshalWithSignature m sig;
  msgRef ← Refs.NewMessageRef (HashMessage msgToHash) RefAlgoMessageSSB1;
  Ok (msgRef, sig, m).

Definition ParseSignedMessageJSON (input : bytes) : result (SignedMessage * bytes) :=
  raw ← parseSignedMessageJSONRaw (trim input);
  sig ← ParseSignatureString (raw_Signature raw);
  let contentBytes := trim (raw_Content raw) in
  let c := match json_Unmarshal contentBytes with Some c => c | None => content_of_string contentBytes end in
  Ok ({| message := {| Previous := raw_Previous raw; Author := raw_Author raw; Sequence := raw_Sequence raw;
           Timestamp := raw_Timestamp raw; Hash := raw_Hash raw; content := c |};
         Signature := sig |}, contentBytes).

Definition VerifySignedMessageJSON (input : bytes) : result SignedMessage :=
  let input := trim input in
  raw ← parseSignedMessageJSONRaw input;
  p ← ParseSignedMessageJSON input;
  signable ← marshalSignedMessageJSON raw false;
  sig ← ParseSignatureString (raw_Signature raw);
  if negb (verifySignature (f_id (Author (message p.1))) signable sig) then Err ErrInvalidSignature
  else Ok p.1.

Definition SignedMessageRefFromJSON (input : bytes) : result MessageRef :=
  raw ← parseSignedMessageJSONRaw (trim input);
  canonical ← marshalSignedMessageJSON raw true;
  NewMessageRef (HashMessage canonical).
End Messages.

(** ** Extracting what was signed *)
Lemma base64_no_quote l : quote ∉ encode StdEncoding l.
Proof.
  assert (Forall (λ c, c ≠ quote) (encode StdEncoding l)) as H.
  { assert (∀ v, digit StdEncoding v ≠ quote) as Hd.
    { intros v E. pose proof (digit_elem StdEncoding v) as H. rewrite E in H. revert H.
      apply (bool_decide_unpack _). vm_compute. exact I. }
    assert (pad ≠ quote) as Hp by done.
    induction l as [|x|x y|x y z l IH] using list3_ind; cbn [encode]; repeat (constructor; [by try apply Hd|]); done || constructor. }
  rewrite list.Forall_forall in H. intros Hin. by apply (H quote).
Qed.
Lemma encode_64_length sig : length sig = 64%nat → length (encode StdEncoding sig) = 88%nat.
Proof.
  intros H. assert (∀ n l, length l = (3 * n + 1)%nat → length (encode StdEncoding l) = (4 * n + 4)%nat) as Hl.
  { induction n as [|n IH]; intros l Hl.
    - destruct l as [|x [|y l]]; try done; simpl in Hl; lia.
    - destruct l as [|x [|y [|z l]]]; cbn [length] in Hl; try lia. cbn [encode length]. rewrite IH by lia. lia. }
  by apply (Hl 21%nat).
Qed.

Lemma has_suffix_app l k : HasSuffix (l ++ k) k = true.
Proof. unfold HasSuffix. rewrite length_app. apply bool_decide_eq_true_2. symmetry. apply drop_app_exact. lia. Qed.
Lemma trim_suffix_app l k : TrimSuffix (l ++ k) k = l.
Proof. unfold TrimSuffix. rewrite length_app. apply take_app_exact. lia. Qed.

Lemma new_signature_encode sig : length sig = 64%nat →
  NewSignatureFromBase64 (to_l (EncodeToString StdEncoding sig) ++ to_l signatureSuffix) = Ok sig.
Proof.
  intros H. unfold NewSignatureFromBase64. rewrite has_suffix_app, trim_suffix_app. cbn [negb].
  pose proof (encode_64_length sig H) as Hl. rewrite of_to_l, (decode_string_encode StdEncoding sig).
  unfold EncodeToString. rewrite to_of_l, Hl. change (DecodedLen 88) with 66%nat.
  rewrite !bool_decide_eq_false_2 by (vm_compute; lia). by rewrite bool_decide_eq_true_2.
Qed.

(** The signature line of any text is the part [ExtractSignature] finds. *)
Lemma extract_signature_line before sig : length sig = 64%nat →
  ExtractSignature (before ++ signature_line sig ++ to_l nl ++ to_l "}") = Ok (before ++ to_l nl ++ to_l "}", sig).
Proof.
  intros H. set (sigtext := to_l (EncodeToString StdEncoding sig) ++ to_l signatureSuffix).
  set (tail := to_l nl ++ to_l "}").
  set (mid := to_l (nl +:+ "  " +:+ quoted "signature" +:+ ": ")).
  assert (quote ∉ tail) as Hq1 by (apply (bool_decide_unpack _); vm_compute; exact I).
  assert (","%char ∉ mid) as Hc by (apply (bool_decide_unpack _); vm_compute; exact I).
  assert (quote ∉ sigtext) as Hq2.
  { unfold sigtext. rewrite not_elem_of_app. split.
    - unfold EncodeToString. rewrite to_of_l. apply base64_no_quote.
    - apply (bool_decide_unpack _). vm_compute. exact I. }
  assert (before ++ signature_line sig ++ tail = (((before ++ [","%char]) ++ mid) ++ [quote] ++ sigtext) ++ quote :: tail) as E.
  { unfold signature_line, sigtext, mid. rewrite <-!app_assoc. f_equal. }
  rewrite E. unfold ExtractSignature. rewrite LastIndex_app by done. rewrite take_app_exact by done.
  change ([quote] ++ sigtext) with (quote :: sigtext). rewrite LastIndex_app by done.
  rewrite <-(app_assoc ((before ++ [","%char]) ++ mid)). rewrite take_app_exact by done.
  rewrite <-(app_assoc before). change ([","%char] ++ mid) with (","%char :: mid). rewrite LastIndex_app by done.
  assert (drop (length (before ++ ","%char :: mid) + 1) ((before ++ ","%char :: mid) ++ quote :: sigtext) = sigtext) as ->.
  { change (quote :: sigtext) with ([quote] ++ sigtext). rewrite app_assoc. apply drop_app_exact. rewrite !length_app. simpl. lia. }
  rewrite (new_signature_encode sig H : NewSignatureFromBase64 sigtext = Ok sig). cbn [mbind result_mbind result_bind]. do 2 f_equal. f_equal.
  - rewrite <-!app_assoc. by apply take_app_exact.
  - rewrite app_assoc. change (quote :: tail) with ([quote] ++ tail). rewrite app_assoc. apply drop_app_exact.
    rewrite !length_app. simpl. lia.
Qed.

(** ** The pretty printer terminates *)
Lemma trim_length b : (length (trim b) <= length b)%nat.
Proof.
  unfold trim, TrimSpace. rewrite to_of_l, to_of_l. destruct (trim_right_prefix (trim_left b)) as [k Hk].
  pose proof (trim_left_length b) as Hl. rewrite Hk, length_app in Hl. lia.
Qed.

Section Pretty.
Context {js : JSON} {jsl : JSONLaws js}.

Lemma field_elem k v obj : field k obj = Some v → (k, v) ∈ obj.
Proof.
  induction obj as [|[k' v'] obj IH]; [done|]. cbn. case_bool_decide; [intros [= <-]; subst; left|intros H'; right; auto].
Qed.

(** Two printers that agree, and succeed, on the values print the same fields. *)
Lemma format_fields_agree f1 f2 indent obj i keys :
  (∀ k v, (k, v) ∈ obj → f1 v = f2 v ∧ is_ok (f1 v) = true) →
  format_fields f1 indent obj i keys = format_fields f2 indent obj i keys ∧
  is_ok (format_fields f1 indent obj i keys) = true.
Proof.
  intros H. revert i. induction keys as [|k keys IH]; intros i; [done|]. cbn [format_fields].
  destruct (field k obj) as [v|] eqn:E; [|apply IH]. apply field_elem in E. destruct (H k v E) as [<- Hok].
  destruct (IH (S i)) as [<- Hok']. destruct (f1 v); [|done|done]. cbn. by destruct (format_fields f1 _ _ _ _).
Qed.
Lemma format_elems_agree f1 f2 indent i arr :
  (∀ v, v ∈ arr → f1 v = f2 v ∧ is_ok (f1 v) = true) →
  format_elems f1 indent i arr = format_elems f2 indent i arr ∧ is_ok (format_elems f1 indent i arr) = true.
Proof.
  revert i. induction arr as [|v arr IH]; intros i H; [done|]. cbn [format_elems].
  destruct (H v ltac:(left)) as [<- Hok]. destruct (IH (S i)) as [<- Hok']; [intros v' ?; apply H; by right|].
  destruct (f1 v); [|done|done]. cbn. by destruct (format_elems f1 _ _ _).
Qed.

Lemma format_agree n : ∀ data depth f1 f2, (length data < n)%nat → (n <= f1)%nat → (n <= f2)%nat →
  formatJSON f1 data depth = formatJSON f2 data depth ∧ is_ok (formatJSON f1 data depth) = true.
Proof.
  induction n as [|n IH]; intros data depth [|f1] [|f2] Hn H1 H2; try lia. cbn [formatJSON].
  pose proof (trim_length data) as Ht. destruct (trim data) as [|c rest] eqn:E; [done|]. rewrite <-E in Ht |- *.
  case_bool_decide.
  - destruct (object_fields (trim data)) as [obj|] eqn:Eo; [|done].
    destruct (format_fields_agree (λ v, formatJSON f1 v (S depth)) (λ v, formatJSON f2 v (S depth))
      (indent_of depth) obj 0 (keys_in_order (trim data) obj)) as [<- Hok].
    { intros k v Hv. apply (fields_shorter _ _ _ _ Eo) in Hv. apply IH; lia. }
    by destruct (format_fields _ _ _ _ _).
  - case_bool_decide; [|done]. destruct (array_elems (trim data)) as [arr|] eqn:Ea; [|done].
    destruct (format_elems_agree (λ v, formatJSON f1 v (S depth)) (λ v, formatJSON f2 v (S depth))
      (indent_of depth) 0 arr) as [<- Hok].
    { intros v Hv. apply (elems_shorter _ _ _ Ea) in Hv. apply IH; lia. }
    by destruct (format_elems _ _ _ _).
Qed.

(** Printing terminates on every input and never fails: each level of nesting
    consumes input, so [PrettyPrint]'s fuel is enough. *)
Theorem pretty_print_total (data : bytes) (fuel : nat) : (length data < fuel)%nat →
  formatJSON fuel data 0 = PrettyPrint data ∧ is_ok (PrettyPrint data) = true.
Proof.
  intros Hf. unfold PrettyPrint. destruct (format_agree (S (length data)) data 0 (S (length data)) fuel) as [E H];
    [lia|lia|lia|]. split; [by symmetry|exact H].
Qed.
End Pretty.

(** ** Signing and verifying *)
Section Signing.
Context {js : JSON} {ed : Ed25519} {edl : Ed25519Laws ed} {sh : Sha256} {shl : Sha256Laws sh}.

(** What a successful [Sign] returns. *)
Lemma sign_inv (kp : KeyPair) (m m' : Message) ref sig : Sign kp m = Ok (ref, sig, m') →
  m' = {| Previous := Previous m; Author := Author m; Sequence := Sequence m; Timestamp := Timestamp m;
          Hash := HashAlgorithm; content := content m |} ∧
  ∃ signed wire, marshalForSigning m' = Ok signed ∧ sig = ed_Sign kp signed ∧ marshalWithSignature m' sig = Ok wire ∧
    NewMessageRef (HashMessage wire) = Ok ref.
Proof.
  unfold Sign. set (m1 := {| Previous := Previous m; Author := _ |}). intros Hs.
  apply result_bind_ok in Hs as (signed & Hsigned & Hs). apply result_bind_ok in Hs as (w & Hw & Hs).
  apply result_bind_ok in Hs as (r & Hr & [= <- <- <-]). split; [done|]. by exists signed, w.
Qed.
Lemma own_signature_verifies kp m signed : Author m = {| f_algo := RefAlgoFeedSSB1; f_id := Public kp |} →
  marshalForSigning m = Ok signed → signature_Verify (ed_Sign kp signed) signed (Author m) = Ok tt ∧
    Verify {| message := m; Signature := ed_Sign kp signed |} = Ok tt.
Proof.
  intros Ha Hs. unfold signature_Verify, Verify, verifySignature. cbn [message Signature]. rewrite Hs, Ha.
  cbn [mbind result_mbind result_bind f_id]. rewrite verify_sign, bool_decide_eq_true_2 by apply sign_length.
  by rewrite bool_decide_eq_true_2 by apply public_length.
Qed.
Lemma extract_signed kp m signed wire : marshalForSigning m = Ok signed →
  marshalWithSignature m (ed_Sign kp signed) = Ok wire → ExtractSignature wire = Ok (signed, ed_Sign kp signed).
Proof.
  unfold marshalForSigning, marshalWithSignature. intros (c & Hc & Es)%result_bind_ok Hw. rewrite Hc in Hw.
  cbn [mbind result_mbind result_bind] in Hw.
  assert (message_header m ++ c ++ to_l nl ++ to_l "}" = signed) as Hse by congruence.
  pose proof (extract_signature_line (message_header m ++ c) _ (sign_length kp signed)) as E.
  rewrite <-!app_assoc, Hse in E. etrans; [|exact E]. f_equal. congruence.
Qed.

(** C39. What [Sign] signs is what the verifier extracts from the wire form: cutting
    the signature out of the signed text gives back the signed bytes and the
    signature, whatever the content, and the signature verifies under the author's
    key. *)
Theorem sign_extract_verify (kp : KeyPair) (m m' : Message) (ref : MessageRef) (sig wire : bytes) :
  Author m = {| f_algo := RefAlgoFeedSSB1; f_id := Public kp |} →
  Sign kp m = Ok (ref, sig, m') → marshalWithSignature m' sig = Ok wire →
  ∃ signed, marshalForSigning m' = Ok signed ∧ ExtractSignature wire = Ok (signed, sig) ∧
    signature_Verify sig signed (Author m') = Ok tt ∧ Verify {| message := m'; Signature := sig |} = Ok tt ∧
    NewMessageRef (HashMessage wire) = Ok ref.
Proof.
  intros Ha Hs Hw. destruct (sign_inv _ _ _ _ _ Hs) as (Em & signed & w & Hsigned & -> & Hw' & Href).
  assert (w = wire) as -> by congruence. assert (Author m' = Author m) as Ha' by (by rewrite Em). rewrite <-Ha' in Ha.
  destruct (own_signature_verifies kp m' signed Ha Hsigned). exists signed. split_and!; try done. by eapply extract_signed.
Qed.
End Signing.

(** On ASCII text the V8 encoding is the text itself; on the rest it forgets the
    high byte of each code unit, so different texts share their hash input. *)
Lemma v8_ascii data : Forall (λ c, ord c < 128) data → V8Binary data = data.
Proof.
  induction 1 as [|c data Hc _ IH]; [done|]. pose proof (ord_bound c). unfold V8Binary in *. cbn [runes].
  rewrite bool_decide_eq_true_2 by done. cbn [mbind list_bind]. rewrite IH. unfold v8_units.
  rewrite bool_decide_eq_true_2 by lia. cbn [app]. f_equal.
  change 255 with (Z.ones 8). rewrite Z.land_ones by lia. rewrite Z.mod_small by lia. apply chr_ord.
Qed.
Example v8_collision : V8Binary [chr 196; chr 128] = V8Binary [chr 0].
Proof. reflexivity. Qed.

(** ** What the printer does to content of other implementations *)
Section Defects.
Context {js : JSON}.
(** An empty object is printed over three lines, not as [{}]. *)
Lemma empty_object_printed : object_fields (to_l "{}") = Some [] → object_keys (to_l "{}") = [] →
  PrettyPrint (to_l "{}") = Ok (to_l ("{" +:+ nl +:+ nl +:+ "}")).
Proof.
  intros Ho Hk. unfold PrettyPrint. cbn [length formatJSON]. change (trim (to_l "{}")) with (to_l "{}"). cbn [to_l].
  rewrite bool_decide_eq_true_2 by done. cbn [to_l] in Ho, Hk. rewrite Ho. unfold keys_in_order. rewrite Hk. reflexivity.
Qed.
End Defects.
