(* ===== verification/Feedlog.v ===== *)
(** * Feed logs (internal/ssb/feedlog/feedlog.go, classic_raw.go)

    The SQLite tables of the feeds: one log per feed, the receive log every message
    is also written to, and the tangle memberships. A table is a map keyed by its
    unique columns; a statement that fails because the database is busy is retried
    by the code and not modelled. [value_json] is kept as the pair it encodes. *)
From S2P Require Import Prelude GoStr GoBytes Refs Crypto Formats Legacy.
#[local] Open Scope string_scope.
#[local] Open Scope list_scope.
#[local] Open Scope Z_scope.

Definition ErrNotFound : string := "sqlite: not found".

(** ** Messages *)
Record Metadata := { md_Author : string; md_Sequence : Z; md_Previous : string; md_Timestamp : Z; md_Sig : bytes;
  md_Hash : string; md_TangleName : string; md_Root : string; md_Parents : list string; md_FeedFormat : string;
  md_MessageFormat : string; md_RawValue : bytes; md_CanonicalRef : string; md_ValidationStatus : string }.
Definition zero_metadata : Metadata := {| md_Author := ""; md_Sequence := 0; md_Previous := ""; md_Timestamp := 0;
  md_Sig := []; md_Hash := ""; md_TangleName := ""; md_Root := ""; md_Parents := []; md_FeedFormat := "";
  md_MessageFormat := ""; md_RawValue := []; md_CanonicalRef := ""; md_ValidationStatus := "" |}.
(** The five columns of a row that are not in its JSON value. *)
Definition with_formats (feedFormat messageFormat : string) (rawValue : bytes) (canonicalRef status : string)
    (md : Metadata) : Metadata :=
  {| md_Author := md_Author md; md_Sequence := md_Sequence md; md_Previous := md_Previous md;
     md_Timestamp := md_Timestamp md; md_Sig := md_Sig md; md_Hash := md_Hash md; md_TangleName := md_TangleName md;
     md_Root := md_Root md; md_Parents := md_Parents md; md_FeedFormat := feedFormat;
     md_MessageFormat := messageFormat; md_RawValue := rawValue; md_CanonicalRef := canonicalRef;
     md_ValidationStatus := status |}.

Record StoredMessage := { sm_Key : string; Value : bytes; sm_Metadata : Metadata; Received : Z; FeedFormat : string;
  MessageFormat : string; RawValue : bytes; CanonicalRef : string; ValidationStatus : string }.

(** The first of the candidates that is not blank. *)
Definition first_set (l : list string) : string := default "" (head (filter (λ s, blank s = false) l)).

Definition normalizeMetadata (content : bytes) (metadata : option Metadata) (defaultRaw : bool) : Metadata :=
  let md := default zero_metadata metadata in
  let feedFormat := first_set [md_FeedFormat md; FeedFromString (md_Author md); FeedEd25519] in
  let messageFormat :=
    first_set [md_MessageFormat md; MessageFromString (md_Hash md); MessageFromFeed feedFormat; MessageSHA256] in
  let canonicalRef := if blank (md_CanonicalRef md) then TrimSpace (md_Hash md) else md_CanonicalRef md in
  let status := if blank (md_ValidationStatus md) then "validated" else md_ValidationStatus md in
  let rawValue := if defaultRaw && bool_decide (md_RawValue md = []) then content else md_RawValue md in
  with_formats feedFormat messageFormat rawValue canonicalRef status md.
Definition metadataForValueJSON (md : Metadata) : Metadata := with_formats "" "" [] "" "" md.
Definition applyStoredFormatFields (md : Metadata) (feedFormat messageFormat : string) (rawValue : bytes)
    (canonicalRef validationStatus : string) : Metadata :=
  let set column old := if blank column then old else TrimSpace column in
  let ref := set canonicalRef (md_CanonicalRef md) in
  let status := set validationStatus (md_ValidationStatus md) in
  with_formats (set feedFormat (md_FeedFormat md)) (set messageFormat (md_MessageFormat md))
    (if bool_decide (rawValue = []) then md_RawValue md else rawValue)
    (if blank ref then TrimSpace (md_Hash md) else ref) (if blank status then "validated" else status) md.

(** ** Tables *)
Record Row := { row_key : string; row_value : bytes * Metadata; created_at : Z; feed_format : string;
  message_format : string; raw_value : bytes; canonical_ref : string; validation_status : string }.
Record DB := {
  feeds : list (string * Z);                    (* addr and id, in the order of creation *)
  messages : gmap Z (gmap Z Row);               (* by feed id and seq *)
  messages_key_idx : gmap string (Z * Z);
  receive_log : gmap Z Row;                     (* by seq *)
  tangle_membership : gmap (string * string) (string * list string)  (* by message and tangle name *)
}.
Definition empty_db : DB :=
  {| feeds := []; messages := ∅; messages_key_idx := ∅; receive_log := ∅; tangle_membership := ∅ |}.
Definition rows_of (feedID : Z) (db : DB) : gmap Z Row := default ∅ (messages db !! feedID).
(** [SELECT MAX(seq)]; NULL on an empty table. *)
Definition max_seq (rows : gmap Z Row) : option Z :=
  map_fold (λ seq _ acc, Some (match acc with Some m => Z.max seq m | None => seq end)) None rows.

Fixpoint feed_id (addr : string) (l : list (string * Z)) : option Z :=
  match l with [] => None | (a, id) :: l => if bool_decide (addr = a) then Some id else feed_id addr l end.

(** ** multiLog *)
Definition List (db : DB) : list string := (feeds db).*1.
Definition Get (addr : string) (db : DB) : result Z :=
  match feed_id addr (feeds db) with Some id => Ok id | None => Err ErrNotFound end.
Definition Create (addr : string) : M DB Z := λ db,
  match feed_id addr (feeds db) with
  | Some id => (Ok id, db)
  | None =>
      let id := Z.of_nat (length (feeds db)) + 1 in
      (Ok id, {| feeds := feeds db ++ [(addr, id)]; messages := messages db; messages_key_idx := messages_key_idx db;
                 receive_log := receive_log db; tangle_membership := tangle_membership db |})
  end.
Definition Has (addr : string) (db : DB) : bool := bool_decide (is_Some (feed_id addr (feeds db))).

(** The log of a feed, created when it is missing: how messages are appended. *)
Definition open_log (addr : string) : M DB Z := λ db,
  match Get addr db with Ok id => (Ok id, db) | _ => Create addr db end.

Section Logs.
(** [row_hash] is the hexadecimal SHA-256 of the JSON of a wrapper, [now] the
    clock. *)
Context (row_hash : bytes * Metadata → string).

Definition new_row (value : bytes * Metadata) (now : Z) (md : Metadata) : Row :=
  {| row_key := row_hash value; row_value := value; created_at := now; feed_format := md_FeedFormat md;
     message_format := md_MessageFormat md; raw_value := md_RawValue md; canonical_ref := md_CanonicalRef md;
     validation_status := md_ValidationStatus md |}.
Definition next_seq (rows : gmap Z Row) : Z := match max_seq rows with Some m => m + 1 | None => 1 end.

(** ** logAdapter *)
Definition Seq (feedID : Z) (db : DB) : result Z := Ok (default (-1) (max_seq (rows_of feedID db))).

Definition Append (feedID : Z) (content : bytes) (metadata : option Metadata) (now : Z) : M DB Z := λ db,
  let md := normalizeMetadata content metadata false in
  let value := (content, metadataForValueJSON md) in
  let nextSeq := next_seq (rows_of feedID db) in
  let key := row_hash value in
  (Ok nextSeq,
   {| feeds := feeds db;
      messages := <[feedID := <[nextSeq := new_row value now md]> (rows_of feedID db)]> (messages db);
      messages_key_idx := <[key := (feedID, nextSeq)]> (messages_key_idx db);
      receive_log := receive_log db;
      tangle_membership :=
        if bool_decide (md_TangleName md = "") then tangle_membership db
        else <[(key, md_TangleName md) := (md_Root md, md_Parents md)]> (tangle_membership db) |}).

(** A row as a stored message; its key falls back from the canonical reference to
    the hash to the key of the row. *)
Definition stored_message (r : Row) (defaultRaw : bool) : StoredMessage :=
  let md := applyStoredFormatFields (normalizeMetadata (row_value r).1 (Some (row_value r).2) defaultRaw)
              (feed_format r) (message_format r) (raw_value r) (canonical_ref r) (validation_status r) in
  let or_else a b := if bool_decide (a = "") then b else a in
  let key := or_else (or_else (or_else (canonical_ref r) (md_CanonicalRef md)) (md_Hash md)) (row_key r) in
  {| sm_Key := key; Value := (row_value r).1; sm_Metadata := md; Received := created_at r;
     FeedFormat := md_FeedFormat md; MessageFormat := md_MessageFormat md; RawValue := md_RawValue md;
     CanonicalRef := key; ValidationStatus := md_ValidationStatus md |}.
Definition log_Get (feedID seq : Z) (db : DB) : result StoredMessage :=
  match rows_of feedID db !! seq with Some r => Ok (stored_message r false) | None => Err ErrNotFound end.

(** ** receiveLog *)
Definition receive_Seq (db : DB) : result Z := Ok (default (-1) (max_seq (receive_log db))).
(** The check of [receiveLog.Append]. *)
Definition receive_check (sigVerifier : option (bytes → Metadata → result unit)) (content : bytes) (md : Metadata) : result unit :=
  match sigVerifier with
  | Some Verify => if bool_decide (md_MessageFormat md = MessageSHA256) then Verify content md else Ok tt
  | None => Ok tt
  end.
Definition receive_Append (sigVerifier : option (bytes → Metadata → result unit)) (content : bytes)
    (metadata : option Metadata) (now : Z) : M DB Z := λ db,
  let md := normalizeMetadata content metadata true in
  match receive_check sigVerifier content md with
  | Err e => (Err ("signature verification failed: " +:+ e), db)
  | Panic => (Panic, db)
  | Ok _ =>
      let nextSeq := next_seq (receive_log db) in
      let value := (content, metadataForValueJSON md) in
      (Ok nextSeq,
       {| feeds := feeds db; messages := messages db; messages_key_idx := messages_key_idx db;
          receive_log := <[nextSeq := new_row value now md]> (receive_log db);
          tangle_membership := tangle_membership db |})
  end.
(** A message into its log and then into the receive log, as the adapter and the
    publisher do it. *)
Definition write_logs (sigVerifier : option (bytes → Metadata → result unit)) (append_failed receive_failed : string)
    (id : Z) (content raw : bytes) (md : Metadata) (now : Z) : M DB unit :=
  _ ← mwrap append_failed (Append id content (Some md) now);
  _ ← mwrap receive_failed (receive_Append sigVerifier raw (Some md) now);
  mret tt.
Definition receive_Get (seq : Z) (db : DB) : result StoredMessage :=
  match receive_log db !! seq with Some r => Ok (stored_message r true) | None => Err ErrNotFound end.
End Logs.

(** ** Verifying and rebuilding classic messages *)
Section Classic.
Context {js : JSON} {ed : Ed25519} {sh : Sha256}.

(** [DefaultSignatureVerifier.Verify] *)
Definition default_Verify (content : bytes) (md : Metadata) : result unit :=
  if bool_decide (md_Sig md = []) then Err "missing signature"
  else if negb (bool_decide (length (md_Sig md) = SignatureSize))
  then Err ("invalid signature length: " +:+ itoa (Z.of_nat (length (md_Sig md))) +:+ " (expected 64)")
  else
    p ← wrap "parse signed message: " (ParseSignedMessageJSON content);
    let msg := p.1 in
    e ← wrap "extract signature: " (ExtractSignature content);
    _ ← wrap "verify raw signed message: " (signature_Verify e.2 e.1 (Author (message msg)));
    msgRef ← wrap "derive message ref: " (SignedMessageRefFromJSON content);
    if negb (bool_decide (md_Author md = "")) && negb (bool_decide (md_Author md = feed_string (Author (message msg))))
    then Err ("author mismatch: metadata=" +:+ md_Author md +:+ " message=" +:+ feed_string (Author (message msg)))
    else if negb (bool_decide (md_Sequence md = 0)) && negb (bool_decide (md_Sequence md = Sequence (message msg)))
    then Err ("sequence mismatch: metadata=" +:+ itoa (md_Sequence md) +:+ " message=" +:+ itoa (Sequence (message msg)))
    else if negb (bool_decide (e.2 = Signature msg))
    then Err "signature mismatch between wire payload and parsed message"
    else if negb (bool_decide (md_Sig md = e.2)) then Err "signature mismatch"
    else if negb (bool_decide (md_Hash md = "")) && negb (bool_decide (md_Hash md = message_string msgRef))
    then Err ("message ref mismatch: metadata=" +:+ md_Hash md +:+ " message=" +:+ message_string msgRef)
    else Ok tt.

Definition resolveClassicAuthor (author : string) (fallback : option FeedRef) : result FeedRef :=
  if bool_decide (TrimSpace author = "") then
    match fallback with Some f => Ok f | None => Err "feedlog: classic message missing author" end
  else wrap "feedlog: parse author ref: " (ParseFeedRef (TrimSpace author)).

Definition ClassicSignedMessageRaw (msg : StoredMessage) (fallbackAuthor : option FeedRef) (fallbackSeq : Z) : result bytes :=
  let msgFormat := TrimSpace (MessageFormat msg) in
  if negb (bool_decide (msgFormat = "")) && negb (bool_decide (msgFormat = MessageSHA256))
  then Err ("feedlog: " +:+ Error (UnsupportedMessage msgFormat "classic_raw" "derive"))
  else if negb (bool_decide (RawValue msg = [])) then Ok (RawValue msg)
  else
    let md := sm_Metadata msg in
    if bool_decide (md_Sig md = []) then Err "feedlog: classic message missing signature"
    else
      author ← resolveClassicAuthor (md_Author md) fallbackAuthor;
      let seq := if bool_decide (md_Sequence md <= 0) then fallbackSeq else md_Sequence md in
      if bool_decide (seq <= 0) then Err "feedlog: classic message missing sequence"
      else
        previous ← (if bool_decide (TrimSpace (md_Previous md) = "") then Ok None
                    else r ← wrap "feedlog: parse previous ref: " (ParseMessageRef (TrimSpace (md_Previous md))); Ok (Some r));
        let c := match json_Unmarshal (Value msg) with Some c => c | None => content_of_string (Value msg) end in
        wrap "feedlog: marshal classic message: " (marshalWithSignature
          {| Previous := previous; Author := author; Sequence := seq; Timestamp := md_Timestamp md;
             Hash := HashAlgorithm; content := c |} (md_Sig md)).
End Classic.

(** ** The tables stay contiguous

    The rows of every log are numbered from one without gaps; feed ids are the
    positions of the feeds, and only feeds have rows. *)
Definition contiguous (n : nat) (rows : gmap Z Row) : Prop := ∀ s, is_Some (rows !! s) ↔ 1 <= s <= Z.of_nat n.
Record db_ok (db : DB) : Prop := {
  logs_contiguous id : ∃ n, contiguous n (rows_of id db);
  receive_contiguous : ∃ n, contiguous n (receive_log db);
  ids_in_order : (feeds db).*2 = (λ i, Z.of_nat i + 1) <$> seq 0 (length (feeds db));
  addrs_distinct : NoDup (feeds db).*1;
  rows_of_feeds id : rows_of id db ≠ ∅ → 1 <= id <= Z.of_nat (length (feeds db))
}.
Lemma empty_db_ok : db_ok empty_db.
Proof.
  split; try done.
  - intros id. exists 0%nat. intros s. unfold rows_of, empty_db. cbn [messages]. rewrite lookup_empty. cbn.
    rewrite lookup_empty. split; [by intros []|lia].
  - exists 0%nat. intros s. cbn [receive_log empty_db]. rewrite lookup_empty. split; [by intros []|lia].
  - apply NoDup_nil_2.
Qed.

Lemma max_seq_spec rows :
  match max_seq rows with
  | Some m => is_Some (rows !! m) ∧ ∀ s, is_Some (rows !! s) → s <= m
  | None => rows = ∅
  end.
Proof.
  unfold max_seq. apply (map_fold_weak_ind (λ acc rows, match acc with
    | Some m => is_Some (rows !! m) ∧ ∀ s, is_Some (rows !! s) → s <= m | None => rows = ∅ end)); [done|].
  intros i x rows' acc Hi. destruct acc as [m|].
  - intros [Hm Hall]. split.
    + destruct (Z.max_spec i m) as [[_ ->]|[_ ->]]; [|rewrite lookup_insert_eq; eauto].
      destruct (decide (i = m)) as [->|]; [rewrite lookup_insert_eq; eauto|by rewrite lookup_insert_ne].
    + intros s. destruct (decide (i = s)) as [->|]; [lia|]. rewrite lookup_insert_ne by done. intros ?%Hall. lia.
  - intros ->. split; [rewrite lookup_insert_eq; eauto|]. intros s. destruct (decide (i = s)) as [->|]; [lia|].
    rewrite lookup_insert_ne by done. rewrite lookup_empty. by intros [].
Qed.

Lemma max_seq_contiguous n rows : contiguous n rows →
  max_seq rows = if decide (n = 0%nat) then None else Some (Z.of_nat n).
Proof.
  intros H. pose proof (max_seq_spec rows) as Hm. destruct (max_seq rows) as [m|].
  - destruct Hm as [Hm Hall]. apply H in Hm. rewrite decide_False by lia.
    assert (is_Some (rows !! Z.of_nat n)) as Hn by (apply H; lia). apply Hall in Hn. f_equal. lia.
  - subst. destruct (decide (n = 0%nat)); [done|]. assert (is_Some ((∅ : gmap Z Row) !! 1)) as Hs by (apply H; lia).
    rewrite lookup_empty in Hs. by destruct Hs.
Qed.
Lemma contiguous_inj n m rows : contiguous n rows → contiguous m rows → n = m.
Proof.
  intros Hn%max_seq_contiguous Hm%max_seq_contiguous. rewrite Hn in Hm.
  destruct (decide (n = 0%nat)), (decide (m = 0%nat)); simplify_eq; lia.
Qed.
Lemma next_seq_contiguous n rows : contiguous n rows → next_seq rows = Z.of_nat n + 1.
Proof. intros H. unfold next_seq. rewrite (max_seq_contiguous n) by done. case_decide; [subst; done|done]. Qed.
Lemma contiguous_insert n rows r : contiguous n rows → contiguous (S n) (<[Z.of_nat n + 1 := r]> rows).
Proof.
  intros H s. destruct (decide (Z.of_nat n + 1 = s)) as [<-|Hne].
  - rewrite lookup_insert_eq. split; [lia|eauto].
  - rewrite lookup_insert_ne by done. rewrite (H s). lia.
Qed.
Lemma contiguous_zero rows : contiguous 0 rows ↔ rows = ∅.
Proof.
  split.
  - intros H. apply map_empty. intros s. destruct (rows !! s) eqn:E; [|done]. assert (1 <= s <= 0) by (apply H; eauto). lia.
  - intros -> s. rewrite lookup_empty. split; [by intros []|lia].
Qed.

Lemma feed_id_elem addr l id : feed_id addr l = Some id → (addr, id) ∈ l.
Proof. induction l as [|[a i] l IH]; [done|]. cbn. case_bool_decide; [intros [= ->]; subst; left|right; auto]. Qed.
Lemma feed_id_app addr l k :
  feed_id addr (l ++ k) = match feed_id addr l with Some id => Some id | None => feed_id addr k end.
Proof. induction l as [|[a i] l IH]; [done|]. cbn. by case_bool_decide. Qed.
Lemma feed_id_None addr l : feed_id addr l = None ↔ addr ∉ l.*1.
Proof.
  induction l as [|[a i] l IH]; cbn; [split; [intros _; apply not_elem_of_nil|done]|].
  rewrite not_elem_of_cons. case_bool_decide; [naive_solver|]. rewrite IH. naive_solver.
Qed.

(** The rows of a feed; none before its log exists. *)
Definition feed_rows (addr : string) (db : DB) : gmap Z Row :=
  match feed_id addr (feeds db) with Some id => rows_of id db | None => ∅ end.

Lemma feed_id_inj a b id db : db_ok db → feed_id a (feeds db) = Some id → feed_id b (feeds db) = Some id → a = b.
Proof.
  intros Hok Ha%feed_id_elem Hb%feed_id_elem. pose proof (ids_in_order _ Hok) as Hi.
  apply list_elem_of_lookup in Ha as [i Ei], Hb as [j Ej].
  assert ((feeds db).*2 !! i = Some id ∧ (feeds db).*2 !! j = Some id) as [Hi1 Hj1] by (by rewrite !list_lookup_fmap, Ei, Ej).
  rewrite Hi, !list_lookup_fmap in Hi1, Hj1. apply fmap_Some in Hi1 as (x & [-> _]%lookup_seq & ->).
  apply fmap_Some in Hj1 as (y & [-> _]%lookup_seq & Hij). assert (i = j) as -> by lia. congruence.
Qed.

Lemma open_log_spec addr db : db_ok db → ∃ id db1, open_log addr db = (Ok id, db1) ∧ db_ok db1 ∧
  feed_id addr (feeds db1) = Some id ∧ messages db1 = messages db ∧ receive_log db1 = receive_log db ∧
  (∀ a, a ≠ addr → feed_id a (feeds db1) = feed_id a (feeds db)) ∧
  (feed_id addr (feeds db) = None → rows_of id db1 = ∅) ∧
  (∀ id', feed_id addr (feeds db) = Some id' → id' = id ∧ db1 = db).
Proof.
  intros Hok. unfold open_log, Get, Create. destruct (feed_id addr (feeds db)) as [id|] eqn:E.
  - exists id, db. split_and!; try done. by intros id' [= ->].
  - set (id := Z.of_nat (length (feeds db)) + 1). eexists id, _. split; [done|]. destruct Hok as [Hl Hr Hi Hd Hf].
    split_and!; try done; cbn.
    + split; cbn; try done.
      * rewrite fmap_app, Hi, length_app, seq_app, fmap_app. done.
      * rewrite fmap_app. apply list.NoDup_app. split_and!; [done| |by apply NoDup_singleton].
        intros a Ha. cbn. rewrite list_elem_of_singleton. intros ->. by apply feed_id_None in E.
      * intros id' Hid. apply Hf in Hid. rewrite length_app. simpl. lia.
    + rewrite feed_id_app, E. cbn. by rewrite bool_decide_eq_true_2.
    + intros a Ha. rewrite feed_id_app. cbn. rewrite bool_decide_eq_false_2 by done. by destruct (feed_id a _).
    + intros _. destruct (decide (rows_of id db = ∅)) as [H|H]; [exact H|]. apply Hf in H. lia.
Qed.

Lemma opened addr db : db_ok db → ∃ id db1 n, open_log addr db = (Ok id, db1) ∧ db_ok db1 ∧
  feed_id addr (feeds db1) = Some id ∧ contiguous n (feed_rows addr db) ∧ rows_of id db1 = feed_rows addr db ∧
  feed_rows addr db1 = feed_rows addr db ∧ (∀ a, a ≠ addr → feed_rows a db1 = feed_rows a db) ∧
  receive_log db1 = receive_log db ∧ ∀ a i, feed_id a (feeds db) = Some i → feed_id a (feeds db1) = Some i.
Proof.
  intros Hok.
  destruct (open_log_spec addr db Hok) as (id & db1 & Eo & Hok1 & Hid & Hm & Hrl & Hother & Hfresh & Hold).
  assert (rows_of id db1 = feed_rows addr db) as Hrows.
  { unfold feed_rows. destruct (feed_id addr (feeds db)) as [id'|]; [|by apply Hfresh].
    by destruct (Hold id' eq_refl) as [-> ->]. }
  destruct (logs_contiguous _ Hok1 id) as [n Hn]. rewrite Hrows in Hn. exists id, db1, n. split_and!; try done.
  - unfold feed_rows at 1. by rewrite Hid.
  - intros a Ha. unfold feed_rows, rows_of. by rewrite Hother, Hm.
  - intros a i Hai. destruct (decide (a = addr)) as [->|]; [by destruct (Hold i Hai) as [-> ->]|by rewrite Hother].
Qed.

(** ** Appending to one log *)
Section Appending.
Context (row_hash : bytes * Metadata → string).

Lemma append_spec id n content md now db : db_ok db → contiguous n (rows_of id db) →
  1 <= id <= Z.of_nat (length (feeds db)) →
  ∃ db', Append row_hash id content md now db = (Ok (Z.of_nat n + 1), db') ∧ db_ok db' ∧ feeds db' = feeds db ∧
    receive_log db' = receive_log db ∧
    rows_of id db' = <[Z.of_nat n + 1 :=
      new_row row_hash (content, metadataForValueJSON (normalizeMetadata content md false)) now
        (normalizeMetadata content md false)]> (rows_of id db) ∧
    ∀ id', id' ≠ id → rows_of id' db' = rows_of id' db.
Proof.
  intros Hok Hn Hid. unfold Append. rewrite (next_seq_contiguous n) by done. eexists. split; [done|].
  destruct Hok as [Hl Hr Hi Hd Hf].
  split_and!; try done.
  - split; cbn; try done; intros id'; unfold rows_of; cbn; (destruct (decide (id = id')) as [<-|];
      [rewrite lookup_insert_eq; cbn|rewrite lookup_insert_ne by done]).
    + exists (S n). by apply contiguous_insert.
    + apply Hl.
    + done.
    + apply Hf.
  - unfold rows_of. cbn. by rewrite lookup_insert_eq.
  - intros id' Hne. unfold rows_of. cbn. by rewrite lookup_insert_ne.
Qed.

Lemma feed_id_bound addr db id : db_ok db → feed_id addr (feeds db) = Some id → 1 <= id <= Z.of_nat (length (feeds db)).
Proof.
  intros Hok H%feed_id_elem. pose proof (ids_in_order _ Hok) as Hi.
  assert (id ∈ (feeds db).*2) as Hin by (apply list_elem_of_fmap; by exists (addr, id)).
  rewrite Hi, list_elem_of_fmap in Hin. destruct Hin as (i & -> & Hi'%elem_of_seq). lia.
Qed.
Lemma receive_append_spec verifier content md now db : db_ok db →
  ∃ db', receive_Append row_hash verifier content (Some md) now db =
    (match receive_check verifier content (normalizeMetadata content (Some md) true) with
     | Ok _ => Ok (next_seq (receive_log db)) | Err e => Err ("signature verification failed: " +:+ e) | Panic => Panic end, db') ∧
    db_ok db' ∧ feeds db' = feeds db ∧ messages db' = messages db.
Proof.
  intros Hok. unfold receive_Append. destruct (receive_check _ _ _); [|by eexists db..].
  eexists. split; [done|]. destruct Hok as [Hl [n Hr] Hi Hd Hf]. split_and!; try done. split; cbn; try done.
  exists (S n). rewrite (next_seq_contiguous n) by done. by apply contiguous_insert.
Qed.

(** The row is in the log of the feed whatever the receive log says of the
    message; the check of the receive log decides the result. *)
Lemma write_logs_spec verifier e1 e2 addr id n content raw md now db :
  db_ok db → feed_id addr (feeds db) = Some id → contiguous n (rows_of id db) →
  let row_md := normalizeMetadata content (Some md) false in
  ∃ db', write_logs row_hash verifier e1 e2 id content raw md now db =
    (wrap (e2 +:+ "signature verification failed: ") (receive_check verifier raw (normalizeMetadata raw (Some md) true)), db') ∧
  db_ok db' ∧ feeds db' = feeds db ∧
  feed_rows addr db' =
    <[Z.of_nat n + 1 := new_row row_hash (content, metadataForValueJSON row_md) now row_md]> (rows_of id db) ∧
  ∀ a, a ≠ addr → feed_rows a db' = feed_rows a db.
Proof.
  intros Hok Hid Hn row_md.
  destruct (append_spec id n content (Some md) now db Hok Hn (feed_id_bound _ _ _ Hok Hid))
    as (db2 & Ea & Hok2 & Hf2 & Hr2 & Hrow2 & Hother2).
  destruct (receive_append_spec verifier raw md now db2 Hok2) as (db3 & Er & Hok3 & Hf3 & Hm3).
  exists db3. unfold write_logs, mwrap, mbind, M_mbind. rewrite Ea, Er. split_and!; try done.
  - destruct (receive_check _ _ _) as [[]|e|]; [done| |done]. cbn. by rewrite string_app_assoc.
  - congruence.
  - unfold feed_rows, rows_of. rewrite Hf3, Hf2, Hid, Hm3. exact Hrow2.
  - intros a Ha. unfold feed_rows. rewrite Hf3, Hf2. destruct (feed_id a (feeds db)) as [id'|] eqn:E; [|done].
    unfold rows_of at 1. rewrite Hm3. apply Hother2. intros ->. by apply Ha, (feed_id_inj _ _ id _ Hok).
Qed.
End Appending.
