(* ===== verification/FeedManager.v ===== *)
(** * The feed manager (internal/ssb/sbot/feed_manager_adapter.go, feed_replicator.go)

    What replication reads from and writes to the feed logs: messages of peers are
    appended to the log of their author and to the receive log. *)
From S2P Require Import Prelude GoStr GoBytes Refs Bfe Crypto Formats Legacy Feedlog.
From S2P Require Bencode Bendy.
#[local] Open Scope string_scope.
#[local] Open Scope list_scope.
#[local] Open Scope Z_scope.

Section Adapter.
Context {js : JSON} {ed : Ed25519} {sh : Sha256}.
(** [json_of] is [json.Marshal] of a decoded bencode value, [now] the clock of the
    database, [sigVerifier] the verifier of the receive log. *)
Context (row_hash : bytes * Metadata → string) (json_of : Bencode.Value → option bytes)
  (sigVerifier : option (bytes → Metadata → result unit)) (now : Z).

(** ** Reading *)
Definition GetFeedSeq (author : FeedRef) (db : DB) : result Z :=
  id ← wrap "feed manager: get log: " (Get (feed_string author) db);
  Seq id db.

Definition GetMessage (author : FeedRef) (seq : Z) (db : DB) : result bytes :=
  id ← wrap "feed manager: get log: " (Get (feed_string author) db);
  msg ← wrap "feed manager: get message: " (log_Get id seq db);
  if bool_decide (MessageFormat msg = "") || bool_decide (MessageFormat msg = MessageSHA256)
  then wrap "feed manager: get classic message: " (ClassicSignedMessageRaw msg (Some author) seq)
  else if bool_decide (MessageFormat msg = MessageBendyButtV1) then
    if bool_decide (RawValue msg = [])
    then Err ("feed manager: " +:+ Error (UnsupportedMessage MessageBendyButtV1 "ebt.replicate" "get_message_no_raw_value"))
    else Ok (RawValue msg)
  else Err ("feed manager: " +:+ Error (UnsupportedMessage (MessageFormat msg) "ebt.replicate" "get_message")).

(** ** Appending

    The part both formats share: open the log, check the sequence number, write
    the log and then the receive log. *)
Definition append_checked (author : FeedRef) (sequence : Z) (contentBytes raw : bytes) (metadata : Metadata)
    : M DB (FeedRef * Z) :=
  let addr := feed_string author in
  id ← open_log addr;
  db ← mget;
  currentSeq ← mwrap ("feed manager: read seq for " +:+ addr +:+ ": ") (mlift (Seq id db));
  if bool_decide (sequence <= currentSeq) then mret (author, currentSeq)
  else if bool_decide (0 <= currentSeq) && negb (bool_decide (sequence = currentSeq + 1))
  then mfail ("feed manager: sequence gap for " +:+ addr +:+ ": have=" +:+ itoa currentSeq +:+ " got=" +:+ itoa sequence)
  else
    _ ← write_logs row_hash sigVerifier ("feed manager: append feed log for " +:+ addr +:+ ": ")
          ("feed manager: append receive log for " +:+ addr +:+ ": ") id contentBytes raw metadata now;
    mret (author, sequence).

Definition classic_metadata (msg : SignedMessage) (msgRef : MessageRef) (raw : bytes) : Metadata :=
  {| md_Author := feed_string (Author (message msg)); md_Sequence := Sequence (message msg);
     md_Previous := match Previous (message msg) with Some p => TrimSpace (message_string p) | None => "" end;
     md_Timestamp := Timestamp (message msg); md_Sig := Signature msg; md_Hash := message_string msgRef;
     md_TangleName := ""; md_Root := ""; md_Parents := []; md_FeedFormat := FeedEd25519;
     md_MessageFormat := MessageSHA256; md_RawValue := raw; md_CanonicalRef := message_string msgRef;
     md_ValidationStatus := "validated" |}.

Definition bendy_previous (m : Bendy.Message) : string :=
  match DecodeMessage (Bendy.Previous m) with
  | Ok (prevAlgo, prevHash) =>
      match Refs.NewMessageRef prevHash prevAlgo with Ok ref => message_string ref | _ => "" end
  | _ => ""
  end.
Definition bendy_metadata (m : Bendy.Message) (author : FeedRef) (msgRef : MessageRef) (raw : bytes) : Metadata :=
  {| md_Author := feed_string author; md_Sequence := Bendy.Sequence m; md_Previous := bendy_previous m;
     md_Timestamp := Bendy.Timestamp m; md_Sig := []; md_Hash := message_string msgRef;
     md_TangleName := ""; md_Root := ""; md_Parents := []; md_FeedFormat := FeedBendyButtV1;
     md_MessageFormat := MessageBendyButtV1; md_RawValue := raw; md_CanonicalRef := message_string msgRef;
     md_ValidationStatus := "validated" |}.

(** What [appendBendyMessage] checks and derives before it touches the log. *)
Definition parse_bendy (raw : bytes) (classicErr : string) : result (Bendy.Message * FeedRef * MessageRef) :=
  msg ← wrap ("feed manager: parse replicated message: classic=" +:+ classicErr +:+ " bendy=") (Bendy.FromStoredMessage raw);
  _ ← wrap "feed manager: verify bendybutt message: " (Bendy.Verify msg);
  p ← wrap "feed manager: decode bendybutt author: " (DecodeFeed (Bendy.Author msg));
  if negb (bool_decide (p.1 = FeedBendyButtV1))
  then Err ("feed manager: " +:+ Error (UnsupportedFeed p.1 "ebt.replicate" "append"))
  else
    author ← wrap "feed manager: author ref: " (NewFeedRef p.2 RefAlgoFeedBendyButt);
    msgRef ← wrap "feed manager: derive bendybutt message ref: " (Bendy.ToRefsMessage msg);
    Ok (msg, author, msgRef).
Definition appendBendyMessage (raw : bytes) (classicErr : string) : M DB (FeedRef * Z) :=
  '(msg, author, msgRef) ← mlift (parse_bendy raw classicErr);
  let content := default Bencode.Nil (Bendy.ContentSection msg !! 0%nat) in
  append_checked author (Bendy.Sequence msg) (default raw (json_of content)) raw (bendy_metadata msg author msgRef raw).

Definition AppendReplicatedMessage (raw : bytes) : M DB (FeedRef * Z) :=
  match ParseSignedMessageJSON raw with
  | Err classicErr => appendBendyMessage raw classicErr
  | Panic => mlift Panic
  | Ok (msg, contentBytes) =>
      msgRef ← mlift (wrap "feed manager: derive message ref: " (SignedMessageRefFromJSON raw));
      append_checked (Author (message msg)) (Sequence (message msg)) contentBytes raw (classic_metadata msg msgRef raw)
  end.
Definition AppendSignedMessage : bytes → M DB (FeedRef * Z) := AppendReplicatedMessage.

(** ** FeedReplicator *)
Definition ListFeeds (db : DB) : list FeedRef :=
  omap (λ addr, match ParseFeedRef addr with Ok f => Some f | _ => None end) (Feedlog.List db).
End Adapter.

(** ** What an append does *)
Section Appended.
Context {js : JSON} {ed : Ed25519} {sh : Sha256}.
Context (row_hash : bytes * Metadata → string) (json_of : Bencode.Value → option bytes)
  (sigVerifier : option (bytes → Metadata → result unit)) (now : Z).
#[local] Notation Append_ := (append_checked row_hash sigVerifier now).
#[local] Notation Replicate_ := (AppendReplicatedMessage row_hash json_of sigVerifier now).

(** A message whose sequence number is taken changes nothing; one that leaves a
    gap is refused; the next one is in the log whatever the receive log says. *)
Lemma append_checked_spec author sequence content raw md db : db_ok db →
  ∃ n res db', contiguous n (feed_rows (feed_string author) db) ∧
  Append_ author sequence content raw md db = (res, db') ∧ db_ok db' ∧
  (∀ a, a ≠ feed_string author → feed_rows a db' = feed_rows a db) ∧
  (∀ a id, feed_id a (feeds db) = Some id → feed_id a (feeds db') = Some id) ∧
  let stored := feed_rows (feed_string author) db' in
  let current := if decide (n = 0%nat) then -1 else Z.of_nat n in
  let row_md := normalizeMetadata content (Some md) false in
  if decide (sequence <= current) then res = Ok (author, current) ∧ stored = feed_rows (feed_string author) db
  else if decide (n ≠ 0%nat ∧ sequence ≠ current + 1) then (∃ e, res = Err e) ∧ stored = feed_rows (feed_string author) db
  else
    stored = <[Z.of_nat n + 1 := new_row row_hash (content, metadataForValueJSON row_md) now row_md]>
               (feed_rows (feed_string author) db) ∧
    is_Some (feed_id (feed_string author) (feeds db')) ∧
    match receive_check sigVerifier raw (normalizeMetadata raw (Some md) true) with
    | Ok _ => res = Ok (author, sequence) | Err _ => ∃ e, res = Err e | Panic => res = Panic end.
Proof.
  intros Hok. set (addr := feed_string author).
  destruct (opened addr db Hok) as (id & db1 & n & Eo & Hok1 & Hid & Hn & Hrid & Hrows & Hother & _ & Hids). exists n.
  unfold append_checked. fold addr. unfold mbind, M_mbind. rewrite Eo. cbn [mget]. unfold mwrap at 1, mlift, Seq.
  rewrite Hrid, (max_seq_contiguous n) by done. set (current := if decide (n = 0%nat) then -1 else Z.of_nat n).
  assert (default (-1) (if decide (n = 0%nat) then None else Some (Z.of_nat n)) = current) as ->.
  { unfold current. by destruct (decide (n = 0%nat)). }
  unfold wrap. cbv beta iota.
  destruct (decide (sequence <= current)) as [Hle|Hgt].
  { rewrite bool_decide_eq_true_2 by done. eexists _, db1. by split_and!. }
  rewrite (bool_decide_eq_false_2 (sequence <= current)) by done.
  assert (bool_decide (0 <= current) && negb (bool_decide (sequence = current + 1)) =
    bool_decide (n ≠ 0%nat ∧ sequence ≠ current + 1)) as ->.
  { unfold current. destruct (decide (n = 0%nat)); repeat case_bool_decide; naive_solver lia. }
  destruct (decide (n ≠ 0%nat ∧ sequence ≠ current + 1)) as [Hgap|Hfits].
  { rewrite bool_decide_eq_true_2 by done. eexists _, db1. split_and!; try done. by eexists. }
  rewrite bool_decide_eq_false_2 by done. rewrite <-Hrid in Hn.
  edestruct (write_logs_spec row_hash sigVerifier) as (db' & Ew & Hok' & Hf & Hrow & Hoth); [exact Hok1|exact Hid|exact Hn|].
  rewrite Ew. clear Ew. destruct (receive_check _ _ _); (eexists _, db'; split_and!;
    [by rewrite <-Hrid|reflexivity|done|intros ? ?; by rewrite Hoth, Hother|intros ? ? ?; rewrite Hf; by apply Hids|by rewrite Hrow, Hrid|by rewrite Hf, Hid|
     by try eexists]).
Qed.
End Appended.

(** ** What is stored is served *)
Lemma first_set_cons s l : blank s = false → first_set (s :: l) = s.
Proof. intros H. unfold first_set. rewrite list.filter_cons_True by done. done. Qed.

(** The formats whose messages are kept and served as raw bytes. *)
Definition raw_format (fmt : string) : Prop := fmt = MessageSHA256 ∨ fmt = MessageBendyButtV1.
Lemma stored_raw row_hash content md now : raw_format (md_MessageFormat md) → md_RawValue md ≠ [] →
  let nm := normalizeMetadata content (Some md) false in
  let m := stored_message (new_row row_hash (content, metadataForValueJSON nm) now nm) false in
  MessageFormat m = md_MessageFormat md ∧ RawValue m = md_RawValue md.
Proof.
  intros Hf Hraw nm m.
  assert (md_MessageFormat nm = md_MessageFormat md) as En.
  { unfold nm, normalizeMetadata. cbn [with_formats md_MessageFormat default id]. apply first_set_cons. by destruct Hf as [->| ->]. }
  assert (RawValue m = md_RawValue md) as Er.
  { unfold m, stored_message, applyStoredFormatFields. cbn -[normalizeMetadata]. unfold nm, normalizeMetadata.
    cbn [with_formats md_RawValue andb default id]. by rewrite bool_decide_eq_false_2. }
  split; [|done]. unfold m, stored_message, applyStoredFormatFields. cbn [MessageFormat with_formats md_MessageFormat message_format new_row].
  rewrite En. by destruct Hf as [->| ->].
Qed.

Section Served.
Context {js : JSON} {ed : Ed25519} {sh : Sha256}.
Context (row_hash : bytes * Metadata → string) (json_of : Bencode.Value → option bytes) (now : Z).

Lemma served author n content md db : is_Some (feed_id (feed_string author) (feeds db)) → 
  raw_format (md_MessageFormat md) → md_RawValue md ≠ [] →
  (let nm := normalizeMetadata content (Some md) false in
   feed_rows (feed_string author) db !! n = Some (new_row row_hash (content, metadataForValueJSON nm) now nm)) →
  GetMessage author n db = Ok (md_RawValue md).
Proof.
  intros [id Hid] Hf Hraw Hrow. unfold feed_rows in Hrow. rewrite Hid in Hrow. unfold GetMessage, Get, log_Get.
  rewrite Hid. cbn [wrap mbind result_mbind result_bind]. rewrite Hrow. cbn [wrap mbind result_mbind result_bind].
  destruct (stored_raw row_hash content md now Hf Hraw) as [-> ->]. unfold ClassicSignedMessageRaw.
  destruct (stored_raw row_hash content md now Hf Hraw) as [-> ->]. rewrite !(bool_decide_eq_false_2 (md_RawValue md = [])) by done.
  by destruct Hf as [->| ->].
Qed.
Lemma get_feed_seq author n db : db_ok db → is_Some (feed_id (feed_string author) (feeds db)) →
  contiguous n (feed_rows (feed_string author) db) →
  GetFeedSeq author db = Ok (if decide (n = 0%nat) then -1 else Z.of_nat n).
Proof.
  intros Hok [id Hid] Hn. unfold feed_rows in Hn. unfold GetFeedSeq, Get, Seq. rewrite Hid in Hn |- *.
  cbn [wrap mbind result_mbind result_bind]. rewrite (max_seq_contiguous n) by done. by destruct (decide _).
Qed.

(** The classic and the BendyButt path end in the same checks. *)
Lemma append_cases verifier raw db res db' :
  AppendReplicatedMessage row_hash json_of verifier now raw db = (res, db') →
  (db' = db ∧ is_ok res = false) ∨
  ∃ author sequence content md, raw_format (md_MessageFormat md) ∧ md_RawValue md = raw ∧
    append_checked row_hash verifier now author sequence content raw md db = (res, db').
Proof.
  unfold AppendReplicatedMessage. destruct (ParseSignedMessageJSON raw) as [[msg c]|e|].
  - unfold mbind, M_mbind, mlift. destruct (wrap _ (SignedMessageRefFromJSON raw)) as [ref|e|].
    + intros H. right. eexists _, _, _, _. split_and!; [| |exact H]; [by left|done].
    + intros [= <- <-]. by left.
    + intros [= <- <-]. by left.
  - unfold appendBendyMessage, mbind, M_mbind, mlift. destruct (parse_bendy raw e) as [[[msg author] ref]|e'|].
    + intros H. right. eexists _, _, _, _. split_and!; [| |exact H]; [by right|done].
    + intros [= <- <-]. by left.
    + intros [= <- <-]. by left.
  - intros [= <- <-]. by left.
Qed.

(** Replication keeps the tables well formed: whatever bytes a peer sends, and
    whether the message is accepted or not, every log and the receive log stay
    numbered from one without gaps and every feed keeps its own rows. *)
Theorem replication_keeps_tables verifier raws db : db_ok db →
  db_ok (foldl (λ db raw, (AppendReplicatedMessage row_hash json_of verifier now raw db).2) db raws).
Proof.
  revert db. induction raws as [|raw raws IH]; intros db Hok; [done|]. cbn. apply IH.
  destruct (AppendReplicatedMessage _ _ _ _ raw db) as [res db'] eqn:E. cbn.
  destruct (append_cases _ _ _ _ _ E) as [[-> _]|(author & sequence & content & md & _ & _ & E')]; [done|].
  destruct (append_checked_spec row_hash verifier now author sequence content raw md db Hok) as (n & res' & db2 & _ & E2 & H & _).
  congruence.
Qed.

(** A message that replication accepts is either already there, and nothing
    changes, or it is the next row of its author's log, served from there byte for
    byte, and no other feed changes. The row number is the sequence number of the
    message, except for the first message of a log, which may claim any. *)
Theorem accepted_message_served verifier raw db author sequence db' : db_ok db → raw ≠ [] →
  AppendReplicatedMessage row_hash json_of verifier now raw db = (Ok (author, sequence), db') →
  let addr := feed_string author in
  (∀ a, a ≠ addr → feed_rows a db' = feed_rows a db) ∧
  ∃ n, contiguous n (feed_rows addr db) ∧
    (feed_rows addr db' = feed_rows addr db ∧ sequence = (if decide (n = 0%nat) then -1 else Z.of_nat n) ∨
     GetMessage author (Z.of_nat n + 1) db' = Ok raw ∧ GetFeedSeq author db' = Ok (Z.of_nat n + 1) ∧
     (n = 0%nat ∨ sequence = Z.of_nat n + 1)).
Proof.
  intros Hok Hraw E addr.
  destruct (append_cases _ _ _ _ _ E) as [[_ ?]|(author' & sequence' & content & md & Hf & Hmr & E')]; [done|].
  destruct (append_checked_spec row_hash verifier now author' sequence' content raw md db Hok)
    as (n & res & db2 & Hn & E2 & Hok2 & Hoth & _ & H). rewrite E' in E2. injection E2 as <- <-.
  set (current := if decide (n = 0%nat) then -1 else Z.of_nat n) in *. cbv zeta in H.
  destruct (decide (sequence' <= current)); [|destruct (decide (n ≠ 0%nat ∧ sequence' ≠ current + 1)) as [|Hfits]].
  - destruct H as [[= -> ->] Hst]. split; [done|]. exists n. split; [done|]. by left.
  - by destruct H as [[e ?] _].
  - destruct H as (Hst & Hid & Hres). destruct (receive_check _ _ _); [|by destruct Hres|done].
    injection Hres as -> ->. split; [done|]. exists n. split; [done|]. right. split_and!.
    + rewrite <-Hmr. eapply served; [done|done|by rewrite Hmr|]. cbv zeta. rewrite Hst. apply lookup_insert_eq.
    + rewrite (get_feed_seq author' (S n)); [rewrite decide_False by lia; f_equal; lia|done|done|].
      rewrite Hst. by apply contiguous_insert.
    + unfold current in *. destruct (decide (n = 0%nat)); [by left|right]. destruct (decide (sequence' = Z.of_nat n + 1)); [done|naive_solver].
Qed.
End Served.

(** ** Forged messages *)
Section Forged.
Context {js : JSON} {ed : Ed25519} {sh : Sha256}.
Context (row_hash : bytes * Metadata → string) (json_of : Bencode.Value → option bytes) (now : Z).
#[local] Notation Replicate_ := (AppendReplicatedMessage row_hash json_of (Some default_Verify) now).

Lemma parse_signature_length s sig : ParseSignatureString s = Ok sig → length sig = SignatureSize.
Proof.
  unfold ParseSignatureString, NewSignatureFromBase64. intros H. by repeat (case_match; simplify_eq/=; repeat case_bool_decide; simplify_eq/=).
Qed.
Lemma default_verify_forged raw md msg c signed sig :
  ParseSignedMessageJSON raw = Ok (msg, c) → md_Sig md = Signature msg → ExtractSignature raw = Ok (signed, sig) →
  ed_Verify (f_id (Author (message msg))) signed sig = false → ∃ e, default_Verify raw md = Err e.
Proof.
  intros Hp Hsig He Hv. unfold default_Verify. rewrite Hsig. repeat (case_match; [by eexists|]).
  rewrite Hp, He. cbn. unfold signature_Verify. rewrite Hv. destruct (signing_algo _); by eexists.
Qed.

Lemma replicate_classic raw msg c ref d : ParseSignedMessageJSON raw = Ok (msg, c) → SignedMessageRefFromJSON raw = Ok ref →
  Replicate_ raw d = append_checked row_hash (Some default_Verify) now (Author (message msg)) (Sequence (message msg)) c raw
    (classic_metadata msg ref raw) d.
Proof. intros Hp Hr. unfold AppendReplicatedMessage. rewrite Hp. unfold mbind, M_mbind, mlift. by rewrite Hr. Qed.

(** The row of a forged message is in the log although the call fails. *)
Lemma forged_stored (raw : bytes) msg c ref signed sig db n :
  db_ok db → contiguous n (feed_rows (feed_string (Author (message msg))) db) →
  ParseSignedMessageJSON raw = Ok (msg, c) → SignedMessageRefFromJSON raw = Ok ref → Sequence (message msg) = Z.of_nat n + 1 →
  ExtractSignature raw = Ok (signed, sig) → ed_Verify (f_id (Author (message msg))) signed sig = false →
  let nm := normalizeMetadata c (Some (classic_metadata msg ref raw)) false in
  ∃ e db', Replicate_ raw db = (Err e, db') ∧ db_ok db' ∧ is_Some (feed_id (feed_string (Author (message msg))) (feeds db')) ∧
    (∀ a id, feed_id a (feeds db) = Some id → feed_id a (feeds db') = Some id) ∧
    feed_rows (feed_string (Author (message msg))) db' =
      <[Z.of_nat n + 1 := new_row row_hash (c, metadataForValueJSON nm) now nm]> (feed_rows (feed_string (Author (message msg))) db).
Proof.
  intros Hok Hn Hp Href Hseq Hex Hv nm. set (author := Author (message msg)) in *. set (md := classic_metadata msg ref raw).
  destruct (append_checked_spec row_hash (Some default_Verify) now author (Sequence (message msg)) c raw md db Hok)
    as (n' & res & db' & Hn' & E & Hok' & _ & Hids & H).
  assert (n' = n) as -> by exact (contiguous_inj _ _ _ Hn' Hn).
  cbv zeta in H. rewrite decide_False in H by (rewrite Hseq; destruct (decide (n = 0%nat)); lia).
  rewrite decide_False in H by (intros [? Hne]; apply Hne; by rewrite decide_False).
  destruct H as (Hst & Hid & Hres).
  assert (∃ e, res = Err e) as [e ->].
  { unfold receive_check in Hres. change (md_MessageFormat (normalizeMetadata raw (Some md) true)) with MessageSHA256 in Hres.
    rewrite bool_decide_eq_true_2 in Hres by done.
    destruct (default_verify_forged raw (normalizeMetadata raw (Some md) true) msg c signed sig) as [e He]; [done..|].
    by rewrite He in Hres. }
  exists e, db'. split_and!; try done. by rewrite (replicate_classic _ _ _ _ _ Hp Href).
Qed.

(** A forged message sticks. The signature is checked after the message is in
    the log of its claimed author, and nothing takes it out again: the call fails,
    yet the message is served to peers under that sequence number, and the genuine
    message of the same number is from then on dropped as already known. *)
Theorem forged_message_sticks (raw : bytes) msg c ref signed sig db n :
  db_ok db → contiguous n (feed_rows (feed_string (Author (message msg))) db) →
  ParseSignedMessageJSON raw = Ok (msg, c) → SignedMessageRefFromJSON raw = Ok ref →
  Sequence (message msg) = Z.of_nat n + 1 →
  ExtractSignature raw = Ok (signed, sig) → ed_Verify (f_id (Author (message msg))) signed sig = false →
  let author := Author (message msg) in
  ∃ e db', Replicate_ raw db = (Err e, db') ∧ GetMessage author (Z.of_nat n + 1) db' = Ok raw ∧
    GetFeedSeq author db' = Ok (Z.of_nat n + 1) ∧
    ∀ raw' msg' c' ref', ParseSignedMessageJSON raw' = Ok (msg', c') → SignedMessageRefFromJSON raw' = Ok ref' →
      Author (message msg') = author → Sequence (message msg') = Z.of_nat n + 1 →
      ∃ db'', Replicate_ raw' db' = (Ok (author, Z.of_nat n + 1), db'') ∧
        feed_rows (feed_string author) db'' = feed_rows (feed_string author) db'.
Proof.
  intros Hok Hn Hp Href Hseq Hex Hv author.
  destruct (forged_stored raw msg c ref signed sig db n) as (e & db' & E & Hok' & Hid & _ & Hst); [done..|].
  cbv zeta in Hst. fold author in Hst, Hid, Hn.
  assert (raw ≠ []) as Hraw by (by intros ->).
  assert (contiguous (S n) (feed_rows (feed_string author) db')) as HSn by (rewrite Hst; by apply contiguous_insert).
  exists e, db'. split_and!; [done| | |].
  - change (Ok raw) with (Ok (md_RawValue (classic_metadata msg ref raw))). eapply served; [done|by left|done|].
    cbv zeta. rewrite Hst. apply lookup_insert_eq.
  - rewrite (get_feed_seq author (S n)); [rewrite decide_False by lia; f_equal; lia|done..].
  - intros raw' msg' c' ref' Hp' Href' Ha' Hs'. rewrite (replicate_classic _ _ _ _ _ Hp' Href'). rewrite Ha'.
    destruct (append_checked_spec row_hash (Some default_Verify) now author (Sequence (message msg')) c' raw'
      (classic_metadata msg' ref' raw') db' Hok') as (m & res' & db'' & Hm & E' & _ & _ & _ & H).
    assert (m = S n) as -> by exact (contiguous_inj _ _ _ Hm HSn).
    cbv zeta in H. rewrite decide_True in H by (rewrite Hs'; destruct (decide (S n = 0%nat)); lia). destruct H as [-> Hst'].
    exists db''. split; [|done]. rewrite E', decide_False by done. do 3 f_equal. lia.
Qed.
End Forged.
