(* ===== verification/Publisher.v ===== *)
(** * The publisher of a feed (internal/ssb/publisher/publisher.go)

    How the node signs messages of its own and appends them to its log: each
    message names the one before it, so that the log is a hash chain. *)
From S2P Require Import Prelude GoStr GoBytes Refs Crypto Formats Legacy Feedlog FeedManager.
From S2P Require Bencode.
#[local] Open Scope string_scope.
#[local] Open Scope list_scope.
#[local] Open Scope Z_scope.

(** [KeyPair.FeedRef] of internal/ssb/keys *)
Definition feed_of {ed : Ed25519} (kp : KeyPair) : FeedRef := {| f_algo := RefAlgoFeedSSB1; f_id := Public kp |}.

Section Publishing.
Context {js : JSON} {ed : Ed25519} {sh : Sha256}.
Context (row_hash : bytes * Metadata → string) (sigVerifier : option (bytes → Metadata → result unit)).

(** [log] is the id of the log in the tables, [afterPublish] a callback that
    changes a state of type [V]. *)
Record Publisher := { feed : FeedRef; keyPair : KeyPair; log : Z; receiveLog : bool }.

(** The statements of one publish that fail: opening the log, the first read of its
    sequence number, the read of its last row, the two appends, and the read of the
    sequence number for the peers. *)
Record Faults := { open_fails : option string; seq_fails : option string; get_fails : option string;
  append_fails : option string; receive_fails : option string; reread_fails : option string }.
Definition no_faults : Faults := {| open_fails := None; seq_fails := None; get_fails := None; append_fails := None;
  receive_fails := None; reread_fails := None |}.
Definition failing {A} (e : option string) (r : result A) : result A := match e with Some e => Err e | None => r end.
Definition failing_m {W A} (e : option string) (m : M W A) : M W A := λ w, match e with Some e => (Err e, w) | None => m w end.

Definition New (f : Faults) (kp : KeyPair) (receiveLog : bool) : M DB Publisher :=
  log ← mwrap "publisher: failed to get/create log: " (failing_m (open_fails f) (open_log (feed_string (feed_of kp))));
  mret {| feed := feed_of kp; keyPair := kp; log := log; receiveLog := receiveLog |}.

(** The reference of the last message and the next sequence number. When the last row
    cannot be read the error is dropped, and the next message is number one again. *)
Definition next_message (f : Faults) (p : Publisher) (db : DB) : result (option MessageRef * Z) :=
  seq ← wrap "publisher: failed to get seq: " (failing (seq_fails f) (Seq (log p) db));
  if bool_decide (0 <= seq) then
    match failing (get_fails f) (log_Get (log p) seq db) with
    | Ok msg => Ok (match ParseMessageRef (sm_Key msg) with Ok prevRef => Some prevRef | _ => None end, seq + 1)
    | _ => Ok (None, 1)
    end
  else Ok (None, 1).

Definition unsigned (p : Publisher) (previous : option MessageRef) (seq timestamp : Z) (c : bytes) : Message :=
  {| Previous := previous; Author := feed p; Sequence := seq; Timestamp := timestamp; Hash := "sha256";
     content := match json_Unmarshal c with Some contentObj => contentObj | None => content_of_string c end |}.
Definition published_metadata (m : Message) (msgRef : MessageRef) (sig raw : bytes) : Metadata :=
  {| md_Author := feed_string (Author m); md_Sequence := Sequence m;
     md_Previous := match Previous m with Some r => message_string r | None => "" end;
     md_Timestamp := Timestamp m; md_Sig := sig; md_Hash := message_string msgRef;
     md_TangleName := ""; md_Root := ""; md_Parents := []; md_FeedFormat := FeedEd25519;
     md_MessageFormat := MessageSHA256; md_RawValue := raw; md_CanonicalRef := message_string msgRef;
     md_ValidationStatus := "validated" |}.

(** What [Publish] signs before it writes: the message, its signature, its
    reference and its wire form. *)
Definition sign_next (f : Faults) (p : Publisher) (c : bytes) (timestamp : Z) (db : DB) : result (Message * bytes * MessageRef * bytes) :=
  '(previous, nextSeq) ← next_message f p db;
  '(msgRef, sig, msg) ← wrap "publisher: failed to sign: " (Sign (keyPair p) (unsigned p previous nextSeq timestamp c));
  raw ← wrap "publisher: failed to marshal signed message: " (marshalWithSignature msg sig);
  Ok (msg, sig, msgRef, raw).

Context {V : Type} (afterPublish : option (FeedRef → Z → V → result V)).
Definition notify_published (p : Publisher) (seq : Z) : M V unit := λ v,
  match afterPublish with
  | Some f => match f (feed p) seq v with Ok v => (Ok tt, v) | Err e => (Err e, v) | Panic => (Panic, v) end
  | None => (Ok tt, v)
  end.

(** The writes of [Publish], after it read the log and signed. *)
Definition store_signed (f : Faults) (p : Publisher) (c : bytes) (signed : Message * bytes * MessageRef * bytes) (now : Z) : M (DB * V) MessageRef :=
  let '(msg, sig, msgRef, raw) := signed in
  let metadata := published_metadata msg msgRef sig raw in
  _ ← on_fst (mwrap "publisher: failed to append: " (failing_m (append_fails f) (Append row_hash (log p) c (Some metadata) now)));
  _ ← (if receiveLog p
       then on_fst (mwrap "publisher: failed to append receive log: "
         (failing_m (receive_fails f) (receive_Append row_hash sigVerifier raw (Some metadata) now)))
       else mret 0);
  _ ← on_snd (notify_published p (Sequence msg));
  mret msgRef.
(** [timestamp] is the clock of the message, [now] that of the tables. *)
Definition Publish (f : Faults) (p : Publisher) (c : bytes) (timestamp now : Z) : M (DB * V) MessageRef :=
  signed ← on_fst (λ db, (sign_next f p c timestamp db, db));
  store_signed f p c signed now.
Definition PublishJSON (f : Faults) (p : Publisher) (content : option bytes) (timestamp now : Z) : M (DB * V) MessageRef :=
  match content with
  | Some data => Publish f p data timestamp now
  | None => mfail "json: unsupported value"
  end.
Definition publisher_Seq (f : Faults) (p : Publisher) (db : DB) : result Z := failing (reread_fails f) (Seq (log p) db).
End Publishing.

(** ** The chain of a log *)
Section Chain.
Context {js : JSON} {ed : Ed25519} {edl : Ed25519Laws ed} {sh : Sha256}.

(** A row that holds the signed message number [i] of [author] in its wire form,
    after the message [prev]; [ref] is its own reference. *)
Definition published (author : FeedRef) (i : Z) (prev : option MessageRef) (r : Row) (ref : MessageRef) : Prop :=
  ∃ m sig, Author m = author ∧ Sequence m = i ∧ Previous m = prev ∧ Verify {| message := m; Signature := sig |} = Ok tt ∧
    marshalWithSignature m sig = Ok (raw_value r) ∧ NewMessageRef (HashMessage (raw_value r)) = Ok ref ∧
    message_format r = MessageSHA256 ∧ canonical_ref r = message_string ref.

(** The rows are the messages [1] to [n] of [author], each naming the one before
    it; the last has the reference [last]. *)
Inductive chain (author : FeedRef) : nat → option MessageRef → gmap Z Row → Prop :=
| chain_empty : chain author 0 None ∅
| chain_next n last rows r ref :
    chain author n last rows → published author (Z.of_nat n + 1) last r ref →
    chain author (S n) (Some ref) (<[Z.of_nat n + 1 := r]> rows).

Lemma chain_contiguous author n last rows : chain author n last rows → contiguous n rows.
Proof. induction 1; [by apply contiguous_zero|by apply contiguous_insert]. Qed.
Lemma chain_last author n ref rows : chain author n (Some ref) rows →
  ∃ prev r, rows !! Z.of_nat n = Some r ∧ published author (Z.of_nat n) prev r ref.
Proof.
  inversion 1; subst. eexists _, _. replace (Z.of_nat (S n0)) with (Z.of_nat n0 + 1) by lia.
  split; [apply lookup_insert_eq|eassumption].
Qed.
Lemma chain_none author n rows : chain author n None rows → n = 0%nat ∧ rows = ∅.
Proof. by inversion 1. Qed.
Lemma chain_row author n last rows i : chain author n last rows → 1 <= i <= Z.of_nat n →
  ∃ r prev ref, rows !! i = Some r ∧ published author i prev r ref.
Proof.
  induction 1 as [|n last rows r ref Hc IH Hp]; intros Hi; [lia|]. destruct (decide (i = Z.of_nat n + 1)) as [->|Hne].
  - exists r, last, ref. split; [apply lookup_insert_eq|done].
  - destruct IH as (r' & prev & ref' & Hr & Hp'); [lia|]. exists r', prev, ref'. by rewrite lookup_insert_ne by done.
Qed.

(** ** References of rows *)
Lemma new_message_ref_parses hash ref : NewMessageRef hash = Ok ref → ParseMessageRef (message_string ref) = Ok ref.
Proof.
  unfold NewMessageRef, Refs.NewMessageRef. case_match; [done|]. intros [= <-]. apply message_ref_roundtrip; [|left].
  cbn [m_hash]. match goal with H : bool_decide _ = _ |- _ => apply bool_decide_eq_false in H end. by apply dec_stable.
Qed.
Lemma message_string_nonempty ref : message_string ref ≠ "".
Proof. unfold message_string. by destruct ref. Qed.
Lemma stored_key r raw : canonical_ref r ≠ "" → sm_Key (stored_message r raw) = canonical_ref r.
Proof. intros H. unfold stored_message. cbn [sm_Key]. by rewrite !(bool_decide_eq_false_2 _ H). Qed.

Lemma canonical_kept content md ref hash : NewMessageRef hash = Ok ref →
  md_CanonicalRef md = message_string ref → md_Hash md = message_string ref →
  md_CanonicalRef (normalizeMetadata content (Some md) false) = message_string ref.
Proof.
  intros Hr Hc Hh. assert (m_algo ref = RefAlgoMessageSSB1) as Ha.
  { revert Hr. unfold NewMessageRef, Refs.NewMessageRef. case_match; [done|]. by intros [= <-]. }
  unfold normalizeMetadata. cbn [md_CanonicalRef with_formats default id]. rewrite Hc, Hh.
  unfold blank, message_string. rewrite Ha, trim_print by done. by case_bool_decide.
Qed.

Lemma published_key author i prev r ref : published author i prev r ref →
  ParseMessageRef (sm_Key (stored_message r false)) = Ok ref.
Proof.
  intros (m & sig & _ & _ & _ & _ & _ & Href & _ & Hc). rewrite stored_key, Hc by (rewrite Hc; apply message_string_nonempty).
  by eapply new_message_ref_parses.
Qed.

(** The publisher continues the chain of its log, when it can read the last row. *)
Lemma next_message_chain f (p : Publisher) n last db : get_fails f = None → chain (feed p) n last (rows_of (log p) db) →
  next_message f p db = failing ((λ e, "publisher: failed to get seq: " +:+ e) <$> seq_fails f) (Ok (last, Z.of_nat n + 1)).
Proof.
  intros Hget Hc. unfold next_message, Seq. rewrite Hget. destruct (seq_fails f) as [e|]; [done|]. cbn [failing fmap option_fmap option_map]. rewrite (max_seq_contiguous n) by (by eapply chain_contiguous).
  cbn [wrap mbind result_mbind result_bind]. destruct last as [ref|].
  - destruct (chain_last _ _ _ _ Hc) as (prev & r & Hr & Hp). pose proof (chain_contiguous _ _ _ _ Hc (Z.of_nat n)) as Hn.
    rewrite Hr in Hn. destruct Hn as [Hn _]. specialize (Hn ltac:(eauto)). rewrite (decide_False (P := n = 0%nat)) by lia. cbn [default id].
    rewrite bool_decide_eq_true_2 by lia. unfold log_Get. by rewrite Hr, (published_key _ _ _ _ _ Hp).
  - apply chain_none in Hc as [-> _]. done.
Qed.
End Chain.

(** ** Publishing extends the chain *)
Section Extends.
Context {js : JSON} {ed : Ed25519} {edl : Ed25519Laws ed} {sh : Sha256}.
Context (row_hash : bytes * Metadata → string) (sigVerifier : option (bytes → Metadata → result unit)).

(** A publisher of this database. *)
Definition publisher_ok (p : Publisher) (db : DB) : Prop :=
  feed p = feed_of (keyPair p) ∧ feed_id (feed_string (feed p)) (feeds db) = Some (log p).

Lemma new_publisher f kp receiveLog db : open_fails f = None → db_ok db → ∃ p db', New f kp receiveLog db = (Ok p, db') ∧ db_ok db' ∧
  keyPair p = kp ∧ publisher_ok p db' ∧ (∀ a, feed_rows a db' = feed_rows a db) ∧
  ∀ q, publisher_ok q db → publisher_ok q db'.
Proof.
  intros Hf Hok. unfold New, failing_m. rewrite Hf. set (addr := feed_string (feed_of kp)).
  destruct (opened addr db Hok) as (id & db1 & n & Eo & Hok1 & Hid & _ & _ & Hrows & Hother & _).
  destruct (open_log_spec addr db Hok) as (id' & db1' & Eo' & _ & _ & _ & _ & Hids & _ & Hold).
  rewrite Eo in Eo'. injection Eo' as <- <-.
  eexists _, db1. unfold mbind, M_mbind, mwrap. rewrite Eo. split; [done|]. split_and!; try done.
  - intros a. destruct (decide (a = addr)) as [->|]; [done|by apply Hother].
  - intros q [Hq Hqid]. split; [done|]. destruct (decide (feed_string (feed q) = addr)) as [E|E].
    + rewrite E in Hqid |- *. destruct (Hold _ Hqid) as [<- <-]. done.
    + by rewrite Hids.
Qed.

Lemma signed_published (p : Publisher) c timestamp now prev i msg ref sig raw :
  feed p = feed_of (keyPair p) → Sign (keyPair p) (unsigned p prev i timestamp c) = Ok (ref, sig, msg) →
  marshalWithSignature msg sig = Ok raw →
  let nm := normalizeMetadata c (Some (published_metadata msg ref sig raw)) false in
  published (feed p) i prev (new_row row_hash (c, metadataForValueJSON nm) now nm) ref.
Proof.
  intros Hp Hs Hw nm. destruct (sign_inv _ _ _ _ _ Hs) as (Em & signed & w & Hsigned & -> & Hw' & Href).
  assert (w = raw) as -> by congruence.
  assert (Author msg = feed p) as Ha by (by rewrite Em).
  destruct (own_signature_verifies (keyPair p) msg signed) as [_ Hv]; [by rewrite Ha|done|].
  assert (raw_value (new_row row_hash (c, metadataForValueJSON nm) now nm) = raw) as Hraw.
  { unfold nm, new_row, normalizeMetadata. by cbn. }
  exists msg, (ed_Sign (keyPair p) signed). rewrite Hraw. split_and!; try done; [by rewrite Em..|].
  unfold new_row. cbn [canonical_ref]. by apply (canonical_kept _ _ _ _ Href).
Qed.

Lemma marshal_nonempty m sig raw : marshalWithSignature m sig = Ok raw → raw ≠ [].
Proof. unfold marshalWithSignature. intros (c & _ & [= <-])%result_bind_ok. unfold message_header, header_lines. by cbn. Qed.

Context {V : Type} (afterPublish : option (FeedRef → Z → V → result V)).
#[local] Notation Publish_ := (Publish row_hash sigVerifier afterPublish).

(** What was signed from a log that ended with message number [i] and reference
    [prev]. *)
Lemma sign_next_spec f p prev i c timestamp db msg sig ref raw :
  next_message f p db = Ok (prev, i) → sign_next f p c timestamp db = Ok (msg, sig, ref, raw) →
  Sign (keyPair p) (unsigned p prev i timestamp c) = Ok (ref, sig, msg) ∧ marshalWithSignature msg sig = Ok raw ∧ Sequence msg = i.
Proof.
  intros Hn. unfold sign_next. rewrite Hn. cbn [mbind result_mbind result_bind].
  intros ([[ref' sig'] msg'] & Hs%wrap_ok & (raw' & Hw%wrap_ok & [= <- <- <- <-])%result_bind_ok)%result_bind_ok.
  split_and!; [done|done|]. by destruct (sign_inv _ _ _ _ _ Hs) as [-> _].
Qed.

(** Storing it adds a row, whatever the result once the append was made, and the
    reference returned is its own. *)
Lemma store_signed_spec f p k prev i c timestamp now msg sig ref raw db v :
  append_fails f = None → db_ok db → publisher_ok p db → contiguous k (feed_rows (feed_string (feed p)) db) →
  Sign (keyPair p) (unsigned p prev i timestamp c) = Ok (ref, sig, msg) → marshalWithSignature msg sig = Ok raw →
  ∃ res db' v' r, store_signed row_hash sigVerifier afterPublish f p c (msg, sig, ref, raw) now (db, v) = (res, (db', v')) ∧
    db_ok db' ∧ feeds db' = feeds db ∧ (∀ a, a ≠ feed_string (feed p) → feed_rows a db' = feed_rows a db) ∧
    feed_rows (feed_string (feed p)) db' = <[Z.of_nat k + 1 := r]> (feed_rows (feed_string (feed p)) db) ∧
    published (feed p) i prev r ref ∧
    ∀ ref', res = Ok ref' → ref' = ref ∧ notify_published afterPublish p i v = (Ok tt, v').
Proof.
  intros Hfail Hok [Hp Hid] Hk Es Ew. assert (feed_rows (feed_string (feed p)) db = rows_of (log p) db) as Hrows.
  { unfold feed_rows. by rewrite Hid. }
  rewrite Hrows in Hk |- *. pose proof (signed_published p c timestamp now _ _ _ _ _ _ Hp Es Ew) as Hpub. cbv zeta in Hpub.
  set (md := published_metadata msg ref sig raw) in *.
  destruct (append_spec row_hash (log p) k c (Some md) now db Hok Hk (feed_id_bound _ _ _ Hok Hid))
    as (db1 & Ea & Hok1 & Hf1 & _ & Hrow1 & Hother1).
  set (r := new_row row_hash _ _ _) in *.
  assert (∀ db' res v', feeds db' = feeds db1 → messages db' = messages db1 → db_ok db' →
    (∀ ref', res = Ok ref' → ref' = ref ∧ notify_published afterPublish p i v = (Ok tt, v')) →
    ∃ res2 db2 v2 r, (res, (db', v')) = (res2, (db2, v2)) ∧ db_ok db2 ∧ feeds db2 = feeds db ∧
    (∀ a, a ≠ feed_string (feed p) → feed_rows a db2 = feed_rows a db) ∧
    feed_rows (feed_string (feed p)) db2 = <[Z.of_nat k + 1 := r]> (rows_of (log p) db) ∧ published (feed p) i prev r ref ∧
    ∀ ref', res2 = Ok ref' → ref' = ref ∧ notify_published afterPublish p i v = (Ok tt, v2)) as Hend.
  { intros db' res v' Hf Hm Hok' Hres. exists res, db', v', r. split_and!; try done; [congruence| |].
    - intros a Ha. unfold feed_rows. rewrite Hf, Hf1. destruct (feed_id a (feeds db)) as [id'|] eqn:E; [|done].
      unfold rows_of at 1. rewrite Hm. apply Hother1. intros ->. by apply Ha, (feed_id_inj _ _ (log p) _ Hok).
    - unfold feed_rows, rows_of. by rewrite Hf, Hf1, Hid, Hm. }
  assert (Sequence msg = i) as Hi by (by destruct (sign_inv _ _ _ _ _ Es) as [-> _]).
  unfold store_signed, mbind, M_mbind, on_fst, failing_m. cbn [fst snd]. fold md. rewrite Hi, Hfail.
  assert (mwrap "publisher: failed to append: " (λ w, Append row_hash (log p) c (Some md) now w) db = (Ok (Z.of_nat k + 1), db1)) as ->
    by (unfold mwrap; by rewrite Ea).
  cbn [fst snd]. clear Ea. destruct (receiveLog p).
  - destruct (receive_append_spec row_hash sigVerifier raw md now db1 Hok1) as (db2 & Er & Hok2 & Hf2 & Hm2).
    unfold mwrap. cbn [fst snd]. destruct (receive_fails f) as [e|]; [by apply Hend|].
    rewrite Er. clear Er. destruct (receive_check _ _ _); cbn [wrap fst snd]; [|by apply Hend..].
    unfold on_snd. cbn [fst snd]. destruct (notify_published _ _ _ v) as [[[]|e|] v'] eqn:En; cbn [fst snd]; apply Hend; try done.
    by intros ref' [= <-].
  - cbn [mret M_mret]. unfold on_snd. cbn [fst snd].
    destruct (notify_published _ _ _ v) as [[[]|e|] v'] eqn:En; cbn [fst snd]; apply Hend; try done. by intros ref' [= <-].
Qed.

(** Whatever [Publish] returns, the log of the feed is a chain afterwards; when it
    fails before writing nothing changes, and a returned reference is that of the
    new last message. *)
Lemma publish_spec f p n last c timestamp now db v :
  get_fails f = None → db_ok db → publisher_ok p db → chain (feed p) n last (feed_rows (feed_string (feed p)) db) →
  ∃ res db' v', Publish_ f p c timestamp now (db, v) = (res, (db', v')) ∧ db_ok db' ∧ feeds db' = feeds db ∧
    (∀ a, a ≠ feed_string (feed p) → feed_rows a db' = feed_rows a db) ∧
    ((feed_rows (feed_string (feed p)) db' = feed_rows (feed_string (feed p)) db ∧ v' = v ∧ is_ok res = false) ∨
     ∃ ref r, published (feed p) (Z.of_nat n + 1) last r ref ∧
       feed_rows (feed_string (feed p)) db' = <[Z.of_nat n + 1 := r]> (feed_rows (feed_string (feed p)) db) ∧
       ∀ ref', res = Ok ref' → ref' = ref ∧ notify_published afterPublish p (Z.of_nat n + 1) v = (Ok tt, v')).
Proof.
  intros Hget Hok Hp Hc.
  assert (next_message f p db = failing ((λ e, "publisher: failed to get seq: " +:+ e) <$> seq_fails f) (Ok (last, Z.of_nat n + 1))) as Hnext.
  { apply next_message_chain; [done|]. unfold feed_rows in Hc. by rewrite (proj2 Hp) in Hc. }
  unfold Publish, mbind, M_mbind, on_fst. cbn [fst snd].
  destruct (sign_next f p c timestamp db) as [[[[msg sig] ref] raw]|e|] eqn:Es;
    [|eexists _, db, v; split_and!; try done; by left..].
  destruct (seq_fails f) as [e|]; [by unfold sign_next in Es; rewrite Hnext in Es|].
  destruct (sign_next_spec _ _ _ _ _ _ _ _ _ _ _ Hnext Es) as (Hs & Hw & _).
  destruct (append_fails f) as [e|] eqn:Hap.
  { unfold store_signed, mbind, M_mbind, on_fst, failing_m, mwrap. rewrite Hap. eexists _, db, v. split_and!; try done. by left. }
  destruct (store_signed_spec f p n last _ c timestamp now _ _ _ _ db v Hap Hok Hp (chain_contiguous _ _ _ _ Hc) Hs Hw)
    as (res & db' & v' & r & E & Hok' & Hf & Hoth & Hrows & Hpub & Href).
  exists res, db', v'. split_and!; try done. right. by exists ref, r.
Qed.

(** When nothing fails and the receive log takes the message, publishing succeeds. *)
Lemma store_signed_succeeds f p k c now msg sig ref raw db v :
  append_fails f = None → receive_fails f = None → db_ok db → publisher_ok p db →
  contiguous k (feed_rows (feed_string (feed p)) db) →
  receive_check sigVerifier raw (normalizeMetadata raw (Some (published_metadata msg ref sig raw)) true) = Ok tt →
  (notify_published afterPublish p (Sequence msg) v).1 = Ok tt →
  (store_signed row_hash sigVerifier afterPublish f p c (msg, sig, ref, raw) now (db, v)).1 = Ok ref.
Proof.
  intros Hap Hrec Hok [Hp Hid] Hk Hchk Hn. unfold feed_rows in Hk. rewrite Hid in Hk.
  set (md := published_metadata msg ref sig raw) in *.
  destruct (append_spec row_hash (log p) k c (Some md) now db Hok Hk (feed_id_bound _ _ _ Hok Hid)) as (db1 & Ea & Hok1 & _).
  unfold store_signed, mbind, M_mbind, on_fst, failing_m, mwrap. cbn [fst snd]. fold md. rewrite Hap, Hrec, Ea. cbn [wrap fst snd].
  unfold on_snd. destruct (notify_published afterPublish p (Sequence msg) v) as [rn v'] eqn:En. cbn [fst] in Hn. subst rn.
  destruct (receiveLog p); cbn [fst snd mret M_mret]; [|by rewrite En].
  destruct (receive_append_spec row_hash sigVerifier raw md now db1 Hok1) as (db2 & -> & _). rewrite Hchk. cbn [wrap fst snd]. by rewrite En.
Qed.

(** C15. A publish that cannot read the last row of its log starts the feed again:
    the error is dropped, what is signed is message number 1 without a message before
    it, and it is stored at the end of the log, which its number contradicts. When
    nothing else fails the publish reports success. *)
Theorem unread_row_restarts_feed f p n c timestamp now db v e msg sig ref raw :
  get_fails f = Some e → seq_fails f = None → append_fails f = None →
  db_ok db → publisher_ok p db → contiguous n (feed_rows (feed_string (feed p)) db) →
  Sign (keyPair p) (unsigned p None 1 timestamp c) = Ok (ref, sig, msg) → marshalWithSignature msg sig = Ok raw →
  ∃ res db' v' r, Publish_ f p c timestamp now (db, v) = (res, (db', v')) ∧
    feed_rows (feed_string (feed p)) db' = <[Z.of_nat n + 1 := r]> (feed_rows (feed_string (feed p)) db) ∧
    published (feed p) 1 None r ref ∧
    (receive_fails f = None → receive_check sigVerifier raw (normalizeMetadata raw (Some (published_metadata msg ref sig raw)) true) = Ok tt →
     (notify_published afterPublish p 1 v).1 = Ok tt → res = Ok ref).
Proof.
  intros Hget Hseq Hap Hok Hp Hn Hs Hw.
  assert (next_message f p db = Ok (None, 1)) as Hnext by (unfold next_message; rewrite Hget, Hseq; cbn; by destruct (bool_decide _)).
  assert (sign_next f p c timestamp db = Ok (msg, sig, ref, raw)) as Es.
  { unfold sign_next. rewrite Hnext. cbn [mbind result_mbind result_bind]. rewrite Hs. cbn [wrap mbind result_mbind result_bind].
    by rewrite Hw. }
  destruct (sign_next_spec _ _ _ _ _ _ _ _ _ _ _ Hnext Es) as (_ & _ & Hi).
  destruct (store_signed_spec f p n None 1 c timestamp now _ _ _ _ db v Hap Hok Hp Hn Hs Hw)
    as (res & db' & v' & r & E & _ & _ & _ & Hrows & Hpub & _).
  exists res, db', v', r. split_and!; [|done|done|].
  - unfold Publish, mbind, M_mbind, on_fst. cbn [fst snd]. by rewrite Es.
  - intros Hrec Hchk Hnot. rewrite <-Hi in Hnot.
    pose proof (store_signed_succeeds f p n c now msg sig ref raw db v Hap Hrec Hok Hp Hn Hchk Hnot) as H. by rewrite E in H.
Qed.

(** A publisher must not be used by two goroutines: when both read the log
    before either writes, both messages are stored, under different row numbers but
    with the same sequence number and the same message before them, which forks
    the feed. *)
Theorem concurrent_publish_forks p n last c1 c2 timestamp1 timestamp2 now1 now2 db v signed1 signed2 :
  db_ok db → publisher_ok p db → chain (feed p) n last (feed_rows (feed_string (feed p)) db) →
  sign_next no_faults p c1 timestamp1 db = Ok signed1 → sign_next no_faults p c2 timestamp2 db = Ok signed2 →
  let w1 := (store_signed row_hash sigVerifier afterPublish no_faults p c1 signed1 now1 (db, v)).2 in
  let w2 := (store_signed row_hash sigVerifier afterPublish no_faults p c2 signed2 now2 w1).2 in
  ∃ r1 r2 ref1 ref2, feed_rows (feed_string (feed p)) w2.1 !! (Z.of_nat n + 1) = Some r1 ∧
    feed_rows (feed_string (feed p)) w2.1 !! (Z.of_nat n + 2) = Some r2 ∧
    published (feed p) (Z.of_nat n + 1) last r1 ref1 ∧ published (feed p) (Z.of_nat n + 1) last r2 ref2.
Proof.
  intros Hok Hp Hc E1 E2. assert (next_message no_faults p db = Ok (last, Z.of_nat n + 1)) as Hnext.
  { apply (next_message_chain no_faults); [done|]. unfold feed_rows in Hc. by rewrite (proj2 Hp) in Hc. }
  destruct signed1 as [[[m1 s1] ref1] raw1], signed2 as [[[m2 s2] ref2] raw2].
  destruct (sign_next_spec _ _ _ _ _ _ _ _ _ _ _ Hnext E1) as (Hs1 & Hw1 & _).
  destruct (sign_next_spec _ _ _ _ _ _ _ _ _ _ _ Hnext E2) as (Hs2 & Hw2 & _).
  pose proof (chain_contiguous _ _ _ _ Hc) as Hn.
  destruct (store_signed_spec no_faults p n last _ c1 timestamp1 now1 _ _ _ _ db v eq_refl Hok Hp Hn Hs1 Hw1)
    as (res1 & db1 & v1 & r1 & -> & Hok1 & Hf1 & _ & Hrows1 & Hpub1 & _). cbv zeta. cbn [snd].
  assert (publisher_ok p db1) as Hp1 by (destruct Hp; split; congruence).
  assert (contiguous (S n) (feed_rows (feed_string (feed p)) db1)) as Hn1 by (rewrite Hrows1; by apply contiguous_insert).
  destruct (store_signed_spec no_faults p (S n) last _ c2 timestamp2 now2 _ _ _ _ db1 v1 eq_refl Hok1 Hp1 Hn1 Hs2 Hw2)
    as (res2 & db2 & v2 & r2 & -> & _ & _ & _ & Hrows2 & Hpub2 & _).
  exists r1, r2, ref1, ref2. cbn [snd fst]. rewrite Hrows2, Hrows1.
  replace (Z.of_nat (S n) + 1) with (Z.of_nat n + 2) by lia.
  split_and!; try done; [|apply lookup_insert_eq]. rewrite lookup_insert_ne by lia. apply lookup_insert_eq.
Qed.

Lemma published_served author i prev r ref db : published author i prev r ref →
  feed_rows (feed_string author) db !! i = Some r → GetMessage author i db = Ok (raw_value r).
Proof.
  intros (m & sig & _ & _ & _ & _ & Hw & _ & Hf & _) Hr. apply marshal_nonempty in Hw.
  unfold feed_rows in Hr. destruct (feed_id (feed_string author) (feeds db)) as [id|] eqn:Hid; [|by rewrite lookup_empty in Hr].
  unfold GetMessage, Get, log_Get. rewrite Hid. cbn [wrap mbind result_mbind result_bind]. rewrite Hr.
  cbn [wrap mbind result_mbind result_bind].
  assert (MessageFormat (stored_message r false) = MessageSHA256) as Em.
  { unfold stored_message, applyStoredFormatFields. cbn [MessageFormat with_formats md_MessageFormat]. by rewrite Hf. }
  assert (RawValue (stored_message r false) = raw_value r) as Er.
  { unfold stored_message, applyStoredFormatFields. cbn [RawValue with_formats md_RawValue]. by rewrite bool_decide_eq_false_2. }
  rewrite Em. unfold ClassicSignedMessageRaw. rewrite Em, Er. by rewrite (bool_decide_eq_false_2 (raw_value r = [])) by done.
Qed.
Lemma chain_seq author n last db : chain author n last (feed_rows (feed_string author) db) →
  is_Some (feed_id (feed_string author) (feeds db)) → db_ok db →
  GetFeedSeq author db = Ok (if decide (n = 0%nat) then -1 else Z.of_nat n).
Proof. intros Hc Hid Hok. apply get_feed_seq; [done|done|]. by eapply chain_contiguous. Qed.

(** A published message is the next of its feed: it names the message before it,
    is signed by the feed's key, is served to peers under the next sequence number,
    and the reference [Publish] returns is the hash of what they are served. *)
Theorem published_message_served f p n last c timestamp now db v ref db' v' :
  get_fails f = None → db_ok db → publisher_ok p db → chain (feed p) n last (feed_rows (feed_string (feed p)) db) →
  Publish_ f p c timestamp now (db, v) = (Ok ref, (db', v')) →
  GetFeedSeq (feed p) db' = Ok (Z.of_nat n + 1) ∧
  ∃ m sig raw, GetMessage (feed p) (Z.of_nat n + 1) db' = Ok raw ∧ marshalWithSignature m sig = Ok raw ∧
    Author m = feed p ∧ Sequence m = Z.of_nat n + 1 ∧ Previous m = last ∧
    Verify {| message := m; Signature := sig |} = Ok tt ∧ NewMessageRef (HashMessage raw) = Ok ref.
Proof.
  intros Hget Hok Hp Hc E. destruct (publish_spec f p n last c timestamp now db v Hget Hok Hp Hc) as (res & db2 & v2 & E2 & Hok2 & Hf & _ & H).
  rewrite E in E2. injection E2 as <- <- <-. destruct H as [(_ & _ & ?)|(ref' & r & Hpub & Hrows & Href)]; [done|].
  destruct (Href ref eq_refl) as [-> _]. split.
  - rewrite (chain_seq (feed p) (S n) (Some ref') db'); [rewrite decide_False by lia; f_equal; lia| | |done].
    + rewrite Hrows. by apply chain_next with last.
    + rewrite Hf. destruct Hp as [_ ->]. by eexists.
  - assert (GetMessage (feed p) (Z.of_nat n + 1) db' = Ok (raw_value r)) as Hg.
    { eapply published_served; [exact Hpub|]. rewrite Hrows. apply lookup_insert_eq. }
    destruct Hpub as (m & sig & ? & ? & ? & ? & ? & ? & _). exists m, sig, (raw_value r). by split_and!.
Qed.
End Extends.

(** ** A forged message in an own feed *)
Section Hijacked.
Context {js : JSON} {ed : Ed25519} {sh : Sha256}.
Context (row_hash : bytes * Metadata → string) (json_of : Bencode.Value → option bytes) (now : Z).

Lemma signed_ref_hash raw ref : SignedMessageRefFromJSON raw = Ok ref → ∃ hash, NewMessageRef hash = Ok ref.
Proof. unfold SignedMessageRefFromJSON. intros (? & _ & (? & _ & H)%result_bind_ok)%result_bind_ok. eauto. Qed.

(** C22. A forged message hijacks an own feed. Any peer can send a message in the
    name of a feed this node publishes; it is stored although its signature is
    wrong, and the node's next message of that feed names it as the one before and
    takes the number after it, which makes the rest of the feed invalid to every
    peer that has the genuine messages only. *)
Theorem forged_message_hijacks_feed (raw : bytes) msg c ref signed sig db n p :
  db_ok db → publisher_ok p db → Author (message msg) = feed p → contiguous n (feed_rows (feed_string (feed p)) db) →
  ParseSignedMessageJSON raw = Ok (msg, c) → SignedMessageRefFromJSON raw = Ok ref →
  Sequence (message msg) = Z.of_nat n + 1 →
  ExtractSignature raw = Ok (signed, sig) → ed_Verify (f_id (feed p)) signed sig = false →
  ∃ e db', AppendReplicatedMessage row_hash json_of (Some default_Verify) now raw db = (Err e, db') ∧
    next_message no_faults p db' = Ok (Some ref, Z.of_nat n + 2).
Proof.
  intros Hok [_ Hpid] Ha Hn Hp Href Hseq Hex Hv. rewrite <-Ha in *.
  destruct (forged_stored row_hash json_of now raw msg c ref signed sig db n) as (e & db' & E & Hok' & _ & Hids & Hst); [done..|].
  apply Hids in Hpid as Hid. exists e, db'. split; [done|]. set (nm := normalizeMetadata c _ false) in *. set (r := new_row _ _ _ _) in *.
  assert (rows_of (log p) db' = <[Z.of_nat n + 1 := r]> (feed_rows (feed_string (Author (message msg))) db)) as Hrows.
  { rewrite <-Hst. unfold feed_rows. by rewrite Hid. }
  unfold next_message, Seq, log_Get. cbn [failing no_faults seq_fails get_fails]. rewrite Hrows, (max_seq_contiguous (S n)), decide_False by (done || by apply contiguous_insert).
  cbn [wrap mbind result_mbind result_bind default id]. rewrite bool_decide_eq_true_2 by lia.
  replace (Z.of_nat (S n)) with (Z.of_nat n + 1) by lia. rewrite lookup_insert_eq.
  assert (canonical_ref r = message_string ref) as Hc.
  { apply signed_ref_hash in Href as [hash Href]. by apply (canonical_kept _ _ _ hash Href). }
  rewrite stored_key, Hc by (rewrite Hc; apply message_string_nonempty).
  apply signed_ref_hash in Href as [hash Href]. rewrite (new_message_ref_parses hash) by done. do 2 f_equal. lia.
Qed.
End Hijacked.
