(* ===== verification/Runtime.v ===== *)
(** * The SSB runtime (internal/bots/manager.go, internal/ssbruntime/runtime.go)

    The publisher the bridge hands its records to: one deterministic feed for every
    AT Protocol identity, its log in the tables, its sequence number announced to
    the replication peers. *)
From S2P Require Import Prelude GoStr GoBytes Refs Crypto Formats Legacy Feedlog FeedManager Publisher.
From S2P Require Ebt.
#[local] Open Scope string_scope.
#[local] Open Scope list_scope.
#[local] Open Scope Z_scope.

Section Node.
Context {js : JSON} {ed : Ed25519} {sh : Sha256}.
(** [derive] is the key pair of the HMAC of a DID under the master seed. *)
Context (derive : string → KeyPair).
Context (row_hash : bytes * Metadata → string) (sigVerifier : option (bytes → Metadata → result unit)).

(** ** bots.Manager *)
Record Manager := { publishers : gmap string Publisher; keyPairs : gmap string KeyPair }.
Definition NewManager : Manager := {| publishers := ∅; keyPairs := ∅ |}.

Definition deriveKeyPair (atDID : string) : M Manager KeyPair := λ m,
  if bool_decide (atDID = "") then (Err "bots: DID must not be empty", m)
  else match keyPairs m !! atDID with
    | Some kp => (Ok kp, m)
    | None => (Ok (derive atDID), {| publishers := publishers m; keyPairs := <[atDID := derive atDID]> (keyPairs m) |})
    end.
Definition GetFeedID (atDID : string) : M Manager FeedRef :=
  kp ← deriveKeyPair atDID; mret (feed_of kp).
Definition GetKeyPair (atDID : string) : M Manager KeyPair := deriveKeyPair atDID.
Definition GetPublisher (f : Faults) (atDID : string) : M (Manager * DB) Publisher :=
  m ← on_fst mget;
  match publishers m !! atDID with
  | Some pub => mret pub
  | None =>
      kp ← on_fst (mwrap "failed to derive keypair: " (deriveKeyPair atDID));
      pub ← on_snd (mwrap "failed to create publisher: " (New f kp true));
      _ ← on_fst (mmodify (λ m, {| publishers := <[atDID := pub]> (publishers m); keyPairs := keyPairs m |}));
      mret pub
  end.

(** ** ssbruntime.Runtime

    [node_state] is the state matrix of the node, nil when replication is off. *)
Record Runtime := { manager : Manager; tables : DB; followedFeeds : gset string; node_state : option Ebt.StateMatrix }.
Definition set_runtime (m : Manager) (db : DB) (rt : Runtime) : Runtime :=
  {| manager := m; tables := db; followedFeeds := followedFeeds rt; node_state := node_state rt |}.
Definition follow (feed : string) (rt : Runtime) : Runtime :=
  {| manager := manager rt; tables := tables rt; followedFeeds := {[feed]} ∪ followedFeeds rt; node_state := node_state rt |}.
Definition on_manager {A} (m : M Manager A) : M Runtime A := λ rt,
  let '(r, mg) := m (manager rt) in (r, set_runtime mg (tables rt) rt).
Definition on_stores {A} (m : M (Manager * DB) A) : M Runtime A := λ rt,
  let '(r, (mg, db)) := m (manager rt, tables rt) in (r, set_runtime mg db rt).
Definition on_tables {A} (m : M (DB * unit) A) : M Runtime A := λ rt,
  let '(r, (db, _)) := m (tables rt, tt) in (r, set_runtime (manager rt) db rt).

Definition NotifyFeedSeq (feed : FeedRef) (seq : Z) : M Runtime unit := λ rt,
  match node_state rt with
  | None => (Ok tt, rt)
  | Some sm =>
      match Ebt.SetFeedSeq feed seq sm with
      | Ok sm => (Ok tt, {| manager := manager rt; tables := tables rt; followedFeeds := followedFeeds rt; node_state := Some sm |})
      | Err e => (Err e, rt)
      | Panic => (Panic, rt)
      end
  end.

(** [content] is [json.Marshal] of the record; a feed that cannot be resolved is
    the zero value. *)
Definition zero_feed : FeedRef := {| f_algo := ""; f_id := replicate 32 (chr 0) |}.
Definition runtime_Publish (faults : Faults) (atDID : string) (content : option bytes) (timestamp now : Z) : M Runtime string :=
  pub ← mwrap ("ssbruntime: failed to get publisher for " +:+ atDID +:+ ": ") (on_stores (GetPublisher faults atDID));
  feedRef ← mtry (on_manager (GetFeedID atDID));
  _ ← match feedRef with Ok f => mmodify (follow (feed_string f)) | _ => mret tt end;
  msgRef ← mwrap ("ssbruntime: failed to publish message for " +:+ atDID +:+ ": ")
             (on_tables (PublishJSON row_hash sigVerifier None faults pub content timestamp now));
  let f := match feedRef with Ok f => f | _ => zero_feed end in
  rt ← mget;
  _ ← (if bool_decide (feed_string f = "") then mret tt
       else match publisher_Seq faults pub (tables rt) with Ok seq => NotifyFeedSeq f seq | _ => mret tt end);
  mret (message_string msgRef).

Definition ResolveFeed (atDID : string) : M Runtime string :=
  feedRef ← mwrap ("get feed id for " +:+ atDID +:+ ": ") (on_manager (GetFeedID atDID));
  mret (feed_string feedRef).

(** ** Every bridged feed is a hash chain *)
Context {edl : Ed25519Laws ed}.

Definition did_feed (did : string) : FeedRef := feed_of (derive did).
Definition did_addr (did : string) : string := feed_string (did_feed did).
Record stores_ok (m : Manager) (db : DB) : Prop := {
  stored_tables : db_ok db;
  stored_publishers did p : publishers m !! did = Some p → did ≠ "" ∧ keyPair p = derive did ∧ publisher_ok p db;
  stored_keys did kp : keyPairs m !! did = Some kp → kp = derive did
}.
Definition feeds_chained (db : DB) : Prop :=
  ∀ did, ∃ n last, chain (did_feed did) n last (feed_rows (did_addr did) db).
(** The node announces no message of a feed that it does not have. *)
Definition announced_stored (sm : Ebt.StateMatrix) (db : DB) : Prop :=
  ∀ addr note, Ebt.frontier_of (Ebt.self sm) sm !! addr = Some note →
    is_Some (feed_rows addr db !! Ebt.Seq note).
Record runtime_ok (rt : Runtime) : Prop := {
  runtime_stores : stores_ok (manager rt) (tables rt);
  runtime_chains : feeds_chained (tables rt);
  runtime_announces sm : node_state rt = Some sm → announced_stored sm (tables rt)
}.

Lemma derive_key_spec did m db : stores_ok m db → ∃ res m', deriveKeyPair did m = (res, m') ∧ stores_ok m' db ∧
  publishers m' = publishers m ∧ res = if bool_decide (did = "") then Err "bots: DID must not be empty" else Ok (derive did).
Proof.
  intros [Hdb Hp Hk]. unfold deriveKeyPair. case_bool_decide; [by eexists _, m|].
  destruct (keyPairs m !! did) as [kp|] eqn:E.
  - eexists _, m. split_and!; try done. by rewrite (Hk _ _ E).
  - eexists _, _. split_and!; try done. split; try done. intros did' kp. cbn.
    destruct (decide (did = did')) as [<-|]; [rewrite lookup_insert_eq; by intros [= <-]|rewrite lookup_insert_ne by done; apply Hk].
Qed.

Lemma get_publisher_spec f did m db : stores_ok m db → ∃ res m' db', GetPublisher f did (m, db) = (res, (m', db')) ∧
  stores_ok m' db' ∧ (∀ a, feed_rows a db' = feed_rows a db) ∧
  ∀ p, res = Ok p → did ≠ "" ∧ keyPair p = derive did ∧ publisher_ok p db'.
Proof.
  intros Hok. unfold GetPublisher, mbind, M_mbind, on_fst, on_snd. cbn [mget fst snd].
  destruct (publishers m !! did) as [p|] eqn:E.
  { eexists _, m, db. split_and!; try done. intros p' [= <-]. by apply (stored_publishers _ _ Hok). }
  destruct (derive_key_spec did m db Hok) as (res & m1 & Ed & Hok1 & Hpub & Hres). unfold mwrap. cbn [fst snd]. rewrite Ed, Hres.
  case_bool_decide; cbn [wrap fst snd]; [by eexists _, m1, db|].
  destruct (open_fails f) as [e|] eqn:Hopen.
  { unfold New, failing_m, mbind, M_mbind, mwrap. cbn [fst snd]. rewrite Hopen. by eexists _, m1, db. }
  destruct (new_publisher f (derive did) true db Hopen (stored_tables _ _ Hok)) as (p & db1 & En & Hdb1 & Hkp & Hpok & Hrows & Hkeep).
  cbn [fst snd]. rewrite En. cbn [wrap fst snd mmodify mret M_mret]. eexists _, _, db1. split; [done|]. split_and!; try done.
  - destruct Hok1 as [_ Hp Hk]. split; [done| |done]. intros did' q. cbn.
    destruct (decide (did = did')) as [<-|]; [rewrite lookup_insert_eq; by intros [= <-]|].
    rewrite lookup_insert_ne by done. intros Hq. destruct (Hp _ _ Hq) as (? & ? & ?). auto.
  - by intros q [= <-].
Qed.

Lemma feed_of_eq kp1 kp2 : feed_string (feed_of kp1) = feed_string (feed_of kp2) → feed_of kp1 = feed_of kp2.
Proof.
  intros E. assert (∀ kp, ParseFeedRef (feed_string (feed_of kp)) = Ok (feed_of kp)) as H.
  { intros kp. apply feed_ref_roundtrip; [apply public_length|left]. }
  pose proof (H kp1) as H1. rewrite E, H in H1. congruence.
Qed.

(** Publishing through the publisher of a DID: its chain grows by one or stays, the
    other feeds stay. *)
Lemma publish_tables_spec f did p content timestamp now m db : get_fails f = None → stores_ok m db → feeds_chained db →
  keyPair p = derive did → publisher_ok p db →
  ∃ res db', PublishJSON row_hash sigVerifier None f p content timestamp now (db, tt) = (res, (db', tt)) ∧
    stores_ok m db' ∧ publisher_ok p db' ∧ feeds_chained db' ∧ (∀ a, a ≠ did_addr did → feed_rows a db' = feed_rows a db) ∧
    ((is_ok res = false ∧ feed_rows (did_addr did) db' = feed_rows (did_addr did) db) ∨
     ∃ n ref r, chain (did_feed did) (S n) (Some ref) (feed_rows (did_addr did) db') ∧
       contiguous n (feed_rows (did_addr did) db) ∧
       feed_rows (did_addr did) db' = <[Z.of_nat n + 1 := r]> (feed_rows (did_addr did) db) ∧
       ∀ ref', res = Ok ref' → ref' = ref).
Proof.
  intros Hget Hok Hch Hkp Hp. unfold PublishJSON. destruct content as [c|].
  2: { eexists _, db. split_and!; try done. by left. }
  destruct (Hch did) as (n & last & Hc). assert (feed p = did_feed did) as Hf by (destruct Hp as [-> _]; by rewrite Hkp).
  unfold did_addr in *. rewrite <-Hf in Hc |- *.
  destruct (publish_spec row_hash sigVerifier None f p n last c timestamp now db tt Hget (stored_tables _ _ Hok) Hp Hc)
    as (res & db' & [] & E & Hdb' & Hfeeds & Hoth & H).
  exists res, db'. split; [done|]. split_and!; try done.
  - destruct Hok as [_ Hpub Hk]. split; try done. intros did' q Hq. destruct (Hpub _ _ Hq) as (? & ? & ? & ?).
    split_and!; [done|done|]. split; [done|]. by rewrite Hfeeds.
  - destruct Hp. split; [done|]. by rewrite Hfeeds.
  - intros did'. destruct (decide (feed_string (did_feed did') = feed_string (feed p))) as [Ed|Ed].
    + assert (did_feed did' = feed p) as Ef by (rewrite Hf in Ed |- *; by apply feed_of_eq).
      unfold did_addr. rewrite Ef. destruct H as [(-> & _)|(ref & r & Hpub & -> & _)]; [eauto|].
      exists (S n), (Some ref). by apply chain_next with last.
    + unfold did_addr. rewrite (Hoth _ Ed). apply Hch.
  - destruct H as [(-> & _ & ?)|(ref & r & Hpub & Hrows & Href)]; [by left|]. right. exists n, ref, r. split_and!.
    + rewrite Hrows. by apply chain_next with last.
    + by eapply chain_contiguous.
    + done.
    + intros ref' H'. by apply Href.
Qed.

Lemma set_feed_seq_frontier f seq sm sm' : Ebt.SetFeedSeq f seq sm = Ok sm' →
  Ebt.self sm' = Ebt.self sm ∧ (sm' = sm ∨ Ebt.frontier_of (Ebt.self sm') sm' =
    <[feed_string f := {| Ebt.Seq := seq; Ebt.Replicate := true; Ebt.Receive := true; Ebt.TangleRootSeq := 0 |}]>
      (Ebt.frontier_of (Ebt.self sm) sm)).
Proof.
  unfold Ebt.SetFeedSeq. case_bool_decide; [intros [= <-]; by split; [|left]|]. unfold Ebt.store_frontier.
  destruct (Ebt.frontiers sm) as [fr|] eqn:Ef; [|done]. cbn [mbind result_mbind result_bind]. intros [= <-]. split; [done|]. right.
  unfold Ebt.frontier_of. cbn. by rewrite lookup_insert_eq.
Qed.
Lemma set_feed_seq_set f seq sm sm' : Ebt.SetFeedSeq f seq sm = Ok sm' → Ebt.self sm ≠ "" →
  Ebt.Seq <$> Ebt.frontier_of (Ebt.self sm') sm' !! feed_string f = Some seq.
Proof.
  unfold Ebt.SetFeedSeq. intros E H. rewrite bool_decide_eq_false_2 in E by done. revert E. unfold Ebt.store_frontier.
  destruct (Ebt.frontiers sm); [|done]. cbn [mbind result_mbind result_bind]. intros [= <-].
  unfold Ebt.frontier_of. cbn. rewrite lookup_insert_eq. cbn. by rewrite lookup_insert_eq.
Qed.

Lemma announced_grows sm db db' : (∀ a s, is_Some (feed_rows a db !! s) → is_Some (feed_rows a db' !! s)) →
  announced_stored sm db → announced_stored sm db'.
Proof. intros H Ha addr note E. by apply H, Ha. Qed.

(** What a publish leaves, and what it returns when it succeeds: the peers are told the
    new number unless it cannot be read back. *)
Lemma runtime_publish_spec f did content timestamp now rt : get_fails f = None → runtime_ok rt →
  let '(res, rt') := runtime_Publish f did content timestamp now rt in
  runtime_ok rt' ∧ ∀ ref_s, res = Ok ref_s →
    ∃ n ref, ref_s = message_string ref ∧ chain (did_feed did) (S n) (Some ref) (feed_rows (did_addr did) (tables rt')) ∧
      is_Some (feed_id (did_addr did) (feeds (tables rt'))) ∧
      ∀ sm, reread_fails f = None → node_state rt' = Some sm → Ebt.self sm ≠ "" →
        Ebt.Seq <$> Ebt.frontier_of (Ebt.self sm) sm !! did_addr did = Some (Z.of_nat (S n)).
Proof.
  intros Hget [Hst Hch Han]. unfold runtime_Publish, mbind, M_mbind, mwrap, on_stores.
  destruct (get_publisher_spec f did (manager rt) (tables rt) Hst) as (rp & m1 & db1 & -> & Hst1 & Hrows1 & Hp).
  assert (feeds_chained db1) as Hch1 by (intros d; unfold did_addr; rewrite Hrows1; apply Hch).
  assert (∀ sm, node_state rt = Some sm → announced_stored sm db1) as Han1.
  { intros sm Hsm. eapply announced_grows; [|by apply Han]. intros a q. by rewrite Hrows1. }
  destruct rp as [p|e|]; cbn [wrap]; [|by split..]. destruct (Hp p eq_refl) as (Hdid & Hkp & Hpok).
  unfold mtry, on_manager. cbn [manager set_runtime]. unfold GetFeedID, mbind, M_mbind.
  destruct (derive_key_spec did m1 db1 Hst1) as (rk & m2 & -> & Hst2 & _ & Hrk). rewrite Hrk, bool_decide_eq_false_2 by done.
  cbn [mret M_mret mmodify]. unfold on_tables. cbn [tables set_runtime follow].
  destruct (publish_tables_spec f did p content timestamp now m2 db1 Hget Hst2 Hch1 Hkp Hpok)
    as (res & db2 & -> & Hst3 & Hpok2 & Hch2 & Hoth & H).
  assert (∀ sm, node_state rt = Some sm → announced_stored sm db2) as Han2.
  { intros sm Hsm. eapply announced_grows; [|by apply Han1]. intros a q Hq.
    destruct (decide (a = did_addr did)) as [->|]; [|by rewrite Hoth].
    destruct H as [[_ ->]|(n & ref & r & _ & _ & -> & _)]; [done|]. destruct (decide (Z.of_nat n + 1 = q)) as [->|].
    - rewrite lookup_insert_eq. by eexists.
    - by rewrite lookup_insert_ne. }
  destruct res as [ref|e|]; cbn [wrap]; [|by split..].
  destruct H as [[? _]|(n & ref' & r & Hc & Hn & Hrows & Href)]; [done|]. rewrite (Href ref eq_refl). clear Href.
  cbn [mget]. rewrite bool_decide_eq_false_2 by done. cbn [tables set_runtime].
  assert (feed_rows (did_addr did) db2 = rows_of (log p) db2 ∧ feed_id (did_addr did) (feeds db2) = Some (log p)) as [Hr Hid].
  { destruct Hpok2 as [Hf Hid]. rewrite Hkp in Hf. unfold did_addr, did_feed. rewrite <-Hf. unfold feed_rows. by rewrite Hid. }
  unfold publisher_Seq, Seq. rewrite <-Hr, (max_seq_contiguous (S n)), decide_False by (done || by eapply chain_contiguous).
  cbn [default id]. unfold NotifyFeedSeq. cbn [node_state set_runtime follow].
  assert (∃ n0 ref0, message_string ref' = message_string ref0 ∧ chain (did_feed did) (S n0) (Some ref0) (feed_rows (did_addr did) db2) ∧
    is_Some (feed_id (did_addr did) (feeds db2)) ∧ n0 = n) as (n0 & ref0 & Es & Hc0 & Hid0 & ->) by (exists n, ref'; eauto).
  destruct (reread_fails f) as [e|]; cbn [failing mret M_mret].
  { split; [by split|]. intros ref_s [= <-]. exists n, ref0. by split_and!. }
  cbn [node_state set_runtime follow]. destruct (node_state rt) as [sm|] eqn:Esm; cbn [mret M_mret].
  2: { split; [split; [done|done|]|]; [by intros sm; cbn; rewrite Esm|]. intros ref_s [= <-]. exists n, ref0. split_and!; try done.
       intros sm _. cbn. by rewrite Esm. }
  destruct (Ebt.SetFeedSeq (feed_of (derive did)) (Z.of_nat (S n)) sm) as [sm'|e|] eqn:Eset;
    [|split; [split; [done|done|cbn; rewrite Esm; intros ? [= <-]; by apply Han2]|done]..].
  destruct (set_feed_seq_frontier _ _ _ _ Eset) as [Eself Efr].
  split.
  - split; [done|done|]. intros ? [= <-]. destruct Efr as [->|Efr]; [by apply Han2|]. intros a note. rewrite Efr.
    destruct (decide (feed_string (feed_of (derive did)) = a)) as [<-|Hne].
    + rewrite lookup_insert_eq. intros [= <-]. apply (chain_contiguous _ _ _ _ Hc). cbn. lia.
    + rewrite lookup_insert_ne by done. by apply Han2.
  - intros ref_s [= <-]. exists n, ref0. split_and!; try done. intros ? _ [= <-] Hself. rewrite Eself in Hself.
    by apply (set_feed_seq_set _ _ _ _ Eset).
Qed.

Lemma runtime_start sm : Ebt.frontier_of (Ebt.self sm) sm = ∅ →
  runtime_ok {| manager := NewManager; tables := empty_db; followedFeeds := ∅; node_state := Some sm |}.
Proof.
  intros Hsm. split; cbn.
  - split; [apply empty_db_ok|done..].
  - intros did. exists 0%nat, None. apply chain_empty.
  - intros ? [= <-] addr note. by rewrite Hsm, lookup_empty.
Qed.

(** C26. Every bridged feed is a hash chain. After any sequence of publishes for any
    identities, whichever of their other statements failed (the opening of the log,
    the read of its number, either append, the read for the peers), as long as the
    read of the last row succeeded: the log of every identity's feed holds the signed
    messages 1 to n of that feed, each naming the one before it by its hash, and the
    node announces to its peers no message it does not have. A failing read of the
    last row breaks the chain ([Publisher.unread_row_restarts_feed]). *)
Theorem bridged_feeds_are_chains (calls : list (Faults * string * option bytes * Z * Z)) rt : runtime_ok rt →
  Forall (λ '(f, _, _, _, _), get_fails f = None) calls →
  let rt' := foldl (λ rt '(f, did, content, timestamp, now), (runtime_Publish f did content timestamp now rt).2) rt calls in
  (∀ did, ∃ n last, chain (did_feed did) n last (feed_rows (did_addr did) (tables rt'))) ∧
  ∀ sm addr note, node_state rt' = Some sm → Ebt.frontier_of (Ebt.self sm) sm !! addr = Some note →
    is_Some (feed_rows addr (tables rt') !! Ebt.Seq note).
Proof.
  intros Hok Hget rt'. assert (runtime_ok rt') as [_ Hch Han].
  { subst rt'. revert rt Hok. induction Hget as [|[[[[f did] content] timestamp] now] calls Hf _ IH]; intros rt Hok; [done|].
    cbn [foldl]. apply IH. pose proof (runtime_publish_spec f did content timestamp now rt Hf Hok) as H.
    destruct (runtime_Publish f did content timestamp now rt). by destruct H. }
  split; [apply Hch|]. intros sm addr note Hsm E. by apply (Han sm).
Qed.

(** A publish that reports success is complete: the reference it returns is the
    hash of the last message of the identity's feed, the node serves that message,
    and, when the node replicates, its peers are told exactly that number. *)
Theorem publish_serves_and_announces f did content timestamp now rt ref_s rt' : get_fails f = None → reread_fails f = None →
  runtime_ok rt → runtime_Publish f did content timestamp now rt = (Ok ref_s, rt') →
  ∃ n ref raw, ref_s = message_string ref ∧ GetFeedSeq (did_feed did) (tables rt') = Ok n ∧
    GetMessage (did_feed did) n (tables rt') = Ok raw ∧ NewMessageRef (HashMessage raw) = Ok ref ∧
    ∀ sm, node_state rt' = Some sm → Ebt.self sm ≠ "" →
      Ebt.Seq <$> Ebt.frontier_of (Ebt.self sm) sm !! did_addr did = Some n.
Proof.
  intros Hget Hre Hok E. pose proof (runtime_publish_spec f did content timestamp now rt Hget Hok) as H. rewrite E in H.
  destruct H as [Hok' H]. destruct (H ref_s eq_refl) as (n & ref & -> & Hc & Hid & Hann).
  destruct (chain_last _ _ _ _ Hc) as (prev & r & Hr & Hpub).
  exists (Z.of_nat (S n)), ref, (raw_value r). split_and!; try done.
  - rewrite (chain_seq (did_feed did) (S n) (Some ref)); [by rewrite decide_False|done|done|apply Hok'].
  - by apply (published_served _ _ _ _ _ _ Hpub).
  - by destruct Hpub as (? & ? & ? & ? & ? & ? & ? & ? & _).
  - intros sm. by apply Hann.
Qed.
End Node.
