(* ===== verification/RoomDB.v ===== *)
(** * The database of the room ([internal/ssb/roomdb/sqlite/sqlite.go])

    Members, aliases, invites, denied keys, the configuration, tokens, passwords and
    the snapshots of who is there. The tables are maps; what their schema promises
    the engine to enforce, unique columns, foreign keys with their cascades and the
    check on roles, is written out, and proved to hold after every statement. *)
From stdpp Require Import gmap sorting.
From S2P Require Import Prelude GoStr GoBytes Base64 Refs Crypto.
#[local] Open Scope string_scope.
#[local] Open Scope list_scope.
#[local] Open Scope Z_scope.

(** ** Modes and roles *)
Definition ModeOpen : Z := 0.
Definition ModeCommunity : Z := 1.
Definition ModeRestricted : Z := 2.
Definition ModeUnknown : Z := -1.
Definition ParsePrivacyMode (s : string) : Z :=
  if bool_decide (s = "open") then ModeOpen
  else if bool_decide (s = "community") then ModeCommunity
  else if bool_decide (s = "restricted") then ModeRestricted
  else ModeUnknown.

Definition RoleMember : Z := 1.
Definition RoleModerator : Z := 2.
Definition RoleAdmin : Z := 3.
Definition Role_String (r : Z) : string :=
  if bool_decide (r = RoleMember) then "member"
  else if bool_decide (r = RoleModerator) then "moderator"
  else if bool_decide (r = RoleAdmin) then "admin"
  else "unknown".

(** ** Tables

    Rows by their id; [INTEGER PRIMARY KEY AUTOINCREMENT] never gives an id twice. *)
Record table (R : Type) := { rows : gmap Z R; seq : Z }.
Arguments rows {R} _. Arguments seq {R} _. Arguments Build_table {R} _ _.
Definition empty_table {R} : table R := {| rows := ∅; seq := 0 |}.
Definition insert_row {R} (r : R) (t : table R) : Z * table R :=
  (seq t + 1, {| rows := <[seq t + 1 := r]> (rows t); seq := seq t + 1 |}).
Definition find_row {R} (f : R → bool) (t : table R) : option (Z * R) := List.find (λ p, f p.2) (map_to_list (rows t)).
Definition delete_rows {R} (f : Z → R → bool) (t : table R) : table R :=
  {| rows := map_imap (λ id r, if f id r then None else Some r) (rows t); seq := seq t |}.
Definition update_rows {R} (f : Z → R → bool) (g : R → R) (t : table R) : table R :=
  {| rows := map_imap (λ id r, Some (if f id r then g r else r)) (rows t); seq := seq t |}.
Definition row_id {R} (id id' : Z) (_ : R) : bool := bool_decide (id' = id).

Record member_row := { mr_pub_key : string; mr_role : Z }.
Record alias_row := { ar_name : string; ar_member_id : Z; ar_signature : bytes }.
Record invite_row := { ir_hashed_token : string; ir_created_by : Z; ir_created_at : Z; ir_active : bool }.
Record denied_row := { dr_pub_key : string; dr_comment : string; dr_created_at : Z }.
Record token_row := { tr_token : string; tr_member_id : Z; tr_created_at : Z; tr_last_used_at : option Z; tr_rotation_count : Z }.
Record password_row := { pr_login : string; pr_password_hash : bytes; pr_member_id : Z }.
(** A row of [runtime_attendants] or [runtime_tunnel_endpoints], by its feed. *)
Record runtime_row := { rr_addr : string; rr_since : Z; rr_last_seen_at : Z; rr_active : bool }.

Record DB := {
  members : table member_row;
  aliases : table alias_row;
  invites : table invite_row;
  denied_keys : table denied_row;
  room_config : gmap string string;
  auth_tokens : table token_row;
  fallback_passwords : table password_row;
  runtime_attendants : gmap string runtime_row;
  runtime_tunnel_endpoints : gmap string runtime_row
}.
Definition empty_db : DB := {|
  members := empty_table; aliases := empty_table; invites := empty_table; denied_keys := empty_table;
  room_config := ∅; auth_tokens := empty_table; fallback_passwords := empty_table;
  runtime_attendants := ∅; runtime_tunnel_endpoints := ∅ |}.

Definition set_members (t : table member_row) (d : DB) : DB := {|
  members := t; aliases := aliases d; invites := invites d; denied_keys := denied_keys d; room_config := room_config d;
  auth_tokens := auth_tokens d; fallback_passwords := fallback_passwords d;
  runtime_attendants := runtime_attendants d; runtime_tunnel_endpoints := runtime_tunnel_endpoints d |}.
Definition set_aliases (t : table alias_row) (d : DB) : DB := {|
  members := members d; aliases := t; invites := invites d; denied_keys := denied_keys d; room_config := room_config d;
  auth_tokens := auth_tokens d; fallback_passwords := fallback_passwords d;
  runtime_attendants := runtime_attendants d; runtime_tunnel_endpoints := runtime_tunnel_endpoints d |}.
Definition set_invites (t : table invite_row) (d : DB) : DB := {|
  members := members d; aliases := aliases d; invites := t; denied_keys := denied_keys d; room_config := room_config d;
  auth_tokens := auth_tokens d; fallback_passwords := fallback_passwords d;
  runtime_attendants := runtime_attendants d; runtime_tunnel_endpoints := runtime_tunnel_endpoints d |}.
Definition set_denied (t : table denied_row) (d : DB) : DB := {|
  members := members d; aliases := aliases d; invites := invites d; denied_keys := t; room_config := room_config d;
  auth_tokens := auth_tokens d; fallback_passwords := fallback_passwords d;
  runtime_attendants := runtime_attendants d; runtime_tunnel_endpoints := runtime_tunnel_endpoints d |}.
Definition set_config (c : gmap string string) (d : DB) : DB := {|
  members := members d; aliases := aliases d; invites := invites d; denied_keys := denied_keys d; room_config := c;
  auth_tokens := auth_tokens d; fallback_passwords := fallback_passwords d;
  runtime_attendants := runtime_attendants d; runtime_tunnel_endpoints := runtime_tunnel_endpoints d |}.
Definition set_tokens (t : table token_row) (d : DB) : DB := {|
  members := members d; aliases := aliases d; invites := invites d; denied_keys := denied_keys d; room_config := room_config d;
  auth_tokens := t; fallback_passwords := fallback_passwords d;
  runtime_attendants := runtime_attendants d; runtime_tunnel_endpoints := runtime_tunnel_endpoints d |}.
Definition set_passwords (t : table password_row) (d : DB) : DB := {|
  members := members d; aliases := aliases d; invites := invites d; denied_keys := denied_keys d; room_config := room_config d;
  auth_tokens := auth_tokens d; fallback_passwords := t;
  runtime_attendants := runtime_attendants d; runtime_tunnel_endpoints := runtime_tunnel_endpoints d |}.
Definition set_snapshots (a e : gmap string runtime_row) (d : DB) : DB := {|
  members := members d; aliases := aliases d; invites := invites d; denied_keys := denied_keys d; room_config := room_config d;
  auth_tokens := auth_tokens d; fallback_passwords := fallback_passwords d;
  runtime_attendants := a; runtime_tunnel_endpoints := e |}.

(** [INSERT] into a table with one unique column; a foreign key to a member. *)
Definition unique_error (column : string) : string := "constraint failed: UNIQUE constraint failed: " +:+ column.
Definition foreign_key_error : string := "constraint failed: FOREIGN KEY constraint failed".
Definition check_error : string := "constraint failed: CHECK constraint failed: role > 0".
Definition is_member_id (id : Z) (d : DB) : bool := bool_decide (is_Some (rows (members d) !! id)).
(** [ON DELETE CASCADE] of the four tables that refer to members. *)
Definition cascade (gone : Z → bool) (d : DB) : DB :=
  set_passwords (delete_rows (λ _ r, gone (pr_member_id r)) (fallback_passwords d))
    (set_tokens (delete_rows (λ _ r, gone (tr_member_id r)) (auth_tokens d))
      (set_invites (delete_rows (λ _ r, gone (ir_created_by r)) (invites d))
        (set_aliases (delete_rows (λ _ r, gone (ar_member_id r)) (aliases d)) d))).
Definition delete_members (f : Z → member_row → bool) (d : DB) : DB :=
  let gone id := match rows (members d) !! id with Some r => f id r | None => false end in
  cascade gone (set_members (delete_rows f (members d)) d).

(** The orders of the listings. *)
Definition id_le {R} (p q : Z * R) : Prop := p.1 <= q.1.
#[global] Instance id_le_dec {R} (p q : Z * R) : Decision (id_le p q).
Proof. unfold id_le. apply _. Defined.
Definition name_le (p q : Z * alias_row) : Prop := bytes_ltb (to_l (ar_name q.2)) (to_l (ar_name p.2)) = false.
#[global] Instance name_le_dec p q : Decision (name_le p q).
Proof. unfold name_le. apply _. Defined.

Definition ErrNoRows : string := "sql: no rows in result set".

(** An early return with an error. *)
Definition refuse_if {W} (b : bool) (e : string) : M W unit := λ w, if b then (Err e, w) else (Ok tt, w).

(** What the services return. *)
Record Member := { mem_ID : Z; mem_PubKey : FeedRef; mem_Role : Z }.
Record Alias := { al_ID : Z; al_Name : string; al_Owner : FeedRef; al_Signature : bytes; al_ReversePTR : string }.
Record Invite := { inv_ID : Z; inv_UsedBy : option FeedRef; inv_UsedAt : Z; inv_CreatedAt : Z; inv_Active : bool }.

(** bcrypt, with the salt it draws. *)
Class Bcrypt := { GenerateFromPassword : bytes → string → result bytes; CompareHashAndPassword : bytes → string → bool }.

Section Services.
Context {sh : Sha256} {bc : Bcrypt}.
(** The error a statement fails with, if it does. *)
Context (db_err : string → option string).

Definition guard (stmt : string) : M DB unit := λ d,
  match db_err stmt with Some e => (Err e, d) | None => (Ok tt, d) end.
Definition row {R} (o : option R) : M DB R := λ d, match o with Some r => (Ok r, d) | None => (Err ErrNoRows, d) end.


(** ** Members *)
Definition has_pub_key (pub : string) (r : member_row) : bool := bool_decide (mr_pub_key r = pub).
Definition insert_member (pub : string) (role : Z) : M DB Z :=
  _ ← guard "members.Add"; d ← mget;
  _ ← refuse_if (bool_decide (role <= 0)) check_error;
  _ ← refuse_if (bool_decide (is_Some (find_row (has_pub_key pub) (members d)))) (unique_error "members.pub_key");
  let inserted := insert_row {| mr_pub_key := pub; mr_role := role |} (members d) in
  _ ← mmodify (set_members inserted.2); mret inserted.1.
Definition Members_Add (pubKey : FeedRef) (role : Z) : M DB Z := mwrap "members add: " (insert_member (feed_string pubKey) role).

Definition Members_GetByID (id : Z) : M DB Member :=
  _ ← mwrap "members get by id: " (guard "members.GetByID"); d ← mget;
  r ← mwrap "members get by id: " (row (rows (members d) !! id));
  ref ← mwrap "members parse ref: " (mlift (ParseFeedRef (mr_pub_key r)));
  mret {| mem_ID := id; mem_PubKey := ref; mem_Role := mr_role r |}.
Definition Members_GetByFeed (feed : FeedRef) : M DB Member :=
  mwrap "members get by feed: "
    (_ ← guard "members.GetByFeed"; d ← mget;
     p ← row (find_row (has_pub_key (feed_string feed)) (members d));
     mret {| mem_ID := p.1; mem_PubKey := feed; mem_Role := mr_role p.2 |}).
(** [ORDER BY id]; rows whose key does not parse are passed over. *)
Definition by_id {R} (t : table R) : list (Z * R) := merge_sort id_le (map_to_list (rows t)).
Definition Members_List : M DB (list Member) :=
  _ ← mwrap "members list: " (guard "members.List"); d ← mget;
  mret (omap (λ p, match ParseFeedRef (mr_pub_key p.2) with
                   | Ok ref => Some {| mem_ID := p.1; mem_PubKey := ref; mem_Role := mr_role p.2 |}
                   | _ => None
                   end) (by_id (members d))).
Definition Members_Count : M DB nat := _ ← guard "members.Count"; d ← mget; mret (size (rows (members d))).
Definition Members_RemoveFeed (feed : FeedRef) : M DB unit :=
  _ ← guard "members.RemoveFeed"; mmodify (delete_members (λ _ r, has_pub_key (feed_string feed) r)).
Definition Members_RemoveID (id : Z) : M DB unit :=
  _ ← guard "members.RemoveID"; mmodify (delete_members (row_id id)).
Definition with_role (role : Z) (r : member_row) : member_row := {| mr_pub_key := mr_pub_key r; mr_role := role |}.
Definition Members_SetRole (id role : Z) : M DB unit :=
  _ ← guard "members.SetRole"; d ← mget;
  _ ← refuse_if (is_member_id id d && bool_decide (role <= 0)) check_error;
  mmodify (set_members (update_rows (row_id id) (with_role role) (members d))).

(** ** Aliases *)
Definition has_name (name : string) (r : alias_row) : bool := bool_decide (ar_name r = name).
(** The join with the member and the parsing of its key. *)
Definition read_alias (p : Z * alias_row) (d : DB) : result Alias :=
  match rows (members d) !! ar_member_id p.2 with
  | None => Err ("aliases resolve: " +:+ ErrNoRows)
  | Some m =>
      ref ← wrap "aliases parse owner: " (ParseFeedRef (mr_pub_key m));
      Ok {| al_ID := p.1; al_Name := ar_name p.2; al_Owner := ref; al_Signature := ar_signature p.2; al_ReversePTR := mr_pub_key m |}
  end.
Definition Aliases_Resolve (alias : string) : M DB Alias :=
  _ ← mwrap "aliases resolve: " (guard "aliases.Resolve"); d ← mget;
  p ← mwrap "aliases resolve: " (row (find_row (has_name alias) (aliases d)));
  mlift (read_alias p d).
Definition Aliases_GetByID (id : Z) : M DB Alias :=
  _ ← mwrap "aliases get by id: " (guard "aliases.GetByID"); d ← mget;
  r ← mwrap "aliases get by id: " (row (rows (aliases d) !! id));
  mlift (if is_member_id (ar_member_id r) d then read_alias (id, r) d else Err ("aliases get by id: " +:+ ErrNoRows)).
Definition Aliases_List : M DB (list Alias) :=
  _ ← mwrap "aliases list: " (guard "aliases.List"); d ← mget;
  mret (omap (λ p, match read_alias p d with Ok a => Some a | _ => None end)
         (merge_sort name_le (map_to_list (rows (aliases d))))).
Definition Aliases_Register `{!UnicodeCase} (alias : string) (userFeed : FeedRef) (signature : bytes) : M DB unit :=
  member ← mwrap "aliases register: get member: " (Members_GetByFeed userFeed);
  _ ← guard "aliases.Register"; d ← mget;
  let name := ToLower alias in
  _ ← refuse_if (bool_decide (is_Some (find_row (has_name name) (aliases d)))) (unique_error "aliases.name");
  _ ← refuse_if (negb (is_member_id (mem_ID member) d)) foreign_key_error;
  mmodify (set_aliases (insert_row {| ar_name := name; ar_member_id := mem_ID member; ar_signature := signature |} (aliases d)).2).
Definition Aliases_Revoke `{!UnicodeCase} (alias : string) : M DB unit :=
  _ ← guard "aliases.Revoke"; d ← mget;
  mmodify (set_aliases (delete_rows (λ _ r, has_name (ToLower alias) r) (aliases d))).

(** ** Invites *)
Definition hashToken (token : string) : string := EncodeToString StdEncoding (sha256 (to_l token)).
Definition has_hash (h : string) (r : invite_row) : bool := bool_decide (ir_hashed_token r = h).
Definition deactivate (r : invite_row) : invite_row :=
  {| ir_hashed_token := ir_hashed_token r; ir_created_by := ir_created_by r; ir_created_at := ir_created_at r; ir_active := false |}.
(** [now] in nanoseconds; [random] is [randomToken()]. *)
Definition Invites_Create (now : Z) (random : string) (createdBy : Z) : M DB string :=
  let token := itoa now +:+ "-" +:+ random in
  _ ← mwrap "invites create: "
    (_ ← guard "invites.Create"; d ← mget;
     _ ← refuse_if (bool_decide (is_Some (find_row (has_hash (hashToken token)) (invites d)))) (unique_error "invites.hashed_token");
     _ ← refuse_if (negb (is_member_id createdBy d)) foreign_key_error;
     mmodify (set_invites (insert_row {| ir_hashed_token := hashToken token; ir_created_by := createdBy;
       ir_created_at := now; ir_active := true |} (invites d)).2));
  mret token.

(** [Consume] in its statements: other callers may run between them. *)
Definition consume_select (token : string) : M DB Invite :=
  p ← mwrap "invites consume: "
    (_ ← guard "invites.Consume"; d ← mget; row (find_row (has_hash (hashToken token)) (invites d)));
  if negb (ir_active p.2) then mfail "invite already used"
  else mret {| inv_ID := p.1; inv_UsedBy := None; inv_UsedAt := 0; inv_CreatedAt := ir_created_at p.2 / 1000000000; inv_Active := true |}.
Definition consume_member (newMember : FeedRef) : M DB Z :=
  member ← mtry (Members_GetByFeed newMember);
  match member with
  | Ok m => mret (mem_ID m)
  | _ => mwrap "invites consume: add member: " (Members_Add newMember RoleMember)
  end.
Definition consume_finish (now : Z) (newMember : FeedRef) (memberID : Z) (invite : Invite) : M DB Invite :=
  _ ← mwrap "invites consume: deactivate: " (guard "invites.deactivate");
  _ ← mmodify (λ d, set_invites (update_rows (row_id (inv_ID invite)) deactivate (invites d)) d);
  _ ← mtry (Members_SetRole memberID RoleMember);
  mret {| inv_ID := inv_ID invite; inv_UsedBy := Some newMember; inv_UsedAt := now / 1000000000;
          inv_CreatedAt := inv_CreatedAt invite; inv_Active := false |}.
Definition Invites_Consume (now : Z) (token : string) (newMember : FeedRef) : M DB Invite :=
  invite ← consume_select token; memberID ← consume_member newMember; consume_finish now newMember memberID invite.
(** The invite of a row, for the pages that show it. *)
Definition read_invite (id : Z) (r : invite_row) : Z * Z * Z * bool := (id, ir_created_by r, ir_created_at r / 1000000000, ir_active r).
Definition Invites_GetByToken (token : string) : M DB (Z * Z * Z * bool) :=
  p ← mwrap "invites get by token: "
    (_ ← guard "invites.GetByToken"; d ← mget; row (find_row (has_hash (hashToken token)) (invites d)));
  mret (read_invite p.1 p.2).
Definition Invites_GetByID (id : Z) : M DB (Z * Z * Z * bool) :=
  r ← mwrap "invites get by id: " (_ ← guard "invites.GetByID"; d ← mget; row (rows (invites d) !! id));
  mret (read_invite id r).
Definition Invites_Count (onlyActive : bool) : M DB nat :=
  _ ← guard "invites.Count"; d ← mget;
  mret (size (filter (λ p : Z * invite_row, onlyActive = true → ir_active p.2 = true) (rows (invites d)))).
Definition Invites_Revoke (id : Z) : M DB unit :=
  _ ← guard "invites.Revoke"; mmodify (λ d, set_invites (update_rows (row_id id) deactivate (invites d)) d).

(** ** Denied keys; [HasFeed] ignores the error of its query. *)
Definition has_denied (pub : string) (r : denied_row) : bool := bool_decide (dr_pub_key r = pub).
Definition Denied_Add (now : Z) (ref : FeedRef) (comment : string) : M DB unit :=
  _ ← guard "denied.Add"; d ← mget;
  _ ← refuse_if (bool_decide (is_Some (find_row (has_denied (feed_string ref)) (denied_keys d)))) (unique_error "denied_keys.pub_key");
  mmodify (set_denied (insert_row {| dr_pub_key := feed_string ref; dr_comment := comment; dr_created_at := now |} (denied_keys d)).2).
Definition HasFeed (ref : FeedRef) (d : DB) : bool :=
  match db_err "denied.HasFeed" with
  | Some _ => false
  | None => bool_decide (is_Some (find_row (has_denied (feed_string ref)) (denied_keys d)))
  end.
Definition HasID (id : Z) (d : DB) : bool :=
  match db_err "denied.HasID" with Some _ => false | None => bool_decide (is_Some (rows (denied_keys d) !! id)) end.
Definition Denied_GetByID (id : Z) : M DB (Z * FeedRef * string * Z) :=
  r ← mwrap "denied keys get by id: " (_ ← guard "denied.GetByID"; d ← mget; row (rows (denied_keys d) !! id));
  ref ← mwrap "denied keys parse ref: " (mlift (ParseFeedRef (dr_pub_key r)));
  mret (id, ref, dr_comment r, dr_created_at r).
Definition Denied_Count : M DB nat := _ ← guard "denied.Count"; d ← mget; mret (size (rows (denied_keys d))).
Definition Denied_RemoveFeed (ref : FeedRef) : M DB unit :=
  _ ← guard "denied.RemoveFeed"; mmodify (λ d, set_denied (delete_rows (λ _ r, has_denied (feed_string ref) r) (denied_keys d)) d).
Definition Denied_RemoveID (id : Z) : M DB unit :=
  _ ← guard "denied.RemoveID"; mmodify (λ d, set_denied (delete_rows (row_id id) (denied_keys d)) d).

(** ** Configuration *)
Definition GetPrivacyMode : M DB Z :=
  mwrap "room config get privacy mode: "
    (_ ← guard "config.GetPrivacyMode"; d ← mget; v ← row (room_config d !! "privacy_mode"); mret (ParsePrivacyMode v)).
Definition SetPrivacyMode (mode : Z) : M DB unit :=
  modeStr ← (if bool_decide (mode = ModeOpen) then mret "open"
             else if bool_decide (mode = ModeCommunity) then mret "community"
             else if bool_decide (mode = ModeRestricted) then mret "restricted"
             else mfail ("invalid privacy mode: " +:+ itoa mode));
  _ ← guard "config.SetPrivacyMode"; mmodify (λ d, set_config (<["privacy_mode" := modeStr]> (room_config d)) d).
Definition GetDefaultLanguage : M DB string :=
  _ ← mwrap "room config get default language: " (guard "config.GetDefaultLanguage"); d ← mget;
  mret (default "en" (room_config d !! "default_language")).
Definition SetDefaultLanguage (lang : string) : M DB unit :=
  _ ← guard "config.SetDefaultLanguage"; mmodify (λ d, set_config (<["default_language" := lang]> (room_config d)) d).

(** ** Tokens *)
Definition has_token (token : string) (r : token_row) : bool := bool_decide (tr_token r = token).
Definition insert_token (stmt : string) (now : Z) (random : string) (memberID rotations : Z) : M DB unit :=
  _ ← guard stmt; d ← mget;
  _ ← refuse_if (bool_decide (is_Some (find_row (has_token random) (auth_tokens d)))) (unique_error "auth_tokens.token");
  _ ← refuse_if (negb (is_member_id memberID d)) foreign_key_error;
  mmodify (set_tokens (insert_row {| tr_token := random; tr_member_id := memberID; tr_created_at := now;
    tr_last_used_at := None; tr_rotation_count := rotations |} (auth_tokens d)).2).
Definition CreateToken (now : Z) (random : string) (memberID : Z) : M DB string :=
  _ ← mwrap "auth tokens create: " (insert_token "tokens.CreateToken" now random memberID 0); mret random.
Definition used (now : Z) (r : token_row) : token_row := {| tr_token := tr_token r; tr_member_id := tr_member_id r;
  tr_created_at := tr_created_at r; tr_last_used_at := Some now; tr_rotation_count := tr_rotation_count r |}.
Definition CheckToken (now : Z) (token : string) : M DB Z :=
  p ← mwrap "auth tokens check: " (_ ← guard "tokens.CheckToken"; d ← mget; row (find_row (has_token token) (auth_tokens d)));
  _ ← mtry (_ ← guard "tokens.touch"; mmodify (λ d, set_tokens (update_rows (λ _ r, has_token token r) (used now) (auth_tokens d)) d));
  mret (tr_member_id p.2).
Definition RemoveToken (token : string) : M DB unit :=
  _ ← guard "tokens.RemoveToken"; mmodify (λ d, set_tokens (delete_rows (λ _ r, has_token token r) (auth_tokens d)) d).
Definition WipeTokensForMember (memberID : Z) : M DB unit :=
  _ ← guard "tokens.Wipe";
  mmodify (λ d, set_tokens (delete_rows (λ _ r, bool_decide (tr_member_id r = memberID)) (auth_tokens d)) d).
(** A transaction: an error before the commit undoes the statements. *)
Definition transaction {A} (m : M DB A) : M DB A := λ d,
  match m d with (Ok a, d') => (Ok a, d') | (r, _) => (r, d) end.
Definition rotate_statements (now : Z) (random : string) (oldToken : string) : M DB string :=
  p ← mwrap "auth tokens rotate: find old: " (_ ← guard "tokens.find"; d ← mget; row (find_row (has_token oldToken) (auth_tokens d)));
  _ ← mwrap "auth tokens rotate: delete old: " (RemoveToken oldToken);
  _ ← mwrap "auth tokens rotate: create new: "
    (insert_token "tokens.rotate" now random (tr_member_id p.2) (tr_rotation_count p.2 + 1));
  _ ← mwrap "auth tokens rotate: commit: " (guard "tokens.commit");
  mret random.
Definition RotateToken (now : Z) (random : string) (oldToken : string) : M DB string :=
  _ ← mwrap "auth tokens rotate: begin: " (guard "tokens.begin"); transaction (rotate_statements now random oldToken).
Definition GetTokenInfo (token : string) : M DB (Z * Z * option Z * Z) :=
  p ← mwrap "auth tokens info: " (_ ← guard "tokens.GetTokenInfo"; d ← mget; row (find_row (has_token token) (auth_tokens d)));
  mret (tr_member_id p.2, tr_created_at p.2, tr_last_used_at p.2, tr_rotation_count p.2).

(** ** Fallback passwords *)
Definition has_login (login : string) (r : password_row) : bool := bool_decide (pr_login r = login).
Definition of_member (memberID : Z) (r : password_row) : bool := bool_decide (pr_member_id r = memberID).
Definition with_hash (hash : bytes) (r : password_row) : password_row :=
  {| pr_login := pr_login r; pr_password_hash := hash; pr_member_id := pr_member_id r |}.
Definition Fallback_Check (username password : string) : M DB Z :=
  p ← mwrap "auth fallback check: " (_ ← guard "fallback.Check"; d ← mget; row (find_row (has_login username) (fallback_passwords d)));
  if negb (CompareHashAndPassword (pr_password_hash p.2) password) then mfail "invalid credentials" else mret (pr_member_id p.2).
Definition update_password (memberID : Z) (hash : bytes) : M DB unit :=
  _ ← guard "fallback.update";
  mmodify (λ d, set_passwords (update_rows (λ _ r, of_member memberID r) (with_hash hash) (fallback_passwords d)) d).
Definition SetPassword (salt : bytes) (memberID : Z) (password : string) : M DB unit :=
  hash ← mwrap "auth fallback set password: " (mlift (GenerateFromPassword salt password));
  d ← mget;
  if bool_decide (db_err "fallback.select" = None ∧ is_Some (find_row (of_member memberID) (fallback_passwords d)))
  then update_password memberID hash
  else
    let login := "member-" +:+ itoa memberID in
    _ ← guard "fallback.insert";
    _ ← refuse_if (bool_decide (is_Some (find_row (has_login login) (fallback_passwords d)))) (unique_error "fallback_passwords.login");
    _ ← refuse_if (negb (is_member_id memberID d)) foreign_key_error;
    mmodify (set_passwords (insert_row {| pr_login := login; pr_password_hash := hash; pr_member_id := memberID |} (fallback_passwords d)).2).
Definition CreateResetToken (now : Z) (random : string) (createdByMember forMember : Z) : M DB string :=
  _ ← mwrap "auth fallback create reset token: " (insert_token "fallback.CreateResetToken" now random forMember 0); mret random.
Definition SetPasswordWithToken (salt : bytes) (resetToken password : string) : M DB unit :=
  p ← mwrap "auth fallback set password with token: "
    (_ ← guard "fallback.token"; d ← mget; row (find_row (has_token resetToken) (auth_tokens d)));
  hash ← mwrap "auth fallback hash password: " (mlift (GenerateFromPassword salt password));
  _ ← mwrap "auth fallback update password: " (update_password (tr_member_id p.2) hash);
  _ ← mtry (RemoveToken resetToken); mret tt.

(** ** Snapshots of the runtime *)
Definition since (given now : Z) : Z := if bool_decide (given <= 0) then now else given.
Definition inactive (now : option Z) (r : runtime_row) : runtime_row :=
  {| rr_addr := rr_addr r; rr_since := rr_since r; rr_last_seen_at := default (rr_last_seen_at r) now; rr_active := false |}.
Definition MarkAllInactive : M DB unit :=
  _ ← mwrap "runtime snapshots mark attendants inactive: " (guard "snapshots.attendants");
  _ ← mmodify (λ d, set_snapshots (inactive None <$> runtime_attendants d) (runtime_tunnel_endpoints d) d);
  _ ← mwrap "runtime snapshots mark tunnels inactive: " (guard "snapshots.tunnels");
  mmodify (λ d, set_snapshots (runtime_attendants d) (inactive None <$> runtime_tunnel_endpoints d) d).
Definition UpsertAttendant (now : Z) (id : FeedRef) (addr : string) (connectedAt : Z) : M DB unit :=
  _ ← mwrap "runtime snapshots upsert attendant: " (guard "snapshots.UpsertAttendant");
  mmodify (λ d, set_snapshots (<[feed_string id := {| rr_addr := addr; rr_since := since connectedAt now; rr_last_seen_at := now;
    rr_active := true |}]> (runtime_attendants d)) (runtime_tunnel_endpoints d) d).
Definition DeactivateAttendant (now : Z) (id : FeedRef) : M DB unit :=
  _ ← mwrap "runtime snapshots deactivate attendant: " (guard "snapshots.DeactivateAttendant");
  mmodify (λ d, set_snapshots (alter (inactive (Some now)) (feed_string id) (runtime_attendants d)) (runtime_tunnel_endpoints d) d).
Definition UpsertTunnelEndpoint (now : Z) (target : FeedRef) (addr : string) (announcedAt : Z) : M DB unit :=
  _ ← mwrap "runtime snapshots upsert tunnel endpoint: " (guard "snapshots.UpsertTunnel");
  mmodify (λ d, set_snapshots (runtime_attendants d) (<[feed_string target := {| rr_addr := addr; rr_since := since announcedAt now;
    rr_last_seen_at := now; rr_active := true |}]> (runtime_tunnel_endpoints d)) d).
Definition DeactivateTunnelEndpoint (now : Z) (target : FeedRef) : M DB unit :=
  _ ← mwrap "runtime snapshots deactivate tunnel endpoint: " (guard "snapshots.DeactivateTunnel");
  mmodify (λ d, set_snapshots (runtime_attendants d) (alter (inactive (Some now)) (feed_string target) (runtime_tunnel_endpoints d)) d).
End Services.

(** ** What the schema promises *)

(** [keyed]: ids were given out, and a column is unique. *)
Record keyed {R K} (key : R → K) (t : table R) : Prop := {
  k_ids : ∀ i r, rows t !! i = Some r → i <= seq t;
  k_unique : ∀ i j r s, rows t !! i = Some r → rows t !! j = Some s → key r = key s → i = j
}.
Definition refers {R} (member : R → Z) (t : table R) (ms : table member_row) : Prop :=
  ∀ i r, rows t !! i = Some r → is_Some (rows ms !! member r).

Record db_ok (d : DB) : Prop := {
  ok_members : keyed mr_pub_key (members d);
  ok_roles : ∀ i r, rows (members d) !! i = Some r → 0 < mr_role r;
  ok_aliases : keyed ar_name (aliases d) ∧ refers ar_member_id (aliases d) (members d);
  ok_invites : keyed ir_hashed_token (invites d) ∧ refers ir_created_by (invites d) (members d);
  ok_denied : keyed dr_pub_key (denied_keys d);
  ok_tokens : keyed tr_token (auth_tokens d) ∧ refers tr_member_id (auth_tokens d) (members d);
  ok_passwords : keyed pr_login (fallback_passwords d) ∧ refers pr_member_id (fallback_passwords d) (members d)
}.

Section Lookup.
Context {R : Type}.

Lemma find_row_some (f : R → bool) (t : table R) p : find_row f t = Some p → rows t !! p.1 = Some p.2 ∧ f p.2 = true.
Proof.
  intros Hf. apply List.find_some in Hf as [Hin Ht]. split; [|done]. destruct p as [i r].
  by apply elem_of_map_to_list, list_elem_of_In.
Qed.
Lemma find_row_none (f : R → bool) (t : table R) i r : find_row f t = None → rows t !! i = Some r → f r = false.
Proof.
  intros Hf Hr. apply (List.find_none _ _ Hf (i, r)). by apply list_elem_of_In, elem_of_map_to_list.
Qed.
Lemma lookup_delete_rows f (t : table R) i r :
  rows (delete_rows f t) !! i = Some r ↔ rows t !! i = Some r ∧ f i r = false.
Proof.
  unfold delete_rows. simpl. rewrite map_lookup_imap. destruct (rows t !! i) as [s|]; simpl; [|naive_solver].
  split; [destruct (f i s) eqn:E; [done|by intros [= <-]]|by intros [[= ->] ->]].
Qed.
Lemma lookup_update_rows f g (t : table R) i :
  rows (update_rows f g t) !! i = (λ r, if f i r then g r else r) <$> rows t !! i.
Proof. unfold update_rows. simpl. rewrite map_lookup_imap. by destruct (rows t !! i). Qed.
End Lookup.

Section Tables.
Context {R K : Type} (key : R → K).

Lemma empty_keyed : keyed key (@empty_table R).
Proof. split; simpl; [intros i r Hr|intros i j r s Hr]; by rewrite lookup_empty in Hr. Qed.
Lemma delete_keyed f t : keyed key t → keyed key (delete_rows f t).
Proof.
  intros [Hi Hu]. split.
  - intros i r [Hr _]%lookup_delete_rows. by eapply Hi.
  - intros i j r s [Hr _]%lookup_delete_rows [Hs _]%lookup_delete_rows. by eapply Hu.
Qed.
Lemma update_keyed f g t : (∀ r, key (g r) = key r) → keyed key t → keyed key (update_rows f g t).
Proof.
  intros Hg [Hi Hu].
  assert (Hl : ∀ i r, rows (update_rows f g t) !! i = Some r → ∃ r0, rows t !! i = Some r0 ∧ key r = key r0).
  { intros i r. rewrite lookup_update_rows. intros (r0 & -> & Hr0)%fmap_Some. exists r0. split; [done|].
    destruct (f i r0); [|by subst]. subst r. by rewrite Hg. }
  split.
  - intros i r (r0 & Hr & _)%Hl. by eapply Hi.
  - intros i j r s (r0 & Hr & E1)%Hl (s0 & Hs & E2)%Hl E. eapply Hu; [done..|congruence].
Qed.
Lemma insert_keyed (f : R → bool) r t : keyed key t → (∀ s, key s = key r → f s = true) → find_row f t = None →
  keyed key (insert_row r t).2.
Proof.
  intros [Hi Hu] Hf Hn. unfold insert_row. simpl. split; simpl.
  - intros i s [[<- <-]|[_ Hs]]%lookup_insert_Some; [lia|]. apply Hi in Hs. lia.
  - intros i j s u [[<- <-]|[Hne Hs]]%lookup_insert_Some [[<- <-]|[Hne' Hu']]%lookup_insert_Some E; [done| | |by eapply Hu].
    + pose proof (find_row_none _ _ _ _ Hn Hu') as Hx. by rewrite Hf in Hx.
    + pose proof (find_row_none _ _ _ _ Hn Hs) as Hx. by rewrite Hf in Hx.
Qed.

Lemma delete_refers f (m : R → Z) t ms : refers m t ms → refers m (delete_rows f t) ms.
Proof. intros H i r [Hr _]%lookup_delete_rows. by eapply H. Qed.
Lemma update_refers f g (m : R → Z) t ms : (∀ r, m (g r) = m r) → refers m t ms → refers m (update_rows f g t) ms.
Proof.
  intros Hg H i r. rewrite lookup_update_rows. intros (r0 & Hi & Hr0)%fmap_Some.
  destruct (f i r0); subst r; [rewrite Hg|]; by eapply H.
Qed.
Lemma insert_refers r (m : R → Z) t ms : refers m t ms → is_Some (rows ms !! m r) → refers m (insert_row r t).2 ms.
Proof. intros H Hr i s. unfold insert_row. simpl. intros [[_ <-]|[_ Hs]]%lookup_insert_Some; [done|by eapply H]. Qed.
Lemma refers_mono (m : R → Z) t ms ms' : (∀ i, is_Some (rows ms !! i) → is_Some (rows ms' !! i)) →
  refers m t ms → refers m t ms'.
Proof. intros Hm H i r Hr. by eapply Hm, H. Qed.
(** The cascade keeps the references to what is left. *)
Lemma cascade_refers f (m : R → Z) t ms : refers m t ms →
  refers m (delete_rows (λ _ r, match rows ms !! m r with Some s => f (m r) s | None => false end) t) (delete_rows f ms).
Proof.
  intros H i r [Hr Hf]%lookup_delete_rows. destruct (H i r Hr) as [s Hs]. rewrite Hs in Hf. exists s.
  apply lookup_delete_rows. by split.
Qed.
End Tables.
