(* ===== verification/RoomDBProofs.v ===== *)
(** * What the database of the room guarantees

    A service is a sequence of statements; every statement keeps the constraints of
    the schema; an invite is used once; the tokens are a map from a token to its
    member. *)
From stdpp Require Import gmap relations.
From S2P Require Import Prelude GoStr GoBytes Base64 Refs Crypto RoomDB.
#[local] Open Scope string_scope.
#[local] Open Scope list_scope.
#[local] Open Scope Z_scope.

(** ** Statements

    What one statement may do to the tables; [fresh] says which invites are made. *)
Definition same_token (g : token_row → token_row) : Prop :=
  ∀ r, tr_token (g r) = tr_token r ∧ tr_member_id (g r) = tr_member_id r ∧ tr_rotation_count (g r) = tr_rotation_count r.
Inductive statement (fresh : string → Prop) (d : DB) : DB → Prop :=
| s_add_member r : 0 < mr_role r → find_row (has_pub_key (mr_pub_key r)) (members d) = None →
    statement fresh d (set_members (insert_row r (members d)).2 d)
| s_remove_members f : statement fresh d (delete_members f d)
| s_set_role id role : is_member_id id d = false ∨ 0 < role →
    statement fresh d (set_members (update_rows (row_id id) (with_role role) (members d)) d)
| s_add_alias r : find_row (has_name (ar_name r)) (aliases d) = None → is_member_id (ar_member_id r) d = true →
    statement fresh d (set_aliases (insert_row r (aliases d)).2 d)
| s_remove_aliases f : statement fresh d (set_aliases (delete_rows f (aliases d)) d)
| s_add_invite r : fresh (ir_hashed_token r) → find_row (has_hash (ir_hashed_token r)) (invites d) = None →
    is_member_id (ir_created_by r) d = true → statement fresh d (set_invites (insert_row r (invites d)).2 d)
| s_deactivate f : statement fresh d (set_invites (update_rows f deactivate (invites d)) d)
| s_deny r : find_row (has_denied (dr_pub_key r)) (denied_keys d) = None →
    statement fresh d (set_denied (insert_row r (denied_keys d)).2 d)
| s_undeny f : statement fresh d (set_denied (delete_rows f (denied_keys d)) d)
| s_config c : statement fresh d (set_config c d)
| s_add_token r : find_row (has_token (tr_token r)) (auth_tokens d) = None → is_member_id (tr_member_id r) d = true →
    statement fresh d (set_tokens (insert_row r (auth_tokens d)).2 d)
| s_remove_tokens f : statement fresh d (set_tokens (delete_rows f (auth_tokens d)) d)
| s_touch_tokens f g : same_token g → statement fresh d (set_tokens (update_rows f g (auth_tokens d)) d)
| s_add_password r : find_row (has_login (pr_login r)) (fallback_passwords d) = None → is_member_id (pr_member_id r) d = true →
    statement fresh d (set_passwords (insert_row r (fallback_passwords d)).2 d)
| s_set_passwords f h : statement fresh d (set_passwords (update_rows f (with_hash h) (fallback_passwords d)) d)
| s_snapshots a e : statement fresh d (set_snapshots a e d).

(** A method run at [d] performs statements, however it ends. *)
Definition performs {A} (fresh : string → Prop) (d : DB) (m : M DB A) : Prop := rtc (statement fresh) d (m d).2.
Section Performs.
Context (fresh : string → Prop).
Notation performs := (performs fresh).

Lemma performs_ret {A} d (a : A) : performs d (mret a).
Proof. apply rtc_refl. Qed.
Lemma performs_fail {A} d e : performs d (mfail (A := A) e).
Proof. apply rtc_refl. Qed.
Lemma performs_lift {A} d (r : result A) : performs d (mlift r).
Proof. apply rtc_refl. Qed.
Lemma performs_row {A} d (o : option A) : performs d (row o).
Proof. unfold RoomDBProofs.performs, row. destruct o; apply rtc_refl. Qed.
Lemma performs_guard db_err d stmt : performs d (guard db_err stmt).
Proof. unfold RoomDBProofs.performs, guard. destruct (db_err stmt); apply rtc_refl. Qed.
Lemma performs_modify d f : statement fresh d (f d) → performs d (mmodify f).
Proof. intros H. by apply rtc_once. Qed.
Lemma performs_bind {A B} d (m : M DB A) (k : A → M DB B) :
  performs d m → (∀ a d', m d = (Ok a, d') → performs d' (k a)) → performs d (m ≫= k).
Proof.
  unfold RoomDBProofs.performs, mbind, M_mbind. intros Hm Hk. destruct (m d) as [[a|e|] d'] eqn:E; simpl in *; [|done..].
  etrans; [done|]. by apply Hk.
Qed.
Lemma performs_get {B} d (k : DB → M DB B) : performs d (k d) → performs d (mget ≫= k).
Proof. done. Qed.
Lemma performs_guarded {B} db_err d stmt (k : unit → M DB B) : performs d (k tt) → performs d (guard db_err stmt ≫= k).
Proof. unfold RoomDBProofs.performs, mbind, M_mbind, guard. by destruct (db_err stmt). Qed.
Lemma performs_refuse {B} d b e (k : unit → M DB B) : (b = false → performs d (k tt)) → performs d (refuse_if b e ≫= k).
Proof. unfold RoomDBProofs.performs, mbind, M_mbind, refuse_if. destruct b; simpl; [done|]. intros H. by apply H. Qed.
Lemma performs_try {A} d (m : M DB A) : performs d m → performs d (mtry m).
Proof. unfold RoomDBProofs.performs, mtry. by destruct (m d) as [[]]. Qed.
Lemma performs_wrap {A} d c (m : M DB A) : performs d m → performs d (mwrap c m).
Proof. unfold RoomDBProofs.performs, mwrap. by destruct (m d). Qed.
Lemma performs_transaction {A} d (m : M DB A) : performs d m → performs d (transaction m).
Proof. unfold RoomDBProofs.performs, transaction. destruct (m d) as [[]]; [done|intros; apply rtc_refl..]. Qed.
End Performs.
#[export] Hint Resolve performs_ret performs_fail performs_lift performs_row performs_guard : go.

Lemma no_such_row {R} (b : option R) : bool_decide (is_Some b) = false → b = None.
Proof. intros H%bool_decide_eq_false. by apply eq_None_not_Some. Qed.

(** Walks through a method to the statements it performs. *)
Ltac perform :=
  repeat match goal with
  | |- RoomDBProofs.performs _ _ (guard _ _ ≫= _) => apply performs_guarded
  | |- RoomDBProofs.performs _ _ (mget ≫= _) => apply performs_get
  | |- RoomDBProofs.performs _ _ (refuse_if _ _ ≫= _) => apply performs_refuse; intros ?
  | |- RoomDBProofs.performs _ _ (mwrap _ _) => apply performs_wrap
  | |- RoomDBProofs.performs _ _ (mtry _) => apply performs_try
  | |- RoomDBProofs.performs _ _ (transaction _) => apply performs_transaction
  | |- RoomDBProofs.performs _ _ (_ ≫= _) => apply performs_bind; [|intros ? ? ?]
  | |- RoomDBProofs.performs _ _ (mmodify _) => apply performs_modify
  | |- RoomDBProofs.performs _ _ (match ?e with _ => _ end) => destruct e eqn:?
  | |- RoomDBProofs.performs _ _ _ => solve [auto with go]
  end.

(** ** The services perform statements *)
Section Services.
Context {sh : Sha256} {bc : Bcrypt} (fresh : string → Prop) (db_err : string → option string) (d : DB).
Notation performs := (performs fresh d).

Lemma members_add pub role : performs (insert_member db_err pub role).
Proof. unfold insert_member. perform. apply s_add_member; [|by apply no_such_row]. by apply bool_decide_eq_false, Z.nle_gt in H. Qed.
Lemma members_by_feed feed : performs (Members_GetByFeed db_err feed).
Proof. unfold Members_GetByFeed. perform. Qed.
Lemma members_remove_feed feed : performs (Members_RemoveFeed db_err feed).
Proof. unfold Members_RemoveFeed. perform. constructor. Qed.
Lemma members_remove_id id : performs (Members_RemoveID db_err id).
Proof. unfold Members_RemoveID. perform. constructor. Qed.
Lemma members_set_role id role : performs (Members_SetRole db_err id role).
Proof.
  unfold Members_SetRole. perform. constructor. destruct (is_member_id id d); [right|by left]. simpl in H.
  by apply bool_decide_eq_false, Z.nle_gt in H.
Qed.
Lemma aliases_revoke `{!UnicodeCase} alias : performs (Aliases_Revoke db_err alias).
Proof. unfold Aliases_Revoke. perform. constructor. Qed.
Lemma invites_create now random createdBy : fresh (hashToken (itoa now +:+ "-" +:+ random)) →
  performs (Invites_Create db_err now random createdBy).
Proof.
  intros Hf. unfold Invites_Create. perform. apply s_add_invite; [done|by apply no_such_row|]. by apply negb_false_iff.
Qed.
Lemma consume_select_performs token : performs (consume_select db_err token).
Proof. unfold consume_select. perform. Qed.
Lemma invites_revoke id : performs (Invites_Revoke db_err id).
Proof. unfold Invites_Revoke. perform. constructor. Qed.
Lemma denied_add now ref comment : performs (Denied_Add db_err now ref comment).
Proof. unfold Denied_Add. perform. apply s_deny. by apply no_such_row. Qed.
Lemma denied_remove_feed ref : performs (Denied_RemoveFeed db_err ref).
Proof. unfold Denied_RemoveFeed. perform. constructor. Qed.
Lemma denied_remove_id id : performs (Denied_RemoveID db_err id).
Proof. unfold Denied_RemoveID. perform. constructor. Qed.
Lemma config_mode mode : performs (SetPrivacyMode db_err mode).
Proof. unfold SetPrivacyMode. perform; constructor. Qed.
Lemma config_language lang : performs (SetDefaultLanguage db_err lang).
Proof. unfold SetDefaultLanguage. perform. constructor. Qed.
Lemma insert_token_performs stmt now random memberID n : performs (insert_token db_err stmt now random memberID n).
Proof. unfold insert_token. perform. apply s_add_token; [by apply no_such_row|by apply negb_false_iff]. Qed.
Lemma tokens_check now token : performs (CheckToken db_err now token).
Proof. unfold CheckToken. perform. by apply s_touch_tokens. Qed.
Lemma tokens_remove token : performs (RemoveToken db_err token).
Proof. unfold RemoveToken. perform. constructor. Qed.
Lemma tokens_wipe memberID : performs (WipeTokensForMember db_err memberID).
Proof. unfold WipeTokensForMember. perform. constructor. Qed.
Lemma update_password_performs memberID hash : performs (update_password db_err memberID hash).
Proof. unfold update_password. perform. constructor. Qed.
Lemma snapshots_inactive : performs (MarkAllInactive db_err).
Proof. unfold MarkAllInactive. perform; constructor. Qed.
Lemma snapshots_attendant now id addr t : performs (UpsertAttendant db_err now id addr t).
Proof. unfold UpsertAttendant. perform; constructor. Qed.
Lemma snapshots_left now id : performs (DeactivateAttendant db_err now id).
Proof. unfold DeactivateAttendant. perform; constructor. Qed.
Lemma snapshots_endpoint now id addr t : performs (UpsertTunnelEndpoint db_err now id addr t).
Proof. unfold UpsertTunnelEndpoint. perform; constructor. Qed.
Lemma snapshots_gone now id : performs (DeactivateTunnelEndpoint db_err now id).
Proof. unfold DeactivateTunnelEndpoint. perform; constructor. Qed.
End Services.
#[export] Hint Resolve members_add members_by_feed members_remove_feed members_remove_id members_set_role aliases_revoke
  invites_create consume_select_performs invites_revoke denied_add denied_remove_feed denied_remove_id config_mode
  config_language insert_token_performs tokens_check tokens_remove tokens_wipe update_password_performs snapshots_inactive
  snapshots_attendant snapshots_left snapshots_endpoint snapshots_gone : go.

Section Composed.
Context {sh : Sha256} {bc : Bcrypt} (fresh : string → Prop) (db_err : string → option string) (d : DB).
Notation performs := (performs fresh d).

Lemma aliases_register `{!UnicodeCase} alias feed signature : performs (Aliases_Register db_err alias feed signature).
Proof.
  unfold Aliases_Register. perform. apply s_add_alias; [by apply no_such_row|by apply negb_false_iff].
Qed.
Lemma consume_member_performs feed : performs (consume_member db_err feed).
Proof. unfold consume_member, Members_Add. perform. Qed.
Lemma consume_finish_performs now feed id i : performs (consume_finish db_err now feed id i).
Proof. unfold consume_finish. perform. constructor. Qed.
Lemma tokens_create now random memberID : performs (CreateToken db_err now random memberID).
Proof. unfold CreateToken. perform. Qed.
Lemma tokens_rotate now random old : performs (RotateToken db_err now random old).
Proof. unfold RotateToken, rotate_statements. perform. Qed.
Lemma fallback_set salt memberID password : performs (SetPassword db_err salt memberID password).
Proof. unfold SetPassword. perform. apply s_add_password; [by apply no_such_row|by apply negb_false_iff]. Qed.
Lemma fallback_reset now random by' for' : performs (CreateResetToken db_err now random by' for').
Proof. unfold CreateResetToken. perform. Qed.
Lemma fallback_with_token salt token password : performs (SetPasswordWithToken db_err salt token password).
Proof. unfold SetPasswordWithToken. perform. Qed.
End Composed.
#[export] Hint Resolve aliases_register consume_member_performs consume_finish_performs tokens_create tokens_rotate
  fallback_set fallback_reset fallback_with_token : go.

Lemma invites_consume {sh : Sha256} fresh db_err d now token feed : performs fresh d (Invites_Consume db_err now token feed).
Proof. unfold Invites_Consume. perform. Qed.
#[export] Hint Resolve invites_consume : go.

(** ** Every statement keeps the constraints *)
Lemma insert_keeps_ids {R} (r : R) t i : is_Some (rows t !! i) → is_Some (rows (insert_row r t).2 !! i).
Proof. intros H. unfold insert_row. simpl. destruct (decide (seq t + 1 = i)) as [<-|]; [rewrite lookup_insert_eq|rewrite lookup_insert_ne by done]; eauto. Qed.
Lemma update_keeps_ids {R} f g (t : table R) i : is_Some (rows t !! i) → is_Some (rows (update_rows f g t) !! i).
Proof. intros [r H]. rewrite lookup_update_rows, H. eauto. Qed.
Lemma member_id_spec id d : is_member_id id d = true → is_Some (rows (members d) !! id).
Proof. apply bool_decide_eq_true. Qed.

Lemma members_table_ok t d : db_ok d → keyed mr_pub_key t → (∀ i r, rows t !! i = Some r → 0 < mr_role r) →
  (∀ i, is_Some (rows (members d) !! i) → is_Some (rows t !! i)) → db_ok (set_members t d).
Proof.
  intros [? ? [] [] ? [] []] Hk Hr Hi. split; try done; simpl; split; try done; by eapply refers_mono.
Qed.
Lemma delete_members_ok f d : db_ok d → db_ok (delete_members f d).
Proof.
  intros [Hm Hr [] [] ? [] []]. unfold delete_members, cascade. split; simpl.
  - by apply delete_keyed.
  - intros i r [Hi _]%lookup_delete_rows. by eapply Hr.
  - split; [by apply delete_keyed|by apply cascade_refers].
  - split; [by apply delete_keyed|by apply cascade_refers].
  - done.
  - split; [by apply delete_keyed|by apply cascade_refers].
  - split; [by apply delete_keyed|by apply cascade_refers].
Qed.
Lemma insert_keyed_on {R} (key : R → string) (has : string → R → bool) r t :
  (∀ k s, has k s = bool_decide (key s = k)) → keyed key t → find_row (has (key r)) t = None → keyed key (insert_row r t).2.
Proof.
  intros Hf Hk Hn. eapply insert_keyed; [done| |exact Hn]. intros s Hs. rewrite Hf. by apply bool_decide_eq_true.
Qed.
Lemma add_member_ok r d : db_ok d → 0 < mr_role r → find_row (has_pub_key (mr_pub_key r)) (members d) = None →
  db_ok (set_members (insert_row r (members d)).2 d).
Proof.
  intros Hd Hr Hn. pose proof Hd as [Hm Hro _ _ _ _ _]. apply members_table_ok; [done| | |].
  - by apply (insert_keyed_on _ has_pub_key).
  - unfold insert_row. simpl. intros i s [[_ <-]|[_ Hs]]%lookup_insert_Some; [done|by eapply Hro].
  - intros i. apply insert_keeps_ids.
Qed.
Lemma set_role_ok id role d : db_ok d → is_member_id id d = false ∨ 0 < role →
  db_ok (set_members (update_rows (row_id id) (with_role role) (members d)) d).
Proof.
  intros Hd Hr. pose proof Hd as [Hm Hro _ _ _ _ _]. apply members_table_ok; [done| | |].
  - by apply update_keyed.
  - intros i s. rewrite lookup_update_rows. intros (s0 & Hs & ->)%fmap_Some. unfold row_id.
    case_bool_decide; [subst i|by eapply Hro]. destruct Hr as [Hr|Hr]; [|done].
    unfold is_member_id in Hr. rewrite Hs in Hr. done.
  - intros i. apply update_keeps_ids.
Qed.
Lemma statement_ok fresh d d' : statement fresh d d' → db_ok d → db_ok d'.
Proof.
  intros Hs Hd. destruct Hs; try (by apply delete_members_ok); try (by apply add_member_ok); try (by apply set_role_ok);
    destruct Hd as [? ? [] [] ? [] []]; (split; try done; simpl; try match goal with |- _ ∧ _ => split end);
    try (by apply delete_keyed); try (by apply delete_refers); try (by apply update_keyed); try (by apply update_refers);
    try (by apply insert_refers; [|apply member_id_spec]).
  - by apply (insert_keyed_on _ has_name).
  - by apply (insert_keyed_on _ has_hash).
  - by apply (insert_keyed_on _ has_denied).
  - by apply (insert_keyed_on _ has_token).
  - apply update_keyed; [|done]. intros s. apply H.
  - apply update_refers; [|done]. intros s. apply H.
  - by apply (insert_keyed_on _ has_login).
Qed.
Lemma lookup_empty_table {R} i : rows (@empty_table R) !! i = None.
Proof. apply lookup_empty. Qed.
Lemma empty_refers {R} (m : R → Z) ms : refers m (@empty_table R) ms.
Proof. intros i r Hi. by rewrite lookup_empty_table in Hi. Qed.
Lemma empty_ok : db_ok empty_db.
Proof.
  split; simpl; repeat match goal with |- _ ∧ _ => split end; try apply empty_keyed; try apply empty_refers.
  intros i r Hi. by rewrite (lookup_empty_table (R := member_row)) in Hi.
Qed.
Lemma statements_ok fresh d d' : rtc (statement fresh) d d' → db_ok d → db_ok d'.
Proof. induction 1; [done|]. intros. eauto using statement_ok. Qed.

(** ** The services, as operations

    Each with the errors its statements meet; the statements of a consumption may be
    apart. *)
Inductive operation :=
| op_add_member (feed : FeedRef) (role : Z) | op_set_role (id role : Z) | op_remove_feed (feed : FeedRef) | op_remove_id (id : Z)
| op_register (alias : string) (feed : FeedRef) (signature : bytes) | op_revoke_alias (alias : string)
| op_create_invite (now : Z) (random : string) (createdBy : Z) | op_consume (now : Z) (token : string) (feed : FeedRef)
| op_consume_member (feed : FeedRef) | op_consume_finish (now : Z) (feed : FeedRef) (memberID : Z) (i : Invite)
| op_revoke_invite (id : Z) | op_deny (now : Z) (feed : FeedRef) (comment : string) | op_undeny (feed : FeedRef) | op_undeny_id (id : Z)
| op_mode (mode : Z) | op_language (lang : string)
| op_create_token (now : Z) (random : string) (memberID : Z) | op_check_token (now : Z) (token : string)
| op_remove_token (token : string) | op_wipe (memberID : Z) | op_rotate (now : Z) (random token : string)
| op_set_password (salt : bytes) (memberID : Z) (password : string) | op_reset_token (now : Z) (random : string) (createdBy forMember : Z)
| op_reset (salt : bytes) (token password : string)
| op_all_inactive | op_attendant (now : Z) (feed : FeedRef) (addr : string) (since : Z) | op_attendant_left (now : Z) (feed : FeedRef)
| op_endpoint (now : Z) (feed : FeedRef) (addr : string) (since : Z) | op_endpoint_left (now : Z) (feed : FeedRef).

Section Operations.
Context {sh : Sha256} {bc : Bcrypt} {uc : UnicodeCase}.
Definition run (db_err : string → option string) (o : operation) (d : DB) : DB :=
  match o with
  | op_add_member feed role => (Members_Add db_err feed role d).2
  | op_set_role id role => (Members_SetRole db_err id role d).2
  | op_remove_feed feed => (Members_RemoveFeed db_err feed d).2
  | op_remove_id id => (Members_RemoveID db_err id d).2
  | op_register alias feed signature => (Aliases_Register db_err alias feed signature d).2
  | op_revoke_alias alias => (Aliases_Revoke db_err alias d).2
  | op_create_invite now random createdBy => (Invites_Create db_err now random createdBy d).2
  | op_consume now token feed => (Invites_Consume db_err now token feed d).2
  | op_consume_member feed => (consume_member db_err feed d).2
  | op_consume_finish now feed memberID i => (consume_finish db_err now feed memberID i d).2
  | op_revoke_invite id => (Invites_Revoke db_err id d).2
  | op_deny now feed comment => (Denied_Add db_err now feed comment d).2
  | op_undeny feed => (Denied_RemoveFeed db_err feed d).2
  | op_undeny_id id => (Denied_RemoveID db_err id d).2
  | op_mode mode => (SetPrivacyMode db_err mode d).2
  | op_language lang => (SetDefaultLanguage db_err lang d).2
  | op_create_token now random memberID => (CreateToken db_err now random memberID d).2
  | op_check_token now token => (CheckToken db_err now token d).2
  | op_remove_token token => (RemoveToken db_err token d).2
  | op_wipe memberID => (WipeTokensForMember db_err memberID d).2
  | op_rotate now random token => (RotateToken db_err now random token d).2
  | op_set_password salt memberID password => (SetPassword db_err salt memberID password d).2
  | op_reset_token now random createdBy forMember => (CreateResetToken db_err now random createdBy forMember d).2
  | op_reset salt token password => (SetPasswordWithToken db_err salt token password d).2
  | op_all_inactive => (MarkAllInactive db_err d).2
  | op_attendant now feed addr t => (UpsertAttendant db_err now feed addr t d).2
  | op_attendant_left now feed => (DeactivateAttendant db_err now feed d).2
  | op_endpoint now feed addr t => (UpsertTunnelEndpoint db_err now feed addr t d).2
  | op_endpoint_left now feed => (DeactivateTunnelEndpoint db_err now feed d).2
  end.
Definition run_all (ops : list ((string → option string) * operation)) (d : DB) : DB := foldl (λ d o, run o.1 o.2 d) d ops.
(** The hash of the invite an operation makes. *)
Definition makes (o : operation) : option string :=
  match o with op_create_invite now random _ => Some (hashToken (itoa now +:+ "-" +:+ random)) | _ => None end.

Lemma run_performs fresh db_err o d : (∀ h, makes o = Some h → fresh h) → rtc (statement fresh) d (run db_err o d).
Proof.
  intros Hf. change (rtc (statement fresh) d (run db_err o d)).
  destruct o; simpl; try (match goal with |- rtc _ _ (?m d).2 => change (performs fresh d m) end; by auto with go).
  unfold Members_Add. apply performs_wrap, members_add.
Qed.
Lemma run_all_performs fresh ops d : (∀ o h, o ∈ ops.*2 → makes o = Some h → fresh h) → rtc (statement fresh) d (run_all ops d).
Proof.
  revert d. induction ops as [|[e o] ops IH]; intros d Hf; [done|]. simpl. etrans; [|apply IH; set_solver].
  apply run_performs. set_solver.
Qed.

(** From an empty database, after any operations and whatever errors their statements meet: no id was given out
    twice and no column repeats a unique value; every alias, invite, token and password belongs to a member there
    is; every role is positive. *)
Theorem room_db_keeps_its_constraints ops : db_ok (run_all ops empty_db).
Proof. eapply (statements_ok (λ _, True)); [by apply run_all_performs|apply empty_ok]. Qed.
End Operations.
