(* ===== verification/RoomDBSpec.v ===== *)
(** * Invites, members and tokens of the room, by their keys

    What a consumption of an invite does to the members, that it happens once, and
    the tokens as a map from a token to its member and its rotations. *)
From stdpp Require Import gmap relations.
From S2P Require Import Prelude GoStr GoBytes Base64 Refs Crypto RoomDB RoomDBProofs.
#[local] Open Scope string_scope.
#[local] Open Scope list_scope.
#[local] Open Scope Z_scope.

(** ** Tables by a unique column *)
Section Keyed.
Context {R : Type} (key : R → string) (has : string → R → bool).
Context (has_key : ∀ k r, has k r = bool_decide (key r = k)).

Lemma find_keyed t k i r : keyed key t → find_row (has k) t = Some (i, r) ↔ rows t !! i = Some r ∧ key r = k.
Proof.
  intros [_ Hu]. split.
  - intros [Hr Hk]%find_row_some. simpl in *. rewrite has_key in Hk. by apply bool_decide_eq_true in Hk.
  - intros [Hr Hk]. destruct (find_row (has k) t) as [[j s]|] eqn:E.
    + apply find_row_some in E as [Hs Hks]. simpl in *. rewrite has_key in Hks. apply bool_decide_eq_true in Hks.
      assert (j = i) as -> by (by apply (Hu j i s r); congruence). congruence.
    + apply (find_row_none _ _ _ _ E) in Hr. rewrite has_key in Hr. by apply bool_decide_eq_false in Hr.
Qed.
Lemma find_insert t r k : keyed key t → find_row (has (key r)) t = None →
  find_row (has k) (insert_row r t).2 = if bool_decide (key r = k) then Some (seq t + 1, r) else find_row (has k) t.
Proof.
  intros Hk Hn. pose proof (insert_keyed_on key has r t has_key Hk Hn) as Hk'.
  apply option_eq. intros [i s]. rewrite (find_keyed _ k i s Hk'). unfold insert_row. simpl. rewrite lookup_insert_Some.
  assert (rows t !! (seq t + 1) = None) as Hf.
  { destruct (rows t !! (seq t + 1)) eqn:E; [|done]. apply (k_ids key t Hk) in E. lia. }
  case_bool_decide as E.
  - split; [|intros [= <- <-]; auto]. intros [[[<- <-]|[Hne Hs]] Hks]; [done|].
    apply (find_row_none _ _ _ _ Hn) in Hs. rewrite has_key in Hs. apply bool_decide_eq_false in Hs. congruence.
  - rewrite (find_keyed _ k i s Hk). split; [intros [[[<- <-]|[Hne Hs]] Hks]; done|].
    intros [Hs Hks]. split; [right|done]. split; [|done]. intros <-. congruence.
Qed.
Lemma find_delete f t k : keyed key t →
  find_row (has k) (delete_rows f t) = find_row (has k) t ≫= λ p, if f p.1 p.2 then None else Some p.
Proof.
  intros Hk. apply option_eq. intros [i s]. rewrite (find_keyed _ k i s (delete_keyed key f t Hk)), lookup_delete_rows, bind_Some.
  split.
  - intros [[Hs Hf] Hks]. exists (i, s). rewrite (find_keyed _ k i s Hk). simpl. by rewrite Hf.
  - intros ([j u] & Hj & Hf). simpl in Hf. destruct (f j u) eqn:E; [done|]. injection Hf as -> ->.
    apply (find_keyed _ k i s Hk) in Hj as [Hs Hks]. auto.
Qed.
Lemma find_update f g t k : keyed key t → (∀ r, key (g r) = key r) →
  find_row (has k) (update_rows f g t) = (λ p, (p.1, if f p.1 p.2 then g p.2 else p.2)) <$> find_row (has k) t.
Proof.
  intros Hk Hg. apply option_eq. intros [i s].
  rewrite (find_keyed _ k i s (update_keyed key f g t Hg Hk)), lookup_update_rows, !fmap_Some. split.
  - intros [(r & Hr & ->) Hks]. exists (i, r). rewrite (find_keyed _ k i r Hk). split; [|done]. split; [done|].
    destruct (f i r); [by rewrite <-Hg|done].
  - intros ([j u] & [Hu Hks]%(find_keyed _ k j u Hk) & [= -> ->]). split; [by eexists|]. destruct (f j u); [by rewrite Hg|done].
Qed.
End Keyed.
#[local] Opaque insert_row delete_rows update_rows.

(** The role of a feed, and the member and rotations of a token. *)
Definition role_of (feed : FeedRef) (d : DB) : option Z := (λ p, mr_role p.2) <$> find_row (has_pub_key (feed_string feed)) (members d).
Definition token_of (token : string) (d : DB) : option (Z * Z) :=
  (λ p, (tr_member_id p.2, tr_rotation_count p.2)) <$> find_row (has_token token) (auth_tokens d).

(** ** Tokens *)
Section Tokens.
Context (db_err : string → option string).

Lemma token_insert d stmt now random m n d' : db_ok d → insert_token db_err stmt now random m n d = (Ok tt, d') →
  token_of random d = None ∧ ∀ t, token_of t d' = if bool_decide (t = random) then Some (m, n) else token_of t d.
Proof.
  intros [_ _ _ _ _ [Hk _] _]. unfold insert_token, guard, refuse_if, mbind, M_mbind, mget, mmodify.
  destruct (db_err stmt); [done|].
  case_bool_decide as E; [done|]. apply eq_None_not_Some in E. destruct (is_member_id m d); [|done]. cbn [negb]. intros [= <-].
  split; [unfold token_of; by rewrite E|]. intros t. unfold token_of. cbn [auth_tokens set_tokens].
  rewrite (find_insert tr_token has_token) by done. simpl.
  destruct (decide (random = t)) as [->|]; [by rewrite !bool_decide_eq_true_2|by rewrite !bool_decide_eq_false_2].
Qed.
Lemma token_delete d f : db_ok d → ∀ t,
  token_of t (set_tokens (delete_rows f (auth_tokens d)) d) =
  find_row (has_token t) (auth_tokens d) ≫= λ p, if f p.1 p.2 then None else Some (tr_member_id p.2, tr_rotation_count p.2).
Proof.
  intros [_ _ _ _ _ [Hk _] _] t. unfold token_of. simpl. rewrite (find_delete tr_token has_token) by done.
  destruct (find_row _ _) as [p|]; [|done]. simpl. by destruct (f p.1 p.2).
Qed.
Lemma token_remove d t0 d' : db_ok d → RemoveToken db_err t0 d = (Ok tt, d') →
  ∀ t, token_of t d' = if bool_decide (t = t0) then None else token_of t d.
Proof.
  intros Hd. unfold RemoveToken, guard, mbind, M_mbind, mmodify. destruct (db_err _); [done|]. intros [= <-] t.
  rewrite (token_delete d _ Hd). unfold token_of. destruct (find_row (has_token t) (auth_tokens d)) as [[i r]|] eqn:E;
    [|by case_bool_decide].
  apply find_row_some in E as [_ E]. simpl in *. unfold has_token in *. apply bool_decide_eq_true in E. subst t. done.
Qed.
End Tokens.

(** ** Running a method step by step *)
Section Steps.
Context {W : Type}.
Lemma bind_ok {A B} (m : M W A) (k : A → M W B) w b w' : (m ≫= k) w = (Ok b, w') →
  ∃ a w1, m w = (Ok a, w1) ∧ k a w1 = (Ok b, w').
Proof. unfold mbind, M_mbind. destruct (m w) as [[a|e|] w1]; [|done..]. intros H. by exists a, w1. Qed.
Lemma wrap_done {A} c (m : M W A) w a w' : mwrap c m w = (Ok a, w') → m w = (Ok a, w').
Proof. unfold mwrap. destruct (m w) as [[x|e|] w1]; by intros [= <- <-]. Qed.
End Steps.
Lemma guard_ok db_err stmt d x d' : guard db_err stmt d = (Ok x, d') → d' = d.
Proof. unfold guard. by destruct (db_err stmt); intros [= <- <-]. Qed.
Lemma row_ok {R} (o : option R) d r d' : row o d = (Ok r, d') → o = Some r ∧ d' = d.
Proof. unfold row. by destruct o; intros [= <- <-]. Qed.
Lemma find_token t d p : find_row (has_token t) (auth_tokens d) = Some p →
  token_of t d = Some (tr_member_id p.2, tr_rotation_count p.2).
Proof. unfold token_of. by intros ->. Qed.

Section TokenService.
Context (db_err : string → option string) (d : DB) (Hd : db_ok d).

(** What is read before the first change. *)
Lemma look_token stmt t p d' : (_ ← guard db_err stmt; d0 ← mget; row (find_row (has_token t) (auth_tokens d0))) d = (Ok p, d') →
  token_of t d = Some (tr_member_id p.2, tr_rotation_count p.2) ∧ d' = d.
Proof.
  intros (x & d1 & ->%guard_ok & (y & d2 & [= <- <-] & [Hp ->]%row_ok)%bind_ok)%bind_ok. split; [by apply find_token|done].
Qed.
Lemma rotate_ok now random old new d' : RotateToken db_err now random old d = (Ok new, d') →
  new = random ∧ ∃ m n, token_of old d = Some (m, n) ∧
  ∀ t, token_of t d' = if bool_decide (t = random) then Some (m, n + 1) else if bool_decide (t = old) then None else token_of t d.
Proof.
  intros (x & d1 & ->%wrap_done%guard_ok & Ht)%bind_ok. unfold transaction in Ht.
  destruct (rotate_statements db_err now random old d) as [[new'|e|] d1] eqn:E; [|done..]. injection Ht as -> ->.
  apply bind_ok in E as (p & d1 & [Hp ->]%wrap_done%look_token & E). apply bind_ok in E as ([] & d1 & Hr%wrap_done & E).
  apply bind_ok in E as ([] & d2 & Hi%wrap_done & E). apply bind_ok in E as ([] & d3 & ->%wrap_done%guard_ok & [= <- <-]).
  split; [done|]. eexists _, _. split; [done|].
  assert (db_ok d1) as Hd1.
  { eapply (statements_ok (λ _, True)); [|exact Hd]. pose proof (tokens_remove (λ _, True) db_err d old) as Hs.
    unfold performs in Hs. by rewrite Hr in Hs. }
  destruct (token_insert db_err d1 _ _ _ _ _ _ Hd1 Hi) as [_ Ht]. intros t. rewrite Ht. case_bool_decide; [done|].
  by rewrite (token_remove db_err d _ _ Hd Hr).
Qed.
Lemma rotate_undone now random old e d' : RotateToken db_err now random old d = (Err e, d') → d' = d.
Proof.
  unfold RotateToken, mwrap, guard, transaction, mbind, M_mbind. destruct (db_err "tokens.begin"); [by intros [= _ <-]|].
  simpl. destruct (rotate_statements db_err now random old d) as [[]]; by intros [=].
Qed.
Lemma check_ok now t m d' : CheckToken db_err now t d = (Ok m, d') →
  (∃ n, token_of t d = Some (m, n)) ∧ ∀ t', token_of t' d' = token_of t' d.
Proof.
  intros (p & d1 & [Hp ->]%wrap_done%look_token & E)%bind_ok. apply bind_ok in E as (x & d1 & Hu & [= <- <-]).
  split; [by eexists|]. intros t'. unfold mtry, guard, mbind, M_mbind, mmodify in Hu.
  destruct (db_err "tokens.touch"); injection Hu as _ <-; [done|]. unfold token_of. cbn [auth_tokens set_tokens].
  rewrite (find_update tr_token has_token) by (done || apply Hd).
  destruct (find_row (has_token t') _) as [[i r]|]; [|done]. simpl. by destruct (has_token t r).
Qed.
Lemma create_ok now random m new d' : CreateToken db_err now random m d = (Ok new, d') →
  new = random ∧ token_of random d = None ∧ ∀ t, token_of t d' = if bool_decide (t = random) then Some (m, 0) else token_of t d.
Proof.
  intros ([] & d1 & Hi%wrap_done & [= <- <-])%bind_ok. split; [done|]. by apply (token_insert db_err d) in Hi.
Qed.
Lemma wipe_ok m d' : WipeTokensForMember db_err m d = (Ok tt, d') →
  ∀ t, token_of t d' = match token_of t d with Some (m', n) => if bool_decide (m' = m) then None else Some (m', n) | None => None end.
Proof.
  intros ([] & d1 & ->%guard_ok & [= <-])%bind_ok t. rewrite (token_delete d _ Hd). unfold token_of.
  by destruct (find_row (has_token t) (auth_tokens d)) as [[i r]|].
Qed.
End TokenService.

(** C14. The tokens of the room are a map from a token to its member and the number of its rotations. A created token is
    new and means its member; a check answers the member of a token and leaves the map alone; a rotation, if it succeeds,
    moves the member of the old token, which is gone, to the new one, and if it fails changes nothing; a removal
    and the wiping of a member remove just those tokens. *)
Theorem tokens_are_a_map db_err d now random t m : db_ok d →
  (∀ new d', CreateToken db_err now random m d = (Ok new, d') → new = random ∧ token_of random d = None ∧
     ∀ t', token_of t' d' = if bool_decide (t' = random) then Some (m, 0) else token_of t' d) ∧
  (∀ m' d', CheckToken db_err now t d = (Ok m', d') → (∃ n, token_of t d = Some (m', n)) ∧ ∀ t', token_of t' d' = token_of t' d) ∧
  (∀ new d', RotateToken db_err now random t d = (Ok new, d') → new = random ∧ ∃ m' n, token_of t d = Some (m', n) ∧
     ∀ t', token_of t' d' = if bool_decide (t' = random) then Some (m', n + 1) else
       if bool_decide (t' = t) then None else token_of t' d) ∧
  (∀ e d', RotateToken db_err now random t d = (Err e, d') → d' = d) ∧
  (∀ d', RemoveToken db_err t d = (Ok tt, d') → ∀ t', token_of t' d' = if bool_decide (t' = t) then None else token_of t' d) ∧
  (∀ d', WipeTokensForMember db_err m d = (Ok tt, d') → ∀ t', token_of t' d' =
     match token_of t' d with Some (m', n) => if bool_decide (m' = m) then None else Some (m', n) | None => None end).
Proof.
  intros Hd. split_and!; intros.
  - by eapply create_ok.
  - by eapply check_ok.
  - by eapply rotate_ok.
  - by eapply rotate_undone.
  - by eapply token_remove.
  - by eapply wipe_ok.
Qed.

(** ** Invites *)
Definition spent (h : string) (d : DB) : Prop :=
  ∀ i r, rows (invites d) !! i = Some r → ir_hashed_token r = h → ir_active r = false.

Lemma statement_spent h d d' : statement (λ h', h' ≠ h) d d' → spent h d → spent h d'.
Proof.
  intros Hs Hd. destruct Hs; try exact Hd.
  - intros i r [Hi _]%lookup_delete_rows Hh. by eapply Hd.
  - intros i s Hi Hh. Transparent insert_row. unfold insert_row in Hi. simpl in Hi.
    apply lookup_insert_Some in Hi as [[_ <-]|[_ Hi]]; [done|by eapply Hd].
  - intros i s. cbn [invites set_invites]. rewrite lookup_update_rows. intros (s0 & Hs0 & ->)%fmap_Some Hh.
    destruct (f i s0); [done|by eapply Hd].
Qed.
#[local] Opaque insert_row.
Lemma statements_spent h d d' : rtc (statement (λ h', h' ≠ h)) d d' → spent h d → spent h d'.
Proof. induction 1; [done|]. eauto using statement_spent. Qed.

Section Consume.
Context {sh : Sha256} (db_err : string → option string).

Lemma select_ok d token inv d' : consume_select db_err token d = (Ok inv, d') →
  d' = d ∧ ∃ r, find_row (has_hash (hashToken token)) (invites d) = Some (inv_ID inv, r) ∧ ir_active r = true.
Proof.
  intros (p & d1 & (x & d2 & ->%guard_ok & (y & d3 & [= <- <-] & [Hp ->]%row_ok)%bind_ok)%wrap_done%bind_ok & E)%bind_ok.
  destruct (ir_active p.2) eqn:Ea; [|done]. injection E as <- <-. split; [done|]. exists p.2. simpl. by destruct p.
Qed.
Lemma select_spent d token : spent (hashToken token) d → ∃ e, consume_select db_err token d = (Err e, d).
Proof.
  intros Hs. unfold consume_select, mwrap, guard, row, mbind, M_mbind, mget.
  destruct (db_err "invites.Consume"); [by eexists|].
  destruct (find_row _ (invites d)) as [[i r]|] eqn:E; [|by eexists].
  apply find_row_some in E as [Hr Hh]. simpl in Hr, Hh. apply bool_decide_eq_true in Hh.
  simpl. rewrite (Hs i r Hr Hh). by eexists.
Qed.
Lemma same_member d feed x d' : Members_GetByFeed db_err feed d = (x, d') → d' = d.
Proof.
  unfold Members_GetByFeed, mwrap, guard, row, mbind, M_mbind, mget. destruct (db_err _); [by intros [= _ <-]|].
  destruct (find_row _ _); by intros [= _ <-].
Qed.
(** A consumption makes the caller a member, if it was none, and leaves the invites alone. *)
Lemma member_ok d feed id d' : consume_member db_err feed d = (Ok id, d') →
  invites d' = invites d ∧
  ((∃ r, d' = d ∧ find_row (has_pub_key (feed_string feed)) (members d) = Some (id, r)) ∨
   id = seq (members d) + 1 ∧ ((find_row (has_pub_key (feed_string feed)) (members d) = None ∧
     d' = set_members (insert_row {| mr_pub_key := feed_string feed; mr_role := RoleMember |} (members d)).2 d))).
Proof.
  intros (r & d1 & Hr & E)%bind_ok. unfold mtry in Hr.
  destruct (Members_GetByFeed db_err feed d) as [r' d2] eqn:Hg. pose proof (same_member _ _ _ _ Hg) as ->.
  assert (d1 = d) as -> by (destruct r'; congruence).
  assert (∀ m, r = Ok m → ∃ s, find_row (has_pub_key (feed_string feed)) (members d) = Some (mem_ID m, s)) as Hfound.
  { intros m ->. assert (r' = Ok m) as -> by (destruct r'; congruence). apply wrap_done in Hg.
    apply bind_ok in Hg as (x & d1 & ->%guard_ok & (y & d3 & [= <- <-] & (p & d4 & [Hp ->]%row_ok & [= <-])%bind_ok)%bind_ok).
    exists p.2. by destruct p. }
  destruct r as [m|e|].
  - injection E as <- <-. split; [done|left]. destruct (Hfound m eq_refl) as [s Hs]. by exists s.
  - apply wrap_done in E. unfold Members_Add in E. apply wrap_done in E. unfold insert_member, guard, refuse_if in E.
    unfold mbind, M_mbind, mget, mmodify in E. destruct (db_err _); [done|]. simpl in E.
    case_bool_decide as Hn; [done|]. apply eq_None_not_Some in Hn. injection E as <- <-.
    split; [done|right]. split; [done|]. by split.
  - destruct r'; congruence.
Qed.
Lemma finish_invites d now feed id inv x d' : consume_finish db_err now feed id inv d = (Ok x, d') →
  invites d' = update_rows (row_id (inv_ID inv)) deactivate (invites d).
Proof.
  intros (y & d1 & ->%wrap_done%guard_ok & (z & d2 & [= <- <-] & (r & d3 & Hr & [= <- <-])%bind_ok)%bind_ok)%bind_ok.
  unfold mtry, Members_SetRole, guard, refuse_if, mbind, M_mbind, mget, mmodify in Hr.
  destruct (db_err "members.SetRole"); [by injection Hr as <- <-|].
  destruct (_ && _); simpl in Hr; by injection Hr as <- <-.
Qed.
Lemma consume_spends d now token feed inv d' : db_ok d → Invites_Consume db_err now token feed d = (Ok inv, d') →
  spent (hashToken token) d'.
Proof.
  intros Hd (i & d1 & [-> (r & Hr & _)]%select_ok & (id & d2 & [Hi _]%member_ok & Hf%finish_invites)%bind_ok)%bind_ok.
  rewrite Hi in Hf. intros j s. rewrite Hf, lookup_update_rows. intros (s0 & Hs & ->)%fmap_Some Hh.
  apply find_row_some in Hr as [Hr Hrh]. simpl in Hr, Hrh. apply bool_decide_eq_true in Hrh.
  assert (j = inv_ID i) as ->.
  { destruct Hd as [_ _ _ [[_ Hu] _] _ _ _]. eapply (Hu j (inv_ID i)); [done..|]. rewrite Hrh.
    by destruct (row_id _ _ _). }
  unfold row_id. by rewrite bool_decide_eq_true_2.
Qed.
End Consume.

(** C13. An invite is used once: after a consumption that succeeded, and any operations that do not make the same token
    again, every consumption of the token is refused and changes nothing, whoever asks. *)
Theorem invite_is_used_once `{Sha256, Bcrypt, UnicodeCase} err now token feed inv d d' ops : db_ok d →
  Invites_Consume err now token feed d = (Ok inv, d') → (∀ o, o ∈ ops.*2 → makes o ≠ Some (hashToken token)) →
  ∀ err' now' feed', ∃ e, Invites_Consume err' now' token feed' (run_all ops d') = (Err e, run_all ops d').
Proof.
  intros Hd Hc Ho err' now' feed'.
  assert (spent (hashToken token) (run_all ops d')) as Hs.
  { eapply statements_spent; [|by eapply consume_spends]. apply run_all_performs. intros o h Ho' Hm ->. by eapply Ho. }
  destruct (select_spent err' _ token Hs) as [e He]. exists e. unfold Invites_Consume, mbind, M_mbind. by rewrite He.
Qed.

(** ** What an invite makes of its holder *)
Lemma find_with_role ms k k' id s role : keyed mr_pub_key ms → find_row (has_pub_key k) ms = Some (id, s) →
  find_row (has_pub_key k') (update_rows (row_id id) (with_role role) ms) =
  if bool_decide (k' = k) then Some (id, with_role role s) else find_row (has_pub_key k') ms.
Proof.
  intros Hk Hs. rewrite (find_update mr_pub_key has_pub_key) by done. case_bool_decide as E.
  - subst k'. rewrite Hs. simpl. unfold row_id. by rewrite bool_decide_eq_true_2.
  - destruct (find_row (has_pub_key k') ms) as [[j u]|] eqn:E'; [|done]. simpl. unfold row_id. case_bool_decide; [|done].
    apply (find_keyed mr_pub_key has_pub_key) in E' as [Hu <-], Hs as [Hr <-]; try done. congruence.
Qed.

Section Admission.
Context {sh : Sha256}.
Notation no_error := (λ _ : string, @None string).

Lemma get_member d feed : Members_GetByFeed no_error feed d =
  (match find_row (has_pub_key (feed_string feed)) (members d) with
   | Some p => Ok {| mem_ID := p.1; mem_PubKey := feed; mem_Role := mr_role p.2 |}
   | None => Err ("members get by feed: " +:+ ErrNoRows)
   end, d).
Proof.
  unfold Members_GetByFeed, mwrap, guard, row, mbind, M_mbind, mget. simpl. by destruct (find_row _ _).
Qed.
(** The consumer's row, after the first half. *)
Lemma let_in d feed : db_ok d → ∃ id s ms, consume_member no_error feed d = (Ok id, set_members ms d) ∧ keyed mr_pub_key ms ∧
  find_row (has_pub_key (feed_string feed)) ms = Some (id, s) ∧
  ∀ k, k ≠ feed_string feed → find_row (has_pub_key k) ms = find_row (has_pub_key k) (members d).
Proof.
  intros Hd. pose proof (ok_members _ Hd) as Hk. unfold consume_member, mtry, mbind, M_mbind. rewrite get_member.
  destruct (find_row (has_pub_key (feed_string feed)) (members d)) as [[id s]|] eqn:E.
  - exists id, s, (members d). split_and!; try done. by destruct d.
  - unfold Members_Add, mwrap, insert_member, guard, refuse_if, mbind, M_mbind, mget, mmodify. simpl. rewrite E. simpl.
    eexists _, _, _. split; [done|].
    pose proof (λ k, find_insert mr_pub_key has_pub_key (λ _ _, eq_refl) (members d)
      {| mr_pub_key := feed_string feed; mr_role := RoleMember |} k Hk E) as Hi. split_and!.
    + by apply (insert_keyed_on _ has_pub_key).
    + rewrite Hi. simpl. by rewrite bool_decide_eq_true_2.
    + intros k Hne. rewrite Hi. simpl. by rewrite bool_decide_eq_false_2.
Qed.
Lemma consume_active d now token feed i r : db_ok d →
  find_row (has_hash (hashToken token)) (invites d) = Some (i, r) → ir_active r = true →
  ∃ inv d', Invites_Consume no_error now token feed d = (Ok inv, d') ∧ role_of feed d' = Some RoleMember ∧
    ∀ other, feed_string other ≠ feed_string feed → role_of other d' = role_of other d.
Proof.
  intros Hd Hr Ha. destruct (let_in d feed Hd) as (id & s & ms & Hc & Hk & Hs & Ho).
  unfold Invites_Consume, mbind at 1, M_mbind at 1.
  assert (∃ inv, consume_select no_error token d = (Ok inv, d)) as [inv ->].
  { unfold consume_select, mwrap, guard, row, mbind, M_mbind, mget. simpl. rewrite Hr. simpl. rewrite Ha. by eexists. }
  unfold mbind at 1, M_mbind at 1. rewrite Hc.
  unfold consume_finish, mwrap, mtry, Members_SetRole, guard, refuse_if, mbind, M_mbind, mget, mmodify. simpl.
  rewrite andb_false_r. eexists _, _. split; [done|]. unfold role_of. simpl. split.
  - rewrite (find_with_role ms (feed_string feed) _ id s) by done. by rewrite bool_decide_eq_true_2.
  - intros other Hne. rewrite (find_with_role ms (feed_string feed) _ id s) by done.
    rewrite bool_decide_eq_false_2 by done. by rewrite Ho.
Qed.
Lemma create_active d now random creator : db_ok d → is_member_id creator d = true →
  let token := itoa now +:+ "-" +:+ random in find_row (has_hash (hashToken token)) (invites d) = None →
  ∃ d1 i r, Invites_Create no_error now random creator d = (Ok token, d1) ∧ members d1 = members d ∧
    find_row (has_hash (hashToken token)) (invites d1) = Some (i, r) ∧ ir_active r = true.
Proof.
  intros Hd Hc token Hn. unfold Invites_Create, mwrap, guard, refuse_if, mbind, M_mbind, mget, mmodify. simpl.
  fold token. rewrite Hn, Hc. simpl. eexists _, _, _. split; [done|]. split; [done|].
  cbn [invites set_invites]. rewrite (find_insert ir_hashed_token has_hash) by (done || apply Hd). simpl.
  by rewrite bool_decide_eq_true_2.
Qed.
End Admission.

(** C16. An invite lets its holder in: the token [Create] returns to a member is accepted from whoever brings it first,
    and that feed is then a plain member, whatever role it had; nobody else's role changes. *)
Theorem invite_makes_a_plain_member `{Sha256, Bcrypt} d now random creator : db_ok d → is_member_id creator d = true →
  find_row (has_hash (hashToken (itoa now +:+ "-" +:+ random))) (invites d) = None →
  ∃ token d1, Invites_Create (λ _, None) now random creator d = (Ok token, d1) ∧ ∀ now' feed,
    ∃ inv d2, Invites_Consume (λ _, None) now' token feed d1 = (Ok inv, d2) ∧ role_of feed d2 = Some RoleMember ∧
      ∀ other, feed_string other ≠ feed_string feed → role_of other d2 = role_of other d.
Proof.
  intros Hd Hc Hn. destruct (create_active d now random creator Hd Hc Hn) as (d1 & i & r & Hcr & Hm & Hr & Ha).
  eexists _, d1. split; [done|]. intros now' feed.
  assert (db_ok d1) as Hd1.
  { eapply (statements_ok (λ _, True)); [|exact Hd]. pose proof (invites_create (λ _, True) (λ _, None) d now random creator I) as Hs.
    unfold performs in Hs. by rewrite Hcr in Hs. }
  destruct (consume_active d1 now' _ feed i r Hd1 Hr Ha) as (inv & d2 & ? & ? & Ho). exists inv, d2. split_and!; try done.
  intros other Hne. rewrite Ho by done. unfold role_of. by rewrite Hm.
Qed.
