(* ===== verification/RoomHandlers.v ===== *)
(** * The calls of a room ([internal/ssb/muxrpc/handlers/room])

    [room.*], [tunnel.*] and [httpAuth.*]: what a peer may ask of the room server,
    over its database, its live state and the sessions of the peers; both handlers
    of [room.*], the one of the room runtime and the one of the bot. Measurements
    and log lines are left out. *)
From stdpp Require Import gmap.
From S2P Require Import Prelude GoStr GoBytes Base64 Refs Crypto Legacy Regex AtSyntax Stream Mux Session Roomstate RoomDB.
#[local] Open Scope string_scope.
#[local] Open Scope list_scope.
#[local] Open Scope Z_scope.

(** [encoding/json] on the arguments of the calls; a field that is absent is zero,
    and an error keeps what was read before it where the code goes on. *)
Class RoomJSON := {
  unmarshal_list : bytes → result (list bytes);
  unmarshal_string : bytes → result string;
  unmarshal_bytes : bytes → result bytes;
  unmarshal_strings : bytes → result (list string);
  unmarshal_token : bytes → result string;
  unmarshal_connect : bytes → result (FeedRef * FeedRef * FeedRef);
  unmarshal_id : bytes → string
}.
(** [net]: the host of a host and port, and whether a host is a loopback address. *)
Class GoNet := { SplitHostPort : string → option string; IsLoopback : string → bool }.

(** ** Who calls *)
Inductive RemoteAddr := NoAddr | ShsAddr (PubKey : bytes) | OtherAddr.
Definition AuthenticatedFeedFromAddr (a : RemoteAddr) : result FeedRef :=
  match a with ShsAddr k => NewFeedRef k RefAlgoFeedSSB1 | _ => Err "no authenticated shs identity" end.
Definition getCallerFeed (a : RemoteAddr) : result FeedRef :=
  match a with NoAddr => Err "no remote addr" | _ => AuthenticatedFeedFromAddr a end.

(** ** Arguments *)
Definition low_alnum (c : ascii) : bool := is_lower c || is_digit c.
Definition aliasLabelPattern : regex :=
  Seq (Cls low_alnum) (Opt (Seq (Upto 61 (Cls (or_one_of low_alnum "-"))) (Cls low_alnum))).

Section Arguments.
Context {rj : RoomJSON}.
Definition parseArgList (raw : bytes) : result (list bytes) :=
  if bool_decide (raw = []) then Ok []
  else match unmarshal_list raw with Ok args => Ok args | _ => Err "expected muxrpc args array" end.
Definition parseSingleObjectArg {A} (zero : A) (unmarshal : bytes → result A) (raw : bytes) : result A :=
  args ← parseArgList raw;
  match args with [] => Ok zero | [arg] => unmarshal arg | _ => Err "expected exactly one argument" end.
Definition parseSingleStringArg (raw : bytes) : result string :=
  args ← parseArgList raw;
  match args with [arg] => unmarshal_string arg | _ => Err "expected exactly one argument" end.
Definition parseAliasRegisterArgs (raw : bytes) : result (string * bytes) :=
  args ← parseArgList raw;
  match args with
  | [a; s] =>
      alias ← wrap "parse alias: " (unmarshal_string a);
      signature ← wrap "parse signature: " (unmarshal_bytes s);
      Ok (alias, signature)
  | _ => Err "expected alias and signature arguments"
  end.
End Arguments.
Definition no_feeds : FeedRef * FeedRef * FeedRef := (zero_feed, zero_feed, zero_feed).

(** ** Addresses and messages *)
(** [url.PathEscape] *)
Definition path_char (c : ascii) : bool := or_one_of is_alnum "-_.~$&+=:@" c.
Definition hex_digit (n : Z) : ascii := chr (if bool_decide (n < 10) then 48 + n else 55 + n).
Definition path_escape (c : ascii) : list ascii :=
  if path_char c then [c] else ["%"%char; hex_digit (ord c / 16); hex_digit (ord c `mod` 16)].
Definition PathEscape (s : string) : string := of_l (to_l s ≫= path_escape).
(** [strings.Trim(s, "[]")] *)
Definition is_bracket (c : ascii) : bool := bool_decide (c = "["%char) || bool_decide (c = "]"%char).
Definition Trim_brackets (s : string) : string := TrimRight is_bracket (of_l (drop_while is_bracket (to_l s))).

Definition normalizeAliasBaseURL {gn : GoNet} (raw : string) : string :=
  let trimmed := TrimRight (Ascii.eqb "/") (TrimSpace raw) in
  if bool_decide (trimmed = "") then ""
  else if HasPrefix trimmed "http://" || HasPrefix trimmed "https://" then trimmed
  else
    let host := Trim_brackets (default trimmed (SplitHostPort trimmed)) in
    if bool_decide (host = "localhost") then "http://" +:+ trimmed
    else if IsLoopback host then "http://" +:+ trimmed
    else "https://" +:+ trimmed.
Definition buildAliasURL {gn : GoNet} (domain alias : string) : string :=
  let escaped := PathEscape alias in
  let base := normalizeAliasBaseURL domain in
  if bool_decide (base = "") then "/" +:+ escaped else base +:+ "/" +:+ escaped.

Definition aliasRegistrationMessage (roomID feedID : FeedRef) (alias : string) : bytes :=
  to_l ("=room-alias-registration:" +:+ feed_string roomID +:+ ":" +:+ feed_string feedID +:+ ":" +:+ alias).
Definition validateAliasRegistration {ed : Ed25519} {uc : UnicodeCase} (roomID caller : FeedRef) (alias : string) (signature : bytes) : result unit :=
  let alias := ToLower (TrimSpace alias) in
  if negb (MatchString aliasLabelPattern alias) then Err "invalid alias"
  else if bool_decide (signature = []) then Err "signature required"
  else signature_Verify signature (aliasRegistrationMessage roomID caller alias) caller.
Definition roomFeatures (mode : Z) : list string :=
  ["tunnel"; "room2"; "httpInvite"; "httpAuth"] ++ (if bool_decide (mode ≠ ModeRestricted) then ["alias"] else []).
Definition tunnelAddress (portal target : FeedRef) : string :=
  "tunnel:" +:+ feed_string portal +:+ ":" +:+ feed_string target +:+ "~shs:" +:+ EncodeToString StdEncoding (f_id target).

(** ** The room server

    Its database, its live state, and the sessions registered for the peers. *)
Record RoomWorld := { rw_db : DB; rw_state : Manager; rw_conns : gmap string nat }.
Definition on_db {A} (m : M DB A) : M RoomWorld A := λ w,
  let r := m (rw_db w) in (r.1, {| rw_db := r.2; rw_state := rw_state w; rw_conns := rw_conns w |}).
Definition on_state (f : Manager → result Manager) : M RoomWorld unit := λ w,
  match f (rw_state w) with
  | Ok m => (Ok tt, {| rw_db := rw_db w; rw_state := m; rw_conns := rw_conns w |})
  | Err e => (Err e, w)
  | Panic => (Panic, w)
  end.
Definition subscribe {A} (f : Manager → A * Manager) : M RoomWorld A := λ w,
  (Ok (f (rw_state w)).1, {| rw_db := rw_db w; rw_state := (f (rw_state w)).2; rw_conns := rw_conns w |}).
Definition on_conns (f : gmap string nat → gmap string nat) : M RoomWorld unit :=
  mmodify (λ w, {| rw_db := rw_db w; rw_state := rw_state w; rw_conns := f (rw_conns w) |}).

(** [PeerRegistry]; the sessions are numbers. *)
Definition Registry_Register (feed : FeedRef) (srv : nat) : gmap string nat → gmap string nat := <[feed_string feed := srv]>.
Definition Registry_Unregister (feed : FeedRef) : gmap string nat → gmap string nat := delete (feed_string feed).
Definition Registry_Get (feed : FeedRef) (r : gmap string nat) : option nat := r !! feed_string feed.
(** [List], in the order of the map. *)
Definition Registry_List (r : gmap string nat) : list FeedRef :=
  omap (λ p, match ParseFeedRef p.1 with Ok ref => Some ref | _ => None end) (map_to_list r).

(** What a call is answered: a value, or a stream the handler goes on to write. *)
Inductive answer :=
| A_bool (b : bool)
| A_string (s : string)
| A_success
| A_bytes (b : bytes)
| A_id (s : string)
| A_aliases (l : list (string * string * string))
| A_metadata (name : string) (membership : bool) (features : list string)
| A_members (l : list (Z * string * string))
| A_attendants (s : Stream) (ch : nat)
| A_endpoints (peers : list PeerInfo) (ch : nat)
| A_tunnel (target : nat) (origin portal to : FeedRef).

Section Handlers.
Context {sh : Sha256} {bc : Bcrypt} {ed : Ed25519} {uc : UnicodeCase} {rj : RoomJSON} {gn : GoNet}.
Context (db_err : string → option string).
(** The clock, the tokens the call may draw, the key and the domain of the room. *)
Context (now : Z) (random : string) (keyPair : option FeedRef) (Domain : string).

Definition deref (o : option FeedRef) : M RoomWorld FeedRef := mlift (match o with Some k => Ok k | None => Panic end).
Definition is_no_rows (e : string) : bool := bool_decide (e = "members get by feed: " +:+ ErrNoRows).
Definition isInternalMember (feed : FeedRef) : M RoomWorld bool :=
  r ← mtry (on_db (Members_GetByFeed db_err feed));
  match r with
  | Ok _ => mret true
  | Err e => if is_no_rows e then mret false else mfail e
  | Panic => mlift Panic
  end.
Definition ensureMemberID (feed : FeedRef) (role : Z) : M RoomWorld Z :=
  r ← mtry (on_db (Members_GetByFeed db_err feed));
  match r with
  | Ok member => mret (mem_ID member)
  | Err e =>
      if negb (is_no_rows e) then mfail e
      else
        added ← mtry (on_db (Members_Add db_err feed role));
        match added with
        | Ok id => mret id
        | Err addErr =>
            again ← mtry (on_db (Members_GetByFeed db_err feed));
            match again with Ok member => mret (mem_ID member) | _ => mfail ("add member: " +:+ addErr) end
        | Panic => mlift Panic
        end
  | Panic => mlift Panic
  end.
Definition raw_args (q : Request) : bytes := default [] (RawArgs q).
Definition expect_type (t name : string) (q : Request) : M RoomWorld unit := refuse_if (bool_decide (CallType q ≠ t)) name.

(** *** [room.*] of the room runtime *)
Definition handleCreateInvite (a : RemoteAddr) (q : Request) : M RoomWorld answer :=
  _ ← expect_type "async" "room.createInvite is async" q;
  mode ← mwrap "room.createInvite: get privacy mode: " (on_db (GetPrivacyMode db_err));
  _ ← refuse_if (bool_decide (mode = ModeRestricted)) "room.createInvite: invite creation disabled in restricted mode";
  createdBy ←
    (if bool_decide (mode = ModeCommunity) then
       caller ← mwrap "room.createInvite: get caller: " (mlift (getCallerFeed a));
       isMember ← mwrap "room.createInvite: membership lookup: " (isInternalMember caller);
       _ ← refuse_if (negb isMember) "room.createInvite: membership required in community mode";
       r ← mtry (on_db (Members_GetByFeed db_err caller));
       match r with
       | Ok member => mret (mem_ID member)
       | Err e =>
           if is_no_rows e then mfail ("room.createInvite: membership lookup: " +:+ e)
           else mfail ("room.createInvite: get creator member: " +:+ e)
       | Panic => mlift Panic
       end
     else
       match keyPair with
       | None => mfail "room.createInvite: room identity unavailable"
       | Some k => mwrap "room.createInvite: ensure room creator: " (ensureMemberID k RoleAdmin)
       end);
  token ← mwrap "room.createInvite: create: " (on_db (Invites_Create db_err now random createdBy));
  mret (A_string token).

Definition denied (feed : FeedRef) : M RoomWorld bool := λ w, (Ok (HasFeed db_err feed (rw_db w)), w).
(** The token of an object, or the only string of a list. *)
Definition join_token (raw : bytes) : result string :=
  match unmarshal_token raw with
  | Ok "" => match parseSingleStringArg raw with Ok t => Ok t | Err _ => Err "%!w(<nil>)" | Panic => Panic end
  | Ok t => Ok t
  | Err e => match parseSingleStringArg raw with Ok t => Ok t | Err _ => Err e | Panic => Panic end
  | Panic => Panic
  end.
Definition handleJoin (a : RemoteAddr) (q : Request) : M RoomWorld answer :=
  _ ← expect_type "async" "room.join is async" q;
  caller ← mwrap "room.join: get caller: " (mlift (getCallerFeed a));
  refused ← denied caller;
  _ ← refuse_if refused "room.join: denied";
  token ← mwrap "room.join: parse args: " (mlift (join_token (raw_args q)));
  _ ← refuse_if (bool_decide (token = "")) "room.join: token required";
  _ ← mwrap "room.join: consume: " (on_db (Invites_Consume db_err now token caller));
  mret A_success.

(** The second half of a registration. *)
Definition register_alias (caller : FeedRef) (alias : string) (signature : bytes) : M RoomWorld answer :=
  room ← deref keyPair;
  _ ← mwrap "room.registerAlias: invalid signature: " (mlift (validateAliasRegistration room caller alias signature));
  _ ← mwrap "room.registerAlias: register: " (on_db (Aliases_Register db_err alias caller signature));
  _ ← on_state (λ m, Ok (Roomstate.RegisterAlias alias caller m));
  mret (A_string (buildAliasURL Domain alias)).
Definition member_may_alias (caller : FeedRef) : M RoomWorld unit :=
  isMember ← mwrap "room.registerAlias: membership lookup: " (isInternalMember caller);
  _ ← refuse_if (negb isMember) "room.registerAlias: membership required";
  mode ← mwrap "room.registerAlias: get mode: " (on_db (GetPrivacyMode db_err));
  refuse_if (bool_decide (mode = ModeRestricted)) "room.registerAlias: alias feature disabled".
Definition alias_args (raw : bytes) : M RoomWorld (string * bytes) :=
  args ← mwrap "room.registerAlias: parse args: " (mlift (parseAliasRegisterArgs raw));
  let alias := ToLower (TrimSpace args.1) in
  _ ← refuse_if (bool_decide (alias = "")) "room.registerAlias: alias required";
  mret (alias, args.2).
Definition handleRegisterAlias (a : RemoteAddr) (q : Request) : M RoomWorld answer :=
  _ ← expect_type "async" "room.registerAlias is async" q;
  caller ← mwrap "room.registerAlias: get caller: " (mlift (getCallerFeed a));
  _ ← member_may_alias caller;
  args ← alias_args (raw_args q);
  register_alias caller args.1 args.2.
Definition handleRevokeAlias (a : RemoteAddr) (q : Request) : M RoomWorld answer :=
  _ ← expect_type "async" "room.revokeAlias is async" q;
  arg ← mwrap "room.revokeAlias: parse args: " (mlift (parseSingleStringArg (raw_args q)));
  let aliasName := ToLower (TrimSpace arg) in
  _ ← refuse_if (bool_decide (aliasName = "")) "room.revokeAlias: alias required";
  caller ← mwrap "room.revokeAlias: get caller: " (mlift (getCallerFeed a));
  isMember ← mwrap "room.revokeAlias: membership lookup: " (isInternalMember caller);
  _ ← refuse_if (negb isMember) "room.revokeAlias: membership required";
  alias ← mwrap "room.revokeAlias: resolve: " (on_db (Aliases_Resolve db_err aliasName));
  _ ← refuse_if (negb (feed_Equal (al_Owner alias) caller)) "room.revokeAlias: not owner";
  _ ← mwrap "room.revokeAlias: revoke: " (on_db (Aliases_Revoke db_err aliasName));
  _ ← on_state (λ m, Ok (Roomstate.RevokeAlias aliasName m));
  mret (A_bool true).
Definition handleListAliases (q : Request) : M RoomWorld answer :=
  _ ← expect_type "async" "room.listAliases is async" q;
  l ← mwrap "room.listAliases: list: " (on_db (Aliases_List db_err));
  mret (A_aliases ((λ a, (al_Name a, feed_string (al_Owner a), al_Name a +:+ "." +:+ "room")) <$> l)).
(** What [streamMembers] writes. *)
Definition handleMembers (q : Request) : M RoomWorld answer :=
  _ ← expect_type "source" "room.members is a source handler" q;
  l ← mwrap "room.members: list: " (on_db (Members_List db_err));
  mret (A_members ((λ m, (mem_ID m, feed_string (mem_PubKey m), Role_String (mem_Role m))) <$> l)).
(** A member, or anyone in an open room. *)
Definition in_open_mode (name get_mode : string) : M RoomWorld unit :=
  mode ← mwrap (name +:+ get_mode) (on_db (GetPrivacyMode db_err));
  refuse_if (bool_decide (mode ≠ ModeOpen)) (name +:+ ": membership required").
Definition admitted (name get_mode : string) (caller : FeedRef) : M RoomWorld unit :=
  isMember ← mwrap (name +:+ ": membership lookup: ") (isInternalMember caller);
  match isMember with true => mret tt | false => in_open_mode name get_mode end.
(** [bridgeFeed] is hidden from the list; the handler of the bot hides nobody. *)
Definition attendants_handler (bridgeFeed : string) (a : RemoteAddr) (q : Request) : M RoomWorld answer :=
  _ ← expect_type "source" "room.attendants is a source handler" q;
  caller ← mwrap "room.attendants: get caller: " (mlift (getCallerFeed a));
  _ ← admitted "room.attendants" ": get mode: " caller;
  s ← subscribe SubscribeAttendants;
  mret (A_attendants (start_stream bridgeFeed s.1) s.2).
Definition handleAttendants : RemoteAddr → Request → M RoomWorld answer :=
  attendants_handler (default "" (feed_string <$> keyPair)).
Definition caller_membership (a : RemoteAddr) : M RoomWorld bool :=
  match getCallerFeed a with
  | Ok caller => mwrap "room.metadata: membership lookup: " (isInternalMember caller)
  | _ => mret false
  end.
Definition handleMetadata (a : RemoteAddr) (q : Request) : M RoomWorld answer :=
  _ ← expect_type "async" "room.metadata is async" q;
  mode ← mwrap "room.metadata: get mode: " (on_db (GetPrivacyMode db_err));
  let name := default "ATProto Bridge SSB Room" (feed_string <$> keyPair) in
  membership ← caller_membership a;
  mret (A_metadata name membership (roomFeatures mode)).
Definition RoomHandler_HandleCall (a : RemoteAddr) (q : Request) : M RoomWorld answer :=
  match Method q with
  | _ :: sub :: _ =>
      if bool_decide (sub = "createInvite") then handleCreateInvite a q
      else if bool_decide (sub = "join") then handleJoin a q
      else if bool_decide (sub = "registerAlias") then handleRegisterAlias a q
      else if bool_decide (sub = "revokeAlias") then handleRevokeAlias a q
      else if bool_decide (sub = "listAliases") then handleListAliases q
      else if bool_decide (sub = "members") then handleMembers q
      else if bool_decide (sub = "attendants") then handleAttendants a q
      else if bool_decide (sub = "metadata") then handleMetadata a q
      else mfail ("room: unknown method " +:+ sub)
  | _ => mfail "room: missing submethod"
  end.

(** *** [room.*] of the bot

    A handler of its own, with its own copy of the code; it parses the arguments before
    it asks who calls. *)
Definition Alias_args (raw : bytes) : M RoomWorld (string * bytes) :=
  args ← mwrap "room.registerAlias: parse args: " (mlift (parseAliasRegisterArgs raw));
  let alias := ToLower (TrimSpace args.1) in
  _ ← refuse_if (bool_decide (alias = "")) "room.registerAlias: alias required";
  mret (alias, args.2).
Definition Alias_may_register (caller : FeedRef) : M RoomWorld unit :=
  isMember ← mwrap "room.registerAlias: membership lookup: " (isInternalMember caller);
  _ ← refuse_if (negb isMember) "room.registerAlias: membership required";
  mode ← mwrap "room.registerAlias: get mode: " (on_db (GetPrivacyMode db_err));
  refuse_if (bool_decide (mode = ModeRestricted)) "room.registerAlias: alias feature disabled".
Definition Alias_register (caller : FeedRef) (alias : string) (signature : bytes) : M RoomWorld answer :=
  room ← deref keyPair;
  _ ← mwrap "room.registerAlias: invalid signature: " (mlift (validateAliasRegistration room caller alias signature));
  _ ← mwrap "room.registerAlias: register: " (on_db (Aliases_Register db_err alias caller signature));
  _ ← on_state (λ m, Ok (Roomstate.RegisterAlias alias caller m));
  mret (A_string (buildAliasURL Domain alias)).
Definition Alias_handleRegisterAlias (a : RemoteAddr) (q : Request) : M RoomWorld answer :=
  _ ← expect_type "async" "room.registerAlias is async" q;
  args ← Alias_args (raw_args q);
  caller ← mwrap "room.registerAlias: get caller: " (mlift (getCallerFeed a));
  _ ← Alias_may_register caller;
  Alias_register caller args.1 args.2.
Definition AliasHandler_HandleCall (a : RemoteAddr) (q : Request) : M RoomWorld answer :=
  match Method q with
  | _ :: sub :: _ =>
      if bool_decide (sub = "registerAlias") then Alias_handleRegisterAlias a q
      else if bool_decide (sub = "revokeAlias") then handleRevokeAlias a q
      else if bool_decide (sub = "listAliases") then handleListAliases q
      else if bool_decide (sub = "members") then handleMembers q
      else if bool_decide (sub = "attendants") then attendants_handler "" a q
      else if bool_decide (sub = "metadata") then handleMetadata a q
      else mfail ("room: unknown method " +:+ sub)
  | _ => mfail "room: missing submethod"
  end.
End Handlers.

Section Tunnels.
Context {sh : Sha256} {bc : Bcrypt} {ed : Ed25519} {uc : UnicodeCase} {rj : RoomJSON} {gn : GoNet}.
Context (db_err : string → option string).
Context (now : Z) (random : string) (keyPair : option FeedRef) (Domain : string).
(** The options of the tunnel handler, the key of [httpAuth], and [Duplex] on the
    session of a peer. *)
Context (snapshots : bool) (announceHook : option (FeedRef → result unit)) (kp : option KeyPair).
Context (Duplex : nat → FeedRef * FeedRef * FeedRef → result unit).

Definition now_unix : Z := now / 1000000000.
Definition run_hook (feed : FeedRef) : M RoomWorld unit :=
  match announceHook with Some hook => mlift (hook feed) | None => mret tt end.
Definition snapshot_endpoint (feed : FeedRef) (addr : string) : M RoomWorld unit :=
  if snapshots then _ ← mtry (on_db (UpsertTunnelEndpoint db_err now feed addr now_unix)); mret tt else mret tt.
Definition snapshot_no_endpoint (feed : FeedRef) : M RoomWorld unit :=
  if snapshots then _ ← mtry (on_db (DeactivateTunnelEndpoint db_err now feed)); mret tt else mret tt.

(** *** [tunnel.*] *)
Definition handleAnnounce (a : RemoteAddr) (q : Request) : M RoomWorld answer :=
  _ ← expect_type "sync" "tunnel.announce is sync" q;
  feedRef ← mwrap "tunnel.announce: get caller: " (mlift (AuthenticatedFeedFromAddr a));
  refused ← denied db_err feedRef;
  _ ← refuse_if refused "tunnel.announce: denied";
  _ ← admitted db_err "tunnel.announce" ": get privacy mode: " feedRef;
  room ← deref keyPair;
  let addr := tunnelAddress room feedRef in
  _ ← on_state (AddPeer feedRef addr now);
  _ ← snapshot_endpoint feedRef addr;
  _ ← mwrap "tunnel.announce: hook: " (run_hook feedRef);
  mret (A_bool true).
Definition handleLeave (a : RemoteAddr) (q : Request) : M RoomWorld answer :=
  _ ← expect_type "sync" "tunnel.leave is sync" q;
  feedRef ← mwrap "tunnel.leave: get caller: " (mlift (AuthenticatedFeedFromAddr a));
  _ ← admitted db_err "tunnel.leave" ": get privacy mode: " feedRef;
  _ ← on_state (RemovePeer feedRef);
  _ ← snapshot_no_endpoint feedRef;
  mret (A_bool true).
(** The tunnel is open once [Duplex] has reached the target; what the two ends send
    is copied until one of them stops. *)
Definition handleConnect (a : RemoteAddr) (q : Request) : M RoomWorld answer :=
  _ ← expect_type "duplex" "tunnel.connect is duplex" q;
  args ← mwrap "tunnel.connect: parse args: " (mlift (parseSingleObjectArg no_feeds unmarshal_connect (raw_args q)));
  let origin := args.1.1 in
  let portal := args.1.2 in
  let target := args.2 in
  _ ← refuse_if (bool_decide (target = zero_feed)) "tunnel.connect: target required";
  _ ← refuse_if (bool_decide (origin ≠ zero_feed)) "tunnel.connect: forwarded target handling is not available in the room server";
  caller ← mwrap "tunnel.connect: get caller: " (mlift (AuthenticatedFeedFromAddr a));
  room ← (if bool_decide (portal ≠ zero_feed) then deref keyPair else mret zero_feed);
  _ ← refuse_if (bool_decide (portal ≠ zero_feed) && negb (feed_Equal portal room)) "tunnel.connect: portal mismatch";
  w ← mget;
  _ ← refuse_if (negb (HasPeer target (rw_state w))) "tunnel.connect: target not announced";
  _ ← mwrap "tunnel.connect: get caller sink: " (mlift (ResponseSink q));
  match Registry_Get target (rw_conns w) with
  | None => mfail "tunnel.connect: target unavailable"
  | Some targetEndpoint =>
      me ← deref keyPair;
      _ ← mwrap "tunnel.connect: target connect failed: " (mlift (Duplex targetEndpoint (caller, me, target)));
      mret (A_tunnel targetEndpoint caller me target)
  end.
(** The frames of one end that reach the other, which takes the first [room] of
    them. *)
Definition copySourceToSink (frames : list bytes) (room : nat) : list bytes := take room (filter (λ data, data ≠ []) frames).
Definition handleEndpoints (q : Request) : M RoomWorld answer :=
  _ ← expect_type "source" "tunnel.endpoints is a source handler" q;
  s ← subscribe SubscribeEndpoints;
  mret (A_endpoints s.1 s.2).
(** What [streamEndpoints] writes: the peers it found, then the events. *)
Definition endpoint_message (type : string) (p : PeerInfo) : string * string * string := (type, feed_string (ID p), Addr p).
Definition endpoints_written (found : list PeerInfo) (events : list TunnelEvent) : list (string * string * string) :=
  (endpoint_message "joined" <$> found) ++ ((λ e, endpoint_message (TType e) (Info e)) <$> events).
Definition handleIsRoom (q : Request) : M RoomWorld answer :=
  _ ← expect_type "async" "tunnel.isRoom is async" q;
  let id := if bool_decide (raw_args q = []) then "" else unmarshal_id (raw_args q) in
  if bool_decide (id ≠ "") then room ← deref keyPair; mret (A_bool (bool_decide (id = feed_string room)))
  else mret (A_bool true).
Definition handlePing (q : Request) : M RoomWorld answer := _ ← expect_type "sync" "tunnel.ping is sync" q; mret (A_bool true).
Definition TunnelHandler_HandleCall (a : RemoteAddr) (q : Request) : M RoomWorld answer :=
  match Method q with
  | _ :: sub :: _ =>
      if bool_decide (sub = "announce") then handleAnnounce a q
      else if bool_decide (sub = "leave") then handleLeave a q
      else if bool_decide (sub = "connect") then handleConnect a q
      else if bool_decide (sub = "endpoints") then handleEndpoints q
      else if bool_decide (sub = "isRoom") then handleIsRoom q
      else if bool_decide (sub = "ping") then handlePing q
      else mfail ("tunnel: unknown method " +:+ sub)
  | _ => mfail "tunnel: missing submethod"
  end.

(** *** [httpAuth.*] *)
Definition handleInvalidateAllSolutions (a : RemoteAddr) (q : Request) : M RoomWorld answer :=
  _ ← expect_type "async" "httpAuth.invalidateAllSolutions is async" q;
  caller ← mwrap "httpAuth.invalidateAllSolutions: get caller: " (mlift (AuthenticatedFeedFromAddr a));
  m ← mwrap "httpAuth.invalidateAllSolutions: get member: " (on_db (Members_GetByFeed db_err caller));
  _ ← mwrap "httpAuth.invalidateAllSolutions: failed to invalidate tokens: " (on_db (WipeTokensForMember db_err (mem_ID m)));
  mret (A_bool true).
Definition sign_in_message (sid cid : FeedRef) (sc cc : string) : bytes :=
  to_l ("=http-auth-sign-in:" +:+ feed_string sid +:+ ":" +:+ feed_string cid +:+ ":" +:+ sc +:+ ":" +:+ cc).
Definition handleRequestSolution (a : RemoteAddr) (q : Request) : M RoomWorld answer :=
  _ ← expect_type "async" "httpAuth.requestSolution is async" q;
  match kp with
  | None => mfail "httpAuth.requestSolution: no keypair configured"
  | Some key =>
      args ← mwrap "httpAuth.requestSolution: parse args: " (mlift (unmarshal_strings (raw_args q)));
      match args with
      | sc :: cc :: _ =>
          sid ← mwrap "httpAuth.requestSolution: get sid: " (mlift (AuthenticatedFeedFromAddr a));
          mret (A_bytes (ed_Sign key (sign_in_message sid {| f_algo := RefAlgoFeedSSB1; f_id := Public key |} sc cc)))
      | _ => mfail "httpAuth.requestSolution: missing args"
      end
  end.
Definition handleRotateToken (q : Request) : M RoomWorld answer :=
  _ ← expect_type "async" "httpAuth.rotateToken is async" q;
  args ← mwrap "httpAuth.rotateToken: parse args: " (mlift (unmarshal_strings (raw_args q)));
  match args with
  | currentToken :: _ =>
      newToken ← mwrap "httpAuth.rotateToken: rotate failed: " (on_db (RotateToken db_err now random currentToken));
      mret (A_string newToken)
  | [] => mfail "httpAuth.rotateToken: missing current token"
  end.
Definition HTTPAuthHandler_HandleCall (a : RemoteAddr) (q : Request) : M RoomWorld answer :=
  match Method q with
  | _ :: sub :: _ =>
      if bool_decide (sub = "invalidateAllSolutions") then handleInvalidateAllSolutions a q
      else if bool_decide (sub = "requestSolution") then handleRequestSolution a q
      else if bool_decide (sub = "rotateToken") then handleRotateToken q
      else mfail ("httpAuth: unknown method " +:+ sub)
  | _ => mfail "httpAuth: missing submethod"
  end.

(** *** The handlers of the room runtime *)
Definition whoami (q : Request) : M RoomWorld answer :=
  _ ← expect_type "async" "whoami is async" q; room ← deref keyPair; mret (A_id (feed_string room)).
Inductive room_handler := H_whoami | H_room | H_tunnel | H_auth.
Definition registerRoomHandlers : gmap string room_handler :=
  Register ["httpAuth"] H_auth (Register ["tunnel"; "ping"] H_tunnel (Register ["tunnel"; "isRoom"] H_tunnel
    (Register ["tunnel"; "endpoints"] H_tunnel (Register ["tunnel"; "connect"] H_tunnel (Register ["tunnel"; "leave"] H_tunnel
      (Register ["tunnel"; "announce"] H_tunnel (Register ["room"] H_room (Register ["whoami"] H_whoami ∅)))))))).
Definition run_handler (h : room_handler) (a : RemoteAddr) (q : Request) : M RoomWorld answer :=
  match h with
  | H_whoami => whoami q
  | H_room => RoomHandler_HandleCall db_err now random keyPair Domain a q
  | H_tunnel => TunnelHandler_HandleCall a q
  | H_auth => HTTPAuthHandler_HandleCall a q
  end.
Definition HandleCall (a : RemoteAddr) (q : Request) : M RoomWorld answer :=
  match mux_handler registerRoomHandlers (Method q) with
  | Some h => run_handler h a q
  | None => mfail ("no such method: " +:+ Method_String (Method q))
  end.

(** *** A connection of the room runtime ([handleMUXRPCConn])

    From the key the handshake authenticated to the session, and the end of it;
    [srv] is the session. The result says whether the peer was a member then. *)
Definition NotifyPeerAvailable (feed : FeedRef) : M RoomWorld unit :=
  match keyPair with
  | Some room =>
      let addr := tunnelAddress room feed in
      _ ← on_state (AddPeer feed addr now); _ ← snapshot_endpoint feed addr; run_hook feed
  | None => run_hook feed
  end.
Definition member_arrives (remoteFeed : FeedRef) (addr : string) : M RoomWorld unit :=
  _ ← on_state (AddAttendant remoteFeed addr now);
  _ ← mtry (NotifyPeerAvailable remoteFeed);
  _ ← mtry (on_db (UpsertAttendant db_err now remoteFeed addr now_unix));
  mret tt.
Definition conn_open (RemotePubKey : bytes) (addr : string) (srv : nat) : M RoomWorld (FeedRef * bool) :=
  _ ← refuse_if (bool_decide (keyPair = None)) "room: no key pair";
  remoteFeed ← mlift (NewFeedRef RemotePubKey RefAlgoFeedSSB1);
  refused ← denied db_err remoteFeed;
  _ ← refuse_if refused "room: denied shs peer";
  mode ← on_db (GetPrivacyMode db_err);
  isMember ← isInternalMember db_err remoteFeed;
  _ ← refuse_if (bool_decide (mode = ModeRestricted) && negb isMember) "room: rejected restricted-mode external peer";
  _ ← on_conns (Registry_Register remoteFeed srv);
  _ ← match isMember with true => member_arrives remoteFeed addr | false => mret tt end;
  mret (remoteFeed, isMember).
Definition conn_close (remoteFeed : FeedRef) (isMember : bool) : M RoomWorld unit :=
  if isMember then
    _ ← on_state (RemoveAttendant remoteFeed); _ ← on_state (RemovePeer remoteFeed);
    _ ← mtry (on_db (DeactivateAttendant db_err now remoteFeed)); _ ← mtry (on_db (DeactivateTunnelEndpoint db_err now remoteFeed));
    on_conns (Registry_Unregister remoteFeed)
  else mret tt.
End Tunnels.
