(* ===== verification/RoomAuth.v ===== *)
(** * Who may change what in a room

    A call changes only what belongs to its caller: an alias by its owner, a role by
    an invite, an announcement of the caller itself. The two handlers of [room.*]
    register aliases alike. *)
From stdpp Require Import gmap.
From S2P Require Import Prelude GoStr GoBytes Base64 Refs Crypto Legacy Mux Session Roomstate RoomDB RoomDBProofs RoomDBSpec RoomHandlers.
#[local] Open Scope string_scope.
#[local] Open Scope list_scope.
#[local] Open Scope Z_scope.

Lemma insert_row_id {R} (r : R) t : (insert_row r t).1 = seq t + 1.
Proof. done. Qed.
#[local] Opaque insert_row delete_rows update_rows.

(** ** What is observed *)
Definition key_role (k : string) (d : DB) : option Z := (λ p, mr_role p.2) <$> find_row (has_pub_key k) (members d).
(** The key of the member an alias belongs to. *)
Definition owner_of (name : string) (d : DB) : option string :=
  find_row (has_name name) (RoomDB.aliases d) ≫= λ p, mr_pub_key <$> rows (members d) !! ar_member_id p.2.

(** Who made an invite, by its hash, and whether it can still be used. *)
Definition invite_of (h : string) (d : DB) : option (Z * bool) :=
  (λ p, (ir_created_by p.2, ir_active p.2)) <$> find_row (has_hash h) (invites d).
(** All tables but members and invites. *)
Definition unjoined (d : DB) := (RoomDB.aliases d, auth_tokens d, denied_keys d, room_config d, fallback_passwords d,
  runtime_attendants d, runtime_tunnel_endpoints d).

(** ** Methods that only read *)
Section Reads.
Context {W : Type}.
Definition reads {A} (m : M W A) : Prop := ∀ w, (m w).2 = w.
Lemma reads_state {A} (m : M W A) w r w' : m w = (r, w') → reads m → w' = w.
Proof. intros E Hm. specialize (Hm w). by rewrite E in Hm. Qed.
Lemma reads_ret {A} (a : A) : reads (mret a).
Proof. done. Qed.
Lemma reads_fail {A} e : reads (mfail (A := A) e).
Proof. done. Qed.
Lemma reads_lift {A} (r : result A) : reads (mlift r).
Proof. done. Qed.
Lemma reads_get : reads mget.
Proof. done. Qed.
Lemma reads_refuse b e : reads (refuse_if b e).
Proof. intros w. unfold refuse_if. by destruct b. Qed.
Lemma reads_bind {A B} (m : M W A) (k : A → M W B) : reads m → (∀ a, reads (k a)) → reads (m ≫= k).
Proof.
  intros Hm Hk w. specialize (Hm w). unfold mbind, M_mbind. destruct (m w) as [[a|e|] w']; simpl in *; subst; [apply Hk|done..].
Qed.
Lemma reads_wrap {A} c (m : M W A) : reads m → reads (mwrap c m).
Proof. intros Hm w. specialize (Hm w). unfold mwrap. by destruct (m w). Qed.
Lemma reads_try {A} (m : M W A) : reads m → reads (mtry m).
Proof. intros Hm w. specialize (Hm w). unfold mtry. by destruct (m w) as [[]]. Qed.
(** A property of the state survives a method that only reads, and what follows it. *)
Lemma after_reads {A B} (m : M W A) (k : A → M W B) (P : W → Prop) w :
  reads m → P w → (∀ a, m w = (Ok a, w) → P (k a w).2) → P ((m ≫= k) w).2.
Proof.
  intros Hm HP Hk. specialize (Hm w). unfold mbind, M_mbind. destruct (m w) as [[a|e|] w'] eqn:E; simpl in *; subst; auto.
Qed.
Lemma bind_reads {A B} (m : M W A) (k : A → M W B) w : reads m →
  (m ≫= k) w = match (m w).1 with Ok a => k a w | Err e => (Err e, w) | Panic => (Panic, w) end.
Proof. intros Hm. specialize (Hm w). unfold mbind, M_mbind. destruct (m w) as [[]]; simpl in *; by subst. Qed.
Lemma after_change {A B} (m : M W A) (k : A → M W B) (P : W → Prop) w :
  P (m w).2 → (∀ a w1, m w = (Ok a, w1) → P w1 → P (k a w1).2) → P ((m ≫= k) w).2.
Proof. intros HP Hk. unfold mbind, M_mbind. destruct (m w) as [[a|e|] w']; simpl in *; auto. Qed.
Lemma wrapped_state {A} c (m : M W A) w : (mwrap c m w).2 = (m w).2.
Proof. unfold mwrap. by destruct (m w). Qed.
Lemma tried_state {A} (m : M W A) w : (mtry m w).2 = (m w).2.
Proof. unfold mtry. by destruct (m w) as [[]]. Qed.
(** What follows, if anything does, changes nothing that matters. *)
Lemma before_reads {A B} (m : M W A) (k : A → M W B) (P : W → Prop) w :
  P (m w).2 → (∀ a, reads (k a)) → P ((m ≫= k) w).2.
Proof. intros HP Hk. unfold mbind, M_mbind. destruct (m w) as [[a|e|] w']; simpl in *; [by rewrite Hk|done..]. Qed.
End Reads.
Lemma reads_guard db_err stmt : reads (guard db_err stmt).
Proof. intros d. unfold guard. by destruct (db_err stmt). Qed.
Lemma reads_row {R} (o : option R) : reads (row o).
Proof. intros d. unfold row. by destruct o. Qed.
Lemma reads_db {A} (m : M DB A) : reads m → reads (on_db m).
Proof. intros Hm w. unfold on_db. simpl. rewrite Hm. by destruct w. Qed.
#[export] Hint Resolve reads_ret reads_fail reads_lift reads_get reads_refuse reads_bind reads_wrap reads_try reads_guard
  reads_row reads_db : go.

Ltac reading :=
  repeat match goal with
  | |- reads (_ ≫= _) => apply reads_bind; [|intros ?]
  | |- reads (match ?e with _ => _ end) => destruct e
  | |- reads _ => solve [auto with go]
  | |- reads (mwrap _ _) => apply reads_wrap
  | |- reads (mtry _) => apply reads_try
  | |- reads (on_db _) => apply reads_db
  end.

Section Readers.
Context {sh : Sha256} {bc : Bcrypt} {ed : Ed25519} {uc : UnicodeCase} {rj : RoomJSON} {gn : GoNet}.
Context (db_err : string → option string).

Lemma reads_by_feed feed : reads (Members_GetByFeed db_err feed).
Proof. unfold Members_GetByFeed. reading. Qed.
Lemma reads_mode : reads (GetPrivacyMode db_err).
Proof. unfold GetPrivacyMode. reading. Qed.
Lemma reads_resolve alias : reads (Aliases_Resolve db_err alias).
Proof. unfold Aliases_Resolve. reading. Qed.
Lemma reads_aliases : reads (Aliases_List db_err).
Proof. unfold Aliases_List. reading. Qed.
Lemma reads_members : reads (Members_List db_err).
Proof. unfold Members_List. reading. Qed.
Lemma reads_denied feed : reads (denied db_err feed).
Proof. done. Qed.
Lemma reads_deref o : reads (deref o).
Proof. unfold deref. reading. Qed.
Lemma reads_type t name q : reads (expect_type t name q).
Proof. unfold expect_type. reading. Qed.
#[local] Hint Resolve reads_by_feed reads_mode : go.
Lemma reads_member feed : reads (isInternalMember db_err feed).
Proof. unfold isInternalMember. reading. Qed.
#[local] Hint Resolve reads_member : go.
Lemma reads_admitted name get_mode feed : reads (admitted db_err name get_mode feed).
Proof. unfold admitted, in_open_mode. reading. Qed.
Lemma reads_may_alias feed : reads (member_may_alias db_err feed).
Proof. unfold member_may_alias. reading. Qed.
Lemma reads_alias_args raw : reads (alias_args raw).
Proof. unfold alias_args. reading. Qed.
End Readers.
#[export] Hint Resolve reads_by_feed reads_mode reads_resolve reads_aliases reads_members reads_denied reads_deref reads_type
  reads_member reads_admitted reads_may_alias reads_alias_args : go.

(** ** What the statements do to roles and owners *)

(** Two states of the members whose keys agree where there was a row: owners agree. *)
Lemma owner_by_keys d d' name : db_ok d → RoomDB.aliases d' = RoomDB.aliases d →
  (∀ i r, rows (members d) !! i = Some r → mr_pub_key <$> rows (members d') !! i = Some (mr_pub_key r)) →
  owner_of name d' = owner_of name d.
Proof.
  intros Hd Ha Hk. unfold owner_of. rewrite Ha. destruct (find_row _ _) as [[i r]|] eqn:E; [|done]. simpl.
  apply find_row_some in E as [E _]. destruct Hd as [_ _ [_ Hr] _ _ _ _]. destruct (Hr i r E) as [m Hm]. simpl in *.
  rewrite Hm. by apply Hk.
Qed.
Lemma role_inserted d k k' role : db_ok d → find_row (has_pub_key k) (members d) = None →
  key_role k' (set_members (insert_row {| mr_pub_key := k; mr_role := role |} (members d)).2 d) =
  if bool_decide (k' = k) then Some role else key_role k' d.
Proof.
  intros Hd Hn. unfold key_role. cbn [members set_members].
  rewrite (find_insert mr_pub_key has_pub_key (λ _ _, eq_refl) _ {| mr_pub_key := k; mr_role := role |} k' (ok_members _ Hd) Hn).
  simpl. destruct (decide (k = k')) as [->|]; [by rewrite !bool_decide_eq_true_2|by rewrite !bool_decide_eq_false_2].
Qed.
Lemma owner_inserted d r name : db_ok d → owner_of name (set_members (insert_row r (members d)).2 d) = owner_of name d.
Proof.
  intros Hd. apply owner_by_keys; [done..|]. intros i s Hs. cbn [members set_members].
  with_strategy transparent [insert_row] unfold insert_row. simpl. rewrite lookup_insert_ne; [by rewrite Hs|].
  intros <-. apply (k_ids _ _ (ok_members _ Hd)) in Hs. lia.
Qed.
Lemma role_set d id s k k' role : db_ok d → find_row (has_pub_key k) (members d) = Some (id, s) →
  key_role k' (set_members (update_rows (row_id id) (with_role role) (members d)) d) =
  if bool_decide (k' = k) then Some role else key_role k' d.
Proof.
  intros Hd Hs. unfold key_role. cbn [members set_members]. rewrite (find_with_role _ k k' id s) by (done || apply Hd).
  by case_bool_decide.
Qed.
Lemma owner_role_set d id role name : db_ok d →
  owner_of name (set_members (update_rows (row_id id) (with_role role) (members d)) d) = owner_of name d.
Proof.
  intros Hd. apply owner_by_keys; [done..|]. intros i s Hs. cbn [members set_members]. rewrite lookup_update_rows, Hs. simpl.
  by destruct (row_id id i s).
Qed.

Section Tables.
Context {sh : Sha256} (db_err : string → option string).
(** What each statement changes, if it changes anything. *)
Lemma invites_create_result now random id d r d' : Invites_Create db_err now random id d = (r, d') →
  d' = d ∨ ∃ h, find_row (has_hash h) (invites d) = None ∧ d' = set_invites (insert_row {| ir_hashed_token := h;
    ir_created_by := id; ir_created_at := now; ir_active := true |} (invites d)).2 d.
Proof.
  unfold Invites_Create, mwrap, guard, refuse_if, mbind, M_mbind, mget, mmodify. destruct (db_err _); [intros [= _ <-]; by left|]. simpl.
  case_bool_decide as Hn; [intros [= _ <-]; by left|]. apply eq_None_not_Some in Hn. simpl.
  destruct (is_member_id id d); intros [= _ <-]; [right; eauto|by left].
Qed.
(** Methods that write no other table than the tokens. *)
Definition tokens_only {A} (m : M DB A) : Prop := ∀ d, ∃ t, (m d).2 = set_tokens t d.
Lemma tokens_reads {A} (m : M DB A) : reads m → tokens_only m.
Proof. intros Hm d. rewrite Hm. exists (auth_tokens d). by destruct d. Qed.
Lemma tokens_bind {A B} (m : M DB A) (k : A → M DB B) : tokens_only m → (∀ a, tokens_only (k a)) → tokens_only (m ≫= k).
Proof.
  intros Hm Hk d. destruct (Hm d) as [t Ht]. unfold mbind, M_mbind. destruct (m d) as [[a|e|] d1]; simpl in *; subst d1; [|by eexists..].
  destruct (Hk a (set_tokens t d)) as [t' ->]. by exists t'.
Qed.
Lemma tokens_wrap {A} c (m : M DB A) : tokens_only m → tokens_only (mwrap c m).
Proof. intros Hm d. rewrite wrapped_state. apply Hm. Qed.
Lemma tokens_remove_only token : tokens_only (RemoveToken db_err token).
Proof. apply tokens_bind; [apply tokens_reads; auto with go|]. intros _ d. by eexists. Qed.
Lemma tokens_insert_only stmt now random m n : tokens_only (insert_token db_err stmt now random m n).
Proof.
  apply tokens_bind; [apply tokens_reads; auto with go|]. intros _.
  apply tokens_bind; [apply tokens_reads; auto with go|]. intros d1.
  apply tokens_bind; [apply tokens_reads; auto with go|]. intros _.
  apply tokens_bind; [apply tokens_reads; auto with go|]. intros _ d. exists (insert_row {| tr_token := random; tr_member_id := m;
    tr_created_at := now; tr_last_used_at := None; tr_rotation_count := n |} (auth_tokens d1)).2.
  done.
Qed.
Lemma tokens_wipe_result id d r d' : WipeTokensForMember db_err id d = (r, d') → (d' = d ∨ r = Ok tt) ∧ ∃ t, d' = set_tokens t d.
Proof.
  unfold WipeTokensForMember, guard, mbind, M_mbind, mmodify. destruct (db_err _); intros [= <- <-].
  - split; [by left|]. exists (auth_tokens d). by destruct d.
  - split; [by right|by eexists].
Qed.
Lemma tokens_rotate_result now random old d r d' : RotateToken db_err now random old d = (r, d') →
  (d' = d ∨ ∃ new, r = Ok new) ∧ ∃ t, d' = set_tokens t d.
Proof.
  assert (tokens_only (rotate_statements db_err now random old)) as Hs.
  { apply tokens_bind; [apply tokens_reads; by reading|]. intros p.
    apply tokens_bind; [apply tokens_wrap, tokens_remove_only|]. intros _.
    apply tokens_bind; [apply tokens_wrap, tokens_insert_only|]. intros _. apply tokens_reads. reading. }
  assert (∃ t, d = set_tokens t d) as Hd by (exists (auth_tokens d); by destruct d).
  unfold RotateToken, mwrap, guard, transaction, mbind, M_mbind. destruct (db_err _); [intros [= <- <-]; auto|]. specialize (Hs d).
  destruct (rotate_statements db_err now random old d) as [[new|e|] d1]; intros [= <- <-]; [|auto..].
  split; [right; by exists new|done].
Qed.
Lemma snapshots_endpoint_result now feed addr t d : ∃ e, (UpsertTunnelEndpoint db_err now feed addr t d).2 = set_snapshots (runtime_attendants d) e d ∧
  ∀ k, k ≠ feed_string feed → e !! k = runtime_tunnel_endpoints d !! k.
Proof.
  unfold UpsertTunnelEndpoint, mwrap, guard, mbind, M_mbind. destruct (db_err _).
  - exists (runtime_tunnel_endpoints d). by destruct d.
  - eexists. split; [done|]. intros k Hk. by rewrite lookup_insert_ne.
Qed.
Lemma snapshots_gone_result now feed d : ∃ e, (DeactivateTunnelEndpoint db_err now feed d).2 = set_snapshots (runtime_attendants d) e d ∧
  ∀ k, k ≠ feed_string feed → e !! k = runtime_tunnel_endpoints d !! k.
Proof.
  unfold DeactivateTunnelEndpoint, mwrap, guard, mbind, M_mbind. destruct (db_err _).
  - exists (runtime_tunnel_endpoints d). by destruct d.
  - eexists. split; [done|]. intros k Hk. by rewrite lookup_alter_ne.
Qed.

(** An attempt to add a member adds it or changes nothing. *)
Lemma add_result feed role d r d' : Members_Add db_err feed role d = (r, d') →
  d' = d ∧ is_ok r = false ∨ find_row (has_pub_key (feed_string feed)) (members d) = None ∧
    d' = set_members (insert_row {| mr_pub_key := feed_string feed; mr_role := role |} (members d)).2 d ∧ r = Ok (seq (members d) + 1).
Proof.
  unfold Members_Add, mwrap, insert_member, guard, refuse_if, mbind, M_mbind, mget, mmodify.
  destruct (db_err _); [intros [= <- <-]; by left|]. simpl. destruct (bool_decide (role <= 0)); [intros [= <- <-]; by left|].
  simpl. case_bool_decide as Hn; [intros [= <- <-]; by left|]. apply eq_None_not_Some in Hn. intros [= <- <-]. right.
  split; [done|]. by rewrite insert_row_id.
Qed.
End Tables.

Section Consumption.
Context {sh : Sha256} (db_err : string → option string).

(** What the first half of a consumption does: nothing, or a new plain member. *)
Lemma member_changes feed d r d1 : db_ok d → consume_member db_err feed d = (r, d1) →
  db_ok d1 ∧ (∀ name, owner_of name d1 = owner_of name d) ∧
  (∀ k, key_role k d1 ≠ key_role k d → k = feed_string feed ∧ key_role k d1 = Some RoleMember) ∧
  (invites d1 = invites d ∧ unjoined d1 = unjoined d) ∧
  ∀ id, r = Ok id → ∃ s, find_row (has_pub_key (feed_string feed)) (members d1) = Some (id, s).
Proof.
  intros Hd Hc.
  assert (db_ok d1) as Hd1.
  { eapply (statements_ok (λ _, True)); [|exact Hd]. pose proof (consume_member_performs (λ _, True) db_err d feed) as Hs.
    unfold performs in Hs. by rewrite Hc in Hs. }
  assert (d1 = d ∨ find_row (has_pub_key (feed_string feed)) (members d) = None ∧
    d1 = set_members (insert_row {| mr_pub_key := feed_string feed; mr_role := RoleMember |} (members d)).2 d) as Hcase.
  { unfold consume_member, mbind, M_mbind, mtry in Hc. pose proof (reads_by_feed db_err feed d) as Hr.
    destruct (Members_GetByFeed db_err feed d) as [[m|e|] d2]; simpl in *; subst d2.
    - left. by injection Hc.
    - unfold mwrap in Hc. destruct (Members_Add db_err feed RoleMember d) as [r2 d3] eqn:Ea.
      destruct (add_result _ _ _ _ _ _ Ea) as [[-> _]|(? & -> & _)]; injection Hc as _ <-; auto.
    - left. by injection Hc. }
  split_and!; [done|..].
  - intros name. destruct Hcase as [->|[_ ->]]; [done|]. by apply owner_inserted.
  - intros k. destruct Hcase as [->|[Hn ->]]; [done|]. rewrite role_inserted by done. by case_bool_decide.
  - by destruct Hcase as [->|[_ ->]].
  - by destruct Hcase as [->|[_ ->]].
  - intros id ->. destruct (member_ok _ _ _ _ _ Hc) as [_ [(s & -> & Hs)|(-> & Hn & E)]]; [by exists s|]. rewrite E.
    cbn [members set_members]. eexists. pose proof (find_insert mr_pub_key has_pub_key (λ _ _, eq_refl) (members d)
      {| mr_pub_key := feed_string feed; mr_role := RoleMember |} (feed_string feed) (ok_members _ Hd) Hn) as ->.
    simpl. by rewrite bool_decide_eq_true_2.
Qed.
Lemma finish_changes now feed id inv s d d2 : db_ok d → find_row (has_pub_key (feed_string feed)) (members d) = Some (id, s) →
  (consume_finish db_err now feed id inv d).2 = d2 →
  (∀ name, owner_of name d2 = owner_of name d) ∧
  (∀ k, key_role k d2 ≠ key_role k d → k = feed_string feed ∧ key_role k d2 = Some RoleMember) ∧
  (invites d2 = invites d ∨ invites d2 = update_rows (row_id (inv_ID inv)) deactivate (invites d)) ∧ unjoined d2 = unjoined d.
Proof.
  intros Hd Hs <-. set (ivs := update_rows (row_id (inv_ID inv)) deactivate (invites d)).
  assert ((consume_finish db_err now feed id inv d).2 ∈ [d; set_invites ivs d;
    set_members (update_rows (row_id id) (with_role RoleMember) (members d)) (set_invites ivs d)]) as H.
  { unfold consume_finish, mwrap, mtry, Members_SetRole, guard, refuse_if, mbind, M_mbind, mget, mmodify.
    destruct (db_err "invites.deactivate"); [by left|]. right. simpl. destruct (db_err "members.SetRole"); [by left|]. right. simpl.
    rewrite andb_false_r. by left. }
  repeat apply elem_of_cons in H as [->|H]; [| | |by apply not_elem_of_nil in H].
  - split_and!; [done..|by left|done].
  - split_and!; [done..|by right|done].
  - split_and!; [| |by right|done].
    + intros name. exact (owner_role_set d id RoleMember name Hd).
    + intros k. pose proof (role_set d id s (feed_string feed) k RoleMember Hd Hs) as Hr.
      unfold key_role in Hr |- *. cbn [members set_members set_invites] in Hr |- *. rewrite Hr. by case_bool_decide.
Qed.
Lemma deactivated h token inv d r : db_ok d → find_row (has_hash (hashToken token)) (invites d) = Some (inv_ID inv, r) → ir_active r = true →
  ∀ d2, invites d2 = update_rows (row_id (inv_ID inv)) deactivate (invites d) → invite_of h d2 ≠ invite_of h d →
  h = hashToken token ∧ ∃ c, invite_of h d = Some (c, true) ∧ invite_of h d2 = Some (c, false).
Proof.
  intros Hd Hr Ha d2 Hi. assert (keyed ir_hashed_token (invites d)) as Hk by apply Hd. unfold invite_of. rewrite Hi.
  rewrite (find_update ir_hashed_token has_hash) by done.
  destruct (find_row (has_hash h) (invites d)) as [[j u]|] eqn:E; [|done]. cbn [fmap option_fmap option_map fst snd].
  unfold row_id. case_bool_decide as Ej; [|done]. intros _.
  apply (find_keyed ir_hashed_token has_hash (λ _ _, eq_refl) _ _ _ _ Hk) in Hr as [Hr Hrh], E as [Hu Huh]. rewrite Ej, Hr in Hu.
  injection Hu as ->. split; [congruence|]. exists (ir_created_by u). rewrite Ha. done.
Qed.
Lemma consume_changes now token feed d : db_ok d →
  let d' := (Invites_Consume db_err now token feed d).2 in
  (∀ name, owner_of name d' = owner_of name d) ∧
  (∀ k, key_role k d' ≠ key_role k d →
    k = feed_string feed ∧ key_role k d' = Some RoleMember ∧ ∃ c, invite_of (hashToken token) d = Some (c, true)) ∧
  (∀ h, invite_of h d' ≠ invite_of h d → h = hashToken token ∧ ∃ c, invite_of h d = Some (c, true) ∧ invite_of h d' = Some (c, false)) ∧
  unjoined d' = unjoined d.
Proof.
  intros Hd d'. subst d'. unfold Invites_Consume, mbind, M_mbind.
  assert (reads (consume_select db_err token)) as Hr by (unfold consume_select; reading). specialize (Hr d).
  destruct (consume_select db_err token d) as [[inv|e|] d0] eqn:Es; simpl in Hr; subst d0; [|done..].
  destruct (select_ok _ _ _ _ _ Es) as (_ & r & Hi & Ha).
  assert (∃ c, invite_of (hashToken token) d = Some (c, true)) as Hact by (exists (ir_created_by r); unfold invite_of; rewrite Hi; simpl; by rewrite Ha).
  destruct (consume_member db_err feed d) as [r1 d1] eqn:Em.
  destruct (member_changes feed d r1 d1 Hd Em) as (Hd1 & Ho & Hk & [Hi1 Hf1] & Hid).
  assert (∀ h, invite_of h d1 = invite_of h d) as Hh1 by (intros h; unfold invite_of; by rewrite Hi1).
  destruct r1 as [id|e|]; simpl; [|split_and!; [done|by intros k (? & ?)%Hk|intros h; by rewrite Hh1|done]..].
  destruct (Hid id eq_refl) as [s Hs].
  destruct (finish_changes now feed id inv s d1 _ Hd1 Hs eq_refl) as (Ho' & Hk' & Hi' & Hf').
  split_and!; [intros; by rewrite Ho', Ho| | |congruence].
  - intros k Hne.
    destruct (decide (key_role k (consume_finish db_err now feed id inv d1).2 = key_role k d1)) as [E|E].
    + rewrite E in Hne |- *. by destruct (Hk k Hne).
    + by destruct (Hk' k E).
  - intros h Hne. destruct Hi' as [Hi'|Hi'].
    + by destruct Hne; unfold invite_of; rewrite Hi', Hi1.
    + eapply deactivated; [exact Hd|exact Hi|done|by rewrite Hi', Hi1|done].
Qed.
End Consumption.

(** [strings.ToLower] of a lower-case string is that string. *)
Class LowerLaws (uc : UnicodeCase) := { lower_lower s : ToLower (ToLower s) = ToLower s }.

Section AliasChanges.
Context {uc : UnicodeCase} (db_err : string → option string).

Lemma by_feed_ok feed d m d' : Members_GetByFeed db_err feed d = (Ok m, d') →
  ∃ s, find_row (has_pub_key (feed_string feed)) (members d) = Some (mem_ID m, s).
Proof.
  intros H%wrap_done. apply bind_ok in H as (x & d1 & ->%guard_ok & (y & d3 & [= <- <-] & (p & d4 & [Hp ->]%row_ok & [= <-])%bind_ok)%bind_ok).
  exists p.2. by destruct p.
Qed.
Lemma register_changes alias feed sig d : db_ok d →
  (∃ t, (Aliases_Register db_err alias feed sig d).2 = RoomDB.set_aliases t d) ∧
  ((Aliases_Register db_err alias feed sig d).1 = Ok tt →
    owner_of (ToLower alias) (Aliases_Register db_err alias feed sig d).2 ≠ owner_of (ToLower alias) d) ∧
  ∀ name, owner_of name (Aliases_Register db_err alias feed sig d).2 ≠ owner_of name d →
    name = ToLower alias ∧ owner_of name d = None ∧ owner_of name (Aliases_Register db_err alias feed sig d).2 = Some (feed_string feed).
Proof.
  intros Hd. assert (∃ t, d = RoomDB.set_aliases t d) as Hself by (exists (RoomDB.aliases d); by destruct d).
  unfold Aliases_Register, mbind, M_mbind, mwrap. pose proof (reads_by_feed db_err feed d) as Hr.
  destruct (Members_GetByFeed db_err feed d) as [[m|e|] d1] eqn:Eg; simpl in Hr |- *; subst d1; [|done..].
  destruct (by_feed_ok _ _ _ _ Eg) as [s Hs]. unfold guard, refuse_if, mget, mmodify. destruct (db_err _); [done|]. simpl.
  case_bool_decide as Hn; [done|]. apply eq_None_not_Some in Hn. simpl. destruct (is_member_id (mem_ID m) d) eqn:Em; [|done]. simpl.
  assert (∀ name, owner_of name (RoomDB.set_aliases (insert_row {| ar_name := ToLower alias; ar_member_id := mem_ID m; ar_signature := sig |}
    (RoomDB.aliases d)).2 d) = if bool_decide (ToLower alias = name) then Some (feed_string feed) else owner_of name d) as Ho.
  { intros name. unfold owner_of. cbn [RoomDB.aliases RoomDB.set_aliases members].
    assert (keyed ar_name (RoomDB.aliases d)) as Hk by apply Hd.
    rewrite (find_insert ar_name has_name (λ _ _, eq_refl) _
      {| ar_name := ToLower alias; ar_member_id := mem_ID m; ar_signature := sig |} name Hk Hn). simpl.
    case_bool_decide as E; [|done]. simpl.
    apply (find_keyed mr_pub_key has_pub_key (λ _ _, eq_refl) _ _ _ _ (ok_members _ Hd)) in Hs as [-> <-]. done. }
  assert (owner_of (ToLower alias) d = None) as Hnone by (unfold owner_of; by rewrite Hn).
  split_and!; [by eexists|..].
  - intros _. by rewrite Ho, bool_decide_eq_true_2, Hnone.
  - intros name. rewrite Ho. case_bool_decide as E; [|done]. by subst name.
Qed.
Lemma revoke_changes alias d : db_ok d →
  (∃ t, (Aliases_Revoke db_err alias d).2 = RoomDB.set_aliases t d) ∧
  ((Aliases_Revoke db_err alias d).1 = Ok tt → owner_of (ToLower alias) (Aliases_Revoke db_err alias d).2 = None) ∧
  ∀ name, owner_of name (Aliases_Revoke db_err alias d).2 ≠ owner_of name d →
    name = ToLower alias ∧ owner_of name (Aliases_Revoke db_err alias d).2 = None.
Proof.
  intros Hd. unfold Aliases_Revoke, guard, mbind, M_mbind, mget, mmodify. destruct (db_err _); simpl.
  { split; [|done]. exists (RoomDB.aliases d). by destruct d. }
  assert (keyed ar_name (RoomDB.aliases d)) as Hk by apply Hd.
  assert (∀ name, owner_of name (RoomDB.set_aliases (delete_rows (λ _ r, has_name (ToLower alias) r) (RoomDB.aliases d)) d) =
    if bool_decide (name = ToLower alias) then None else owner_of name d) as Ho.
  { intros name. unfold owner_of. cbn [RoomDB.aliases RoomDB.set_aliases members].
    rewrite (find_delete ar_name has_name (λ _ _, eq_refl) _ _ _ Hk).
    destruct (find_row (has_name name) (RoomDB.aliases d)) as [[i r]|] eqn:E; [|by case_bool_decide]. simpl. unfold has_name.
    apply find_row_some in E as [_ E]. simpl in E. apply bool_decide_eq_true in E. subst name. by case_bool_decide. }
  split_and!; [by eexists|..].
  - intros _. by rewrite Ho, bool_decide_eq_true_2.
  - intros name. rewrite Ho. by case_bool_decide.
Qed.
Lemma resolve_ok name a d d' : Aliases_Resolve db_err name d = (Ok a, d') →
  ∃ pub, owner_of name d = Some pub ∧ ParseFeedRef pub = Ok (al_Owner a).
Proof.
  intros (x & d1 & ->%wrap_done%guard_ok & (y & d3 & [= <- <-] & (p & d4 & [Hp ->]%wrap_done%row_ok & H)%bind_ok)%bind_ok)%bind_ok.
  injection H as H _. unfold read_alias in H. destruct (rows (members d) !! ar_member_id p.2) as [m|] eqn:Em; [|done].
  exists (mr_pub_key m). unfold owner_of. rewrite Hp. simpl. rewrite Em. split; [done|].
  destruct (ParseFeedRef (mr_pub_key m)) as [f|e|]; simpl in H; [|done..]. by injection H as <-.
Qed.
End AliasChanges.

Section Guards.
Context (db_err : string → option string).
Definition mode_of (d : DB) : option Z := ParsePrivacyMode <$> room_config d !! "privacy_mode".
Lemma mode_ok mode d d' : GetPrivacyMode db_err d = (Ok mode, d') → mode_of d = Some mode.
Proof.
  intros H%wrap_done. apply bind_ok in H as (x & d1 & ->%guard_ok & (y & d3 & [= <- <-] & (v & d4 & [Hv ->]%row_ok & [= <-])%bind_ok)%bind_ok).
  unfold mode_of. by rewrite Hv.
Qed.
Lemma on_db_ok {A} (m : M DB A) w r w' : on_db m w = (r, w') → m (rw_db w) = (r, rw_db w').
Proof. unfold on_db. intros [= <- <-]. by destruct (m (rw_db w)). Qed.
Lemma member_true feed w w' : isInternalMember db_err feed w = (Ok true, w') → is_Some (role_of feed (rw_db w)).
Proof.
  unfold isInternalMember, mtry, mbind, M_mbind. destruct (on_db _ w) as [[m|e|] w1] eqn:E; simpl.
  - intros _. apply on_db_ok in E. destruct (by_feed_ok _ _ _ _ _ E) as [s Hs]. unfold role_of. rewrite Hs. by eexists.
  - by destruct (is_no_rows e).
  - done.
Qed.
Lemma refuse_ok {W} b e (w w' : W) x : refuse_if b e w = (Ok x, w') → b = false.
Proof. unfold refuse_if. by destruct b. Qed.
Lemma admitted_ok name get_mode feed w x w' : admitted db_err name get_mode feed w = (Ok x, w') →
  is_Some (role_of feed (rw_db w)) ∨ mode_of (rw_db w) = Some ModeOpen.
Proof.
  intros (b & w1 & Hm%wrap_done & Hk)%bind_ok. pose proof (reads_member db_err feed w) as Hr. rewrite Hm in Hr. simpl in Hr. subst w1.
  destruct b; [left; by eapply member_true|right]. apply bind_ok in Hk as (mode & w2 & Hg%wrap_done%on_db_ok & Hrf%refuse_ok).
  apply mode_ok in Hg. apply bool_decide_eq_false, dec_stable in Hrf. by subst.
Qed.
Lemma auth_caller a c : AuthenticatedFeedFromAddr a = Ok c → getCallerFeed a = Ok c.
Proof. by destruct a. Qed.
End Guards.

(** ** What a call may change

    From [w] to [w'], when [a] calls with [q]:
    - an alias appears for a member who signed it, where none of that name was, or goes
      with its owner; the live map of aliases changes with the table only;
    - a role changes for the room's own key, which [room.createInvite] makes an admin
      when the room is neither restricted nor a community and the key is not a member
      yet, or for a caller who is not denied and brought an invite that was active;
    - an invite appears unless the room is restricted, made by the caller in a community
      and in the name of the room otherwise, whoever calls; it goes out of use by the
      caller who brought it;
    - a token goes with all of its caller's, or passes its member on to the new token
      when it was presented itself, by whoever holds it;
    - an announcement, live or in the snapshots, is the caller's own;
    - nothing else: denied keys, configuration, passwords, attendants and sessions. *)
Section Authorized.
Context {sh : Sha256} {ed : Ed25519} {uc : UnicodeCase} {rj : RoomJSON}.
Context (db_err : string → option string) (random : string) (keyPair : option FeedRef).

(** A member's id, by its key. *)
Definition id_of (feed : FeedRef) (d : DB) : option Z := fst <$> find_row (has_pub_key (feed_string feed)) (members d).

Definition alias_changes (a : RemoteAddr) (w w' : RoomWorld) : Prop :=
  ∀ name, owner_of name (rw_db w') ≠ owner_of name (rw_db w) →
    ∃ caller, getCallerFeed a = Ok caller ∧ is_Some (role_of caller (rw_db w)) ∧
      ((owner_of name (rw_db w) = None ∧ owner_of name (rw_db w') = Some (feed_string caller) ∧
        mode_of (rw_db w) ≠ Some ModeRestricted ∧
        ∃ room signature, keyPair = Some room ∧ validateAliasRegistration room caller name signature = Ok tt) ∨
       (owner_of name (rw_db w') = None ∧
        ∃ pub owner, owner_of name (rw_db w) = Some pub ∧ ParseFeedRef pub = Ok owner ∧ feed_Equal owner caller = true)).
Definition live_alias_changes (a : RemoteAddr) (w w' : RoomWorld) : Prop :=
  ∀ name, Roomstate.aliases (rw_state w') !! name ≠ Roomstate.aliases (rw_state w) !! name →
    owner_of name (rw_db w') ≠ owner_of name (rw_db w) ∧
    (Roomstate.aliases (rw_state w') !! name = None ∧ owner_of name (rw_db w') = None ∨
     ∃ caller, getCallerFeed a = Ok caller ∧
       Roomstate.aliases (rw_state w') !! name = Some (default [] (Roomstate.aliases (rw_state w) !! name) ++ [caller])).
(** [caller] brought an invite that can be used. *)
Definition invited (a : RemoteAddr) (q : Request) (caller : FeedRef) (token : string) (w : RoomWorld) : Prop :=
  getCallerFeed a = Ok caller ∧ HasFeed db_err caller (rw_db w) = false ∧ join_token (raw_args q) = Ok token ∧
  ∃ c, invite_of (hashToken token) (rw_db w) = Some (c, true).
Definition role_changes (a : RemoteAddr) (q : Request) (w w' : RoomWorld) : Prop :=
  ∀ k, key_role k (rw_db w') ≠ key_role k (rw_db w) →
    (∃ room mode, keyPair = Some room ∧ k = feed_string room ∧ key_role k (rw_db w) = None ∧
      key_role k (rw_db w') = Some RoleAdmin ∧ mode_of (rw_db w) = Some mode ∧ mode ≠ ModeRestricted ∧ mode ≠ ModeCommunity) ∨
    ∃ caller token, invited a q caller token w ∧ k = feed_string caller ∧ key_role k (rw_db w') = Some RoleMember.
Definition invite_changes (a : RemoteAddr) (q : Request) (w w' : RoomWorld) : Prop :=
  ∀ h, invite_of h (rw_db w') ≠ invite_of h (rw_db w) →
    (∃ mode maker id, mode_of (rw_db w) = Some mode ∧ mode ≠ ModeRestricted ∧
      (if bool_decide (mode = ModeCommunity) then getCallerFeed a = Ok maker else keyPair = Some maker) ∧
      id_of maker (rw_db w') = Some id ∧ invite_of h (rw_db w) = None ∧ invite_of h (rw_db w') = Some (id, true)) ∨
    ∃ caller token c, invited a q caller token w ∧ h = hashToken token ∧
      invite_of h (rw_db w) = Some (c, true) ∧ invite_of h (rw_db w') = Some (c, false).
Definition token_changes (a : RemoteAddr) (q : Request) (w w' : RoomWorld) : Prop :=
  ∀ t, token_of t (rw_db w') ≠ token_of t (rw_db w) →
    (∃ caller id n, getCallerFeed a = Ok caller ∧ id_of caller (rw_db w) = Some id ∧
      token_of t (rw_db w) = Some (id, n) ∧ token_of t (rw_db w') = None) ∨
    ∃ old rest id n, unmarshal_strings (raw_args q) = Ok (old :: rest) ∧ token_of old (rw_db w) = Some (id, n) ∧
      (t = random ∧ token_of t (rw_db w') = Some (id, n + 1) ∨ t = old ∧ token_of t (rw_db w') = None).
Definition peer_changes (a : RemoteAddr) (w w' : RoomWorld) : Prop :=
  ∀ k, peers (rw_state w') !! k ≠ peers (rw_state w) !! k ∨
       runtime_tunnel_endpoints (rw_db w') !! k ≠ runtime_tunnel_endpoints (rw_db w) !! k →
    ∃ caller, getCallerFeed a = Ok caller ∧ k = feed_string caller ∧
      (is_Some (role_of caller (rw_db w)) ∨ mode_of (rw_db w) = Some ModeOpen) ∧
      (is_Some (peers (rw_state w') !! k) → peers (rw_state w') !! k ≠ peers (rw_state w) !! k → HasFeed db_err caller (rw_db w) = false).
(** What no call of a peer changes. *)
Definition untouched (w : RoomWorld) :=
  (denied_keys (rw_db w), room_config (rw_db w), fallback_passwords (rw_db w), runtime_attendants (rw_db w),
   attendants (rw_state w), rw_conns w).

Record authorized (a : RemoteAddr) (q : Request) (w w' : RoomWorld) : Prop := {
  au_aliases : alias_changes a w w';
  au_live : live_alias_changes a w w';
  au_roles : role_changes a q w w';
  au_invites : invite_changes a q w w';
  au_tokens : token_changes a q w w';
  au_peers : peer_changes a w w';
  au_rest : untouched w' = untouched w
}.

(** The same world, another database. *)
Definition with_db (d : DB) (w : RoomWorld) : RoomWorld := {| rw_db := d; rw_state := rw_state w; rw_conns := rw_conns w |}.
Lemma on_db_state {A} (m : M DB A) w : (on_db m w).2 = with_db (m (rw_db w)).2 w.
Proof. done. Qed.
Lemma with_db_same w : with_db (rw_db w) w = w.
Proof. by destruct w. Qed.

Lemma authorized_refl a q w : authorized a q w w.
Proof.
  split; [by intros name []..| |done]. intros k [Hk|Hk]; by destruct Hk.
Qed.
(** Subscriptions are not observed. *)
Lemma authorized_state a q w m : peers m = peers (rw_state w) → attendants m = attendants (rw_state w) →
  Roomstate.aliases m = Roomstate.aliases (rw_state w) →
  authorized a q w {| rw_db := rw_db w; rw_state := m; rw_conns := rw_conns w |}.
Proof.
  intros Hp Ha Hl. split; simpl.
  - by intros name [].
  - intros name []. simpl. by rewrite Hl.
  - by intros k [].
  - by intros h [].
  - by intros t [].
  - intros k [Hk|[]]; [|done]. by destruct Hk; simpl; rewrite Hp.
  - unfold untouched. simpl. by rewrite Ha.
Qed.
Lemma authorized_tokens a q w t : token_changes a q w (with_db (set_tokens t (rw_db w)) w) →
  authorized a q w (with_db (set_tokens t (rw_db w)) w).
Proof. intros Ht. split; [by intros name []..|done| |done]. intros k [Hk|Hk]; by destruct Hk. Qed.
Lemma authorized_roles_invites a q w d : unjoined d = unjoined (rw_db w) → (∀ name, owner_of name d = owner_of name (rw_db w)) →
  role_changes a q w (with_db d w) → invite_changes a q w (with_db d w) → authorized a q w (with_db d w).
Proof.
  intros Hu Ho Hr Hi. unfold unjoined in Hu. injection Hu as Hal Htk Hdn Hcf Hpw Hat Hep. split; try done.
  - intros name Hn. by destruct Hn; apply Ho.
  - intros t []. unfold token_of. simpl. by rewrite Htk.
  - intros k [Hk|Hk]; [by destruct Hk|]. destruct Hk. simpl. by rewrite Hep.
  - unfold untouched. simpl. congruence.
Qed.
Lemma authorized_aliases a q w t m : peers m = peers (rw_state w) → attendants m = attendants (rw_state w) →
  let w' := {| rw_db := RoomDB.set_aliases t (rw_db w); rw_state := m; rw_conns := rw_conns w |} in
  alias_changes a w w' → live_alias_changes a w w' → authorized a q w w'.
Proof.
  intros Hp Ha w' Hal Hl. split; [exact Hal|exact Hl|by intros k []|by intros h []|by intros t' []|..].
  - intros k [Hk|[]]; [|done]. by destruct Hk; simpl; rewrite Hp.
  - unfold untouched. simpl. by rewrite Ha.
Qed.
(** After the announcement, its snapshot. *)
Lemma authorized_snapshot a q w w1 e feed : authorized a q w w1 →
  runtime_tunnel_endpoints (rw_db w1) = runtime_tunnel_endpoints (rw_db w) → getCallerFeed a = Ok feed →
  is_Some (role_of feed (rw_db w)) ∨ mode_of (rw_db w) = Some ModeOpen →
  (∀ k, k ≠ feed_string feed → e !! k = runtime_tunnel_endpoints (rw_db w1) !! k) →
  (is_Some (peers (rw_state w1) !! feed_string feed) →
     peers (rw_state w1) !! feed_string feed ≠ peers (rw_state w) !! feed_string feed → HasFeed db_err feed (rw_db w) = false) →
  authorized a q w (with_db (set_snapshots (runtime_attendants (rw_db w1)) e (rw_db w1)) w1).
Proof.
  intros [H1 H2 H3 H4 H5 H6 H7] Hep Hc Hadm He Hd. split; [exact H1|exact H2|exact H3|exact H4|exact H5| |exact H7].
  intros k Hk. destruct (decide (k = feed_string feed)) as [->|Hne]; [by exists feed|]. apply H6.
  destruct Hk as [Hk|Hk]; [by left|right]. simpl in Hk. by rewrite He in Hk.
Qed.
End Authorized.

(** Passes over what a handler reads before it changes anything. *)
Ltac pass := apply after_reads; [by auto with go|apply authorized_refl|intros ? ?].
Ltac passes := repeat pass.

Section Calls.
Context {sh : Sha256} {bc : Bcrypt} {ed : Ed25519} {uc : UnicodeCase} {ll : LowerLaws uc} {rj : RoomJSON} {gn : GoNet}.
Context (db_err : string → option string) (now : Z) (random : string) (keyPair : option FeedRef) (Domain : string).
Notation authorized := (authorized db_err random keyPair).

Lemma by_feed_id feed d m d' : Members_GetByFeed db_err feed d = (Ok m, d') → id_of feed d = Some (mem_ID m).
Proof. intros H. destruct (by_feed_ok _ _ _ _ _ H) as [s Hs]. unfold id_of. by rewrite Hs. Qed.
Lemma ensure_changes k role w : db_ok (rw_db w) → ∃ r d, ensureMemberID db_err k role w = (r, with_db d w) ∧
  (∀ id, r = Ok id → id_of k d = Some id) ∧
  (d = rw_db w ∨ find_row (has_pub_key (feed_string k)) (members (rw_db w)) = None ∧
    d = set_members (insert_row {| mr_pub_key := feed_string k; mr_role := role |} (members (rw_db w))).2 (rw_db w)).
Proof.
  destruct w as [d0 st cn]. intros Hd. unfold ensureMemberID, mtry, mbind, M_mbind, on_db. pose proof (reads_by_feed db_err k) as Hr.
  cbn [rw_db rw_state rw_conns] in *. set (w := {| rw_db := d0; rw_state := st; rw_conns := cn |}).
  assert (∀ r : result Z, (∀ id, r = Ok id → id_of k d0 = Some id) → ∃ r' d, (r, w) = (r', with_db d w) ∧ (∀ id, r' = Ok id → id_of k d = Some id) ∧
    (d = d0 ∨ find_row (has_pub_key (feed_string k)) (members d0) = None ∧
      d = set_members (insert_row {| mr_pub_key := feed_string k; mr_role := role |} (members d0)).2 d0)) as Hsame.
  { intros r Hid. exists r, d0. auto. }
  pose proof (Hr d0) as Hr1. destruct (Members_GetByFeed db_err k d0) as [[m|e|] d1] eqn:Eg; simpl in Hr1 |- *; subst d1.
  - apply (Hsame (Ok (mem_ID m))). intros id [= <-]. by eapply by_feed_id.
  - destruct (negb (is_no_rows e)); [by apply Hsame|]. simpl.
    destruct (Members_Add db_err k role d0) as [r d1] eqn:Ea. simpl.
    destruct (add_result _ _ _ _ _ _ Ea) as [[-> Hno]|(Hn & -> & ->)].
    + destruct r as [id|e'|]; simpl; [done| |by apply Hsame].
      specialize (Hr d0). destruct (Members_GetByFeed db_err k d0) as [[m|e2|] d2] eqn:E2; simpl in Hr |- *; subst d2; by apply Hsame.
    + eexists _, _. split; [done|]. split; [|by right]. intros id [= <-]. unfold id_of. cbn [members set_members].
      rewrite (find_insert mr_pub_key has_pub_key (λ _ _, eq_refl) (members d0) {| mr_pub_key := feed_string k; mr_role := role |}
        (feed_string k) (ok_members _ Hd) Hn). cbn [mr_pub_key]. by rewrite bool_decide_eq_true_2.
  - by apply Hsame.
Qed.
Lemma invite_inserted d h h' id t : db_ok d → find_row (has_hash h) (invites d) = None →
  invite_of h' (set_invites (insert_row {| ir_hashed_token := h; ir_created_by := id; ir_created_at := t; ir_active := true |} (invites d)).2 d) =
  if bool_decide (h = h') then Some (id, true) else invite_of h' d.
Proof.
  intros Hd Hn. unfold invite_of. cbn [invites set_invites]. assert (keyed ir_hashed_token (invites d)) as Hk by apply Hd.
  rewrite (find_insert ir_hashed_token has_hash (λ _ _, eq_refl) _ {| ir_hashed_token := h; ir_created_by := id; ir_created_at := t; ir_active := true |} h' Hk Hn).
  cbn [ir_hashed_token]. by case_bool_decide.
Qed.
(** The invite itself, made by [maker], once its row is there. *)
Lemma invite_made a q w d mode maker id : db_ok (rw_db w) → invites d = invites (rw_db w) → authorized a q w (with_db d w) →
  mode_of (rw_db w) = Some mode → mode ≠ ModeRestricted →
  (if bool_decide (mode = ModeCommunity) then getCallerFeed a = Ok maker else keyPair = Some maker) → id_of maker d = Some id →
  authorized a q w (with_db (Invites_Create db_err now random id d).2 w).
Proof.
  intros Hd Hi Ha Hm Hr Hmk Hid. destruct (Invites_Create db_err now random id d) as [r d'] eqn:E.
  apply invites_create_result in E as [->|(h & Hn & ->)]; [done|].
  assert (∀ h', invite_of h' (set_invites (insert_row {| ir_hashed_token := h; ir_created_by := id; ir_created_at := now; ir_active := true |} (invites d)).2 d) =
    if bool_decide (h = h') then Some (id, true) else invite_of h' (rw_db w)) as Hinv.
  { intros h'. rewrite Hi in Hn |- *. pose proof (invite_inserted (rw_db w) h h' id now Hd Hn) as H. exact H. }
  destruct Ha as [H1 H2 H3 H4 H5 H6 H7]. split; [exact H1|exact H2|exact H3| |exact H5|exact H6|exact H7].
  intros h'. cbn [rw_db with_db]. rewrite Hinv. destruct (decide (h = h')) as [<-|Hne]; [|by rewrite bool_decide_eq_false_2].
  rewrite bool_decide_eq_true_2 by done. intros _. left. exists mode, maker, id.
  split_and!; try done. unfold invite_of. by rewrite <-Hi, Hn.
Qed.
Lemma createInvite_authorized a q w : db_ok (rw_db w) → authorized a q w (handleCreateInvite db_err now random keyPair a q w).2.
Proof.
  intros Hd. unfold handleCreateInvite. pass. apply after_reads; [auto with go|apply authorized_refl|].
  intros mode Hm%wrap_done%on_db_ok%mode_ok.
  apply after_reads; [auto with go|apply authorized_refl|]. intros x Hx%refuse_ok%bool_decide_eq_false.
  case_bool_decide as Hc.
  - apply after_reads; [|apply authorized_refl|].
    { repeat (apply reads_bind; [by auto with go|intros ?]). repeat case_match; auto with go. }
    intros id (caller & w0 & Hcl%wrap_done & Hk)%bind_ok. injection Hcl as Hcl <-.
    apply bind_ok in Hk as (b & w1 & ->%reads_state & (y & w2 & ->%reads_state & (r & w3 & Hr & Hk)%bind_ok)%bind_ok); [|by auto with go..].
    assert (id_of caller (rw_db w) = Some id) as Hid.
    { unfold mtry in Hr. destruct (on_db _ w) as [[m|e|] w4] eqn:Em; [|injection Hr as <- <-; by destruct (is_no_rows e)|done].
      injection Hr as <- <-. injection Hk as <-. apply on_db_ok in Em. by eapply by_feed_id. }
    apply before_reads; [|done]. rewrite wrapped_state, on_db_state. apply (invite_made _ _ _ _ mode caller); try done.
    + rewrite with_db_same. apply authorized_refl.
    + by rewrite bool_decide_eq_true_2.
  - destruct keyPair as [k|] eqn:Ek; [|apply authorized_refl]. rewrite <-Ek.
    destruct (ensure_changes k RoleAdmin w Hd) as (r & d & Hens & Hid & Hdb).
    assert (authorized a q w (with_db d w)) as Hau.
    { destruct Hdb as [->|[Hn ->]]; [rewrite with_db_same; apply authorized_refl|].
      apply authorized_roles_invites; [done|intros; by apply owner_inserted| |by intros h []].
      intros k'. simpl. rewrite role_inserted by done. case_bool_decide as E; [subst k'|done]. intros _. left. exists k, mode.
      unfold key_role. by rewrite Hn. }
    apply after_change; [by rewrite wrapped_state, Hens|]. intros id w1 E%wrap_done _. rewrite Hens in E. injection E as -> <-.
    apply before_reads; [|done]. rewrite wrapped_state, on_db_state. simpl.
    apply (invite_made a q w d mode k); try done; [by destruct Hdb as [->|[_ ->]]|by rewrite bool_decide_eq_false_2|by apply Hid].
Qed.
Lemma join_authorized a q w : db_ok (rw_db w) → authorized a q w (handleJoin db_err now a q w).2.
Proof.
  intros Hd. unfold handleJoin. pass. apply after_reads; [auto with go|apply authorized_refl|]. intros caller Hc.
  apply wrap_done in Hc. injection Hc as Hc. apply after_reads; [auto with go|apply authorized_refl|]. intros refused [= Hrf].
  apply after_reads; [auto with go|apply authorized_refl|]. intros x Hx%refuse_ok. rewrite Hx in Hrf.
  apply after_reads; [auto with go|apply authorized_refl|]. intros token Htk%wrap_done. injection Htk as Htk. pass.
  apply before_reads; [|done]. rewrite wrapped_state, on_db_state.
  destruct (consume_changes db_err now token caller (rw_db w) Hd) as (Ho & Hk & Hi & Hu).
  apply authorized_roles_invites; [done..| |].
  - intros k (-> & Hr & c & Ha)%Hk. right. exists caller, token. unfold invited. eauto 10.
  - intros h (-> & c & Hi1 & Hi2)%Hi. right. exists caller, token, c. unfold invited. eauto 10.
Qed.
Lemma member_id_authorized caller w w' x : member_may_alias db_err caller w = (Ok x, w') →
  is_Some (role_of caller (rw_db w)) ∧ mode_of (rw_db w) ≠ Some ModeRestricted.
Proof.
  intros (b & w1 & Hm%wrap_done & Hk)%bind_ok. pose proof (reads_member db_err caller w) as Hr. rewrite Hm in Hr. simpl in Hr. subst w1.
  apply bind_ok in Hk as (y & w2 & Hb & (mode & w3 & Hg & Hrf%refuse_ok)%bind_ok).
  pose proof (reads_refuse (W := RoomWorld) (negb b) "room.registerAlias: membership required" w) as Hr. rewrite Hb in Hr. simpl in Hr. subst w2.
  apply refuse_ok in Hb. destruct b; [|done]. split; [by eapply member_true|].
  apply wrap_done, on_db_ok, mode_ok in Hg. apply bool_decide_eq_false in Hrf. congruence.
Qed.
Lemma alias_args_ok raw w w' p : alias_args raw w = (Ok p, w') → ToLower p.1 = p.1.
Proof. intros (args & w1 & _ & (y & w2 & _ & [= <- _])%bind_ok)%bind_ok. apply lower_lower. Qed.
Lemma done_db {A} c (m : M DB A) w x w' : mwrap c (on_db m) w = (Ok x, w') → (m (rw_db w)).1 = Ok x ∧ w' = with_db (m (rw_db w)).2 w.
Proof. intros E%wrap_done. unfold on_db in E. by injection E as -> <-. Qed.
Lemma register_authorized a q caller alias sig w : db_ok (rw_db w) → getCallerFeed a = Ok caller →
  is_Some (role_of caller (rw_db w)) → mode_of (rw_db w) ≠ Some ModeRestricted → ToLower alias = alias →
  authorized a q w (register_alias db_err keyPair Domain caller alias sig w).2.
Proof.
  intros Hd Hc Hr Hm Ha. unfold register_alias.
  apply after_reads; [auto with go|apply authorized_refl|]. intros room Hroom.
  apply after_reads; [auto with go|apply authorized_refl|]. intros x Hv%wrap_done. injection Hv as Hv.
  assert (keyPair = Some room) as Hkp by (unfold deref, mlift in Hroom; destruct keyPair; congruence).
  destruct (register_changes db_err alias caller sig (rw_db w) Hd) as ([t Ht] & Hnew & Ho). rewrite Ha, Ht in *.
  assert (∀ m, alias_changes keyPair a w {| rw_db := RoomDB.set_aliases t (rw_db w); rw_state := m; rw_conns := rw_conns w |}) as Hal.
  { intros m name (-> & Hn & Hs)%Ho. exists caller. split; [done|]. split; [done|]. left. split_and!; try done. exists room, sig. by destruct x. }
  apply after_change.
  - rewrite wrapped_state, on_db_state, Ht. apply authorized_aliases; [done..|]. by intros name [].
  - intros [] w1 [Hok ->]%done_db _. apply before_reads; [|done]. rewrite Ht.
    apply (authorized_aliases _ _ _ a q w t (Roomstate.RegisterAlias alias caller (rw_state w))); [done..|].
    intros name. simpl. destruct (decide (alias = name)) as [<-|Hne]; [|by rewrite lookup_insert_ne].
    intros _. split; [by apply Hnew|]. right. exists caller. by rewrite lookup_insert_eq.
Qed.
Lemma registerAlias_authorized a q w : db_ok (rw_db w) → authorized a q w (handleRegisterAlias db_err keyPair Domain a q w).2.
Proof.
  intros Hd. unfold handleRegisterAlias. pass. apply after_reads; [auto with go|apply authorized_refl|]. intros caller Hc%wrap_done.
  injection Hc as Hc. apply after_reads; [auto with go|apply authorized_refl|]. intros x [Hr Hm]%member_id_authorized.
  apply after_reads; [auto with go|apply authorized_refl|]. intros p Hp%alias_args_ok. by apply register_authorized.
Qed.
(** The bot's copies do what the originals do. *)
Lemma bot_handler a q : Alias_handleRegisterAlias db_err keyPair Domain a q =
  (_ ← expect_type "async" "room.registerAlias is async" q;
   args ← alias_args (raw_args q);
   caller ← mwrap "room.registerAlias: get caller: " (mlift (getCallerFeed a));
   _ ← member_may_alias db_err caller;
   register_alias db_err keyPair Domain caller args.1 args.2).
Proof. done. Qed.
Lemma alias_registerAlias_authorized a q w : db_ok (rw_db w) → authorized a q w (Alias_handleRegisterAlias db_err keyPair Domain a q w).2.
Proof.
  intros Hd. rewrite bot_handler. pass. apply after_reads; [auto with go|apply authorized_refl|]. intros p Hp%alias_args_ok.
  apply after_reads; [auto with go|apply authorized_refl|]. intros caller Hc%wrap_done.
  injection Hc as Hc. apply after_reads; [auto with go|apply authorized_refl|]. intros x [Hr Hm]%member_id_authorized.
  by apply register_authorized.
Qed.
Lemma revokeAlias_authorized a q w : db_ok (rw_db w) → authorized a q w (handleRevokeAlias db_err a q w).2.
Proof.
  intros Hd. unfold handleRevokeAlias. pass. pass. cbv zeta. pass. apply after_reads; [auto with go|apply authorized_refl|].
  intros caller Hc%wrap_done. injection Hc as Hc. apply after_reads; [auto with go|apply authorized_refl|]. intros b Hb%wrap_done.
  apply after_reads; [auto with go|apply authorized_refl|]. intros x Hx%refuse_ok. destruct b; [|done]. apply member_true in Hb.
  apply after_reads; [auto with go|apply authorized_refl|]. intros alias Hal%wrap_done%on_db_ok.
  apply resolve_ok in Hal as (pub & Hpub & Hown).
  apply after_reads; [auto with go|apply authorized_refl|]. intros y Hy%refuse_ok%negb_false_iff.
  destruct (revoke_changes db_err (ToLower (TrimSpace a1)) (rw_db w) Hd) as ([t Ht] & Hgone & Ho). rewrite lower_lower, Ht in *.
  assert (∀ m, alias_changes keyPair a w {| rw_db := RoomDB.set_aliases t (rw_db w); rw_state := m; rw_conns := rw_conns w |}) as Hau.
  { intros m name (-> & Hn)%Ho. exists caller. split; [done|]. split; [done|]. right. split; [done|]. by exists pub, (al_Owner alias). }
  apply after_change.
  - rewrite wrapped_state, on_db_state, Ht. apply authorized_aliases; [done..|]. by intros name [].
  - intros [] w1 [Hok ->]%done_db _. apply before_reads; [|done]. rewrite Ht.
    apply (authorized_aliases _ _ _ a q w t (Roomstate.RevokeAlias (ToLower (TrimSpace a1)) (rw_state w))); [done..|].
    intros name. simpl. destruct (decide (ToLower (TrimSpace a1) = name)) as [<-|Hne]; [|by rewrite lookup_delete_ne].
    intros _. specialize (Hgone Hok). rewrite lookup_delete_eq. split; [|by left]. simpl. by rewrite Hgone, Hpub.
Qed.
Lemma attendants_authorized bridgeFeed a q w : authorized a q w (attendants_handler db_err bridgeFeed a q w).2.
Proof. unfold attendants_handler. passes. apply before_reads; [|done]. by apply authorized_state. Qed.
Lemma reads_listAliases q : reads (handleListAliases db_err q).
Proof. unfold handleListAliases. reading. Qed.
Lemma reads_members_call q : reads (handleMembers db_err q).
Proof. unfold handleMembers. reading. Qed.
Lemma reads_metadata a q : reads (handleMetadata db_err keyPair a q).
Proof. unfold handleMetadata, caller_membership. reading. Qed.
Lemma reads_authorized {A} (m : M RoomWorld A) a q w : reads m → authorized a q w (m w).2.
Proof. intros ->. apply authorized_refl. Qed.
Hint Resolve createInvite_authorized join_authorized registerAlias_authorized revokeAlias_authorized attendants_authorized
  alias_registerAlias_authorized reads_authorized reads_listAliases reads_members_call reads_metadata : go.
Lemma room_authorized a q w : db_ok (rw_db w) → authorized a q w (RoomHandler_HandleCall db_err now random keyPair Domain a q w).2.
Proof.
  intros Hd. unfold RoomHandler_HandleCall, handleAttendants. repeat case_match; auto with go.
Qed.
Lemma alias_authorized a q w : db_ok (rw_db w) → authorized a q w (AliasHandler_HandleCall db_err keyPair Domain a q w).2.
Proof. intros Hd. unfold AliasHandler_HandleCall. repeat case_match; auto with go. Qed.
End Calls.

(** ** Announcements *)
Lemma AddPeer_state id addr t m m' : AddPeer id addr t m = Ok m' →
  peers m' = <[feed_string id := {| ID := id; Addr := addr; Connected := t |}]> (peers m) ∧ attendants m' = attendants m ∧
  Roomstate.aliases m' = Roomstate.aliases m.
Proof. unfold AddPeer, broadcastTunnelLocked. destruct (any_closed _ _); [done|]. by intros [= <-]. Qed.
Lemma RemovePeer_state id m m' : RemovePeer id m = Ok m' → peers m' = delete (feed_string id) (peers m) ∧ attendants m' = attendants m ∧
  Roomstate.aliases m' = Roomstate.aliases m.
Proof.
  unfold RemovePeer, broadcastTunnelLocked. destruct (peers m !! feed_string id); [destruct (any_closed _ _); [done|]|]; by intros [= <-].
Qed.
Lemma on_state_cases f w : (on_state f w).2 = w ∨ ∃ m, f (rw_state w) = Ok m ∧
  (on_state f w).2 = {| rw_db := rw_db w; rw_state := m; rw_conns := rw_conns w |}.
Proof. unfold on_state. destruct (f (rw_state w)) as [m| |]; [right; by exists m|by left..]. Qed.

Section Announcements.
Context {sh : Sha256} {bc : Bcrypt} {ed : Ed25519} {uc : UnicodeCase} {ll : LowerLaws uc} {rj : RoomJSON} {gn : GoNet}.
Context (db_err : string → option string) (now : Z) (random : string) (keyPair : option FeedRef) (Domain : string).
Context (snapshots : bool) (announceHook : option (FeedRef → result unit)) (kp : option KeyPair).
Context (Duplex : nat → FeedRef * FeedRef * FeedRef → result unit).
Notation authorized := (authorized db_err random keyPair).
#[local] Hint Resolve reads_authorized room_authorized : go.

(** The live announcement of [feed], its end, and the snapshots that follow them. *)
Definition announced (a : RemoteAddr) (feed : FeedRef) (w : RoomWorld) : Prop :=
  getCallerFeed a = Ok feed ∧ (is_Some (role_of feed (rw_db w)) ∨ mode_of (rw_db w) = Some ModeOpen).
Lemma peers_authorized a q w feed m : announced a feed w → attendants m = attendants (rw_state w) →
  Roomstate.aliases m = Roomstate.aliases (rw_state w) → (∀ k, k ≠ feed_string feed → peers m !! k = peers (rw_state w) !! k) →
  (is_Some (peers m !! feed_string feed) → HasFeed db_err feed (rw_db w) = false) →
  authorized a q w {| rw_db := rw_db w; rw_state := m; rw_conns := rw_conns w |}.
Proof.
  intros [Hc Hadm] Ha Hl Hp Hd. split; simpl.
  - by intros name [].
  - intros name []. simpl. by rewrite Hl.
  - by intros k [].
  - by intros h [].
  - by intros t [].
  - intros k [Hk|[]]; [|done]. destruct (decide (k = feed_string feed)) as [->|Hne]; [|by destruct Hk; apply Hp].
    exists feed. split; [done|]. split; [done|]. split; [done|]. intros Hs _. by apply Hd.
  - unfold untouched. simpl. by rewrite Ha.
Qed.
Lemma snapshot_more feed addr a q w w1 : authorized a q w w1 → rw_db w1 = rw_db w → announced a feed w →
  (is_Some (peers (rw_state w1) !! feed_string feed) →
     peers (rw_state w1) !! feed_string feed ≠ peers (rw_state w) !! feed_string feed → HasFeed db_err feed (rw_db w) = false) →
  authorized a q w (snapshot_endpoint db_err now snapshots feed addr w1).2.
Proof.
  intros Hw Hdb [Hc Hadm] Hd. unfold snapshot_endpoint. destruct snapshots; [|done]. apply before_reads; [|done].
  rewrite tried_state, on_db_state. destruct (snapshots_endpoint_result db_err now feed addr (now_unix now) (rw_db w1)) as (e & -> & He).
  apply (authorized_snapshot _ _ _ a q w w1 e feed); try done. by rewrite Hdb.
Qed.
Lemma no_snapshot_more feed a q w w1 : authorized a q w w1 → rw_db w1 = rw_db w → announced a feed w →
  (is_Some (peers (rw_state w1) !! feed_string feed) →
     peers (rw_state w1) !! feed_string feed ≠ peers (rw_state w) !! feed_string feed → HasFeed db_err feed (rw_db w) = false) →
  authorized a q w (snapshot_no_endpoint db_err now snapshots feed w1).2.
Proof.
  intros Hw Hdb [Hc Hadm] Hd. unfold snapshot_no_endpoint. destruct snapshots; [|done]. apply before_reads; [|done].
  rewrite tried_state, on_db_state. destruct (snapshots_gone_result db_err now feed (rw_db w1)) as (e & -> & He).
  apply (authorized_snapshot _ _ _ a q w w1 e feed); try done. by rewrite Hdb.
Qed.
Lemma announce_authorized a q w : authorized a q w (handleAnnounce db_err now keyPair snapshots announceHook a q w).2.
Proof.
  unfold handleAnnounce. pass. apply after_reads; [auto with go|apply authorized_refl|]. intros caller Hc%wrap_done.
  injection Hc as Hc. apply auth_caller in Hc. apply after_reads; [auto with go|apply authorized_refl|]. intros refused [= Hrf].
  apply after_reads; [auto with go|apply authorized_refl|]. intros x Hx%refuse_ok. rewrite Hx in Hrf.
  apply after_reads; [auto with go|apply authorized_refl|]. intros y Hy%admitted_ok. pass. cbv zeta.
  apply after_change.
  - destruct (on_state_cases (AddPeer caller (tunnelAddress a1 caller) now) w) as [->|(m & Hm & ->)]; [apply authorized_refl|].
    destruct (AddPeer_state _ _ _ _ _ Hm) as (Hp & Ha & Hl). apply (peers_authorized _ _ _ caller); try done.
    intros k Hk. by rewrite Hp, lookup_insert_ne.
  - intros z w1 Hz Hw1. assert (rw_db w1 = rw_db w) as Hdb.
    { destruct (on_state_cases (AddPeer caller (tunnelAddress a1 caller) now) w) as [E|(m & _ & E)]; rewrite Hz in E; simpl in E; by subst w1. }
    apply after_change; [by apply snapshot_more|]. intros z2 w2 _ Hw2. apply before_reads; [|done].
    rewrite wrapped_state. unfold run_hook. by destruct announceHook.
Qed.
Lemma leave_authorized a q w : authorized a q w (handleLeave db_err now snapshots a q w).2.
Proof.
  unfold handleLeave. pass. apply after_reads; [auto with go|apply authorized_refl|]. intros caller Hc%wrap_done.
  injection Hc as Hc. apply auth_caller in Hc. apply after_reads; [auto with go|apply authorized_refl|]. intros y Hy%admitted_ok.
  assert (∀ w', (on_state (RemovePeer caller) w).2 = w' → w' = w ∨ ∃ m, w' = {| rw_db := rw_db w; rw_state := m; rw_conns := rw_conns w |} ∧
    peers m = delete (feed_string caller) (peers (rw_state w)) ∧ attendants m = attendants (rw_state w) ∧
    Roomstate.aliases m = Roomstate.aliases (rw_state w)) as Hcases.
  { intros w' <-. destruct (on_state_cases (RemovePeer caller) w) as [->|(m & Hm & ->)]; [by left|right].
    exists m. split; [done|by apply RemovePeer_state]. }
  apply after_change.
  - destruct (Hcases _ eq_refl) as [->|(m & -> & Hp & Ha & Hl)]; [apply authorized_refl|]. apply (peers_authorized _ _ _ caller); try done.
    + intros k Hk. by rewrite Hp, lookup_delete_ne.
    + rewrite Hp, lookup_delete_eq. by intros [].
  - intros z w1 Hz Hw1. apply before_reads; [|done]. rewrite Hz in Hcases. destruct (Hcases _ eq_refl) as [E|(m & E & Hp & _)]; simpl in E; subst w1.
    + by apply no_snapshot_more.
    + apply no_snapshot_more; try done. simpl. rewrite Hp, lookup_delete_eq. by intros [].
Qed.
Lemma reads_connect a q : reads (handleConnect keyPair Duplex a q).
Proof. unfold handleConnect. reading. Qed.
Lemma reads_isRoom q : reads (handleIsRoom keyPair q).
Proof. unfold handleIsRoom. cbv zeta. reading. Qed.
Lemma endpoints_authorized a q w : authorized a q w (handleEndpoints q w).2.
Proof. unfold handleEndpoints. pass. apply before_reads; [|done]. by apply authorized_state. Qed.
Lemma reads_ping q : reads (handlePing q).
Proof. unfold handlePing. reading. Qed.
#[local] Hint Resolve announce_authorized leave_authorized reads_connect reads_isRoom endpoints_authorized reads_ping : go.
Lemma tunnel_authorized a q w :
  authorized a q w (TunnelHandler_HandleCall db_err now keyPair snapshots announceHook Duplex a q w).2.
Proof. unfold TunnelHandler_HandleCall. repeat case_match; auto with go. Qed.

Lemma invalidate_authorized a q w : db_ok (rw_db w) → authorized a q w (handleInvalidateAllSolutions db_err a q w).2.
Proof.
  intros Hd. unfold handleInvalidateAllSolutions. pass. apply after_reads; [auto with go|apply authorized_refl|].
  intros caller Hc%wrap_done. injection Hc as Hc. apply auth_caller in Hc.
  apply after_reads; [auto with go|apply authorized_refl|]. intros m Hm%wrap_done%on_db_ok%by_feed_id.
  apply before_reads; [|done]. rewrite wrapped_state, on_db_state.
  destruct (WipeTokensForMember db_err (mem_ID m) (rw_db w)) as [r d'] eqn:E.
  destruct (tokens_wipe_result _ _ _ _ _ E) as [Hr [t ->]]. apply authorized_tokens. intros tk Hne. left.
  destruct Hr as [Hr| ->]; [simpl in Hne; by rewrite Hr in Hne|]. pose proof (wipe_ok db_err (rw_db w) Hd _ _ E tk) as Htk.
  simpl in Hne, Htk |- *. rewrite Htk in Hne |- *. destruct (token_of tk (rw_db w)) as [[id n]|]; [|done].
  case_bool_decide; [subst id|done]. by exists caller, (mem_ID m), n.
Qed.
Lemma rotate_authorized a q w : db_ok (rw_db w) → authorized a q w (handleRotateToken db_err now random q w).2.
Proof.
  intros Hd. unfold handleRotateToken. pass. apply after_reads; [auto with go|apply authorized_refl|]. intros args Hargs%wrap_done.
  injection Hargs as Hargs. destruct args as [|old rest]; [apply authorized_refl|].
  apply before_reads; [|done]. rewrite wrapped_state, on_db_state.
  destruct (RotateToken db_err now random old (rw_db w)) as [r d'] eqn:E.
  destruct (tokens_rotate_result _ _ _ _ _ _ _ E) as [Hr [t ->]]. apply authorized_tokens. intros tk Hne. right.
  destruct Hr as [Hr|[new ->]]; [simpl in Hne; by rewrite Hr in Hne|].
  destruct (rotate_ok db_err (rw_db w) Hd _ _ _ _ _ E) as (_ & id & n & Hold & Htk). exists old, rest, id, n.
  split; [done|]. split; [done|]. specialize (Htk tk). simpl in Hne |- *. rewrite Htk in Hne |- *.
  repeat case_bool_decide; auto. done.
Qed.
Lemma reads_solution a q : reads (handleRequestSolution kp a q).
Proof. unfold handleRequestSolution. reading. Qed.
#[local] Hint Resolve invalidate_authorized rotate_authorized reads_solution : go.
Lemma auth_authorized a q w : db_ok (rw_db w) → authorized a q w (HTTPAuthHandler_HandleCall db_err now random kp a q w).2.
Proof. intros Hd. unfold HTTPAuthHandler_HandleCall. repeat case_match; auto with go. Qed.
Lemma reads_whoami q : reads (whoami keyPair q).
Proof. unfold whoami. reading. Qed.

(** C4. What a call may change in a room. Whatever a peer calls, with whatever arguments, and however it ends:
    an alias appears only for a member who signed its registration, and goes only with its owner, in the live map as in
    the table; a role changes only for a caller who is not denied and brings an active invite, whose role is then that of
    a plain member, and for the room's own key, which anybody's [room.createInvite] makes an admin where neither
    restricted nor community mode is set; an invite is new and made in the name of the calling member, or, in that mode,
    of the room whoever calls, or it is used up by the caller who brings it; a token goes with all of its member's at the
    member's call, or is replaced at the call of whoever presents it, keeping its member; an announcement and its
    snapshot change only by the announced feed, a member or in an open room; denied keys, configuration,
    passwords, attendants and sessions do not change. *)
Theorem room_calls_are_authorized a q w : db_ok (rw_db w) →
  authorized a q w (HandleCall db_err now random keyPair Domain snapshots announceHook kp Duplex a q w).2.
Proof.
  intros Hd. unfold HandleCall. destruct (mux_handler _ _) as [[]|]; simpl; auto using auth_authorized, tunnel_authorized with go.
  - apply reads_authorized, reads_whoami.
  - apply authorized_refl.
Qed.
(** C17. The room of the runtime and the room of the bot register aliases alike: they accept the same calls, leave the
    same state, and give the same answer; only the reason of a refusal may differ. *)
Theorem alias_handlers_agree a q w :
  let room := handleRegisterAlias db_err keyPair Domain a q w in
  let bot := Alias_handleRegisterAlias db_err keyPair Domain a q w in
  room.2 = bot.2 ∧ ∀ ans, room.1 = Ok ans ↔ bot.1 = Ok ans.
Proof.
  rewrite bot_handler. unfold handleRegisterAlias. cbv zeta.
  rewrite !(bind_reads (expect_type _ _ _)) by auto with go. destruct (expect_type _ _ q w).1; [|by split..].
  rewrite (bind_reads (mwrap _ (mlift (getCallerFeed a)))), (bind_reads (alias_args _)) by auto with go.
  destruct (alias_args (raw_args q) w).1 as [p| |] eqn:Ea;
    rewrite ?(bind_reads (mwrap _ (mlift (getCallerFeed a)))) by auto with go;
    destruct (mwrap _ (mlift (getCallerFeed a)) w).1 as [caller| |]; try by split.
  all: rewrite !(bind_reads (member_may_alias _ _)) by auto with go; destruct (member_may_alias db_err caller w).1; try by split.
  all: rewrite (bind_reads (alias_args _)) by auto with go; by rewrite Ea.
Qed.
End Announcements.
