(* ===== verification/RoomConn.v ===== *)
(** * The connections of a room

    A peer connects, calls and disconnects, while others do; the attendants of the
    room are the connected peers that were members when they connected. *)
From stdpp Require Import gmap.
From S2P Require Import Prelude GoStr GoBytes Refs Crypto Legacy Mux Session Roomstate RoomDB RoomDBProofs RoomDBSpec RoomHandlers RoomAuth.
#[local] Open Scope string_scope.
#[local] Open Scope list_scope.
#[local] Open Scope Z_scope.

Lemma AddAttendant_state id addr t m m' : AddAttendant id addr t m = Ok m' →
  attendants m' = <[feed_string id := {| ID := id; Addr := addr; Connected := t |}]> (attendants m) ∧ peers m' = peers m.
Proof.
  unfold AddAttendant, broadcastAttendantLocked. destruct (negb _); [destruct (any_closed _ _); [done|]|]; by intros [= <-].
Qed.
Lemma RemoveAttendant_state id m m' : RemoveAttendant id m = Ok m' →
  attendants m' = delete (feed_string id) (attendants m) ∧ peers m' = peers m.
Proof.
  unfold RemoveAttendant, broadcastAttendantLocked. destruct (bool_decide _); [destruct (any_closed _ _); [done|]|]; by intros [= <-].
Qed.
Lemma on_state_ok f w x w' : on_state f w = (Ok x, w') →
  ∃ m, f (rw_state w) = Ok m ∧ w' = {| rw_db := rw_db w; rw_state := m; rw_conns := rw_conns w |}.
Proof. unfold on_state. destruct (f (rw_state w)) as [m| |]; [|done..]. intros [= _ <-]. by exists m. Qed.

Section Connections.
Context {sh : Sha256} {bc : Bcrypt} {ed : Ed25519} {uc : UnicodeCase} {ll : LowerLaws uc} {rj : RoomJSON} {gn : GoNet}.
Context (db_err : string → option string) (keyPair : option FeedRef) (Domain : string).
Context (snapshots : bool) (announceHook : option (FeedRef → result unit)) (kp : option KeyPair).
Context (Duplex : nat → FeedRef * FeedRef * FeedRef → result unit).

(** What the attendants and the sessions look like. *)
Definition live_part (w : RoomWorld) : gset string * gmap string nat := (dom (attendants (rw_state w)), rw_conns w).
Definition keeps_live {A} (m : M RoomWorld A) : Prop := ∀ w, live_part (m w).2 = live_part w.
Lemma keeps_live_reads {A} (m : M RoomWorld A) : reads m → keeps_live m.
Proof using Type. intros H w. by rewrite H. Qed.
Lemma keeps_live_bind {A B} (m : M RoomWorld A) (k : A → M RoomWorld B) : keeps_live m → (∀ a, keeps_live (k a)) → keeps_live (m ≫= k).
Proof using Type.
  intros Hm Hk w. specialize (Hm w). unfold mbind, M_mbind. destruct (m w) as [[a|e|] w1]; simpl in *; [|done..]. by rewrite Hk.
Qed.
Lemma keeps_live_try {A} (m : M RoomWorld A) : keeps_live m → keeps_live (mtry m).
Proof using Type. intros Hm w. by rewrite tried_state. Qed.
Lemma keeps_live_add id addr t : keeps_live (on_state (AddPeer id addr t)).
Proof using Type.
  intros w. destruct (on_state_cases (AddPeer id addr t) w) as [->|(m & Hm & ->)]; [done|].
  destruct (AddPeer_state _ _ _ _ _ Hm) as (_ & Ha & _). unfold live_part. simpl. by rewrite Ha.
Qed.
Lemma keeps_live_notify now feed : keeps_live (NotifyPeerAvailable db_err now keyPair snapshots announceHook feed).
Proof using Type.
  assert (keeps_live (run_hook announceHook feed)) as Hh by (apply keeps_live_reads; unfold run_hook; reading).
  unfold NotifyPeerAvailable. destruct keyPair as [room|]; [|done].
  apply keeps_live_bind; [apply keeps_live_add|]. intros _. apply keeps_live_bind; [|by intros _].
  unfold snapshot_endpoint. destruct snapshots; [|by apply keeps_live_reads].
  apply keeps_live_bind; [by apply keeps_live_try|]. intros. by apply keeps_live_reads.
Qed.
Lemma arrives_live now feed addr w x w' :
  member_arrives db_err now keyPair snapshots announceHook feed addr w = (Ok x, w') →
  live_part w' = ({[feed_string feed]} ∪ (live_part w).1, (live_part w).2).
Proof using Type.
  intros (y & w1 & (m & Hm & ->)%on_state_ok & H)%bind_ok. destruct (AddAttendant_state _ _ _ _ _ Hm) as [Ha _].
  match type of H with ?m ?w0 = _ => assert (keeps_live m) as Hk end.
  { apply keeps_live_bind; [apply keeps_live_try, keeps_live_notify|]. intros _.
    apply keeps_live_bind; [by apply keeps_live_try|]. intros. by apply keeps_live_reads. }
  specialize (Hk {| rw_db := rw_db w; rw_state := m; rw_conns := rw_conns w |}). rewrite H in Hk. simpl in Hk. rewrite Hk.
  unfold live_part. simpl. by rewrite Ha, dom_insert_L.
Qed.
Lemma member_found feed w b w' : isInternalMember db_err feed w = (Ok b, w') → db_err "members.GetByFeed" = None →
  is_Some (role_of feed (rw_db w)) → b = true.
Proof using Type.
  unfold isInternalMember, Members_GetByFeed, mtry, mwrap, guard, row, on_db, role_of, mbind, M_mbind, mget. intros E Hg. rewrite Hg in E. simpl in E.
  destruct (find_row _ _); [by injection E|]. by intros [].
Qed.
(** A peer that gets in. *)
Lemma open_live now pk addr srv w feed b w' :
  conn_open db_err now keyPair snapshots announceHook pk addr srv w = (Ok (feed, b), w') →
  NewFeedRef pk RefAlgoFeedSSB1 = Ok feed ∧ HasFeed db_err feed (rw_db w) = false ∧
  ((b = true → is_Some (role_of feed (rw_db w))) ∧
   (db_err "members.GetByFeed" = None → is_Some (role_of feed (rw_db w)) → b = true)) ∧
  (mode_of (rw_db w) = Some ModeRestricted → b = true) ∧
  live_part w' = ((if b then {[feed_string feed]} else ∅) ∪ (live_part w).1, <[feed_string feed := srv]> (live_part w).2).
Proof using Type.
  unfold conn_open. rewrite (bind_reads (refuse_if _ _)) by auto with go. destruct (refuse_if _ _ w).1; [|done..].
  rewrite bind_reads by auto with go. simpl. destruct (NewFeedRef pk RefAlgoFeedSSB1) as [f|e|] eqn:Hf; [|done..].
  rewrite bind_reads by auto with go. simpl.
  intros (x & w0 & Hx & H)%bind_ok. pose proof (reads_refuse (W := RoomWorld) (HasFeed db_err f (rw_db w)) "room: denied shs peer" w) as Hr.
  rewrite Hx in Hr. simpl in Hr. subst w0. apply refuse_ok in Hx.
  apply bind_ok in H as (mode & w0 & Hm & H). pose proof (reads_db _ (reads_mode db_err) w) as Hr. rewrite Hm in Hr. simpl in Hr.
  subst w0. apply on_db_ok, mode_ok in Hm.
  apply bind_ok in H as (isMember & w0 & Hb & H). pose proof (reads_member db_err f w) as Hr. rewrite Hb in Hr. simpl in Hr. subst w0.
  apply bind_ok in H as (y & w0 & Hy & H).
  pose proof (reads_refuse (W := RoomWorld) (bool_decide (mode = ModeRestricted) && negb isMember) "room: rejected restricted-mode external peer" w) as Hr.
  rewrite Hy in Hr. simpl in Hr. subst w0. apply refuse_ok in Hy.
  apply bind_ok in H as (z & w1 & [= _ <-] & H). apply bind_ok in H as (u & w2 & Ha & [= <- <- <-]).
  split; [done|]. split; [done|]. split; [split; [intros ->; by eapply member_true|intros Hg; by eapply member_found]|]. split.
  { rewrite Hm. intros [= ->]. rewrite bool_decide_eq_true_2 in Hy by done. by destruct isMember. }
  destruct isMember; [|injection Ha as _ <-; unfold live_part; simpl; by rewrite (left_id_L ∅ (∪))].
  rewrite (arrives_live _ _ _ _ _ _ Ha). done.
Qed.
(** A peer that is turned away changes nothing. *)
Lemma arrives_not_refused now feed addr w e w' :
  member_arrives db_err now keyPair snapshots announceHook feed addr w ≠ (Err e, w').
Proof using Type.
  unfold member_arrives, on_state, mtry, mbind, M_mbind.
  assert (AddAttendant feed addr now (rw_state w) = Panic ∨ ∃ m, AddAttendant feed addr now (rw_state w) = Ok m) as [->|[m ->]].
  { unfold AddAttendant, broadcastAttendantLocked. destruct (negb _); [destruct (any_closed _ _)|]; eauto. }
  - done.
  - destruct (NotifyPeerAvailable _ _ _ _ _ _ _) as [[] w1]; [..|done]; by destruct (on_db _ w1) as [[] w2].
Qed.
Lemma refused_live now pk addr srv w e w' :
  conn_open db_err now keyPair snapshots announceHook pk addr srv w = (Err e, w') → w' = w.
Proof using Type.
  unfold conn_open. rewrite (bind_reads (refuse_if _ _)) by auto with go. destruct (refuse_if _ _ w).1; [|by intros [= _ <-]|done].
  rewrite bind_reads by auto with go. simpl. destruct (NewFeedRef pk RefAlgoFeedSSB1) as [f|e'|]; [|by intros [= _ <-]|done].
  rewrite bind_reads by auto with go. simpl. rewrite bind_reads by auto with go.
  destruct (refuse_if _ _ w).1; [|by intros [= _ <-]|done].
  rewrite bind_reads by auto with go. destruct (on_db _ w).1 as [mode| |]; [|by intros [= _ <-]|done].
  rewrite bind_reads by auto with go. destruct (isInternalMember _ _ w).1 as [b| |]; [|by intros [= _ <-]|done].
  rewrite bind_reads by auto with go. destruct (refuse_if _ _ w).1; [|by intros [= _ <-]|done].
  unfold mbind, M_mbind at 1. simpl. destruct b; [|done]. unfold M_mbind.
  destruct (member_arrives _ _ _ _ _ _ _ _) as [[x|e'|] w1] eqn:E; [done| |done]. by apply arrives_not_refused in E.
Qed.
(** A member that leaves is gone from the attendants, the peers and the sessions. *)
Lemma close_live now feed w x w' : conn_close db_err now feed true w = (Ok x, w') →
  live_part w' = ((live_part w).1 ∖ {[feed_string feed]}, delete (feed_string feed) (live_part w).2) ∧
  peers (rw_state w') !! feed_string feed = None.
Proof using Type.
  intros (y & w1 & (m & Hm & ->)%on_state_ok & H)%bind_ok. apply bind_ok in H as (z & w2 & (m2 & Hm2 & ->)%on_state_ok & H).
  simpl in Hm2. destruct (RemoveAttendant_state _ _ _ Hm) as [Ha Hp]. destruct (RemovePeer_state _ _ _ Hm2) as (Hp2 & Ha2 & _).
  apply bind_ok in H as (r1 & w3 & H3 & H). apply bind_ok in H as (r2 & w4 & H4 & [= _ <-]).
  assert (∀ A (n : M DB A) u r u', mtry (on_db n) u = (Ok r, u') → rw_state u' = rw_state u ∧ rw_conns u' = rw_conns u) as Hdb.
  { intros A n u r u'. unfold mtry. destruct (on_db n u) as [[] v] eqn:E; intros [= _ <-]; unfold on_db in E; by injection E as _ <-. }
  destruct (Hdb _ _ _ _ _ H3) as [E1 E2]. destruct (Hdb _ _ _ _ _ H4) as [E3 E4]. unfold live_part. simpl. rewrite E3, E1, E4, E2. simpl.
  split; [by rewrite Ha2, Ha, dom_delete_L|]. by rewrite Hp2, lookup_delete_eq.
Qed.
Lemma call_live now random a q w : db_ok (rw_db w) →
  live_part (HandleCall db_err now random keyPair Domain snapshots announceHook kp Duplex a q w).2 = live_part w.
Proof using Type ll.
  intros Hd. unfold HandleCall. destruct (mux_handler _ _) as [h|]; [|done].
  assert (∀ w', authorized db_err random keyPair a q w w' → live_part w' = live_part w) as Hl.
  { intros w' [_ _ _ _ _ _ Hu]. unfold untouched in Hu. injection Hu as _ _ _ _ E1 E2. unfold live_part. by rewrite E1, E2. }
  apply Hl. destruct h; simpl.
  - apply reads_authorized, reads_whoami.
  - by apply room_authorized.
  - apply tunnel_authorized.
  - by apply auth_authorized.
Qed.
End Connections.

(** ** Calls keep the constraints of the database *)
Section Sound.
Context {sh : Sha256} {bc : Bcrypt} {ed : Ed25519} {uc : UnicodeCase} {rj : RoomJSON} {gn : GoNet}.
Context (db_err : string → option string) (keyPair : option FeedRef) (Domain : string).
Context (snapshots : bool) (announceHook : option (FeedRef → result unit)) (kp : option KeyPair).
Context (Duplex : nat → FeedRef * FeedRef * FeedRef → result unit).

Definition sound {A} (m : M RoomWorld A) : Prop := ∀ w, db_ok (rw_db w) → db_ok (rw_db (m w).2).
Lemma sound_reads {A} (m : M RoomWorld A) : reads m → sound m.
Proof. intros H w. by rewrite H. Qed.
Lemma sound_db {A} (m : M DB A) : (∀ d, performs (λ _, True) d m) → sound (on_db m).
Proof. intros H w Hw. simpl. eapply statements_ok; [apply H|done]. Qed.
Lemma sound_bind {A B} (m : M RoomWorld A) (k : A → M RoomWorld B) : sound m → (∀ a, sound (k a)) → sound (m ≫= k).
Proof.
  intros Hm Hk w Hw. specialize (Hm w Hw). unfold mbind, M_mbind. destruct (m w) as [[a|e|] w1]; simpl in *; [by apply Hk|done..].
Qed.
Lemma sound_wrap {A} c (m : M RoomWorld A) : sound m → sound (mwrap c m).
Proof. intros Hm w. rewrite wrapped_state. apply Hm. Qed.
Lemma sound_try {A} (m : M RoomWorld A) : sound m → sound (mtry m).
Proof. intros Hm w. rewrite tried_state. apply Hm. Qed.
Lemma sound_state f : sound (on_state f).
Proof. intros w Hw. by destruct (on_state_cases f w) as [->|(m & _ & ->)]. Qed.
Lemma sound_subscribe {A} (f : Manager → A * Manager) : sound (subscribe f).
Proof. by intros w Hw. Qed.
Lemma sound_conns f : sound (on_conns f).
Proof. by intros w Hw. Qed.
#[local] Hint Resolve sound_reads sound_state sound_subscribe sound_conns : go.

Ltac sounds :=
  repeat match goal with
  | |- sound (_ ≫= _) => apply sound_bind; [|intros ?]
  | |- sound (match ?e with _ => _ end) => destruct e
  | |- sound (mwrap _ _) => apply sound_wrap
  | |- sound (mtry _) => apply sound_try
  | |- sound (on_db _) => apply sound_db; intros ?; solve [auto with go]
  | |- sound _ => solve [auto with go]
  end.

Lemma sound_add feed role : sound (on_db (Members_Add db_err feed role)).
Proof. apply sound_db. intros d. apply performs_wrap, members_add. Qed.
Lemma sound_ensure feed role : sound (ensureMemberID db_err feed role).
Proof. unfold ensureMemberID. pose proof (sound_add feed role). sounds. Qed.
Lemma sound_register caller alias sig : sound (register_alias db_err keyPair Domain caller alias sig).
Proof. unfold register_alias. sounds. Qed.
Lemma sound_endpoint now feed addr : sound (snapshot_endpoint db_err now snapshots feed addr).
Proof. unfold snapshot_endpoint. sounds. Qed.
Lemma sound_no_endpoint now feed : sound (snapshot_no_endpoint db_err now snapshots feed).
Proof. unfold snapshot_no_endpoint. sounds. Qed.
Lemma sound_hook feed : sound (run_hook announceHook feed).
Proof. unfold run_hook. sounds. Qed.
#[local] Hint Resolve sound_ensure sound_register sound_endpoint sound_no_endpoint sound_hook : go.
Lemma sound_room now random a q : sound (RoomHandler_HandleCall db_err now random keyPair Domain a q).
Proof.
  unfold RoomHandler_HandleCall, handleCreateInvite, handleJoin, handleRegisterAlias, handleRevokeAlias, handleListAliases, handleMembers,
    handleAttendants, attendants_handler, handleMetadata, caller_membership. sounds.
Qed.
Lemma sound_tunnel now a q : sound (TunnelHandler_HandleCall db_err now keyPair snapshots announceHook Duplex a q).
Proof.
  unfold TunnelHandler_HandleCall, handleAnnounce, handleLeave, handleConnect, handleEndpoints, handleIsRoom, handlePing. cbv zeta. sounds.
Qed.
Lemma sound_auth now random a q : sound (HTTPAuthHandler_HandleCall db_err now random kp a q).
Proof. unfold HTTPAuthHandler_HandleCall, handleInvalidateAllSolutions, handleRequestSolution, handleRotateToken. sounds. Qed.
Lemma sound_call now random a q : sound (HandleCall db_err now random keyPair Domain snapshots announceHook kp Duplex a q).
Proof.
  unfold HandleCall, run_handler, whoami. pose proof (sound_room now random a q). pose proof (sound_tunnel now a q).
  pose proof (sound_auth now random a q). sounds.
Qed.
Lemma sound_open now pk addr srv : sound (conn_open db_err now keyPair snapshots announceHook pk addr srv).
Proof. pose proof sound_hook. unfold conn_open, member_arrives, NotifyPeerAvailable. cbv zeta. sounds. Qed.
Lemma sound_close now feed b : sound (conn_close db_err now feed b).
Proof. unfold conn_close. sounds. Qed.
End Sound.

(** ** The room with its connections

    [live] are the connections served now, by session: whose they are, and the
    [isMember] of [handleMUXRPCConn], read once before the session starts and used
    again when it ends: a peer that joins or is removed meanwhile keeps its flag. *)
Record Live := { lw : RoomWorld; live : gmap nat (FeedRef * bool) }.

Section System.
Context {sh : Sha256} {bc : Bcrypt} {ed : Ed25519} {uc : UnicodeCase} {ll : LowerLaws uc} {rj : RoomJSON} {gn : GoNet}.
Context (keyPair : option FeedRef) (Domain : string).
Context (snapshots : bool) (announceHook : option (FeedRef → result unit)) (kp : option KeyPair).
Context (Duplex : nat → FeedRef * FeedRef * FeedRef → result unit).

(** A step of one goroutine; [alone], no other connection of the feed is served. *)
Definition alone (l : Live) (feed : FeedRef) : Prop := ∀ srv f b, live l !! srv = Some (f, b) → feed_string f ≠ feed_string feed.
Inductive room_step (l : Live) : Live → Prop :=
| r_open db_err now pk addr srv feed b w' : live l !! srv = None → alone l feed →
    conn_open db_err now keyPair snapshots announceHook pk addr srv (lw l) = (Ok (feed, b), w') →
    room_step l {| lw := w'; live := <[srv := (feed, b)]> (live l) |}
| r_refuse db_err now pk addr srv e w' :
    conn_open db_err now keyPair snapshots announceHook pk addr srv (lw l) = (Err e, w') →
    room_step l {| lw := w'; live := live l |}
| r_close db_err now srv feed b w' : live l !! srv = Some (feed, b) → conn_close db_err now feed b (lw l) = (Ok tt, w') →
    room_step l {| lw := w'; live := delete srv (live l) |}
| r_call db_err now random srv feed b q r w' : live l !! srv = Some (feed, b) →
    HandleCall db_err now random keyPair Domain snapshots announceHook kp Duplex (ShsAddr (f_id feed)) q (lw l) = (r, w') →
    room_step l {| lw := w'; live := live l |}
| r_db db_err o : room_step l {| lw := {| rw_db := run db_err o (rw_db (lw l)); rw_state := rw_state (lw l); rw_conns := rw_conns (lw l) |};
    live := live l |}.
Inductive room_reachable : Live → Prop :=
| rr_start : room_reachable {| lw := {| rw_db := empty_db; rw_state := NewManager; rw_conns := ∅ |}; live := ∅ |}
| rr_step l l' : room_reachable l → room_step l l' → room_reachable l'.

Record live_ok (l : Live) : Prop := {
  lo_db : db_ok (rw_db (lw l));
  lo_members : ∀ k, k ∈ (live_part (lw l)).1 ↔ ∃ srv f, live l !! srv = Some (f, true) ∧ feed_string f = k;
  lo_sessions : ∀ srv f b, live l !! srv = Some (f, b) → (live_part (lw l)).2 !! feed_string f = Some srv
}.
Lemma live_same l w' : live_ok l → db_ok (rw_db w') → live_part w' = live_part (lw l) → live_ok {| lw := w'; live := live l |}.
Proof. intros [Hd Hm Hs] Hd' Hp. split; cbn [lw live]; [done|by rewrite Hp|by rewrite Hp]. Qed.
Lemma opened_ok l w' srv feed (b : bool) : live_ok l → db_ok (rw_db w') → live l !! srv = None → alone l feed →
  live_part w' = ((if b then {[feed_string feed]} else ∅) ∪ (live_part (lw l)).1, <[feed_string feed := srv]> (live_part (lw l)).2) →
  live_ok {| lw := w'; live := <[srv := (feed, b)]> (live l) |}.
Proof.
  intros [Hd Hm Hs] Hd' Hn Ha Hp. split; cbn [lw live]; rewrite ?Hp; cbn [fst snd]; [done| |].
  - intros k. rewrite elem_of_union, Hm. split.
    + intros [Hk|(s & f & Hf & <-)].
      * destruct b; [|set_solver]. apply elem_of_singleton in Hk as ->. exists srv, feed. by rewrite lookup_insert_eq.
      * exists s, f. rewrite lookup_insert_ne; [done|congruence].
    + intros (s & f & [[<- [= -> ->]]|[_ Hf]]%lookup_insert_Some & <-); [left; set_solver|right; by exists s, f].
  - intros s f b' [[<- [= <- <-]]|[Hne Hf]]%lookup_insert_Some; [by rewrite lookup_insert_eq|].
    rewrite lookup_insert_ne; [by eapply Hs|]. intros E. by apply (Ha s f b').
Qed.
Lemma closed_ok l w' srv feed (b : bool) : live_ok l → db_ok (rw_db w') → live l !! srv = Some (feed, b) →
  live_part w' = (if b then ((live_part (lw l)).1 ∖ {[feed_string feed]}, delete (feed_string feed) (live_part (lw l)).2)
    else live_part (lw l)) →
  live_ok {| lw := w'; live := delete srv (live l) |}.
Proof.
  intros [Hd Hm Hs] Hd' Hn Hp. split; cbn [lw live]; rewrite ?Hp; [done| |].
  - intros k. split.
    + intros Hk. assert (k ∈ (live_part (lw l)).1 ∧ (b = true → k ≠ feed_string feed)) as [Hk1 Hk2] by (destruct b; set_solver).
      apply Hm in Hk1 as (s & f & Hf & <-). exists s, f. rewrite lookup_delete_ne; [done|]. intros ->.
      assert (b = true ∧ f = feed) as [-> ->] by (split; congruence). by apply Hk2.
    + intros (s & f & [Hne Hf]%lookup_delete_Some & <-).
      assert (feed_string f ∈ (live_part (lw l)).1) as Hin by (apply Hm; by exists s, f).
      destruct b; [|done]. cbn [fst]. apply elem_of_difference. split; [done|]. intros E%elem_of_singleton. apply Hne.
      apply Hs in Hf, Hn. rewrite E in Hf. congruence.
  - intros s f b' [Hne Hf]%lookup_delete_Some. pose proof (Hs _ _ _ Hf) as Hfs. destruct b; [|done]. cbn [snd].
    rewrite lookup_delete_ne; [done|]. intros E. apply Hne. apply Hs in Hn. rewrite E in Hn. congruence.
Qed.
Lemma step_live l l' : room_step l l' → live_ok l → live_ok l'.
Proof.
  intros Hs Hl. pose proof (lo_db _ Hl) as Hd. destruct Hs as [e now pk addr srv feed b w' Hn Ha Ho|e now pk addr srv m w' Ho|
    e now srv feed b w' Hn Hc|e now random srv feed b q r w' Hn Hc|e o].
  - pose proof (sound_open e keyPair snapshots announceHook now pk addr srv (lw l) Hd) as Hd'. rewrite Ho in Hd'.
    apply open_live in Ho as (_ & _ & _ & _ & Hp). by apply opened_ok.
  - apply refused_live in Ho as ->. by apply live_same.
  - pose proof (sound_close e now feed b (lw l) Hd) as Hd'. rewrite Hc in Hd'. eapply closed_ok; [done|exact Hd'|done|].
    destruct b; [by apply close_live in Hc as [-> _]|]. by injection Hc as <-.
  - pose proof (sound_call e keyPair Domain snapshots announceHook kp Duplex now random (ShsAddr (f_id feed)) q (lw l) Hd) as Hd'.
    pose proof (call_live e keyPair Domain snapshots announceHook kp Duplex now random (ShsAddr (f_id feed)) q (lw l) Hd) as Hp.
    rewrite Hc in Hd', Hp. by apply live_same.
  - apply live_same; [done| |done]. simpl. eapply statements_ok; [|exact Hd]. by apply (run_performs (λ _, True)).
Qed.
Lemma reachable_live l : room_reachable l → live_ok l.
Proof.
  induction 1 as [|l l' _ IH Hs]; [|by eapply step_live]. split; cbn; [apply empty_ok| |done].
  intros k. rewrite dom_empty_L. split; [set_solver|]. by intros (? & ? & ? & _).
Qed.

(** C5. If nobody connects twice at once, then in whatever order peers connect, call, and disconnect, and the database
    changes under them: the attendants of the room are the connected peers that were members when they connected, those
    that have been removed since included; a peer that was no member then is not an attendant, also when [room.join] has
    made it one; whether a peer is a member is what the database says when it connects and can be read; and a connected peer's session
    is the one tunnels to it are opened on. *)
Theorem attendants_connected_as_members l : room_reachable l →
  (∀ k, is_Some (attendants (rw_state (lw l)) !! k) ↔ ∃ srv f, live l !! srv = Some (f, true) ∧ feed_string f = k) ∧
  (∀ srv f, live l !! srv = Some (f, false) → attendants (rw_state (lw l)) !! feed_string f = None) ∧
  (∀ srv f b, live l !! srv = Some (f, b) → Registry_Get f (rw_conns (lw l)) = Some srv) ∧
  ∀ db_err now pk addr srv feed b w', conn_open db_err now keyPair snapshots announceHook pk addr srv (lw l) = (Ok (feed, b), w') →
    db_err "members.GetByFeed" = None → (b = true ↔ is_Some (role_of feed (rw_db (lw l)))).
Proof.
  intros [Hd Hm Hs]%reachable_live.
  assert (∀ k, is_Some (attendants (rw_state (lw l)) !! k) ↔ ∃ srv f, live l !! srv = Some (f, true) ∧ feed_string f = k) as Hk.
  { intros k. rewrite <-Hm. unfold live_part. simpl. by rewrite elem_of_dom. }
  split_and!; [exact Hk| |exact Hs|].
  - intros srv f Hf. apply eq_None_not_Some. intros (srv' & f' & Hf' & E)%Hk. apply Hs in Hf as H1, Hf' as H2. rewrite E in H2.
    assert (srv' = srv) as -> by congruence. congruence.
  - intros db_err now pk addr srv feed b w' (_ & _ & [H1 H2] & _)%open_live Hg. split; [exact H1|by apply H2].
Qed.
End System.

(** A peer is let in only if its key authenticated it as a feed that is not denied, as a member if the room is
    restricted; when a member leaves it is gone from the attendants, the announced peers and the sessions. *)
Theorem admission_and_departure `{Sha256, Ed25519, UnicodeCase, RoomJSON} db_err keyPair snapshots hook now pk addr srv w feed b w' :
  conn_open db_err now keyPair snapshots hook pk addr srv w = (Ok (feed, b), w') →
  (NewFeedRef pk RefAlgoFeedSSB1 = Ok feed ∧ HasFeed db_err feed (rw_db w) = false ∧
   (b = true → is_Some (role_of feed (rw_db w))) ∧ (mode_of (rw_db w) = Some ModeRestricted → b = true)) ∧
  ∀ err now' w1 w2, b = true → conn_close err now' feed b w1 = (Ok tt, w2) →
    attendants (rw_state w2) !! feed_string feed = None ∧ peers (rw_state w2) !! feed_string feed = None ∧
    Registry_Get feed (rw_conns w2) = None.
Proof.
  intros Ho. apply open_live in Ho as (? & ? & [? _] & ? & _). split; [done|]. intros err now' w1 w2 -> Hc.
  destruct (close_live _ _ _ _ _ _ Hc) as [Hp Hpe]. unfold live_part in Hp. injection Hp as Hp1 Hp2. split_and!; [|done|].
  - apply eq_None_not_Some. rewrite <-elem_of_dom, Hp1. set_solver.
  - unfold Registry_Get. by rewrite Hp2, lookup_delete_eq.
Qed.
