(* ===== verification/FollowerTracker.v ===== *)
(** * The follower tracker (internal/bridge/follower_tracker.go)

    Peers that announce themselves in the room are followed back on the AT
    Protocol: announcements are collected until none arrives for a while, then
    the collected feeds are synchronised one after the other, at a bounded rate.
    Announcements, the loop, the reset of the rate limit and the passing of time
    interleave as a step relation; the loop leaves the lock between counting a
    follow and making it, so these are two steps. *)
From stdpp Require Import relations.
From S2P Require Import Prelude GoStr GoBytes Regex AtSyntax Base64 Refs.
#[local] Open Scope string_scope.
#[local] Open Scope list_scope.
#[local] Open Scope Z_scope.

Definition announce_capacity : nat := 100.
Definition second : Z := 10 ^ 9.

Record FollowerTrackerConfig := { cfg_client : bool; cfg_BotDID : string; cfg_BotSSBFeed : string;
  DebounceDelay : Z; RateLimitDur : Z; MaxFollowsPer : Z }.
(** What does not change: is there an XRPC client, who is the bot, the bounds. *)
Record FollowerTracker := { xrpcClient : bool; botDID : string; botSSBFeed : string;
  debounceDur : Z; rateLimitDur : Z; maxPerWindow : Z }.
Definition or_default (z d : Z) : Z := if bool_decide (z = 0) then d else z.
Definition NewFollowerTracker (cfg : FollowerTrackerConfig) : FollowerTracker :=
  {| xrpcClient := cfg_client cfg; botDID := cfg_BotDID cfg; botSSBFeed := cfg_BotSSBFeed cfg;
     debounceDur := or_default (DebounceDelay cfg) (5 * second); rateLimitDur := or_default (RateLimitDur cfg) (60 * second);
     maxPerWindow := or_default (MaxFollowsPer cfg) 10 |}.

(** A call of [LexDo]; a parameter is text or a record. *)
Inductive LexArg := AText (s : string) | ARecord (fields : list (string * string)).
Record LexCall := { lex_method : string; lex_inputEncoding : string; lex_endpoint : string;
  lex_params : list (string * LexArg); lex_bodyData : option (list (string * string)) }.

(** What the tracker does, newest first; an announcement is accepted into the channel or
    dropped. *)
Inductive Event :=
| EAccepted (feed : string)
| EDropped (feed : string)
| ETaken (feed : string)
| EReset
| ELimited (feed : string)
| ECall (c : LexCall)
| EFollowed (feed did : string)
| ERecordFailed (feed : string)
| ESettled (feed : string).

(** The fields of the tracker; the locals of its loop, with the feeds of the batch
    that are not settled and whether the first of them was admitted by the rate
    limit; the database table, the clock and the calls made. *)
Record Shared := { announceCh : list FeedRef; pending : gmap string Z; followCount : Z; windowStart : Z; stopCh : bool }.
Record Loop := { debouncer : option Z; batch : list string; admitted : option FeedRef; running : bool; resetting : bool }.
Record Outside := { clock : Z; synced : gset (string * string); calls : nat; trace : list Event }.
Record TrackerWorld := { shared : Shared; loop : Loop; outside : Outside }.

Definition on_shared (f : Shared → Shared) (w : TrackerWorld) : TrackerWorld := Build_TrackerWorld (f (shared w)) (loop w) (outside w).
Definition on_loop (f : Loop → Loop) (w : TrackerWorld) : TrackerWorld := Build_TrackerWorld (shared w) (f (loop w)) (outside w).
Definition on_outside (f : Outside → Outside) (w : TrackerWorld) : TrackerWorld := Build_TrackerWorld (shared w) (loop w) (f (outside w)).
Definition set_channel (c : list FeedRef) (s : Shared) : Shared := Build_Shared c (pending s) (followCount s) (windowStart s) (stopCh s).
Definition set_pending (p : gmap string Z) (s : Shared) : Shared := Build_Shared (announceCh s) p (followCount s) (windowStart s) (stopCh s).
Definition set_count (n start : Z) (s : Shared) : Shared := Build_Shared (announceCh s) (pending s) n start (stopCh s).
Definition set_stop (s : Shared) : Shared := Build_Shared (announceCh s) (pending s) (followCount s) (windowStart s) true.
Definition set_timer (t : option Z) (l : Loop) : Loop := Build_Loop t (batch l) (admitted l) (running l) (resetting l).
Definition set_batch (b : list string) (a : option FeedRef) (l : Loop) : Loop := Build_Loop (debouncer l) b a (running l) (resetting l).
(** The loop ends with [defer debouncer.Stop()]. *)
Definition end_loop (l : Loop) : Loop := Build_Loop None (batch l) (admitted l) false (resetting l).
Definition end_reset (l : Loop) : Loop := Build_Loop (debouncer l) (batch l) (admitted l) (running l) false.
Definition emit (e : Event) : TrackerWorld → TrackerWorld := on_outside (λ o, Build_Outside (clock o) (synced o) (calls o) (e :: trace o)).
Definition count_call : TrackerWorld → TrackerWorld := on_outside (λ o, Build_Outside (clock o) (synced o) (S (calls o)) (trace o)).
Definition add_synced (k : string * string) : TrackerWorld → TrackerWorld :=
  on_outside (λ o, Build_Outside (clock o) ({[k]} ∪ synced o) (calls o) (trace o)).
Definition advance (d : Z) : TrackerWorld → TrackerWorld := on_outside (λ o, Build_Outside (clock o + d) (synced o) (calls o) (trace o)).

(** The statements fail and the server answers by the number of calls made before:
    [env_resolve] is the DID of an answer, [env_create] the answer to a creation. *)
Record TrackerEnv := { env_db_err : nat → option string; env_resolve : nat → LexCall → result string;
  env_create : nat → LexCall → result unit; env_RFC3339 : Z → string }.

(** A send that does not wait: an announcement that finds the channel full is dropped. *)
Definition Announce (feed : FeedRef) (w : TrackerWorld) : TrackerWorld :=
  if bool_decide (length (announceCh (shared w)) < announce_capacity)%nat
  then emit (EAccepted (feed_string feed)) (on_shared (λ s, set_channel (announceCh s ++ [feed]) s) w)
  else emit (EDropped (feed_string feed)) w.

Section Tracker.
Context (ft : FollowerTracker) (env : TrackerEnv).
#[local] Abbreviation M := (M TrackerWorld).

(** ** Calls *)
Definition statement {A} (f : TrackerWorld → A * TrackerWorld) : M A := λ w,
  match env_db_err env (calls (outside w)) with
  | Some e => (Err e, count_call w)
  | None => let '(a, w') := f w in (Ok a, count_call w')
  end.
Definition HasFollowerSync (feed : string) : M bool := statement (λ w, (bool_decide ((botDID ft, feed) ∈ synced (outside w)), w)).
Definition AddFollowerSync (feed : string) : M unit := statement (λ w, (tt, add_synced (botDID ft, feed) w)).
Definition LexDo {A} (answer : nat → LexCall → result A) (c : LexCall) : M A := λ w,
  (answer (calls (outside w)) c, count_call (emit (ECall c) w)).

Definition resolve_call (feed : FeedRef) : LexCall :=
  {| lex_method := "query"; lex_inputEncoding := ""; lex_endpoint := "com.atproto.identity.resolveHandle";
     lex_params := [("handle", AText (feed_string feed))]; lex_bodyData := None |}.
Definition follow_call (targetDID createdAt : string) : LexCall :=
  let record := [("$type", "app.bsky.graph.follow"); ("subject", targetDID); ("createdAt", createdAt)] in
  {| lex_method := "procedure"; lex_inputEncoding := "application/json"; lex_endpoint := "com.atproto.repo.createRecord";
     lex_params := [("repo", AText (botDID ft)); ("collection", AText "app.bsky.graph.follow"); ("record", ARecord record)];
     lex_bodyData := Some record |}.

Definition resolveSSBFeedToDID (feed : FeedRef) : M string :=
  if negb (xrpcClient ft) then mret ""
  else
    r ← mtry (LexDo (env_resolve env) (resolve_call feed));
    mret (match r with Ok did => did | _ => "" end).
Definition publishATProtoFollow (targetDID : string) : M unit :=
  if negb (xrpcClient ft) || bool_decide (botDID ft = "") then mret tt
  else λ w, LexDo (env_create env) (follow_call targetDID (env_RFC3339 env (clock (outside w)))) w.

(** ** Synchronising one feed *)
Definition count_follow (followerSSBFeed : string) : M bool := λ w,
  if bool_decide (followCount (shared w) >= maxPerWindow ft) then (Ok false, emit (ELimited followerSSBFeed) w)
  else (Ok true, on_shared (λ s, set_count (followCount s + 1) (windowStart s) s) w).
(** Up to the count of the follow: is it to be made? *)
Definition sync_admit (feed : FeedRef) : M bool :=
  let followerSSBFeed := feed_string feed in
  synced ← HasFollowerSync followerSSBFeed;
  if (synced : bool) then mret false
  else if bool_decide (botSSBFeed ft = followerSSBFeed) then mret false
  else count_follow followerSSBFeed.
(** From there on. *)
Definition sync_follow (feed : FeedRef) : M unit :=
  let followerSSBFeed := feed_string feed in
  followerDID ← resolveSSBFeedToDID feed;
  if bool_decide (followerDID = "") then mret tt
  else
    _ ← publishATProtoFollow followerDID;
    _ ← mmodify (emit (EFollowed followerSSBFeed followerDID));
    r ← mtry (AddFollowerSync followerSSBFeed);
    match r with Err _ => mmodify (emit (ERecordFailed followerSSBFeed)) | _ => mret tt end.
Definition syncFollower (feed : FeedRef) : M unit :=
  go ← sync_admit feed;
  if (go : bool) then sync_follow feed else mret tt.

(** ** The steps *)
Definition settle (k : string) (rest : list string) (w : TrackerWorld) : TrackerWorld :=
  emit (ESettled k) (on_loop (set_batch rest None) w).
Definition take (feed : FeedRef) (queue : list FeedRef) (w : TrackerWorld) : TrackerWorld :=
  emit (ETaken (feed_string feed)) (on_loop (set_timer (Some (clock (outside w) + debounceDur ft)))
    (on_shared (λ s, set_pending (<[feed_string feed := clock (outside w)]> (pending s)) (set_channel queue s)) w)).
Definition fire (order : list string) (w : TrackerWorld) : TrackerWorld :=
  on_loop (λ l, set_batch order None (set_timer None l)) (on_shared (set_pending ∅) w).
(** The next feed of the batch, up to the count. *)
Definition admit_next (k : string) (rest : list string) (w : TrackerWorld) : TrackerWorld :=
  match ParseFeedRef k with
  | Ok feed =>
      match sync_admit feed w with
      | (Ok true, w') => on_loop (set_batch (k :: rest) (Some feed)) w'
      | (_, w') => settle k rest w'
      end
  | _ => settle k rest w
  end.
Definition reset_window (w : TrackerWorld) : TrackerWorld := emit EReset (on_shared (set_count 0 (clock (outside w))) w).

Inductive step (w : TrackerWorld) : TrackerWorld → Prop :=
| SAnnounce feed : step w (Announce feed w)
| STake feed queue : running (loop w) = true → batch (loop w) = [] → announceCh (shared w) = feed :: queue → step w (take feed queue w)
| SFire t order : running (loop w) = true → batch (loop w) = [] → debouncer (loop w) = Some t → t <= clock (outside w) →
    order ≡ₚ elements (dom (pending (shared w))) → step w (fire order w)
| SAdmit k rest : running (loop w) = true → batch (loop w) = k :: rest → admitted (loop w) = None → step w (admit_next k rest w)
| SFollow k rest feed : running (loop w) = true → batch (loop w) = k :: rest → admitted (loop w) = Some feed →
    step w (settle k rest (sync_follow feed w).2)
| SReset : resetting (loop w) = true → step w (reset_window w)
| SWait d : 0 <= d → step w (advance d w)
| SStop : step w (on_shared set_stop w)
| SEnd : batch (loop w) = [] → step w (on_loop end_loop w)
| SEndReset : stopCh (shared w) = true → step w (on_loop end_reset w).

(** [Start] at a time, with the follows recorded before. *)
Definition Start (t : Z) (known : gset (string * string)) : TrackerWorld :=
  {| shared := {| announceCh := []; pending := ∅; followCount := 0; windowStart := 0; stopCh := false |};
     loop := {| debouncer := Some (t + debounceDur ft); batch := []; admitted := None; running := true; resetting := true |};
     outside := {| clock := t; synced := known; calls := 0; trace := [] |} |}.
End Tracker.

(** ** What the trace says *)
Definition is_create (e : Event) : bool :=
  match e with ECall c => bool_decide (lex_endpoint c = "com.atproto.repo.createRecord") | _ => false end.
Definition is_followed (k : string) (e : Event) : bool := match e with EFollowed k' _ => bool_decide (k = k') | _ => false end.
Definition is_record_failed (k : string) (e : Event) : bool := match e with ERecordFailed k' => bool_decide (k = k') | _ => false end.
Definition occurs (P : Event → bool) (t : list Event) : nat := length (filter (λ e, P e = true) t).
(** The creations between two resets, newest window first. *)
Fixpoint windows (t : list Event) : list nat :=
  match t with
  | [] => [O]
  | EReset :: t => O :: windows t
  | e :: t => match windows t with n :: l => ((if is_create e then 1 else 0) + n)%nat :: l | [] => [] end
  end.
(** The feed was taken from the channel and not settled since. *)
Fixpoint unsettled (k : string) (t : list Event) : bool :=
  match t with
  | [] => false
  | ETaken k' :: t => bool_decide (k = k') || unsettled k t
  | ESettled k' :: t => negb (bool_decide (k = k')) && unsettled k t
  | _ :: t => unsettled k t
  end.
(** The feeds the channel accepted and those the loop took from it, oldest first. *)
Definition accepted (t : list Event) : list string := rev (omap (λ e, match e with EAccepted k => Some k | _ => None end) t).
Definition taken (t : list Event) : list string := rev (omap (λ e, match e with ETaken k => Some k | _ => None end) t).
(** Every announcement that was dropped found the channel full. *)
Fixpoint drops_when_full (t : list Event) : Prop :=
  match t with
  | [] => True
  | EDropped _ :: t => length (accepted t) = (length (taken t) + announce_capacity)%nat ∧ drops_when_full t
  | _ :: t => drops_when_full t
  end.
(** Events of the inside of a synchronisation. *)
Definition inner (e : Event) : bool := match e with ECall _ | EFollowed _ _ | ERecordFailed _ | ELimited _ => true | _ => false end.

Lemma occurs_cons P e t : occurs P (e :: t) = ((if P e then 1 else 0) + occurs P t)%nat.
Proof. unfold occurs. rewrite list.filter_cons. destruct (P e); [by rewrite decide_True|by rewrite decide_False]. Qed.
Lemma occurs_app P t u : occurs P (t ++ u) = (occurs P t + occurs P u)%nat.
Proof. unfold occurs. by rewrite list.filter_app, length_app. Qed.
Lemma windows_inner es t n l : Forall (λ e, inner e = true) es → windows t = n :: l → windows (es ++ t) = (occurs is_create es + n)%nat :: l.
Proof.
  intros He Ht. induction He as [|e es He _ IH]; [done|]. rewrite occurs_cons, <-Nat.add_assoc.
  destruct e; try done; cbn [app windows is_create]; by rewrite IH.
Qed.
Lemma windows_nonempty t : ∃ n l, windows t = n :: l.
Proof. induction t as [|e t (n & l & IH)]; simpl; [eauto|]. rewrite IH. destruct e; eauto. Qed.
Lemma unsettled_inner k es t : Forall (λ e, inner e = true) es → unsettled k (es ++ t) = unsettled k t.
Proof. intros He. induction He as [|e es He _ IH]; [done|]. by destruct e; simpl in *. Qed.

Lemma accepted_cons e t : accepted (e :: t) = accepted t ++ match e with EAccepted k => [k] | _ => [] end.
Proof. unfold accepted. by destruct e; simpl; rewrite ?app_nil_r. Qed.
Lemma taken_cons e t : taken (e :: t) = taken t ++ match e with ETaken k => [k] | _ => [] end.
Proof. unfold taken. by destruct e; simpl; rewrite ?app_nil_r. Qed.
Lemma taken_inner es t : Forall (λ e, inner e = true) es →
  accepted (es ++ t) = accepted t ∧ taken (es ++ t) = taken t ∧ (drops_when_full t → drops_when_full (es ++ t)).
Proof.
  intros He. induction He as [|e es He _ (IH1 & IH2 & IH3)]; [done|]. cbn [app]. rewrite accepted_cons, taken_cons, IH1, IH2.
  by destruct e; rewrite ?app_nil_r.
Qed.
Section Steps.
Context (ft : FollowerTracker) (env : TrackerEnv).

(** What a synchronisation adds to the trace, and what it leaves alone. *)
Definition extends (w w' : TrackerWorld) (es : list Event) : Prop :=
  loop w' = loop w ∧ pending (shared w') = pending (shared w) ∧ clock (outside w') = clock (outside w) ∧
  trace (outside w') = es ++ trace (outside w) ∧ Forall (λ e, inner e = true) es.

Lemma sync_admit_spec feed w r w' : sync_admit ft env feed w = (r, w') →
  ∃ es, extends w w' es ∧ synced (outside w') = synced (outside w) ∧ (∀ P, occurs P es ≤ occurs P [ELimited (feed_string feed)])%nat ∧
  (followCount (shared w') = followCount (shared w) ∧ r ≠ Ok true ∨
   r = Ok true ∧ es = [] ∧ (botDID ft, feed_string feed) ∉ synced (outside w) ∧ feed_string feed ≠ botSSBFeed ft ∧
     followCount (shared w) < maxPerWindow ft ∧ followCount (shared w') = followCount (shared w) + 1).
Proof.
  unfold sync_admit, HasFollowerSync, statement, count_follow, mbind, M_mbind. cbv zeta.
  destruct (env_db_err env (calls (outside w))) as [e|].
  { intros [= <- <-]. exists []. split_and!; [done|done|intros; unfold occurs; simpl; lia|by left]. }
  case_bool_decide as Hs; [|case_bool_decide as Hb]; [intros [= <- <-]..|].
  1,2: exists []; split_and!; [done|done|intros; unfold occurs; simpl; lia|by left].
  case_bool_decide as Hc; intros [= <- <-]; simpl in Hc.
  - exists [ELimited (feed_string feed)]. split_and!; [|done|done|by left]. repeat split. by repeat constructor.
  - exists []. split_and!; [done|done|intros; unfold occurs; simpl; lia|]. right. split_and!; try done; try congruence; lia.
Qed.

(** Calls alone, [n] of which create records. *)
Definition calm (n : nat) (w w' : TrackerWorld) (es : list Event) : Prop :=
  extends w w' es ∧ shared w' = shared w ∧ synced (outside w') = synced (outside w) ∧ (occurs is_create es ≤ n)%nat ∧
  ∀ k, occurs (is_followed k) es = O ∧ occurs (is_record_failed k) es = O.
Lemma calm_refl w : calm 0 w w [].
Proof. split_and!; [by split_and!|..]; done. Qed.
Lemma calm_call {A} (answer : nat → LexCall → result A) c w :
  calm (if is_create (ECall c) then 1 else 0) w (LexDo answer c w).2 [ECall c].
Proof. split_and!; try done; [split_and!; try done; by repeat constructor|]. rewrite occurs_cons. unfold occurs. simpl filter. destruct (is_create (ECall c)); simpl; lia. Qed.
Lemma resolve_calm feed w : let p := resolveSSBFeedToDID ft env feed w in ∃ es, calm 0 w p.2 es ∧ ∀ e, p.1 ≠ Err e.
Proof.
  cbv zeta. unfold resolveSSBFeedToDID. destruct (negb (xrpcClient ft)); [exists []; split; [apply calm_refl|done]|].
  exists [ECall (resolve_call feed)]. pose proof (calm_call (env_resolve env) (resolve_call feed) w) as Hc.
  unfold mbind, M_mbind, mtry. unfold LexDo in *. cbn [snd] in Hc.
  destruct (env_resolve env (calls (outside w)) (resolve_call feed)); (split; [exact Hc|done]).
Qed.
Lemma publish_calm did w : ∃ es, calm 1 w (publishATProtoFollow ft env did w).2 es.
Proof.
  unfold publishATProtoFollow. destruct (_ || _).
  - exists []. destruct (calm_refl w) as (? & ? & ? & ? & ?). split_and!; try done. lia.
  - eexists. apply (calm_call (env_create env)).
Qed.
Lemma calm_trans n m w w1 w2 es es' : calm n w w1 es → calm m w1 w2 es' → calm (m + n) w w2 (es' ++ es).
Proof.
  intros ((? & ? & ? & Ht & He) & ? & ? & Hn & Hk) ((? & ? & ? & Ht' & He') & ? & ? & Hm & Hk').
  split_and!; [split_and!|..]; try congruence.
  - rewrite Ht', Ht. by rewrite app_assoc.
  - by apply Forall_app.
  - rewrite occurs_app. lia.
  - intros k. rewrite !occurs_app. destruct (Hk k) as [-> ->]. by destruct (Hk' k) as [-> ->].
Qed.

Lemma sync_follow_spec feed w : let w' := (sync_follow ft env feed w).2 in
  ∃ es, extends w w' es ∧ shared w' = shared w ∧ (occurs is_create es ≤ 1)%nat ∧
  ((synced (outside w') = synced (outside w) ∧ ∀ k, (occurs (is_followed k) es ≤ occurs (is_record_failed k) es)%nat) ∨
   (synced (outside w') = {[(botDID ft, feed_string feed)]} ∪ synced (outside w) ∧
    ∀ k, occurs (is_record_failed k) es = O ∧ (occurs (is_followed k) es ≤ 1)%nat)) ∧
  (∀ k, k ≠ feed_string feed → occurs (is_followed k) es = O).
Proof.
  cbv zeta. assert (∀ w' es, calm 1 w w' es → ∃ es, extends w w' es ∧ shared w' = shared w ∧ (occurs is_create es ≤ 1)%nat ∧
    ((synced (outside w') = synced (outside w) ∧ ∀ k, (occurs (is_followed k) es ≤ occurs (is_record_failed k) es)%nat) ∨
     (synced (outside w') = {[(botDID ft, feed_string feed)]} ∪ synced (outside w) ∧
      ∀ k, occurs (is_record_failed k) es = O ∧ (occurs (is_followed k) es ≤ 1)%nat)) ∧
    (∀ k, k ≠ feed_string feed → occurs (is_followed k) es = O)) as Hcalm.
  { intros w' es (He & Hs & Hy & Hn & Hk). exists es. split_and!; try done; [left; split; [done|]; intros k; destruct (Hk k) as [-> ->]; done|intros k _; apply Hk]. }
  destruct (resolve_calm feed w) as (es & Hr & Hne). unfold sync_follow. cbv zeta.
  destruct (resolveSSBFeedToDID ft env feed w) as [r1 w1] eqn:E1. rewrite (mbind_run _ _ _ _ _ E1).
  destruct r1 as [did|e|]; cbn [fst snd] in *; [|by destruct (Hne e)|].
  2: { apply (Hcalm _ es). destruct Hr as (? & ? & ? & ? & ?). split_and!; try done. lia. }
  case_bool_decide. { apply (Hcalm _ es). destruct Hr as (? & ? & ? & ? & ?). split_and!; try done. lia. }
  destruct (publish_calm did w1) as (es' & Hp).
  destruct (publishATProtoFollow ft env did w1) as [r2 w2] eqn:E2. rewrite (mbind_run _ _ _ _ _ E2).
  destruct r2 as [[]|e|]; cbn [snd] in *.
  2,3: apply (Hcalm _ (es' ++ es)); by apply (calm_trans 0 1 _ w1).
  pose proof (calm_trans _ _ _ _ _ _ _ Hr Hp) as ((Hl & Hpd & Hc & Ht & He) & Hs & Hy & Hn & Hk). clear Hcalm Hr Hp Hne.
  set (es2 := es' ++ es) in *. clearbody es2.
  assert (∀ es3, es3 = [EFollowed (feed_string feed) did] ∨ es3 = [ERecordFailed (feed_string feed); EFollowed (feed_string feed) did] →
    Forall (λ e, inner e = true) (es3 ++ es2) ∧ (occurs is_create (es3 ++ es2) ≤ 1)%nat ∧
    ∀ k, k ≠ feed_string feed → occurs (is_followed k) (es3 ++ es2) = O) as H3.
  { intros es3 Hes. split_and!.
    - apply Forall_app. split; [|done]. by destruct Hes as [->| ->]; repeat constructor.
    - rewrite occurs_app. by destruct Hes as [->| ->].
    - intros k Hne. rewrite occurs_app, (proj1 (Hk k)). destruct Hes as [->| ->]; rewrite !occurs_cons; simpl;
        by rewrite bool_decide_eq_false_2. }
  unfold mbind, M_mbind, mmodify, mtry, AddFollowerSync, statement.
  destruct (env_db_err env _) as [e|]; cbn [snd].
  - exists ([ERecordFailed (feed_string feed); EFollowed (feed_string feed) did] ++ es2).
    destruct (H3 _ (or_intror eq_refl)) as (? & ? & ?). split_and!; try done.
    + repeat split; try done. simpl. by rewrite Ht.
    + left. split; [done|]. intros k. rewrite !occurs_app, (proj1 (Hk k)), (proj2 (Hk k)), !occurs_cons. simpl. by case_bool_decide.
  - exists ([EFollowed (feed_string feed) did] ++ es2).
    destruct (H3 _ (or_introl eq_refl)) as (? & ? & ?). split_and!; try done.
    + repeat split; try done. simpl. by rewrite Ht.
    + right. split; [simpl; by rewrite Hy|]. intros k. rewrite !occurs_app, (proj1 (Hk k)), (proj2 (Hk k)), !occurs_cons. simpl.
      split; [done|]. case_bool_decide; unfold occurs; simpl; lia.
Qed.
(** ** Invariants *)
Definition limit : Z := Z.max 0 (maxPerWindow ft).
Definition inflight (w : TrackerWorld) : Z := match admitted (loop w) with Some _ => 1 | None => 0 end.
Definition rate_inv (w : TrackerWorld) : Prop :=
  0 <= followCount (shared w) <= limit ∧ Forall (λ n, Z.of_nat n <= limit + 1) (windows (trace (outside w))) ∧
  ∀ n l, windows (trace (outside w)) = n :: l → Z.of_nat n + inflight w <= followCount (shared w) + 1.
Definition once_inv (w : TrackerWorld) : Prop :=
  (∀ f, admitted (loop w) = Some f → (botDID ft, feed_string f) ∉ synced (outside w) ∧ feed_string f ≠ botSSBFeed ft) ∧
  (∀ k, let n := occurs (is_followed k) (trace (outside w)) in let m := occurs (is_record_failed k) (trace (outside w)) in
     (n ≤ m + 1)%nat ∧ ((botDID ft, k) ∉ synced (outside w) → (n ≤ m)%nat)) ∧
  occurs (is_followed (botSSBFeed ft)) (trace (outside w)) = O.
Definition pending_inv (w : TrackerWorld) : Prop :=
  (∀ k, unsettled k (trace (outside w)) = true → k ∈ dom (pending (shared w)) ∨ k ∈ batch (loop w)) ∧
  (running (loop w) = true → pending (shared w) ≠ ∅ → ∃ t, debouncer (loop w) = Some t ∧ t <= clock (outside w) + debounceDur ft).
Definition channel_inv (w : TrackerWorld) : Prop :=
  accepted (trace (outside w)) = taken (trace (outside w)) ++ (feed_string <$> announceCh (shared w)) ∧
  (length (announceCh (shared w)) ≤ announce_capacity)%nat ∧ drops_when_full (trace (outside w)) ∧
  (running (loop w) = false → debouncer (loop w) = None ∧ batch (loop w) = []).

(** A step that neither counts nor adds an event but a harmless one. *)
Lemma rate_plain w w' e : rate_inv w → followCount (shared w') = followCount (shared w) → admitted (loop w') = admitted (loop w) →
  (trace (outside w') = trace (outside w) ∨ trace (outside w') = e :: trace (outside w) ∧ e ≠ EReset ∧ is_create e = false) → rate_inv w'.
Proof.
  intros (Hc & Hw & Hn) Hc' Ha Ht. assert (windows (trace (outside w')) = windows (trace (outside w))) as Hww.
  { destruct Ht as [->|(-> & Hr & He)]; [done|]. destruct (windows_nonempty (trace (outside w))) as (n & l & Hnl).
    destruct e; try done; simpl in He; cbn [windows is_create]; rewrite ?He, Hnl; done. }
  unfold rate_inv, inflight. by rewrite Hww, Hc', Ha.
Qed.
Lemma rate_settle w k rest : rate_inv w → rate_inv (settle k rest w).
Proof.
  intros (Hc & Hw & Hn). destruct (windows_nonempty (trace (outside w))) as (n & l & Hnl).
  pose proof (Hn n l Hnl). unfold rate_inv, settle, inflight in *. cbn. rewrite Hnl in *. split_and!; [lia..|done|].
  intros n' l' [= <- <-]. destruct (admitted (loop w)); lia.
Qed.
Lemma inflight_bound w : 0 <= inflight w <= 1.
Proof. unfold inflight. destruct (admitted (loop w)); lia. Qed.
Lemma rate_admit k rest w : admitted (loop w) = None → rate_inv w → rate_inv (admit_next ft env k rest w).
Proof.
  intros Ha Hi. unfold admit_next. destruct (ParseFeedRef k) as [feed| |]; [|by apply rate_settle..].
  destruct (sync_admit ft env feed w) as [r w1] eqn:E. apply sync_admit_spec in E as (es & (Hl & _ & _ & Ht & He) & _ & Ho & Hr).
  pose proof Hi as (Hc & Hw & Hn). destruct (windows_nonempty (trace (outside w))) as (n & l & Hnl). pose proof (Hn n l Hnl) as Hnc.
  assert (rate_inv w1 ∧ r ≠ Ok true ∨ r = Ok true ∧ trace (outside w1) = trace (outside w) ∧
    followCount (shared w) < maxPerWindow ft ∧ followCount (shared w1) = followCount (shared w) + 1) as [[H1 Hne]|(-> & Ht1 & Hlt & Hc1)].
  { destruct Hr as [[Hc1 Hne]|(-> & -> & _ & _ & ? & ?)]; [left|by right]. split; [|done].
    assert (windows (trace (outside w1)) = windows (trace (outside w))) as Hww.
    { rewrite Ht, Hnl. rewrite (windows_inner es _ n l) by done. pose proof (Ho is_create) as Hoc. unfold occurs in Hoc at 2. simpl in Hoc.
      by replace (occurs is_create es) with O by lia. }
    unfold rate_inv, inflight. by rewrite Hww, Hc1, Hl. }
  - destruct r as [[]| |]; try done; by apply rate_settle.
  - unfold rate_inv, inflight, limit in *. cbn. rewrite Ht1, Hc1, Hnl in *. split_and!; [lia..|done|]. intros ? ? [= <- <-].
    rewrite Ha in Hnc. lia.
Qed.
Lemma rate_follow k rest feed w : admitted (loop w) = Some feed → rate_inv w → rate_inv (settle k rest (sync_follow ft env feed w).2).
Proof.
  intros Ha (Hc & Hw & Hn). destruct (windows_nonempty (trace (outside w))) as (n & l & Hnl). pose proof (Hn n l Hnl) as Hnc.
  destruct (sync_follow_spec feed w) as (es & (Hl & _ & _ & Ht & He) & Hs & Ho & _).
  unfold rate_inv, inflight in *. cbn. rewrite Hs, Ht, (windows_inner es _ n l), Ha, Hnl in * by done.
  split_and!; [lia..| |intros ? ? [= <- <-]; lia]. inversion_clear Hw. constructor; [lia|done].
Qed.
Lemma rate_step w w' : (∀ f, admitted (loop w) = Some f → batch (loop w) ≠ []) → step ft env w w' → rate_inv w → rate_inv w'.
Proof.
  intros Hb Hstep Hi. destruct Hstep as [feed|feed queue _ Hbt|t order _ Hbt|k rest _ _ Ha|k rest feed _ _ Ha|_|d _| |_|_].
  - unfold Announce. case_bool_decide; [apply (rate_plain w _ (EAccepted (feed_string feed)))|apply (rate_plain w _ (EDropped (feed_string feed)))];
      try done; by right.
  - apply (rate_plain w _ (ETaken (feed_string feed))); try done. by right.
  - apply (rate_plain w _ EReset); try done; [|by left]. cbn. destruct (admitted (loop w)) as [f|] eqn:E; [|done]. by destruct (Hb f eq_refl).
  - by apply rate_admit.
  - by apply rate_follow.
  - destruct Hi as (Hc & Hw & Hn). pose proof (inflight_bound w). unfold rate_inv, limit in *. cbn.
    split_and!; [lia..|constructor; [lia|done]|]. intros n l [= <- <-]. change (inflight (reset_window w)) with (inflight w). lia.
  - apply (rate_plain w _ EReset); try done. by left.
  - apply (rate_plain w _ EReset); try done. by left.
  - apply (rate_plain w _ EReset); try done. by left.
  - apply (rate_plain w _ EReset); try done. by left.
Qed.

(** Steps that follow nobody and record nothing. *)
Definition quiet (e : Event) : bool := match e with EFollowed _ _ | ERecordFailed _ => false | _ => true end.
Lemma once_quiet w w' es : once_inv w → synced (outside w') = synced (outside w) → trace (outside w') = es ++ trace (outside w) →
  Forall (λ e, quiet e = true) es →
  (∀ f, admitted (loop w') = Some f → (botDID ft, feed_string f) ∉ synced (outside w) ∧ feed_string f ≠ botSSBFeed ft) → once_inv w'.
Proof.
  intros (_ & Hk & Hb) Hs Ht He Ha. assert (∀ k, occurs (is_followed k) es = O ∧ occurs (is_record_failed k) es = O) as Ho.
  { intros k. clear Ht. induction He as [|e es He _ IH]; [done|]. rewrite !occurs_cons. by destruct e. }
  unfold once_inv. rewrite Hs, Ht. setoid_rewrite occurs_app. rewrite (proj1 (Ho _)). split_and!; [done| |done].
  intros k. destruct (Ho k) as [-> ->]. apply Hk.
Qed.
Lemma limited_quiet f es : Forall (λ e, inner e = true) es → (∀ P, occurs P es ≤ occurs P [ELimited f])%nat → Forall (λ e, quiet e = true) es.
Proof.
  intros _ Ho. apply list.Forall_forall. intros e He. destruct (quiet e) eqn:E; [done|]. exfalso.
  specialize (Ho (λ e, negb (quiet e))). unfold occurs at 2 in Ho. simpl in Ho.
  apply list_elem_of_split in He as (l1 & l2 & ->). rewrite occurs_app, occurs_cons, E in Ho. simpl in Ho. lia.
Qed.
Lemma once_admit k rest w : admitted (loop w) = None → once_inv w → once_inv (admit_next ft env k rest w).
Proof.
  intros Ha Hi. unfold admit_next. destruct (ParseFeedRef k) as [feed| |]; [|by apply (once_quiet w _ [ESettled k]); [..|repeat constructor|]..].
  destruct (sync_admit ft env feed w) as [r w1] eqn:E. apply sync_admit_spec in E as (es & (Hl & _ & _ & Ht & He) & Hs & Ho & Hr).
  pose proof (limited_quiet _ _ He Ho) as Hq.
  assert (once_inv (settle k rest w1)) as Hset.
  { apply (once_quiet w _ (ESettled k :: es)); [done|done|simpl; by rewrite Ht|by constructor|done]. }
  destruct r as [[]| |]; try done. destruct Hr as [[_ []]|(_ & _ & Hsy & Hbot & _)]; [done|].
  apply (once_quiet w _ es); [done|done|done|done|]. by intros f [= <-].
Qed.
Lemma once_follow k rest feed w : admitted (loop w) = Some feed → once_inv w → once_inv (settle k rest (sync_follow ft env feed w).2).
Proof.
  intros Ha (Hf & Hk & Hb). destruct (Hf _ Ha) as [Hns Hnb].
  destruct (sync_follow_spec feed w) as (es & (Hl & _ & _ & Ht & He) & _ & _ & Hcase & Hother).
  unfold once_inv. cbn. rewrite Ht. change (ESettled k :: es ++ trace (outside w)) with ([ESettled k] ++ es ++ trace (outside w)).
  setoid_rewrite occurs_app.
  split_and!; [done| |].
  - intros k'. destruct (Hk k') as [Hk1 Hk2]. destruct Hcase as [[-> Hle]|[-> Hle]].
    + specialize (Hle k'). split; [lia|]. intros Hn. specialize (Hk2 Hn). lia.
    + destruct (Hle k') as [-> ?]. destruct (decide (k' = feed_string feed)) as [->|Hne].
      * specialize (Hk2 Hns). split; [lia|]. set_solver.
      * rewrite (Hother _ Hne). split; [lia|]. intros Hn. apply Hk2. set_solver.
  - rewrite Hother by done. by rewrite Hb.
Qed.
Lemma once_step w w' : step ft env w w' → once_inv w → once_inv w'.
Proof.
  intros Hstep Hi. pose proof Hi as (Hf & _). destruct Hstep as [feed|feed queue _ Hbt|t order _ Hbt|k rest _ _ Ha|k rest feed _ _ Ha|_|d _| |_|_];
    try (by apply once_admit); try (by apply once_follow);
    [unfold Announce; case_bool_decide; [apply (once_quiet w _ [EAccepted (feed_string feed)])|apply (once_quiet w _ [EDropped (feed_string feed)])]
    |apply (once_quiet w _ [ETaken (feed_string feed)])|apply (once_quiet w _ [])|apply (once_quiet w _ [EReset])|apply (once_quiet w _ [])..];
    try done; repeat constructor; by apply Hf.
Qed.

Lemma pending_settle w w1 k rest es : batch (loop w) = k :: rest → extends w w1 es → pending_inv w → pending_inv (settle k rest w1).
Proof.
  intros Hb (Hl & Hp & Hc & Ht & He) (Hu & Hd). unfold pending_inv. cbn. rewrite Hl, Hp, Hc, Ht. split; [|done].
  intros k'. case_bool_decide as Hk; [done|]. simpl. rewrite unsettled_inner by done. intros Hun. destruct (Hu k' Hun) as [?|Hin]; [by left|].
  right. rewrite Hb in Hin. by apply elem_of_cons in Hin as [?|?].
Qed.
Lemma pending_step w w' : 0 <= debounceDur ft → step ft env w w' → pending_inv w → pending_inv w'.
Proof.
  intros Hd Hstep Hi. pose proof Hi as (Hu & Ht). destruct Hstep as [feed|feed queue _ Hbt|t order _ Hbt _ _ Hp|k rest _ Hbt Ha|k rest feed _ Hbt Ha|_|d Hd0| |_|_].
  - unfold Announce, pending_inv. cbn. by case_bool_decide.
  - split; [|intros _ _; eexists; split; [done|cbn; lia]]. intros k. cbn. rewrite dom_insert_L. case_bool_decide as Hk; [left; set_solver|].
    intros Hun. destruct (Hu k Hun); set_solver.
  - split; [|done]. intros k Hun. right. cbn. rewrite Hp. destruct (Hu k Hun) as [?|Hin]; [by apply elem_of_elements|].
    rewrite Hbt in Hin. by apply not_elem_of_nil in Hin.
  - unfold admit_next. assert (extends w w []) as Hw by done.
    destruct (ParseFeedRef k) as [feed| |]; [|by apply (pending_settle w _ _ _ [])..].
    destruct (sync_admit ft env feed w) as [r w1] eqn:E. apply sync_admit_spec in E as (es & Hex & _).
    pose proof (pending_settle w w1 k rest es Hbt Hex Hi) as Hset. destruct r as [[]| |]; try done.
    destruct Hex as (Hl & Hp & Hc & Htr & He). split; cbn; rewrite Hp, ?Hl, ?Htr, ?Hc; [|done].
    intros k'. rewrite unsettled_inner by done. rewrite <-Hbt. apply Hu.
  - destruct (sync_follow_spec feed w) as (es & Hex & _). by apply (pending_settle w _ _ _ es).
  - done.
  - split; [done|]. intros Hrun Hne. destruct (Ht Hrun Hne) as (t & ? & ?). exists t. cbn. split; [done|lia].
  - done.
  - done.
  - done.
Qed.

(** A step that adds events of no announcement and leaves the channel alone. *)
Lemma channel_plain w w' es : channel_inv w → trace (outside w') = es ++ trace (outside w) →
  (Forall (λ e, inner e = true) es ∨ es = [EReset]) → announceCh (shared w') = announceCh (shared w) →
  (running (loop w') = false → debouncer (loop w') = None ∧ batch (loop w') = []) → channel_inv w'.
Proof.
  intros (Ha & Hl & Hf & _) Ht He Hc Hd. unfold channel_inv. rewrite Ht, Hc.
  destruct He as [He|He]; [destruct (taken_inner es (trace (outside w)) He) as (-> & -> & ?); by split_and!; auto|].
  subst es. cbn [app]. rewrite accepted_cons, taken_cons, !app_nil_r. by split_and!.
Qed.
Lemma channel_settle w w1 k rest es : running (loop w) = true → extends w w1 es → announceCh (shared w1) = announceCh (shared w) →
  channel_inv w → channel_inv (settle k rest w1).
Proof.
  intros Hrun (Hl & _ & _ & Ht & He) Hc Hi. assert (channel_inv w1) as (Ha & Hn & Hf & _).
  { apply (channel_plain w w1 es); auto. by rewrite Hl, Hrun. }
  split_and!; [exact Ha|exact Hn|exact Hf|]. cbn. by rewrite Hl, Hrun.
Qed.
Lemma admit_channel feed w : announceCh (shared (sync_admit ft env feed w).2) = announceCh (shared w).
Proof.
  unfold sync_admit, HasFollowerSync, statement, count_follow, mbind, M_mbind. cbv zeta.
  destruct (env_db_err env _); [done|]. case_bool_decide; [done|]. case_bool_decide; [done|]. by case_bool_decide.
Qed.
Lemma channel_step w w' : step ft env w w' → channel_inv w → channel_inv w'.
Proof.
  intros Hstep Hi. pose proof Hi as (Ha & Hl & Hf & He).
  destruct Hstep as [feed|feed queue Hr Hbt Hq|t order Hr Hbt _ _ Hp|k rest Hr Hbt Had|k rest feed Hr Hbt Had|_|d Hd0| |Hbt|_].
  - unfold Announce. case_bool_decide as Hn; unfold channel_inv; cbn -[accepted taken]; rewrite accepted_cons, taken_cons, ?app_nil_r.
    + split_and!; try done; [|rewrite length_app; simpl; lia]. by rewrite Ha, fmap_app, app_assoc.
    + split_and!; try done. rewrite Ha, length_app, length_fmap. lia.
  - unfold channel_inv. cbn -[accepted taken]. rewrite accepted_cons, taken_cons, app_nil_r. rewrite Hq in *. cbn in Hl.
    split_and!; [by rewrite Ha, <-app_assoc|lia|done|by rewrite Hr].
  - apply (channel_plain w _ []); auto. cbn. by rewrite Hr.
  - unfold admit_next. destruct (ParseFeedRef k) as [feed| |]; [|by apply (channel_settle w w k rest [])..].
    destruct (sync_admit ft env feed w) as [r w1] eqn:E. pose proof (admit_channel feed w) as Hc. rewrite E in Hc.
    apply sync_admit_spec in E as (es & Hex & _). pose proof (channel_settle w w1 k rest es Hr Hex Hc Hi) as Hset.
    destruct r as [[]| |]; try done. destruct Hex as (Hl1 & _ & _ & Ht & Hin).
    apply (channel_plain w _ es); auto. cbn. by rewrite Hl1, Hr.
  - destruct (sync_follow_spec feed w) as (es & Hex & Hs & _). apply (channel_settle w _ _ _ es); [done|done|by rewrite Hs|done].
  - apply (channel_plain w _ [EReset]); auto.
  - by apply (channel_plain w _ []); auto.
  - by apply (channel_plain w _ []); auto.
  - by apply (channel_plain w _ []); auto.
  - by apply (channel_plain w _ []); auto.
Qed.
End Steps.

(** ** Properties *)
Section Properties.
Context (ft : FollowerTracker) (env : TrackerEnv).

Definition reachable (t : Z) (known : gset (string * string)) : TrackerWorld → Prop := rtc (step ft env) (Start ft t known).
Definition batch_inv (w : TrackerWorld) : Prop := ∀ f, admitted (loop w) = Some f → batch (loop w) ≠ [].
Lemma admit_loop k rest w : admitted (loop w) = None → batch_inv (admit_next ft env k rest w).
Proof.
  intros Ha. unfold admit_next. destruct (ParseFeedRef k) as [feed| |]; try done.
  by destruct (sync_admit ft env feed w) as [[[]| |] w1].
Qed.
Lemma batch_step w w' : step ft env w w' → batch_inv w → batch_inv w'.
Proof.
  intros Hstep Hi. destruct Hstep; try done; try (by apply admit_loop). unfold Announce. by case_bool_decide.
Qed.
Lemma reachable_ind_inv (I : TrackerWorld → Prop) t known w : I (Start ft t known) → (∀ w w', batch_inv w → step ft env w w' → I w → I w') →
  reachable t known w → I w.
Proof.
  intros H0 Hs Hr. enough (batch_inv w ∧ I w) as [_ ?] by done.
  refine (rtc_ind_r (λ w, batch_inv w ∧ I w) (Start ft t known) _ _ w Hr); [done|].
  intros x y _ Hxy [Hb Hx]. split; [by eapply batch_step|by eapply Hs].
Qed.

(** C19. The rate limit: between two resets of the window at most one record more than
    [maxPerWindow] is created, in every interleaving; the one more was admitted
    in the window before. *)
Theorem follows_are_rate_limited t known w : reachable t known w →
  Forall (λ n, Z.of_nat n <= Z.max 0 (maxPerWindow ft) + 1) (windows (trace (outside w))).
Proof.
  intros Hr. enough (rate_inv ft w) as (_ & ? & _) by done. revert Hr. apply reachable_ind_inv.
  - unfold rate_inv, limit, inflight. cbn. split_and!; [lia..| |]. { constructor; [lia|done]. } intros ? ? [= <- <-]. lia.
  - intros ? ? Hb Hs. by eapply rate_step.
Qed.

(** Nobody is followed back twice unless recording the follow failed, and the bot
    does not follow itself. *)
Theorem followed_once t known w k : reachable t known w →
  (occurs (is_followed k) (trace (outside w)) ≤ occurs (is_record_failed k) (trace (outside w)) + 1)%nat ∧
  occurs (is_followed (botSSBFeed ft)) (trace (outside w)) = O.
Proof.
  intros Hr. enough (once_inv ft w) as (_ & Hk & ?) by (split; [by apply Hk|done]). revert Hr. apply reachable_ind_inv.
  - split_and!; [done| |done]. intros k'. cbn. unfold occurs. simpl. split; lia.
  - intros ? ? _ Hs. by eapply once_step.
Qed.

(** C20. What becomes of an announcement, in every interleaving. The channel is a queue:
    what it accepted is what the loop took, in that order, and then what waits in it; an
    announcement is dropped only when a hundred others wait. A feed that was taken is
    pending or in the batch until it is settled, and while feeds are pending and the loop
    runs the timer is set, to fire at most [debounceDur] from now. A loop that has ended
    has stopped its timer and leaves no batch unfinished: what is still pending or in
    the channel then stays there. *)
Theorem no_announcement_forgotten t known w : 0 <= debounceDur ft → reachable t known w →
  accepted (trace (outside w)) = taken (trace (outside w)) ++ (feed_string <$> announceCh (shared w)) ∧
  drops_when_full (trace (outside w)) ∧
  (∀ k, unsettled k (trace (outside w)) = true → k ∈ dom (pending (shared w)) ∨ k ∈ batch (loop w)) ∧
  (running (loop w) = true → pending (shared w) ≠ ∅ →
     ∃ d, debouncer (loop w) = Some d ∧ d <= clock (outside w) + debounceDur ft) ∧
  (running (loop w) = false → debouncer (loop w) = None ∧ batch (loop w) = []).
Proof.
  intros Hd Hr. enough (pending_inv ft w ∧ channel_inv w) as [[? ?] (? & _ & ? & ?)] by by split_and!. split; revert Hr; apply reachable_ind_inv.
  - split; done.
  - intros ? ? _ Hs. by eapply pending_step.
  - split_and!; [done|cbn; lia|done..].
  - intros ? ? _ Hs. by eapply channel_step.
Qed.

(** A printed feed is no handle: no handle starts with an at sign. *)
Lemma feed_is_no_handle f : MatchString handleRegex (feed_string f) = false.
Proof.
  apply not_true_iff_false. rewrite MatchString_spec. unfold feed_string, print_ref. intros Hm.
  apply (der_spec SigilFeed handleRegex) in Hm. assert (der SigilFeed handleRegex = Void) as Hv by (vm_compute; reflexivity).
  rewrite Hv in Hm. by apply matches_void in Hm.
Qed.

(** The server resolves handles only. *)
Definition resolves_handles : Prop := ∀ n c h did,
  lex_endpoint c = "com.atproto.identity.resolveHandle" → lex_params c = [("handle", AText h)] →
  env_resolve env n c = Ok did → did ≠ "" → MatchString handleRegex h = true.
Lemma resolve_nothing feed w r w' : resolves_handles → resolveSSBFeedToDID ft env feed w = (r, w') → r = Ok "" ∨ r = Panic.
Proof.
  intros Hs. unfold resolveSSBFeedToDID, LexDo, mbind, M_mbind, mtry. destruct (negb (xrpcClient ft)); [intros [= <- _]; by left|].
  destruct (env_resolve env _ _) as [did|e|] eqn:E; intros [= <- _]; [|by left|by right]. left.
  destruct (decide (did = "")) as [->|Hne]; [done|]. pose proof (Hs _ (resolve_call feed) (feed_string feed) did eq_refl eq_refl E Hne) as Hm.
  by rewrite feed_is_no_handle in Hm.
Qed.
Definition idle_inv (w : TrackerWorld) : Prop := occurs is_create (trace (outside w)) = O.
Lemma follow_nothing feed w : resolves_handles → let w' := (sync_follow ft env feed w).2 in
  ∃ es, trace (outside w') = es ++ trace (outside w) ∧ occurs is_create es = O.
Proof.
  intros Hs. cbv zeta. destruct (resolve_calm ft env feed w) as (es & ((_ & _ & _ & Ht & _) & _ & _ & Ho & _) & _). exists es.
  unfold sync_follow. cbv zeta. destruct (resolveSSBFeedToDID ft env feed w) as [r w1] eqn:E. rewrite (mbind_run _ _ _ _ _ E).
  apply resolve_nothing in E as [->| ->]; [| |done]; cbn in *; (split; [done|lia]).
Qed.

(** With a server that resolves handles only nobody is ever followed: the tracker
    asks it for the DID of an SSB feed, which is no handle. *)
Theorem nobody_is_followed t known w : resolves_handles → reachable t known w → occurs is_create (trace (outside w)) = O.
Proof.
  intros Hs Hr. enough (idle_inv w) by done. revert Hr. apply reachable_ind_inv; [done|]. clear w. unfold idle_inv. intros w w' _ Hstep Hi.
  destruct Hstep as [feed|feed queue _ Hbt|x order _ Hbt _ _ Hp|k rest _ Hbt Ha|k rest feed _ Hbt Ha|_|d Hd0| |_|_]; try done.
  - unfold Announce. by case_bool_decide.
  - unfold admit_next. destruct (ParseFeedRef k) as [feed| |]; try done.
    destruct (sync_admit ft env feed w) as [r w1] eqn:E. apply sync_admit_spec in E as (es & (_ & _ & _ & Ht & _) & _ & Ho & _).
    specialize (Ho is_create). unfold occurs at 2 in Ho. simpl in Ho.
    assert (occurs is_create (trace (outside w1)) = O) as H1 by (rewrite Ht, occurs_app; lia). by destruct r as [[]| |].
  - destruct (follow_nothing feed w Hs) as (es & Ht & Ho). enough (occurs is_create (trace (outside (sync_follow ft env feed w).2)) = O) by done. rewrite Ht, occurs_app. lia.
Qed.
End Properties.
