(* ===== verification/ReverseText.v ===== *)
(** * The text of reverse posts (internal/bridge/reverse_sync.go)

    Dynamic JSON values and the functions that turn the markdown text and the
    mentions of an SSB post into the text and the facets of an AT Protocol post.
    Text is bytes, ranges are byte offsets. *)
From S2P Require Import Prelude GoStr GoBytes.
#[local] Open Scope string_scope.
#[local] Open Scope list_scope.
#[local] Open Scope nat_scope.

(** ** Values of encoding/json *)

(** Floating point numbers: the sign test and the printing the code uses. *)
Class Float64 := { float64 : Type; float_positive : float64 → bool; float_Sprint : float64 → string }.

Inductive json `{Float64} : Type :=
| JNull
| JBool (b : bool)
| JNumber (x : float64)
| JString (s : string)
| JArray (l : list json)
| JObject (m : gmap string json).

Section Values.
Context `{Float64} `{UnicodeCase}.
#[local] Abbreviation object := (gmap string json).

(** [fmt.Sprint]; the keys of a map are printed in order. *)
Definition sprint_map (entries : list (string * string)) : string :=
  let keys := sortStrings (to_l <$> entries.*1) in
  let value k := default "" (list_to_map (M := gmap string string) entries !! k) in
  "map[" +:+ Join ((λ k, of_l k +:+ ":" +:+ value (of_l k)) <$> keys) " " +:+ "]".
Fixpoint json_Sprint (v : json) : string :=
  match v with
  | JNull => "<nil>"
  | JBool b => if b then "true" else "false"
  | JNumber x => float_Sprint x
  | JString s => s
  | JArray l => "[" +:+ Join (json_Sprint <$> l) " " +:+ "]"
  | JObject m => sprint_map (map_fold (λ k v acc, (k, json_Sprint v) :: acc) [] m)
  end.

(** [m[k]]; nil when absent. *)
Definition at_key (m : object) (k : string) : json := default JNull (m !! k).
Definition stringValue (v : json) : string := match v with JNull => "" | v => json_Sprint v end.
Definition boolValue (v : json) : bool :=
  match v with JBool b => b | JString s => EqualFold (TrimSpace s) "true" | _ => false end.
(** [floatValue(v) > 0] *)
Definition positiveValue (v : json) : bool := match v with JNumber x => float_positive x | _ => false end.
Definition firstNonBlank (values : list string) : string := default "" (head (filter (λ s, s ≠ "") (TrimSpace <$> values))).
Definition isHTTPURL (value : string) : bool :=
  let value := TrimSpace (ToLower value) in HasPrefix value "http://" || HasPrefix value "https://".

Definition normalizedReverseMentions (raw : json) : list object :=
  match raw with JArray l => omap (λ item, match item with JObject m => Some m | _ => None end) l | _ => [] end.
Definition json_type_name (v : json) : string :=
  match v with JNull => "null" | JBool _ => "bool" | JNumber _ => "number" | JString _ => "string" | JArray _ => "array"
  | JObject _ => "object" end.
(** Other values than objects go through their JSON text; null decodes to an empty
    map. *)
Definition normalizeSSBContentMap (value : json) : result object :=
  match value with
  | JObject m => Ok m
  | JNull => Ok ∅
  | v => Err ("json: cannot unmarshal " +:+ json_type_name v +:+ " into Go value of type map[string]interface {}")
  end.

Definition object_at (m : object) (k : string) : option object := match at_key m k with JObject o => Some o | _ => None end.
(** The last entry of [previous] that is not blank. *)
Definition last_previous (v : json) : string :=
  match v with
  | JArray l => default "" (list.last (filter (λ s, s ≠ "") ((λ x, TrimSpace (stringValue x)) <$> l)))
  | _ => ""
  end.
Definition extractReplyRefs (content : object) : string * string :=
  let root := TrimSpace (stringValue (at_key content "root")) in
  let parent := TrimSpace (stringValue (at_key content "branch")) in
  let '(root, parent) :=
    match object_at content "tangles" ≫= λ t, object_at t "comment" with
    | Some comment =>
        (if bool_decide (root = "") then TrimSpace (stringValue (at_key comment "root")) else root,
         if bool_decide (parent = "") then last_previous (at_key comment "previous") else parent)
    | None => (root, parent)
    end in
  let parent := if bool_decide (parent = "") then root else parent in
  let root := if bool_decide (root = "") then parent else root in
  (root, parent).
End Values.

(** ** Ranges *)
Abbreviation reverseByteRange := (nat * nat)%type (only parsing).
Definition rangeOverlaps (start end_ : nat) (occupied : list reverseByteRange) : bool :=
  bool_decide (end_ <= start) ||
  existsb (λ used, bool_decide (start < used.2) && bool_decide (used.1 < end_)) occupied.

(** [strings.HasPrefix] and [strings.Index] on bytes *)
Definition has_prefix (text token : bytes) : bool := bool_decide (take (length token) text = token).
Fixpoint index (text token : bytes) : option nat :=
  if has_prefix text token then Some 0
  else match text with [] => None | _ :: text => S <$> index text token end.

(** The search of a token from an offset on; each turn moves past the occurrence
    found, [fuel] turns at most. *)
Fixpoint find_from (fuel searchFrom : nat) (text token : bytes) (occupied : list reverseByteRange) : option reverseByteRange :=
  match fuel with
  | O => None
  | S fuel =>
      if negb (bool_decide (searchFrom < length text)) then None
      else match index (drop searchFrom text) token with
      | None => None
      | Some idx =>
          let start := searchFrom + idx in
          let end_ := start + length token in
          if negb (rangeOverlaps start end_ occupied) then Some (start, end_)
          else find_from fuel (start + 1) text token occupied
      end
  end.
Definition findFirstNonOverlappingToken (text : bytes) (token : string) (occupied : list reverseByteRange) : option reverseByteRange :=
  let token := to_l (TrimSpace token) in
  if bool_decide (token = []) || bool_decide (text = []) then None
  else find_from (length text) 0 text token occupied.

(** ** Regular expressions

    [\s] of RE2, runs of a class of bytes, and the matches of a pattern from left
    to right; [pattern] gives the length of the match at the start of a text. *)
Definition re_space (c : ascii) : bool := bool_decide (ord c ∈ [9; 10; 12; 13; 32]%Z).
Fixpoint run (p : ascii → bool) (text : bytes) : nat :=
  match text with c :: text => if p c then S (run p text) else 0 | [] => 0 end.
Fixpoint find_all {A} (pattern : bytes → option (nat * A)) (skip offset : nat) (text : bytes) : list (nat * nat * A) :=
  match text with
  | [] => []
  | _ :: rest =>
      match skip with
      | S skip => find_all pattern skip (S offset) rest
      | O =>
          match pattern text with
          | Some (len, a) => (offset, offset + len, a) :: find_all pattern (len - 1) (S offset) rest
          | None => find_all pattern 0 (S offset) rest
          end
      end
  end.

(** [https?://[^\s<>()]+] *)
Definition url_byte (c : ascii) : bool := negb (re_space c) && negb (bool_decide (c ∈ ["<"; ">"; "("; ")"]%char)).
Definition reverseBareURLPattern (text : bytes) : option (nat * unit) :=
  let scheme := if has_prefix text (to_l "https://") then Some 8 else if has_prefix text (to_l "http://") then Some 7 else None in
  match scheme with
  | None => None
  | Some n => let m := run url_byte (drop n text) in if bool_decide (m = 0) then None else Some (n + m, tt)
  end.

(** [!?\[[^\]]*\]\(([^)\s]+)\)] with the range of its group *)
Definition reverseMarkdownBlobLinkPattern (text : bytes) : option (nat * (nat * nat)) :=
  let bang := if has_prefix text (to_l "![") then 1 else 0 in
  if has_prefix (drop bang text) (to_l "[") then
    let label := run (λ c, negb (bool_decide (c = "]"%char))) (drop (bang + 1) text) in
    let open_ := bang + 1 + label in
    if has_prefix (drop open_ text) (to_l "](") then
      let target := run (λ c, negb (bool_decide (c = ")"%char)) && negb (re_space c)) (drop (open_ + 2) text) in
      if negb (bool_decide (target = 0)) && has_prefix (drop (open_ + 2 + target) text) (to_l ")")
      then Some (open_ + 2 + target + 1, (open_ + 2, open_ + 2 + target))
      else None
    else None
  else None.

(** [{n,}] of a class of bytes, replaced. *)
Definition replaced_run (n : nat) (repl run : bytes) : bytes := if bool_decide (n <= length run) then repl else rev run.
Fixpoint replace_runs (p : ascii → bool) (n : nat) (repl acc text : bytes) : bytes :=
  match text with
  | [] => replaced_run n repl acc
  | c :: text => if p c then replace_runs p n repl (c :: acc) text else replaced_run n repl acc ++ c :: replace_runs p n repl [] text
  end.
Definition reverseMultiSpace (text : bytes) : bytes :=
  replace_runs (λ c, bool_decide (c = " "%char) || bool_decide (ord c = 9%Z)) 2 (to_l " ") [] text.
Definition reverseMultiBlankLine (text : bytes) : bytes :=
  replace_runs (λ c, bool_decide (c = newline)) 3 [newline; newline] [] text.

Definition trim_bytes (b : bytes) : bytes := to_l (TrimSpace (of_l b)).
Definition normalizeReversePostText (text : bytes) : bytes :=
  if bool_decide (text = []) then text
  else
    let lines := (λ line, TrimSpace (of_l (reverseMultiSpace (to_l line)))) <$> Split (of_l text) newline in
    trim_bytes (reverseMultiBlankLine (to_l (Join lines (String newline "")))).

(** The text without the links to embedded blobs. *)
Definition slice (text : bytes) (from to : nat) : bytes := drop from (take to text).
Fixpoint strip_matches (text : bytes) (embeddedRefs : gset string) (last : nat) (matches : list (nat * nat * (nat * nat))) : bytes :=
  match matches with
  | [] => drop last text
  | (wholeStart, wholeEnd, (t1, t2)) :: matches =>
      let target := TrimSpace (of_l (slice text (wholeStart + t1) (wholeStart + t2))) in
      if bool_decide (target ∈ embeddedRefs)
      then slice text last wholeStart ++ strip_matches text embeddedRefs wholeEnd matches
      else strip_matches text embeddedRefs last matches
  end.
Definition stripEmbeddedBlobMarkdown (text : bytes) (embeddedRefs : gset string) : bytes :=
  if bool_decide (embeddedRefs = ∅) || bool_decide (text = []) then text
  else match find_all reverseMarkdownBlobLinkPattern 0 0 text with
    | [] => text
    | matches => normalizeReversePostText (strip_matches text embeddedRefs 0 matches)
    end.

(** ** Facets *)
Inductive feature := FMention (did : string) | FTag (tag : string) | FLink (uri : string).
Record facet := { ByteStart : nat; ByteEnd : nat; Feature : feature }.

Section Facets.
Context `{Float64} `{UnicodeCase}.
(** [ResolveATDIDBySSBFeed], a query on the state of the processor. *)
Context {W : Type} (ResolveATDIDBySSBFeed : string → M W (option string)).

Definition facet_state : Type := list reverseByteRange * list facet.
Definition appendFacet (start end_ : nat) (f : feature) (st : facet_state) : facet_state :=
  if bool_decide (end_ <= start) then st
  else (st.1 ++ [(start, end_)], st.2 ++ [{| ByteStart := start; ByteEnd := end_; Feature := f |}]).
(** The feature at the first free occurrence of a token, if there is one. *)
Definition appendToken (text : bytes) (token : string) (f : feature) (st : facet_state) : facet_state :=
  match findFirstNonOverlappingToken text token st.1 with
  | Some (start, end_) => appendFacet start end_ f st
  | None => st
  end.

Definition mention_facet (text : bytes) (embeddedRefs : gset string) (st : facet_state) (mention : gmap string json) : M W facet_state :=
  let link := TrimSpace (stringValue (at_key mention "link")) in
  let name := TrimSpace (stringValue (at_key mention "name")) in
  if bool_decide (link = "") || bool_decide (link ∈ embeddedRefs) then mret st
  else if HasPrefix link "&" then mfail ("unsupported blob mention remained after embed resolution: " +:+ link)
  else if HasPrefix link "@" then
    r ← mwrap ("resolve reverse mention did " +:+ link +:+ ": ") (ResolveATDIDBySSBFeed link);
    match r with
    | Some atDID => if blank atDID then mret st else mret (appendToken text (firstNonBlank [name; link]) (FMention atDID) st)
    | None => mret st
    end
  else if HasPrefix link "#" then
    let tag := TrimSpace (TrimPrefix link "#") in
    if bool_decide (tag = "") then mret st else mret (appendToken text (firstNonBlank [name; "#" +:+ tag]) (FTag tag) st)
  else if isHTTPURL link then mret (appendToken text (firstNonBlank [name; link]) (FLink link) st)
  else mret st.
Fixpoint mention_facets (text : bytes) (embeddedRefs : gset string) (st : facet_state) (mentions : list (gmap string json)) : M W facet_state :=
  match mentions with
  | [] => mret st
  | mention :: mentions => st ← mention_facet text embeddedRefs st mention; mention_facets text embeddedRefs st mentions
  end.

(** [strings.TrimRight(rawURL, ".,!?;:")] *)
Definition trim_punctuation (b : bytes) : bytes :=
  rev (drop_while (λ c, bool_decide (c ∈ ["."; ","; "!"; "?"; ";"; ":"]%char)) (rev b)).
Definition url_facet (text : bytes) (st : facet_state) (found : nat * nat * unit) : facet_state :=
  let '(start, end_, _) := found in
  let trimmedURL := trim_punctuation (slice text start end_) in
  if bool_decide (trimmedURL = []) then st
  else
    let end_ := start + length trimmedURL in
    if rangeOverlaps start end_ st.1 then st else appendFacet start end_ (FLink (of_l trimmedURL)) st.

Definition buildReverseFacets (text : bytes) (mentions : list (gmap string json)) (embeddedRefs : gset string) : M W (list facet) :=
  if bool_decide (trim_bytes text = []) && bool_decide (mentions = []) then mret []
  else
    st ← mention_facets text embeddedRefs ([], []) mentions;
    mret (foldl (url_facet text) st (find_all reverseBareURLPattern 0 0 text)).2.
End Facets.

(** ** Searching *)
Lemma index_spec text token i : index text token = Some i →
  take (length token) (drop i text) = token ∧ (i + length token <= length text)%nat ∧
  ∀ j, (j < i)%nat → take (length token) (drop j text) ≠ token.
Proof.
  revert i. induction text as [|c text IH]; intros i; cbn [index].
  - unfold has_prefix. case_bool_decide as Ht; [|done]. intros [= <-]. rewrite take_nil in Ht. rewrite <-Ht. cbn. split_and!; [done|lia|lia].
  - unfold has_prefix. case_bool_decide as Ht.
    + intros [= <-]. split_and!; [done| |lia]. rewrite <-Ht, length_take. lia.
    + intros (k & Hk & ->)%fmap_Some. destruct (IH k Hk) as (H1 & H2 & H3). split_and!; [done|cbn; lia|].
      intros [|j] Hj; [done|]. cbn. apply H3. lia.
Qed.
Lemma index_none text token j : index text token = None → take (length token) (drop j text) ≠ token.
Proof.
  revert j. induction text as [|c text IH]; intros j; cbn [index]; unfold has_prefix; case_bool_decide as Ht; try done.
  - intros _. by rewrite drop_nil.
  - intros Hn%fmap_None. destruct j as [|j]; [done|]. by apply IH.
Qed.

(** An occurrence of the token that keeps clear of the occupied ranges. *)
Definition free_occurrence (text token : bytes) (occupied : list (nat * nat)) (start : nat) : Prop :=
  start < length text ∧ slice text start (start + length token) = token ∧ rangeOverlaps start (start + length token) occupied = false.

Lemma slice_take text from n : slice text from (from + n) = take n (drop from text).
Proof. unfold slice. by rewrite skipn_firstn_comm, Nat.add_comm, Nat.add_sub. Qed.

Lemma find_from_spec text token occupied fuel searchFrom : token ≠ [] → (length text <= fuel + searchFrom)%nat →
  match find_from fuel searchFrom text token occupied with
  | Some (start, end_) => end_ = start + length token ∧ end_ <= length text ∧ searchFrom <= start ∧
      free_occurrence text token occupied start ∧ ∀ j, searchFrom <= j < start → ¬ free_occurrence text token occupied j
  | None => ∀ j, searchFrom <= j → ¬ free_occurrence text token occupied j
  end.
Proof.
  intros Ht. assert (0 < length token) by (destruct token; [done|cbn; lia]).
  revert searchFrom. induction fuel as [|fuel IH]; intros s Hf; cbn [find_from].
  { intros j Hj (Hlt & _). lia. }
  case_bool_decide as Hs; cbn [negb]; [|intros j Hj (Hlt & _); lia].
  destruct (index (drop s text) token) as [i|] eqn:E.
  - destruct (index_spec _ _ _ E) as (H1 & H2 & H3). rewrite drop_drop in H1. rewrite length_drop in H2.
    assert (∀ j, s <= j < s + i → ¬ free_occurrence text token occupied j) as Hbefore.
    { intros j Hj (_ & Hsl & _). rewrite slice_take in Hsl. apply (H3 (j - s)); [lia|]. rewrite drop_drop.
      by replace (s + (j - s)) with j by lia. }
    destruct (rangeOverlaps (s + i) _ occupied) eqn:Eo; cbn [negb].
    + specialize (IH (s + i + 1) ltac:(lia)). assert (¬ free_occurrence text token occupied (s + i)) as Hi by (intros (_ & _ & ?); congruence).
      destruct (find_from fuel _ _ _ _) as [[start end_]|].
      * destruct IH as (-> & ? & ? & ? & Hno). split_and!; [done|done|lia|done|]. intros j Hj.
        destruct (decide (j < s + i)); [apply Hbefore; lia|]. destruct (decide (j = s + i)) as [->|]; [done|]. apply Hno. lia.
      * intros j Hj. destruct (decide (j < s + i)); [apply Hbefore; lia|]. destruct (decide (j = s + i)) as [->|]; [done|]. apply IH. lia.
    + split_and!; [done|lia|lia| |done]. split_and!; [lia| |done]. by rewrite slice_take.
  - intros j Hj (_ & Hsl & _). rewrite slice_take in Hsl. apply (index_none _ _ (j - s) E). rewrite drop_drop.
    by replace (s + (j - s)) with j by lia.
Qed.

(** ** Facets are well placed *)
Definition disjoint_ranges (a b : nat * nat) : Prop := a.2 <= b.1 ∨ b.2 <= a.1.
Record placed (text : bytes) (st : facet_state) : Prop := {
  placed_ranges : st.1 = (λ f, (ByteStart f, ByteEnd f)) <$> st.2;
  placed_inside : Forall (λ r : nat * nat, r.1 < r.2 ∧ r.2 <= length text) st.1;
  placed_apart i j a b : st.1 !! i = Some a → st.1 !! j = Some b → i ≠ j → disjoint_ranges a b
}.
Lemma placed_empty text : placed text ([], []).
Proof. by split. Qed.
Lemma overlaps_false start end_ occupied : rangeOverlaps start end_ occupied = false ↔
  start < end_ ∧ Forall (λ used, disjoint_ranges (start, end_) used) occupied.
Proof.
  assert (existsb (λ used, bool_decide (start < used.2) && bool_decide (used.1 < end_)) occupied = false ↔
    Forall (λ used, disjoint_ranges (start, end_) used) occupied) as H.
  { unfold disjoint_ranges. cbn. induction occupied as [|[a b] occupied IH]; [split; constructor|].
    cbn. rewrite orb_false_iff, IH, list.Forall_cons, andb_false_iff, !bool_decide_eq_false. cbn.
    split; (intros [Hl Hr]; split; [lia|exact Hr]). }
  unfold rangeOverlaps. rewrite orb_false_iff, bool_decide_eq_false, Nat.nle_gt. tauto.
Qed.
Lemma append_placed text start end_ f st : placed text st → end_ <= length text →
  rangeOverlaps start end_ st.1 = false → placed text (appendFacet start end_ f st).
Proof.
  intros [Hr Hin Hap] Hend [Hlt Hfree]%overlaps_false. unfold appendFacet. rewrite bool_decide_eq_false_2 by lia. split; cbn [fst snd].
  - by rewrite fmap_app, <-Hr.
  - apply Forall_app. split; [done|]. by apply Forall_singleton.
  - rewrite list.Forall_forall in Hfree. intros i j a b Hi Hj Hne.
    assert (∀ u k, st.1 !! k = Some u → disjoint_ranges (start, end_) u) as Hu by (intros u k Hk; by apply Hfree, list_elem_of_lookup_2 with k).
    rewrite lookup_app_Some in Hi, Hj. destruct Hi as [Hi|[Hi Hi']], Hj as [Hj|[Hj Hj']].
    + by apply (Hap i j).
    + apply list_lookup_singleton_Some in Hj' as [_ <-]. destruct (Hu a i Hi); [by right|by left].
    + apply list_lookup_singleton_Some in Hi' as [_ <-]. by apply (Hu b j).
    + apply list_lookup_singleton_Some in Hi' as [? _], Hj' as [? _]. lia.
Qed.

Lemma find_token_spec text token occupied : 
  match findFirstNonOverlappingToken text token occupied with
  | Some (start, end_) => slice text start end_ = to_l (TrimSpace token) ∧ end_ <= length text ∧ rangeOverlaps start end_ occupied = false ∧
      ∀ j, j < start → ¬ free_occurrence text (to_l (TrimSpace token)) occupied j
  | None => TrimSpace token = "" ∨ ∀ j, ¬ free_occurrence text (to_l (TrimSpace token)) occupied j
  end.
Proof.
  unfold findFirstNonOverlappingToken. case_bool_decide as Ht; [left; by destruct (TrimSpace token)|].
  case_bool_decide as Hx; [right; intros j [Hj _]; subst; cbn in Hj; lia|]. cbn [orb].
  pose proof (find_from_spec text (to_l (TrimSpace token)) occupied (length text) 0 Ht ltac:(lia)) as H.
  destruct (find_from _ _ _ _ _) as [[start end_]|].
  - destruct H as (-> & ? & _ & (_ & ? & ?) & Hno). split_and!; [done|done|done|]. intros j Hj. apply Hno. lia.
  - right. intros j. apply H. lia.
Qed.
Lemma append_token_placed text token f st : placed text st → placed text (appendToken text token f st).
Proof.
  intros Hp. unfold appendToken. pose proof (find_token_spec text token st.1) as H.
  destruct (findFirstNonOverlappingToken _ _ _) as [[start end_]|]; [|done]. destruct H as (_ & ? & ? & _). by apply append_placed.
Qed.

Lemma find_all_bounds {A} (pattern : bytes → option (nat * A)) skip offset text :
  (∀ text len a, pattern text = Some (len, a) → 0 < len <= length text) →
  Forall (λ m : nat * nat * A, offset <= m.1.1 < m.1.2 ∧ m.1.2 <= offset + length text) (find_all pattern skip offset text).
Proof.
  intros Hp. revert skip offset. induction text as [|c text IH]; intros skip offset; cbn [find_all]; [done|].
  assert (∀ skip, Forall (λ m : nat * nat * A, offset <= m.1.1 < m.1.2 ∧ m.1.2 <= offset + length (c :: text)) (find_all pattern skip (S offset) text)) as H.
  { intros s. eapply list.Forall_impl; [apply IH|]. cbn. lia. }
  destruct skip; [|apply H]. destruct (pattern (c :: text)) as [[len a]|] eqn:E; [|apply H].
  constructor; [|apply H]. apply Hp in E. cbn in *. lia.
Qed.
Lemma run_length p text : run p text <= length text.
Proof. induction text as [|c text IH]; cbn; [lia|]. destruct (p c); lia. Qed.
Lemma has_prefix_length text token : has_prefix text token = true → length token <= length text.
Proof. unfold has_prefix. intros H%bool_decide_eq_true. rewrite <-H at 1. rewrite length_take. lia. Qed.
Lemma url_pattern_bounds text len a : reverseBareURLPattern text = Some (len, a) → 0 < len <= length text.
Proof.
  unfold reverseBareURLPattern.
  assert (∀ n, n <= length text → n + run url_byte (drop n text) <= length text) as Hrun.
  { intros n Hn. pose proof (run_length url_byte (drop n text)) as Hr. rewrite length_drop in Hr. lia. }
  destruct (has_prefix text (to_l "https://")) eqn:E1; [apply has_prefix_length in E1; specialize (Hrun 8 E1)|
    destruct (has_prefix text (to_l "http://")) eqn:E2; [apply has_prefix_length in E2; specialize (Hrun 7 E2)|done]];
    case_bool_decide; try done; intros [= <- _]; lia.
Qed.
Lemma trim_punctuation_length b : length (trim_punctuation b) <= length b.
Proof.
  unfold trim_punctuation. rewrite length_rev, <-(length_rev b). generalize (rev b). intros l.
  induction l as [|c l IH]; cbn [drop_while]; [lia|]. destruct (bool_decide _); cbn in *; lia.
Qed.

Lemma url_facet_placed text st found : placed text st → found.1.1 <= found.1.2 <= length text → placed text (url_facet text st found).
Proof.
  intros Hp Hb. destruct found as [[start end_] u]. cbn in Hb. unfold url_facet. case_bool_decide; [done|].
  destruct (rangeOverlaps _ _ st.1) eqn:Eo; [done|]. apply append_placed; [done| |done].
  pose proof (trim_punctuation_length (slice text start end_)) as Hl. unfold slice in Hl at 2. rewrite length_drop, length_take in Hl. lia.
Qed.

Section Placed.
Context `{Float64} `{UnicodeCase} {W : Type} (resolve : string → M W (option string)).
Lemma mention_facets_placed text embeddedRefs mentions st st' w w' : placed text st →
  mention_facets resolve text embeddedRefs st mentions w = (Ok st', w') → placed text st'.
Proof.
  revert st w. induction mentions as [|m mentions IH]; intros st w Hp; cbn [mention_facets]; [by intros [= <- _]|].
  intros (st1 & w1 & E1 & E2)%mbind_ok. apply (IH st1 w1); [|done]. clear IH E2. revert E1. unfold mention_facet.
  repeat case_match; try done; try (intros [= <- _]; auto using append_token_placed).
  intros (r & w2 & _ & Hr)%mbind_ok. destruct r as [d|]; [destruct (blank d)|]; injection Hr as <- _; auto using append_token_placed.
Qed.

(** The facets of a reverse post are well placed: whatever the text and the
    mentions, every facet covers a range that is not empty and lies inside the
    text, and no two facets overlap. *)
Theorem facets_well_placed text mentions embeddedRefs facets w w' :
  buildReverseFacets resolve text mentions embeddedRefs w = (Ok facets, w') →
  Forall (λ f, ByteStart f < ByteEnd f ∧ ByteEnd f <= length text) facets ∧
  ∀ i j f g, facets !! i = Some f → facets !! j = Some g → i ≠ j → ByteEnd f <= ByteStart g ∨ ByteEnd g <= ByteStart f.
Proof.
  unfold buildReverseFacets. destruct (_ && _); [intros [= <- _]; by split|]. intros (st & w1 & Hm & [= <- _])%mbind_ok.
  apply mention_facets_placed in Hm; [|apply placed_empty].
  assert (placed text (foldl (url_facet text) st (find_all reverseBareURLPattern 0 0 text))) as [Hr Hin Hap].
  { pose proof (find_all_bounds reverseBareURLPattern 0 0 text url_pattern_bounds) as Hb. revert st Hm.
    induction Hb as [|found l Hf _ IH]; intros st Hm; [done|]. cbn [foldl]. apply IH, url_facet_placed; [done|lia]. }
  set (st' := foldl _ _ _) in *. rewrite Hr in Hin, Hap. split.
  - rewrite Forall_fmap in Hin. exact Hin.
  - intros i j f g Hi Hj Hne.
    apply (Hap i j (ByteStart f, ByteEnd f) (ByteStart g, ByteEnd g)); [by rewrite list_lookup_fmap, Hi|by rewrite list_lookup_fmap, Hj|done].
Qed.
End Placed.
