(* ===== verification/ReverseDB.v ===== *)
(** * The tables of the reverse sync (internal/db/reverse_sync.go)

    Which SSB feeds act for which AT Protocol accounts, and one event per SSB
    message that was mirrored back. A statement is its effect on maps keyed by the
    primary key. *)
From S2P Require Import Prelude GoStr MessageDB.
#[local] Open Scope string_scope.
#[local] Open Scope list_scope.
#[local] Open Scope Z_scope.

Definition ReverseActionPost : string := "post".
Definition ReverseActionReply : string := "reply".
Definition ReverseActionFollow : string := "follow".
Definition ReverseActionUnfollow : string := "unfollow".
Definition ReverseActionVote : string := "vote".
Definition ReverseActionAbout : string := "about".
Definition ReverseActionRepost : string := "repost".
Definition ReverseEventStatePending : string := "pending".
Definition ReverseEventStatePublished : string := "published".
Definition ReverseEventStateFailed : string := "failed".
Definition ReverseEventStateDeferred : string := "deferred".
Definition ReverseEventStateSkipped : string := "skipped".

Record ReverseIdentityMapping := { map_SSBFeedID : string; map_ATDID : string; Active : bool; AllowPosts : bool;
  AllowReplies : bool; AllowFollows : bool; map_UpdatedAt : Z }.

Record ReverseEvent := { SourceSSBMsgRef : string; SourceSSBAuthor : string; SourceSSBSeq : option Z; ReceiveLogSeq : Z;
  ev_ATDID : string; Action : string; EventState : string; Attempts : Z; LastAttemptAt : option Z; ev_PublishedAt : option Z;
  ErrorText : string; ev_DeferReason : string; TargetSSBRef : string; TargetSSBFeedID : string; TargetATDID : string;
  TargetATURI : string; TargetATCID : string; ResultATURI : string; ResultATCID : string; ResultCollection : string;
  RawSSBJSON : string; RawATJSON : string; ev_CreatedAt : Z; ev_UpdatedAt : Z }.

(** The columns the processor assigns. *)
Definition ev_with_state (state reason err : string) (e : ReverseEvent) : ReverseEvent :=
  Build_ReverseEvent (SourceSSBMsgRef e) (SourceSSBAuthor e) (SourceSSBSeq e) (ReceiveLogSeq e) (ev_ATDID e) (Action e) state
    (Attempts e) (LastAttemptAt e) (ev_PublishedAt e) err reason (TargetSSBRef e) (TargetSSBFeedID e) (TargetATDID e)
    (TargetATURI e) (TargetATCID e) (ResultATURI e) (ResultATCID e) (ResultCollection e) (RawSSBJSON e) (RawATJSON e)
    (ev_CreatedAt e) (ev_UpdatedAt e).
Definition ev_with_attempt (attempts : Z) (at_ : option Z) (e : ReverseEvent) : ReverseEvent :=
  Build_ReverseEvent (SourceSSBMsgRef e) (SourceSSBAuthor e) (SourceSSBSeq e) (ReceiveLogSeq e) (ev_ATDID e) (Action e) (EventState e)
    attempts at_ (ev_PublishedAt e) (ErrorText e) (ev_DeferReason e) (TargetSSBRef e) (TargetSSBFeedID e) (TargetATDID e)
    (TargetATURI e) (TargetATCID e) (ResultATURI e) (ResultATCID e) (ResultCollection e) (RawSSBJSON e) (RawATJSON e)
    (ev_CreatedAt e) (ev_UpdatedAt e).
Definition ev_with_target (ssbRef feedID did uri cid : string) (e : ReverseEvent) : ReverseEvent :=
  Build_ReverseEvent (SourceSSBMsgRef e) (SourceSSBAuthor e) (SourceSSBSeq e) (ReceiveLogSeq e) (ev_ATDID e) (Action e) (EventState e)
    (Attempts e) (LastAttemptAt e) (ev_PublishedAt e) (ErrorText e) (ev_DeferReason e) ssbRef feedID did uri cid
    (ResultATURI e) (ResultATCID e) (ResultCollection e) (RawSSBJSON e) (RawATJSON e) (ev_CreatedAt e) (ev_UpdatedAt e).
Definition ev_with_collection (collection : string) (e : ReverseEvent) : ReverseEvent :=
  Build_ReverseEvent (SourceSSBMsgRef e) (SourceSSBAuthor e) (SourceSSBSeq e) (ReceiveLogSeq e) (ev_ATDID e) (Action e) (EventState e)
    (Attempts e) (LastAttemptAt e) (ev_PublishedAt e) (ErrorText e) (ev_DeferReason e) (TargetSSBRef e) (TargetSSBFeedID e)
    (TargetATDID e) (TargetATURI e) (TargetATCID e) (ResultATURI e) (ResultATCID e) collection (RawSSBJSON e) (RawATJSON e)
    (ev_CreatedAt e) (ev_UpdatedAt e).
Definition ev_with_updated (now : Z) (e : ReverseEvent) : ReverseEvent :=
  Build_ReverseEvent (SourceSSBMsgRef e) (SourceSSBAuthor e) (SourceSSBSeq e) (ReceiveLogSeq e) (ev_ATDID e) (Action e) (EventState e)
    (Attempts e) (LastAttemptAt e) (ev_PublishedAt e) (ErrorText e) (ev_DeferReason e) (TargetSSBRef e) (TargetSSBFeedID e)
    (TargetATDID e) (TargetATURI e) (TargetATCID e) (ResultATURI e) (ResultATCID e) (ResultCollection e) (RawSSBJSON e) (RawATJSON e)
    (ev_CreatedAt e) now.
Definition ev_with_result (publishedAt : Z) (uri cid json : string) (e : ReverseEvent) : ReverseEvent :=
  Build_ReverseEvent (SourceSSBMsgRef e) (SourceSSBAuthor e) (SourceSSBSeq e) (ReceiveLogSeq e) (ev_ATDID e) (Action e)
    ReverseEventStatePublished (Attempts e) (LastAttemptAt e) (Some publishedAt) (ErrorText e) (ev_DeferReason e) (TargetSSBRef e)
    (TargetSSBFeedID e) (TargetATDID e) (TargetATURI e) (TargetATCID e) uri cid (ResultCollection e) (RawSSBJSON e) json
    (ev_CreatedAt e) (ev_UpdatedAt e).

(** A row as the upsert leaves it: blank targets and results are null, read back as
    the empty string; the attempts add up and the creation time stays. *)
Definition nullIfBlank (s : string) : string := TrimSpace s.
Definition stored_event (old : option ReverseEvent) (now : Z) (e : ReverseEvent) : ReverseEvent :=
  Build_ReverseEvent (SourceSSBMsgRef e) (SourceSSBAuthor e) (SourceSSBSeq e) (ReceiveLogSeq e) (ev_ATDID e) (Action e)
    (if blank (EventState e) then ReverseEventStatePending else EventState e)
    (match old with Some o => Attempts o + Attempts e | None => Attempts e end) (LastAttemptAt e) (ev_PublishedAt e)
    (ErrorText e) (ev_DeferReason e) (nullIfBlank (TargetSSBRef e)) (nullIfBlank (TargetSSBFeedID e)) (nullIfBlank (TargetATDID e))
    (nullIfBlank (TargetATURI e)) (nullIfBlank (TargetATCID e)) (nullIfBlank (ResultATURI e)) (nullIfBlank (ResultATCID e))
    (nullIfBlank (ResultCollection e)) (RawSSBJSON e) (RawATJSON e)
    (match old with Some o => ev_CreatedAt o | None => now end) now.

(** Bridged accounts are the rows of the other direction, newest first. *)
Record ReverseTables := { mappings : gmap string ReverseIdentityMapping; events : gmap string ReverseEvent;
  bridged_accounts : list (string * string * bool) (* ssb feed, at did, active *) }.
Definition set_events (f : gmap string ReverseEvent → gmap string ReverseEvent) (t : ReverseTables) : ReverseTables :=
  {| mappings := mappings t; events := f (events t); bridged_accounts := bridged_accounts t |}.
Definition set_mappings (f : gmap string ReverseIdentityMapping → gmap string ReverseIdentityMapping) (t : ReverseTables) : ReverseTables :=
  {| mappings := f (mappings t); events := events t; bridged_accounts := bridged_accounts t |}.

(** ** Mappings *)
Definition AddReverseIdentityMapping (now : Z) (m : ReverseIdentityMapping) : M ReverseTables unit :=
  if blank (map_SSBFeedID m) then mfail "add reverse identity mapping: ssb feed id is required"
  else if blank (map_ATDID m) then mfail ("add reverse identity mapping " +:+ map_SSBFeedID m +:+ ": at did is required")
  else mmodify (set_mappings <[TrimSpace (map_SSBFeedID m) :=
    {| map_SSBFeedID := TrimSpace (map_SSBFeedID m); map_ATDID := TrimSpace (map_ATDID m); Active := Active m;
       AllowPosts := AllowPosts m; AllowReplies := AllowReplies m; AllowFollows := AllowFollows m; map_UpdatedAt := now |}]>).
Definition GetReverseIdentityMapping (ssbFeedID : string) (t : ReverseTables) : option ReverseIdentityMapping :=
  mappings t !! TrimSpace ssbFeedID.
Definition RemoveReverseIdentityMapping (now : Z) (ssbFeedID : string) : M ReverseTables unit :=
  mmodify (set_mappings (alter (λ m, {| map_SSBFeedID := map_SSBFeedID m; map_ATDID := map_ATDID m; Active := false;
    AllowPosts := AllowPosts m; AllowReplies := AllowReplies m; AllowFollows := AllowFollows m; map_UpdatedAt := now |})
    (TrimSpace ssbFeedID))).
Definition ResolveATDIDBySSBFeed (ssbFeedID : string) (t : ReverseTables) : option string :=
  let feed := TrimSpace ssbFeedID in
  if bool_decide (feed = "") then None
  else match mappings t !! feed with
    | Some m => if Active m then Some (map_ATDID m) else
        (λ a : string * string * bool, a.1.2) <$> head (filter (λ a, a.1.1 = feed ∧ a.2 = true) (bridged_accounts t))
    | None => (λ a : string * string * bool, a.1.2) <$> head (filter (λ a, a.1.1 = feed ∧ a.2 = true) (bridged_accounts t))
    end.

(** ** Events *)
Definition AddReverseEvent (now : Z) (e : ReverseEvent) : M ReverseTables unit :=
  if blank (SourceSSBMsgRef e) then mfail "add reverse event: source msg ref is required"
  else if blank (SourceSSBAuthor e) then mfail ("add reverse event " +:+ SourceSSBMsgRef e +:+ ": source author is required")
  else if blank (ev_ATDID e) then mfail ("add reverse event " +:+ SourceSSBMsgRef e +:+ ": at did is required")
  else if blank (Action e) then mfail ("add reverse event " +:+ SourceSSBMsgRef e +:+ ": action is required")
  else mmodify (set_events (λ t, <[SourceSSBMsgRef e := stored_event (t !! SourceSSBMsgRef e) now e]> t)).
Definition GetReverseEvent (ref : string) (t : ReverseTables) : option ReverseEvent := events t !! TrimSpace ref.
Definition ResetReverseEventForRetry (now : Z) (ref : string) : M ReverseTables unit :=
  mmodify (set_events (alter (λ e, ev_with_updated now (ev_with_state ReverseEventStatePending "" "" e)) (TrimSpace ref))).

(** The first row of [ORDER BY ... DESC LIMIT 1]; rows that are equal in the order
    come in the order of the table. *)
Fixpoint newest {A} (newer : A → A → bool) (l : list A) : option A :=
  match l with
  | [] => None
  | a :: l => match newest newer l with Some b => if newer b a then Some b else Some a | None => Some a end
  end.
Definition GetLatestPublishedReverseFollow (atDID targetATDID : string) (t : ReverseTables) : option ReverseEvent :=
  newest (λ a b, bool_decide (default (ev_UpdatedAt b) (ev_PublishedAt b) < default (ev_UpdatedAt a) (ev_PublishedAt a)))
    (filter (λ e, ev_ATDID e = TrimSpace atDID ∧ Action e = ReverseActionFollow ∧ EventState e = ReverseEventStatePublished ∧
       TargetATDID e = TrimSpace targetATDID ∧ TrimSpace (ResultATURI e) ≠ "") ((map_to_list (events t)).*2)).

(** [GetMessageBySSBRef] of internal/db/messages.go: the newest row with the
    reference. *)
Definition newer_message (a b : Message) : bool :=
  let key m := default (CreatedAt m) (PublishedAt m) in
  bool_decide (key b < key a) ||
  bool_decide (key a = key b) && (bool_decide (CreatedAt b < CreatedAt a) ||
    bool_decide (CreatedAt a = CreatedAt b) && String.ltb (ATURI b) (ATURI a)).
Definition GetMessageBySSBRef (ref : string) (t : gmap string Message) : option Message :=
  newest newer_message (filter (λ m, SSBMsgRef m = TrimSpace ref) (rows t)).

Lemma newest_elem {A} newer (l : list A) a : newest newer l = Some a → a ∈ l.
Proof.
  revert a. induction l as [|x l IH]; [done|]. cbn. intros a. destruct (newest newer l) as [b|].
  - destruct (newer b x); intros [= <-]; [right; by apply IH|left].
  - intros [= <-]. left.
Qed.
