(* ===== verification/ReverseSync.v ===== *)
(** * The reverse sync (internal/bridge/reverse_sync.go)

    Messages of SSB feeds that act for AT Protocol accounts are read from the
    receive log, one after the other, and mirrored as records of the account:
    posts, replies, reposts, likes, profiles and follows. *)
From S2P Require Import Prelude GoStr GoBytes Refs Crypto Legacy Feedlog MessageDB ReverseText ReverseDB.
#[local] Open Scope string_scope.
#[local] Open Scope list_scope.
#[local] Open Scope Z_scope.

Definition reverseReceiveLogSeqKey : string := "reverse_receive_log_seq".
Definition reverseLastScanAtKey : string := "reverse_sync_last_scan_at".
Definition reverseLastErrorKey : string := "reverse_sync_last_error".
Definition defaultReverseScanLimit : Z := 100.
Definition maxReverseImageEmbeds : nat := 4.
(** Collections, of internal/mapper *)
Definition RecordTypePost : string := "app.bsky.feed.post".
Definition RecordTypeLike : string := "app.bsky.feed.like".
Definition RecordTypeRepost : string := "app.bsky.feed.repost".
Definition RecordTypeFollow : string := "app.bsky.graph.follow".
Definition RecordTypeProfile : string := "app.bsky.actor.profile".

(** ** The records *)
Record StrongRef := { Uri : string; Cid : string }.
Record LexBlob := { lb_Ref : string; lb_MimeType : string; lb_Size : Z }.
Record Image := { Alt : string; img_Image : LexBlob }.
Record FeedPost := { Text : bytes; post_CreatedAt : string; Reply : option (StrongRef * StrongRef) (* root, parent *);
  Facets : list facet; Images : list Image }.
Record ActorProfile := { DisplayName : option string; Description : option string; Avatar : option LexBlob }.
Inductive record := RPost (p : FeedPost) | RRepost (subject : StrongRef) (createdAt : string)
| RLike (subject : StrongRef) (createdAt : string) | RProfile (p : ActorProfile) | RFollow (subject createdAt : string).

(** ** Collaborators *)
Record ReverseCredentialFileEntry := { Identifier : string; PDSHost : string; PasswordEnv : string }.
Record ReverseCredentialStatus := { Configured : bool; Reason : string }.
Record reverseResolvedCredential := { cred_DID : string; cred_Identifier : string; cred_PDSHost : string; cred_Password : string }.
Record ReverseCreatedRecord := { URI : string; CID : string; RawRecordJSON : string }.

(** The calls to the account's server, each answered in view of the calls before. *)
Inductive pds_call := CNewSession (cred : reverseResolvedCredential) | CUploadBlob (did : string) (data : bytes) (mimeType : string)
| CCreateRecord (did collection : string) (r : record) | CDeleteRecord (did atURI : string).

(** Optional collaborators may be nil. [env_db_err n] is the failure of the [n]th
    statement on the bridge database. *)
Record ReverseEnv := {
  env_db_err : nat → option string;
  env_now : nat → Z;
  env_RFC3339 : Z → string;
  env_Quote : string → string; (* strconv.Quote *)
  env_blob_mime : string → option string;
  env_blob_store : option (list bytes → bytes → option bytes);
  env_blob_fetch : option (list bytes → string → bytes → bool);
  env_close_err : bytes → option string;
  env_credentials : gmap string ReverseCredentialFileEntry;
  env_getenv : string → string;
  env_host : option (string → option string);
  env_new_session : list pds_call → option string;
  env_upload : list pds_call → option (option LexBlob);
  env_create : list pds_call → string + ReverseCreatedRecord;
  env_delete : list pds_call → option string
}.
Record ReverseWorld := { tables : ReverseTables; messages : gmap string Message; state : gmap string string;
  logs : Feedlog.DB; db_calls : nat; clock : nat; pds : list pds_call; fetched : list bytes }.

Definition set_tables (t : ReverseTables) (w : ReverseWorld) : ReverseWorld :=
  {| tables := t; messages := messages w; state := state w; logs := logs w; db_calls := db_calls w; clock := clock w;
     pds := pds w; fetched := fetched w |}.
Definition set_messages (m : gmap string Message) (w : ReverseWorld) : ReverseWorld :=
  {| tables := tables w; messages := m; state := state w; logs := logs w; db_calls := db_calls w; clock := clock w;
     pds := pds w; fetched := fetched w |}.
Definition set_state (s : gmap string string) (w : ReverseWorld) : ReverseWorld :=
  {| tables := tables w; messages := messages w; state := s; logs := logs w; db_calls := db_calls w; clock := clock w;
     pds := pds w; fetched := fetched w |}.
Definition count_call (w : ReverseWorld) : ReverseWorld :=
  {| tables := tables w; messages := messages w; state := state w; logs := logs w; db_calls := S (db_calls w); clock := clock w;
     pds := pds w; fetched := fetched w |}.
Definition set_pds (call : pds_call) (w : ReverseWorld) : ReverseWorld :=
  {| tables := tables w; messages := messages w; state := state w; logs := logs w; db_calls := db_calls w; clock := clock w;
     pds := pds w ++ [call]; fetched := fetched w |}.
Definition set_fetched (h : bytes) (w : ReverseWorld) : ReverseWorld :=
  {| tables := tables w; messages := messages w; state := state w; logs := logs w; db_calls := db_calls w; clock := clock w;
     pds := pds w; fetched := fetched w ++ [h] |}.

Section Processor.
Context {js : JSON} {ed : Ed25519} {sh : Sha256} `{Float64} `{UnicodeCase}.
(** The dynamic value of a message's content, and [json.Unmarshal] into a map. *)
Context (content_value : Content → json) (unmarshal_object : bytes → result (gmap string json)).
Context (env : ReverseEnv).
#[local] Abbreviation M := (M ReverseWorld).
#[local] Abbreviation object := (gmap string json).

(** ** Statements *)
Definition now : M Z := λ w,
  (Ok (env_now env (clock w)),
   {| tables := tables w; messages := messages w; state := state w; logs := logs w; db_calls := db_calls w; clock := S (clock w);
      pds := pds w; fetched := fetched w |}).
(** A statement: it fails, or runs on the world. *)
Definition statement {A} (m : M A) : M A := λ w,
  match env_db_err env (db_calls w) with
  | Some e => (Err e, count_call w)
  | None => m (count_call w)
  end.
Definition query {A} (f : ReverseWorld → A) : M A := statement (λ w, (Ok (f w), w)).
Definition db_AddReverseEvent (e : ReverseEvent) : M unit :=
  t ← now;
  statement (λ w, let '(r, ts) := AddReverseEvent t e (tables w) in (r, set_tables ts w)).
Definition db_ResetReverseEventForRetry (ref : string) : M unit :=
  t ← now;
  statement (λ w, let '(r, ts) := ResetReverseEventForRetry t ref (tables w) in (r, set_tables ts w)).
Definition db_AddMessage (m : Message) : M unit :=
  t ← now;
  statement (λ w, (Ok tt, set_messages (table_AddMessage t m (messages w)) w)).
Definition db_SetBridgeState (key value : string) : M unit := statement (λ w, (Ok tt, set_state (<[key := value]> (state w)) w)).

(** ** Calls to the server *)
Definition pds_NewSession (cred : reverseResolvedCredential) : M unit := λ w,
  let w := set_pds (CNewSession cred) w in
  (match env_new_session env (pds w) with Some e => Err e | None => Ok tt end, w).
Definition pds_UploadBlob (did : string) (data : bytes) (mimeType : string) : M (option (option LexBlob)) := λ w,
  let w := set_pds (CUploadBlob did data mimeType) w in (Ok (env_upload env (pds w)), w).
Definition pds_CreateRecord (did collection : string) (r : record) : M ReverseCreatedRecord := λ w,
  let w := set_pds (CCreateRecord did collection r) w in
  (match env_create env (pds w) with inl e => Err e | inr c => Ok c end, w).
Definition pds_DeleteRecord (did atURI : string) : M unit := λ w,
  let w := set_pds (CDeleteRecord did atURI) w in
  (match env_delete env (pds w) with Some e => Err e | None => Ok tt end, w).
(** ** Credentials *)
Definition slash (c : ascii) : bool := bool_decide (c = "/"%char).
(** The entries of the credentials file, as [LoadReverseCredentials] keeps them. *)
Definition normalized_entry (e : ReverseCredentialFileEntry) : ReverseCredentialFileEntry :=
  {| Identifier := TrimSpace (Identifier e); PDSHost := TrimRight slash (TrimSpace (PDSHost e));
     PasswordEnv := TrimSpace (PasswordEnv e) |}.
Definition LoadReverseCredentials (creds : gmap string ReverseCredentialFileEntry) : gmap string ReverseCredentialFileEntry :=
  map_fold (λ did e acc, <[TrimSpace did := normalized_entry e]> acc) ∅ creds.
Definition not_configured (reason : string) : ReverseCredentialStatus := {| Configured := false; Reason := reason |}.
Definition CredentialStatus (did : string) : ReverseCredentialStatus :=
  match env_credentials env !! TrimSpace did with
  | None => not_configured "missing_credentials_entry"
  | Some entry =>
      if blank (Identifier entry) then not_configured "missing_identifier"
      else if blank (PasswordEnv entry) then not_configured "missing_password_env"
      else if blank (env_getenv env (PasswordEnv entry)) then not_configured "password_env_unset"
      else {| Configured := true; Reason := if blank (PDSHost entry) then "configured_via_plc" else "configured" |}
  end.
(** The credential, or the reason why there is none. *)
Definition resolveCredential (did : string) : string + reverseResolvedCredential :=
  let status := CredentialStatus did in
  if negb (Configured status) then inl (Reason status)
  else match env_credentials env !! TrimSpace did with
  | None => inl "missing_credentials_entry"
  | Some entry =>
      let host := TrimSpace (PDSHost entry) in
      let with_host (host : string) :=
        if bool_decide (host = "") then inl "missing_pds_host"
        else inr {| cred_DID := TrimSpace did; cred_Identifier := Identifier entry; cred_PDSHost := TrimRight slash host;
                    cred_Password := TrimSpace (env_getenv env (PasswordEnv entry)) |} in
      match env_host env with
      | Some ResolvePDSEndpoint =>
          if bool_decide (host = "") then
            match ResolvePDSEndpoint did with None => inl "pds_host_unresolved" | Some resolved => with_host resolved end
          else with_host host
      | None => with_host host
      end
  end.

(** ** Reading a message *)
Definition decodeSSBContent (rawSSBJSON : bytes) : result object :=
  let raw := trim rawSSBJSON in
  if bool_decide (raw = []) then Err "empty_ssb_json"
  else match ParseSignedMessageJSON raw with
  | Ok (signed, _) => normalizeSSBContentMap (content_value (content (message signed)))
  | Panic => Panic
  | Err _ =>
      envelope ← unmarshal_object raw;
      match envelope !! "content" with
      | Some c => normalizeSSBContentMap c
      | None => normalizeSSBContentMap (JObject envelope)
      end
  end.

(** [fmt.Sscanf(value, "%d", &seq)] on a value without surrounding space: a sign
    and as many digits as there are; what follows them is ignored. *)
Fixpoint leading_digits (s : bytes) : bytes :=
  match s with c :: s => if is_digit c then c :: leading_digits s else [] | [] => [] end.
Definition Sscanf_d (value : string) : option Z :=
  match to_l value with
  | "-"%char :: s => ParseInt (of_l ("-"%char :: leading_digits s))
  | "+"%char :: s => ParseInt (of_l ("+"%char :: leading_digits s))
  | s => ParseInt (of_l (leading_digits s))
  end.
Definition readLastProcessedSeq : M Z :=
  value ← mwrap "get reverse receive log seq: " (query (λ w, state w !! reverseReceiveLogSeqKey));
  match value with
  | None => mret 0
  | Some value =>
      if blank value then mret 0
      else match Sscanf_d (TrimSpace value) with
      | Some seq => mret seq
      | None => mfail ("parse reverse receive log seq " +:+ env_Quote env value)
      end
  end.

(** ** Events *)

(** What an event says of its source: position in the receive log, reference,
    author, sequence number and text of the message. *)
Record source := { src_ReceiveLogSeq : Z; src_Ref : string; src_Author : string; src_Seq : option Z; src_Raw : bytes }.
Definition baseReverseEvent (src : source) (atDID action : string) : ReverseEvent :=
  {| SourceSSBMsgRef := src_Ref src; SourceSSBAuthor := src_Author src; SourceSSBSeq := src_Seq src;
     ReceiveLogSeq := src_ReceiveLogSeq src; ev_ATDID := atDID; Action := action; EventState := ReverseEventStatePending;
     Attempts := 0; LastAttemptAt := None; ev_PublishedAt := None; ErrorText := ""; ev_DeferReason := ""; TargetSSBRef := "";
     TargetSSBFeedID := ""; TargetATDID := ""; TargetATURI := ""; TargetATCID := ""; ResultATURI := ""; ResultATCID := "";
     ResultCollection := ""; RawSSBJSON := of_l (src_Raw src); RawATJSON := ""; ev_CreatedAt := 0; ev_UpdatedAt := 0 |}.
Definition persistReverseEvent (e : ReverseEvent) : M unit := db_AddReverseEvent e.
Definition skipped (reason : string) : ReverseEvent → ReverseEvent := ev_with_state ReverseEventStateSkipped reason "".
Definition deferred (reason : string) : ReverseEvent → ReverseEvent := ev_with_state ReverseEventStateDeferred reason "".
Definition failed (err : string) (e : ReverseEvent) : ReverseEvent := ev_with_state ReverseEventStateFailed (ev_DeferReason e) err e.
Definition reverseCreatedAt : M string := t ← now; mret (env_RFC3339 env t).

Definition lookup_message (what ref : string) : M (option Message) :=
  mwrap ("lookup " +:+ what +:+ " " +:+ ref +:+ ": ") (query (λ w, GetMessageBySSBRef ref (messages w))).
(** A message that is bridged: its record has an address and a hash. *)
Definition bridged (m : option Message) : option Message :=
  m ← m; if blank (ATURI m) || blank (ATCID m) then None else Some m.
Definition resolveReplyTargets (rootRef parentRef : string) : M (string + Message * Message) :=
  let rootRef := TrimSpace rootRef in
  let parentRef := TrimSpace parentRef in
  let rootRef := if bool_decide (rootRef = "") then parentRef else rootRef in
  let parentRef := if bool_decide (parentRef = "") then rootRef else parentRef in
  if bool_decide (rootRef = "") || bool_decide (parentRef = "") then mret (inl "missing_reply_refs")
  else
    rootMsg ← lookup_message "reply root" rootRef;
    match bridged rootMsg with
    | None => mret (inl ("reply_root_unmapped=" +:+ rootRef))
    | Some rootMsg =>
        parentMsg ← lookup_message "reply parent" parentRef;
        match bridged parentMsg with
        | None => mret (inl ("reply_parent_unmapped=" +:+ parentRef))
        | Some parentMsg => mret (inr (rootMsg, parentMsg))
        end
    end.
(** What to do about a message: nothing, or an event with the record to create or,
    for an unfollow, the address of the record to delete. *)
Definition plan : Type := ReverseEvent * option record * string.
Definition only_event (e : ReverseEvent) : M (option plan) := mret (Some (e, None, "")).
Definition strong_ref (m : Message) : StrongRef := {| Uri := ATURI m; Cid := ATCID m |}.
Definition plain_post (text createdAt : string) (reply : option (StrongRef * StrongRef)) : record :=
  RPost {| Text := to_l text; post_CreatedAt := createdAt; Reply := reply; Facets := []; Images := [] |}.

Definition build_post (src : source) (mapping : ReverseIdentityMapping) (content : object) : M (option plan) :=
  let '(replyRootRef, replyParentRef) := extractReplyRefs content in
  if negb (bool_decide (replyRootRef = "") && bool_decide (replyParentRef = "")) then
    let event := ev_with_collection RecordTypePost (baseReverseEvent src (map_ATDID mapping) ReverseActionReply) in
    if negb (AllowReplies mapping) then only_event (skipped "action_disabled=reply" event)
    else
      targets ← resolveReplyTargets replyRootRef replyParentRef;
      match targets with
      | inl reason => only_event (deferred reason (ev_with_target replyParentRef "" "" "" "" event))
      | inr (rootMsg, parentMsg) =>
          createdAt ← reverseCreatedAt;
          mret (Some (ev_with_target replyParentRef "" (ATDID rootMsg) (ATURI parentMsg) (ATCID parentMsg) event,
            Some (plain_post (stringValue (at_key content "text")) createdAt (Some (strong_ref rootMsg, strong_ref parentMsg))), ""))
      end
  else
    let event := ev_with_collection RecordTypePost (baseReverseEvent src (map_ATDID mapping) ReverseActionPost) in
    if negb (AllowPosts mapping) then only_event (skipped "action_disabled=post" event)
    else
      createdAt ← reverseCreatedAt;
      mret (Some (event, Some (plain_post (stringValue (at_key content "text")) createdAt None), "")).

(** Reposts and likes: a record about a bridged message. *)
Definition build_subject (src : source) (mapping : ReverseIdentityMapping) (action collection what disabled targetRef : string)
    (mk : StrongRef → string → record) : M (option plan) :=
  let event := baseReverseEvent src (map_ATDID mapping) action in
  if bool_decide (targetRef = "") then only_event (skipped ("missing_" +:+ what +:+ "_target") event)
  else
    let event := ev_with_collection collection event in
    if negb (AllowPosts mapping) then only_event (skipped ("action_disabled=" +:+ disabled) event)
    else
      targetMsg ← lookup_message (what +:+ " target") targetRef;
      match bridged targetMsg with
      | None => only_event (deferred (what +:+ "_target_unmapped=" +:+ targetRef) event)
      | Some targetMsg =>
          createdAt ← reverseCreatedAt;
          mret (Some (ev_with_target targetRef "" (ATDID targetMsg) (ATURI targetMsg) (ATCID targetMsg) event,
            Some (mk (strong_ref targetMsg) createdAt), ""))
      end.

Definition nonempty (s : string) : option string := if bool_decide (s = "") then None else Some s.
Definition build_about (src : source) (mapping : ReverseIdentityMapping) (content : object) : M (option plan) :=
  let targetFeed := TrimSpace (stringValue (at_key content "about")) in
  let event := baseReverseEvent src (map_ATDID mapping) ReverseActionAbout in
  if bool_decide (targetFeed = "") || negb (bool_decide (targetFeed = src_Author src)) then only_event (skipped "about_not_self" event)
  else mret (Some (ev_with_collection RecordTypeProfile event,
    Some (RProfile {| DisplayName := nonempty (stringValue (at_key content "name"));
      Description := nonempty (stringValue (at_key content "description")); Avatar := None |}), "")).

Definition db_ResolveATDIDBySSBFeed (feed : string) : M (option string) := query (λ w, ResolveATDIDBySSBFeed feed (tables w)).
Definition build_contact (src : source) (mapping : ReverseIdentityMapping) (content : object) : M (option plan) :=
  let targetFeed := TrimSpace (stringValue (at_key content "contact")) in
  let base := baseReverseEvent src (map_ATDID mapping) in
  if bool_decide (targetFeed = "") then
    only_event (deferred "missing_contact_feed" (ev_with_collection RecordTypeFollow (base ReverseActionFollow)))
  else if boolValue (at_key content "blocking") then
    only_event (skipped "unsupported_contact_block" (ev_with_target "" targetFeed "" "" "" (base ReverseActionFollow)))
  else
    let following := boolValue (at_key content "following") in
    resolved ← mwrap ("resolve at did by ssb feed " +:+ targetFeed +:+ ": ") (db_ResolveATDIDBySSBFeed targetFeed);
    let targetATDID := default "" resolved in
    let event := ev_with_collection RecordTypeFollow (ev_with_target "" targetFeed targetATDID "" ""
      (base (if following then ReverseActionFollow else ReverseActionUnfollow))) in
    if negb (AllowFollows mapping) then only_event (skipped "action_disabled=follow" event)
    else if blank targetATDID then only_event (deferred ("target_did_unmapped=" +:+ targetFeed) event)
    else if following then
      createdAt ← reverseCreatedAt;
      mret (Some (event, Some (RFollow targetATDID createdAt), ""))
    else
      followEvent ← query (λ w, GetLatestPublishedReverseFollow (map_ATDID mapping) targetATDID (tables w));
      match followEvent with
      | Some f =>
          if blank (ResultATURI f) then only_event (deferred ("follow_record_not_found=" +:+ targetATDID) event)
          else mret (Some (ev_with_target "" targetFeed targetATDID (ResultATURI f) (ResultATCID f) event, None, ResultATURI f))
      | None => only_event (deferred ("follow_record_not_found=" +:+ targetATDID) event)
      end.

Definition buildReverseEvent (src : source) (mapping : ReverseIdentityMapping) (content : object) : M (option plan) :=
  let msgType := TrimSpace (stringValue (at_key content "type")) in
  if bool_decide (msgType = "post") then build_post src mapping content
  else if bool_decide (msgType = "repost") || bool_decide (msgType = "share") then
    let repost := TrimSpace (stringValue (at_key content "repost")) in
    let targetRef := if bool_decide (repost = "") then TrimSpace (stringValue (at_key content "share")) else repost in
    build_subject src mapping ReverseActionRepost RecordTypeRepost "repost" "post" targetRef RRepost
  else if bool_decide (msgType = "vote") then
    match at_key content "vote" with
    | JObject vote =>
        if positiveValue (at_key vote "value") then
          build_subject src mapping ReverseActionVote RecordTypeLike "vote" "like" (TrimSpace (stringValue (at_key vote "link"))) RLike
        else mret None
    | _ => mret None
    end
  else if bool_decide (msgType = "about") then build_about src mapping content
  else if bool_decide (msgType = "contact") then build_contact src mapping content
  else mret None.

(** ** Embeds *)
Definition GetBlobBySSBRef (ref : string) : M (option string) :=
  mwrap ("lookup blob metadata " +:+ ref +:+ ": ") (query (λ _, env_blob_mime env ref)).
Definition is_image (mimeType : string) : bool := HasPrefix (ToLower mimeType) "image/".
Definition mismatch (a b : string) : bool := negb (bool_decide (a = "")) && negb (bool_decide (b = "")) && negb (EqualFold a b).
(** The data of a blob: from the store, or fetched into it first. *)
Definition read_blob (Get : list bytes → bytes → option bytes) (sourceFeedID : string) (hash : bytes) : M (option bytes) := λ w,
  match Get (fetched w) hash with
  | Some data => (Ok (Some data), w)
  | None =>
      match env_blob_fetch env with
      | None => (Ok None, w)
      | Some EnsureBlob =>
          if EnsureBlob (fetched w) sourceFeedID hash then let w := set_fetched hash w in (Ok (Get (fetched w) hash), w)
          else (Ok None, w)
      end
  end.
(** Reads a blob and uploads it: the reason to defer, or the uploaded blob. *)
Definition upload (Get : list bytes → bytes → option bytes) (did sourceFeedID link mimeType : string) : M (string + LexBlob) :=
  match ParseBlobRef link with
  | Ok blobRef =>
      data ← read_blob Get sourceFeedID (b_hash blobRef);
      match data with
      | None => mret (inl ("blob_read_failed=" +:+ link))
      | Some data =>
          uploaded ← pds_UploadBlob did data mimeType;
          match uploaded with
          | None => mret (inl ("blob_upload_failed=" +:+ link))
          | Some uploaded =>
              match env_close_err env (b_hash blobRef) with
              | Some e => mfail ("close blob reader " +:+ link +:+ ": " +:+ e)
              | None => mret (match uploaded with Some b => inr b | None => inl ("blob_upload_failed=" +:+ link) end)
              end
          end
      end
  | Err _ => mret (inl ("blob_ref_invalid=" +:+ link))
  | Panic => mlift Panic
  end.
Definition link_of (mention : object) : string := TrimSpace (stringValue (at_key mention "link")).
Definition is_blob (link : string) : bool := HasPrefix link "&".
Definition EmbedState : Type := list Image * gmap string string (* seenRefs *) * gset string (* embeddedRefs *).
(** One mention: the reason to defer the post, or the state after it. *)
Definition embed_mention (Get : list bytes → bytes → option bytes) (did sourceFeedID : string) (st : EmbedState) (mention : object)
    : M (string + EmbedState) :=
  let '(images, seenRefs, embeddedRefs) := st in
  let link := link_of mention in
  let mentionMime := TrimSpace (stringValue (at_key mention "type")) in
  if negb (is_blob link) then mret (inr st)
  else match seenRefs !! link with
  | Some existingMime =>
      if mismatch mentionMime existingMime then mret (inl ("blob_mime_mismatch=" +:+ link))
      else mret (inr (images, seenRefs, {[link]} ∪ embeddedRefs))
  | None =>
      blobMeta ← GetBlobBySSBRef link;
      let metaMime := TrimSpace (default "" blobMeta) in
      if mismatch mentionMime metaMime then mret (inl ("blob_mime_mismatch=" +:+ link))
      else
        let mimeType := if bool_decide (mentionMime = "") then metaMime else mentionMime in
        if bool_decide (mimeType = "") then mret (inl ("blob_mime_missing=" +:+ link))
        else if negb (is_image mimeType) then mret (inl ("blob_media_unsupported=" +:+ link))
        else if bool_decide (maxReverseImageEmbeds <= length images)%nat then
          mret (inl ("image_limit_exceeded=" +:+ itoa (Z.of_nat (length images) + 1)))
        else
          uploaded ← upload Get did sourceFeedID link mimeType;
          match uploaded with
          | inl reason => mret (inl reason)
          | inr b =>
              let blobMime := if blank (lb_MimeType b) then mimeType else lb_MimeType b in
              let uploadMime := TrimSpace blobMime in
              if negb (is_image uploadMime) then mret (inl ("blob_media_unsupported=" +:+ link))
              else if mismatch mimeType uploadMime then mret (inl ("blob_mime_mismatch=" +:+ link))
              else
                let image := {| Alt := TrimSpace (stringValue (at_key mention "name"));
                  img_Image := {| lb_Ref := lb_Ref b; lb_MimeType := blobMime; lb_Size := lb_Size b |} |} in
                mret (inr (images ++ [image], <[link := mimeType]> seenRefs, {[link]} ∪ embeddedRefs))
          end
  end.
Fixpoint embed_mentions (Get : list bytes → bytes → option bytes) (did sourceFeedID : string) (st : EmbedState) (mentions : list object)
    : M (string + EmbedState) :=
  match mentions with
  | [] => mret (inr st)
  | mention :: mentions =>
      r ← embed_mention Get did sourceFeedID st mention;
      match r with inl reason => mret (inl reason) | inr st => embed_mentions Get did sourceFeedID st mentions end
  end.
Definition buildReverseImageEmbeds (did sourceFeedID : string) (mentions : list object) : M (string + list Image * gset string) :=
  match env_blob_store env with
  | None => mret (if existsb (λ m, is_blob (link_of m)) mentions then inl "blob_store_unavailable" else inr ([], ∅))
  | Some Get =>
      r ← embed_mentions Get did sourceFeedID ([], ∅, ∅) mentions;
      mret (match r with inl reason => inl reason | inr (images, _, embeddedRefs) => inr (images, embeddedRefs) end)
  end.

Definition enrichReversePostRecord (did sourceFeedID : string) (content : object) (post : FeedPost) : M (string + FeedPost) :=
  let mentions := normalizedReverseMentions (at_key content "mentions") in
  r ← buildReverseImageEmbeds did sourceFeedID mentions;
  match r with
  | inl reason => mret (inl reason)
  | inr (images, embeddedRefs) =>
      let text := stripEmbeddedBlobMarkdown (Text post) embeddedRefs in
      facets ← buildReverseFacets db_ResolveATDIDBySSBFeed text mentions embeddedRefs;
      mret (inr {| Text := text; post_CreatedAt := post_CreatedAt post; Reply := Reply post; Facets := facets; Images := images |})
  end.
Definition enrichReverseProfileRecord (did sourceFeedID : string) (content : object) (profile : ActorProfile) : M (string + ActorProfile) :=
  let link := TrimSpace (stringValue (at_key content "image")) in
  if negb (is_blob link) then mret (inr profile)
  else match env_blob_store env with
  | None => mret (inl "blob_store_unavailable")
  | Some Get =>
      blobMeta ← GetBlobBySSBRef link;
      let metaMime := TrimSpace (default "" blobMeta) in
      let mimeType := if bool_decide (metaMime = "") then "image/jpeg" else metaMime in
      if negb (is_image mimeType) then mret (inl ("blob_media_unsupported=" +:+ link))
      else
        uploaded ← upload Get did sourceFeedID link mimeType;
        mret (match uploaded with
          | inl reason => inl reason
          | inr b => inr {| DisplayName := DisplayName profile; Description := Description profile; Avatar := Some b |}
          end)
  end.

(** ** Publishing *)
(** The row of the created record, as the other direction would have written it. *)
Definition correlation (e : ReverseEvent) (r : record) : MessageDB.Message :=
  let '(root, parent) := match r with
    | RPost p => match Reply p with Some (root, parent) => (TrimSpace (Uri root), TrimSpace (Uri parent)) | None => ("", "") end
    | _ => ("", "") end in
  {| ATURI := ResultATURI e; ATCID := ResultATCID e; SSBMsgRef := SourceSSBMsgRef e; ATDID := ev_ATDID e; Type_ := ResultCollection e;
     MessageState := MessageStatePublished; RawATJson := RawATJSON e; RawSSBJson := RawSSBJSON e; PublishedAt := ev_PublishedAt e;
     PublishError := ""; PublishAttempts := 0; LastPublishAttemptAt := None; DeferReason := ""; DeferAttempts := 0;
     LastDeferAttemptAt := None; DeletedAt := None; DeletedSeq := None; DeletedReason := ""; RootATURI := root; ParentATURI := parent;
     CreatedAt := zero_time |}.
Definition persistForwardCorrelation (e : ReverseEvent) (r : record) : M unit :=
  if blank (ResultATURI e) then mret tt else db_AddMessage (correlation e r).

(** The record with its images, facets or avatar, or the reason to defer it. *)
Definition enrich (did : string) (e : ReverseEvent) (content : object) (r : record) : M (string + record) :=
  match r with
  | RPost post =>
      x ← enrichReversePostRecord did (SourceSSBAuthor e) content post;
      mret (match x with inl reason => inl reason | inr post => inr (RPost post) end)
  | RProfile profile =>
      x ← enrichReverseProfileRecord did (SourceSSBAuthor e) content profile;
      mret (match x with inl reason => inl reason | inr profile => inr (RProfile profile) end)
  | r => mret (inr r)
  end.
Definition publish_delete (did deleteATURI : string) (e : ReverseEvent) : M unit :=
  r ← mtry (pds_DeleteRecord did deleteATURI);
  match r with
  | Ok _ =>
      publishedAt ← now;
      persistReverseEvent (ev_with_result publishedAt deleteATURI (ResultATCID e)
        ("{" +:+ quoted "op" +:+ ":" +:+ quoted "delete" +:+ "," +:+ quoted "at_uri" +:+ ":" +:+ env_Quote env deleteATURI +:+ "}") e)
  | Err err => persistReverseEvent (failed err e)
  | Panic => mlift Panic
  end.
Definition publish_create (did : string) (content : object) (r : record) (e : ReverseEvent) : M unit :=
  enriched ← mtry (enrich did e content r);
  match enriched with
  | Err err => persistReverseEvent (failed err e)
  | Panic => mlift Panic
  | Ok (inl reason) => persistReverseEvent (deferred reason e)
  | Ok (inr r) =>
      created ← mtry (pds_CreateRecord did (ResultCollection e) r);
      match created with
      | Err err => persistReverseEvent (failed err e)
      | Panic => mlift Panic
      | Ok created =>
          publishedAt ← now;
          let e := ev_with_result publishedAt (URI created) (CID created) (RawRecordJSON created) e in
          mwrap ("persist forward correlation for " +:+ SourceSSBMsgRef e +:+ ": ") (persistForwardCorrelation e r);;
          persistReverseEvent e
      end
  end.

(** An event with its record, from the account's credential to the row. An event
    that is not an unfollow always comes with a record ([plans_ok]). *)
Definition publish (content : object) (p : plan) : M unit :=
  let '(e, r, deleteATURI) := p in
  match resolveCredential (ev_ATDID e) with
  | inl reason => persistReverseEvent (deferred ("credentials_" +:+ reason) e)
  | inr cred =>
      attemptedAt ← now;
      let e := ev_with_attempt 1 (Some attemptedAt) e in
      session ← mtry (pds_NewSession cred);
      match session with
      | Err err => persistReverseEvent (failed err e)
      | Panic => mlift Panic
      | Ok _ =>
          if bool_decide (Action e = ReverseActionUnfollow) then publish_delete (cred_DID cred) deleteATURI e
          else match r with Some r => publish_create (cred_DID cred) content r e | None => mlift Panic end
      end
  end.

(** ** Messages *)
(** From the decoded content to the row. *)
Definition mirror (src : source) (mapping : ReverseIdentityMapping) (content : object) : M unit :=
  p ← buildReverseEvent src mapping content;
  match p with
  | None => mret tt
  | Some (e, r, deleteATURI) =>
      if bool_decide (EventState e = ReverseEventStateDeferred) || bool_decide (EventState e = ReverseEventStateSkipped)
      then persistReverseEvent e
      else publish content (e, r, deleteATURI)
  end.
(** The row of an event that is final unless it is forced. *)
Definition is_final (e : option ReverseEvent) : bool :=
  match e with Some e => negb (bool_decide (EventState e = ReverseEventStatePending)) | None => false end.
Definition processDecodedMessage (src : source) (force : bool) : M unit :=
  let src := {| src_ReceiveLogSeq := src_ReceiveLogSeq src; src_Ref := TrimSpace (src_Ref src);
    src_Author := TrimSpace (src_Author src); src_Seq := src_Seq src; src_Raw := src_Raw src |} in
  if bool_decide (src_Ref src = "") || bool_decide (src_Author src = "") then mret tt
  else
    final ← (if force then mret false else
      existing ← mwrap ("load existing reverse event " +:+ src_Ref src +:+ ": ") (query (λ w, GetReverseEvent (src_Ref src) (tables w)));
      mret (is_final existing));
    if (final : bool) then mret tt
    else
      mapping ← mwrap ("lookup reverse identity mapping " +:+ src_Author src +:+ ": ")
        (query (λ w, GetReverseIdentityMapping (src_Author src) (tables w)));
      match mapping with
      | None => mret tt
      | Some mapping =>
          if negb (Active mapping) then mret tt
          else match decodeSSBContent (src_Raw src) with
          | Ok content => mirror src mapping content
          | Err err =>
              mwrap ("persist reverse decode failure " +:+ src_Ref src +:+ ": ")
                (persistReverseEvent (failed ("decode_ssb_json=" +:+ err) (baseReverseEvent src (map_ATDID mapping) "")))
          | Panic => mlift Panic
          end
      end.
Definition int64Ptr (v : Z) : option Z := if bool_decide (v <= 0) then None else Some v.
(** The source of a message of the receive log. *)
Definition stored_source (receiveLogSeq : Z) (msg : StoredMessage) : source :=
  let md := sm_Metadata msg in
  {| src_ReceiveLogSeq := receiveLogSeq;
     src_Ref := if blank (md_Hash md) then TrimSpace (sm_Key msg) else TrimSpace (md_Hash md);
     src_Author := TrimSpace (md_Author md); src_Seq := int64Ptr (md_Sequence md); src_Raw := Value msg |}.
Definition processStoredMessage (receiveLogSeq : Z) (msg : StoredMessage) (force : bool) : M unit :=
  processDecodedMessage (stored_source receiveLogSeq msg) force.
Definition RetryEvent (sourceSSBMsgRef : string) : M unit :=
  let ref := TrimSpace sourceSSBMsgRef in
  if bool_decide (ref = "") then mfail "source SSB msg ref is required"
  else
    event ← query (λ w, GetReverseEvent ref (tables w));
    match event with
    | None => mfail ("reverse event " +:+ ref +:+ " not found")
    | Some e =>
        if bool_decide (EventState e = ReverseEventStatePublished) || bool_decide (EventState e = ReverseEventStateSkipped)
        then mfail ("reverse event " +:+ ref +:+ " is not retryable")
        else
          db_ResetReverseEventForRetry ref;;
          processDecodedMessage {| src_ReceiveLogSeq := ReceiveLogSeq e; src_Ref := SourceSSBMsgRef e; src_Author := SourceSSBAuthor e;
            src_Seq := SourceSSBSeq e; src_Raw := to_l (RawSSBJSON e) |} true
    end.

(** ** Batches *)
Definition process_seq (seq : Z) : M unit :=
  msg ← mwrap ("reverse receive log get seq " +:+ itoa seq +:+ ": ") (λ w, (receive_Get seq (logs w), w));
  processStoredMessage seq msg false;;
  mwrap ("persist reverse receive log seq " +:+ itoa seq +:+ ": ") (db_SetBridgeState reverseReceiveLogSeqKey (itoa seq)).
(** The loop: [n] messages are left of the batch. The number of messages processed
    is returned along with the error that stopped it. *)
Fixpoint process_seqs (n : nat) (seq currentSeq processed : Z) : M (Z * option string) :=
  match n with
  | O => mret (processed, None)
  | S n =>
      if bool_decide (seq <= currentSeq) then
        r ← mtry (process_seq seq);
        match r with
        | Ok _ => process_seqs n (int64 (seq + 1)) currentSeq (processed + 1)
        | Err e => mret (processed, Some e)
        | Panic => mlift Panic
        end
      else mret (processed, None)
  end.
Definition ProcessBatch (batchSize : Z) : M (Z * option string) :=
  let batchSize := if bool_decide (batchSize <= 0) then defaultReverseScanLimit else batchSize in
  w ← mget;
  match receive_Seq (logs w) with
  | Err e => mret (0, Some ("reverse receive log seq: " +:+ e))
  | Panic => mlift Panic
  | Ok currentSeq =>
      if bool_decide (currentSeq < 1) then mret (0, None)
      else
        last ← mtry readLastProcessedSeq;
        match last with
        | Ok lastSeq => process_seqs (Z.to_nat batchSize) (int64 (lastSeq + 1)) currentSeq 0
        | Err e => mret (0, Some e)
        | Panic => mlift Panic
        end
  end.
(** One tick of [Run]: its own bookkeeping is best effort. *)
Definition runOnce (batchSize : Z) : M unit :=
  p ← ProcessBatch (if bool_decide (batchSize <= 0) then defaultReverseScanLimit else batchSize);
  t ← now;
  mtry (db_SetBridgeState reverseLastScanAtKey (env_RFC3339 env t));;
  mtry (db_SetBridgeState reverseLastErrorKey (default "" p.2));;
  mret tt.
End Processor.
