(* ===== verification/MemberIngest.v ===== *)
(** * The ingest of room members (cmd/bridge-cli/room_member_ingest.go)

    For every peer that announces itself in the room the bridge opens a tunnel to
    it, asks for the history of its feed and writes the frames it sends to the logs
    that replication serves and the reverse sync reads. *)
From S2P Require Import Prelude GoStr GoBytes Refs Crypto Formats ReverseSync Legacy Feedlog FeedManager.
#[local] Open Scope string_scope.
#[local] Open Scope list_scope.
#[local] Open Scope Z_scope.

Definition errRoomHistoryFrameNonClassic : string := "non-classic history frame".

Record roomHistorySignedValue := { v_Previous : option string; v_Author : string; v_Sequence : Z; v_Timestamp : Z;
  v_Hash : string; v_Content : bytes; v_Signature : string }.
Record roomHistoryEnvelope := { env_Key : string; env_Value : roomHistorySignedValue }.
(** [json.Unmarshal] of a frame into an envelope and into a bare message. *)
Record HistoryJSON := { decode_envelope : bytes → result roomHistoryEnvelope; decode_direct : bytes → result roomHistorySignedValue }.

Definition roomHistoryValueLooksClassic (v : roomHistorySignedValue) : bool :=
  negb (blank (v_Author v)) || negb (blank (v_Signature v)) || negb (bool_decide (v_Sequence v = 0)) ||
  negb (bool_decide (v_Timestamp v = 0)) || negb (blank (v_Hash v)) || bool_decide (is_Some (v_Previous v)) ||
  bool_decide (0 < length (trim (v_Content v)))%nat.

Section Frames.
Context {js : JSON} {ed : Ed25519} {sh : Sha256} (hj : HistoryJSON).

Definition decodeRoomHistoryEnvelope (payload : bytes) : result roomHistoryEnvelope :=
  env ← wrap "decode history envelope: " (decode_envelope hj payload);
  if roomHistoryValueLooksClassic (env_Value env) || negb (blank (env_Key env)) then mret env
  else
    direct ← wrap "decode direct history message: " (decode_direct hj payload);
    if roomHistoryValueLooksClassic direct then mret {| env_Key := ""; env_Value := direct |}
    else Err errRoomHistoryFrameNonClassic.

Definition roomHistoryRawSignedMessage (env : roomHistoryEnvelope) (sig : bytes) : result bytes :=
  let v := env_Value env in
  author ← wrap "parse author: " (ParseFeedRef (TrimSpace (v_Author v)));
  previous ← match v_Previous v with
    | Some p => if blank p then Ok None else r ← wrap "parse previous: " (ParseMessageRef (TrimSpace p)); Ok (Some r)
    | None => Ok None end;
  let contentBytes := trim (v_Content v) in
  let c := match json_Unmarshal contentBytes with Some c => c | None => content_of_string contentBytes end in
  let hash := TrimSpace (v_Hash v) in
  marshalWithSignature {| Previous := previous; Author := author; Sequence := v_Sequence v; Timestamp := v_Timestamp v;
    Hash := if bool_decide (hash = "") then HashAlgorithm else hash; content := c |} sig.

Definition history_metadata (env : roomHistoryEnvelope) (author : string) (sig : bytes) : Metadata :=
  let v := env_Value env in
  {| md_Author := author; md_Sequence := v_Sequence v; md_Previous := default "" (TrimSpace <$> v_Previous v);
     md_Timestamp := v_Timestamp v; md_Sig := sig; md_Hash := TrimSpace (env_Key env); md_TangleName := ""; md_Root := "";
     md_Parents := []; md_FeedFormat := ""; md_MessageFormat := ""; md_RawValue := []; md_CanonicalRef := ""; md_ValidationStatus := "" |}.
Definition with_hash (h : string) (md : Metadata) : Metadata :=
  {| md_Author := md_Author md; md_Sequence := md_Sequence md; md_Previous := md_Previous md; md_Timestamp := md_Timestamp md;
     md_Sig := md_Sig md; md_Hash := h; md_TangleName := md_TangleName md; md_Root := md_Root md; md_Parents := md_Parents md;
     md_FeedFormat := md_FeedFormat md; md_MessageFormat := md_MessageFormat md; md_RawValue := md_RawValue md;
     md_CanonicalRef := md_CanonicalRef md; md_ValidationStatus := md_ValidationStatus md |}.

(** The databases of the node, and the feeds it was told to replicate with the
    sequence numbers it was told of. *)
Definition IngestWorld : Type := DB * list (FeedRef * Z).
#[local] Abbreviation M := (M IngestWorld).
Context (row_hash : bytes * Metadata → string) (sigVerifier : option (bytes → Metadata → result unit)) (now : Z).

Definition Replicate_Notify (f : FeedRef) (seq : Z) : M unit := mmodify (λ w, (w.1, w.2 ++ [(f, seq)])).
(** The hash of the metadata, derived from the message when the frame has no key. *)
Definition derive_hash (author : string) (rawSigned : bytes) (md : Metadata) : result Metadata :=
  if bool_decide (md_Hash md = "") then
    msgRef ← wrap ("derive message ref for " +:+ author +:+ ": ") (SignedMessageRefFromJSON rawSigned);
    mret (with_hash (message_string msgRef) md)
  else mret md.
(** The message into the log of its author, and then into the receive log. *)
Definition append_history (env : roomHistoryEnvelope) (sig : bytes) (author : string) (log : Z) : M unit :=
  let metadata := history_metadata env author sig in
  _ ← mwrap ("append feed log for " +:+ author +:+ ": ")
        (on_fst (Append row_hash log (trim (v_Content (env_Value env))) (Some metadata) now));
  rawSigned ← mlift (wrap ("rebuild signed message for " +:+ author +:+ ": ") (roomHistoryRawSignedMessage env sig));
  metadata ← mlift (derive_hash author rawSigned metadata);
  _ ← mwrap ("append receive log for " +:+ author +:+ ": ")
        (on_fst (receive_Append row_hash sigVerifier rawSigned (Some metadata) now));
  match ParseFeedRef author with
  | Ok parsedFeed => Replicate_Notify parsedFeed (v_Sequence (env_Value env))
  | _ => mret tt
  end.
Definition ingestHistoryFrame (payload : bytes) : M unit :=
  env ← mlift (decodeRoomHistoryEnvelope payload);
  sig ← mlift (wrap "parse signature: " (ParseSignatureString (TrimSpace (v_Signature (env_Value env)))));
  let author := TrimSpace (v_Author (env_Value env)) in
  if bool_decide (author = "") then mfail "history message missing author"
  else
    log ← on_fst (open_log author);
    w ← mget;
    currentSeq ← mlift (wrap ("read feed seq for " +:+ author +:+ ": ") (Seq log w.1));
    if bool_decide (v_Sequence (env_Value env) <= currentSeq) then mret tt
    else if bool_decide (currentSeq >= 0) && negb (bool_decide (v_Sequence (env_Value env) = currentSeq + 1))
    then mfail ("history sequence gap for " +:+ author +:+ ": have=" +:+ itoa currentSeq +:+ " got=" +:+ itoa (v_Sequence (env_Value env)))
    else append_history env sig author log.

(** Where a history is resumed. *)
Definition lastKnownSeq (author : string) (db : DB) : result Z :=
  match Get author db with
  | Ok log => seq ← Seq log db; mret (if bool_decide (seq < 0) then 0 else seq)
  | Err e => if bool_decide (e = ErrNotFound) then Ok 0 else Err ("get feed log for " +:+ author +:+ ": " +:+ e)
  | Panic => Panic
  end.
(** The frames of a stream, until one fails; frames that are no classic messages
    are skipped. *)
Fixpoint ingest_frames (target : string) (frames : list bytes) : M unit :=
  match frames with
  | [] => mret tt
  | payload :: frames =>
      r ← mtry (ingestHistoryFrame payload);
      match r with
      | Err e => if bool_decide (e = errRoomHistoryFrameNonClassic) then ingest_frames target frames
                 else mfail ("ingest history frame for " +:+ target +:+ ": " +:+ e)
      | Panic => mlift Panic
      | Ok _ => ingest_frames target frames
      end
  end.
End Frames.

(** ** The sessions, one for each announced feed *)
Section Manager.
Record Manager := { started : bool; sessions : gset string }.
(** The feed of the node, the feed of the room, the accounts when they are listed:
    their feed and whether they are active. *)
Context (nodeFeed roomFeed : FeedRef) (accounts : option (result (list (string * bool)))).
Definition zero_feed : FeedRef := {| f_algo := ""; f_id := [] |}.
Definition account_feed (feed : FeedRef) (a : string * bool) : bool :=
  a.2 && match ParseFeedRef (TrimSpace a.1) with Ok f => feed_Equal f feed | _ => false end.
Definition shouldIgnoreFeed (feed : FeedRef) : bool :=
  bool_decide (feed = zero_feed) || feed_Equal feed nodeFeed || feed_Equal feed roomFeed ||
  match accounts with Some (Ok l) => existsb (account_feed feed) l | _ => false end.
Definition ensureSession (feed : FeedRef) (m : Manager) : Manager :=
  if negb (started m) then m
  else if bool_decide (feed_string feed ∈ sessions m) then m
  else {| started := true; sessions := {[feed_string feed]} ∪ sessions m |}.
Definition Announce (feed : FeedRef) (m : Manager) : Manager := if shouldIgnoreFeed feed then m else ensureSession feed m.
Definition Start (m : Manager) : Manager := if started m then m else {| started := true; sessions := sessions m |}.
Definition Stop (m : Manager) : Manager := if started m then {| started := false; sessions := ∅ |} else m.
End Manager.

(** ** The pieces of an ingested message *)
Lemma first_set_blank s l : blank s = true → first_set (s :: l) = first_set l.
Proof. intros H. unfold first_set. rewrite list.filter_cons_False by by rewrite H. done. Qed.
(** A message whose key names another format is never verified. *)
Lemma foreign_unverified verifier content md : blank (md_MessageFormat md) = true →
  blank (MessageFromString (md_Hash md)) = false → MessageFromString (md_Hash md) ≠ MessageSHA256 →
  receive_check verifier content (normalizeMetadata content (Some md) true) = Ok tt.
Proof.
  intros Hb Hf Hne. unfold receive_check. destruct verifier; [|done]. rewrite bool_decide_eq_false_2; [done|].
  unfold normalizeMetadata. cbn [with_formats md_MessageFormat default id]. rewrite first_set_blank, first_set_cons by done. done.
Qed.
(** What the reverse sync takes from a row of the receive log. *)
Lemma source_of_row row_hash content md now k : blank (md_Hash md) = false →
  let nm := normalizeMetadata content (Some md) true in
  stored_source k (stored_message (new_row row_hash (content, metadataForValueJSON nm) now nm) true) =
    {| src_ReceiveLogSeq := k; src_Ref := TrimSpace (md_Hash md); src_Author := TrimSpace (md_Author md);
       src_Seq := int64Ptr (md_Sequence md); src_Raw := content |}.
Proof. intros Hb nm. unfold stored_source, stored_message. cbn. by rewrite Hb. Qed.

Section Ingested.
Context {js : JSON} {ed : Ed25519} {sh : Sha256} (hj : HistoryJSON).
Context (row_hash : bytes * Metadata → string) (sigVerifier : option (bytes → Metadata → result unit)) (now : Z).
#[local] Notation ingest := (ingestHistoryFrame hj row_hash sigVerifier now).

(** What a frame does, in the cases of the code. *)
Lemma ingest_cases payload env sig n db calls :
  decodeRoomHistoryEnvelope hj payload = Ok env → ParseSignatureString (TrimSpace (v_Signature (env_Value env))) = Ok sig →
  let author := TrimSpace (v_Author (env_Value env)) in let s := v_Sequence (env_Value env) in
  author ≠ "" → db_ok db → contiguous n (feed_rows author db) →
  let current := if decide (n = 0%nat) then -1 else Z.of_nat n in
  ∃ id db1, db_ok db1 ∧ feed_id author (feeds db1) = Some id ∧ rows_of id db1 = feed_rows author db ∧ receive_log db1 = receive_log db ∧
    (∀ a, a ≠ author → feed_rows a db1 = feed_rows a db) ∧
    ingest payload (db, calls) =
      if decide (s <= current) then (Ok tt, (db1, calls))
      else if decide (n ≠ 0%nat ∧ s ≠ current + 1)
      then (Err ("history sequence gap for " +:+ author +:+ ": have=" +:+ itoa current +:+ " got=" +:+ itoa s), (db1, calls))
      else append_history row_hash sigVerifier now env sig author id (db1, calls).
Proof.
  intros Henv Hsig author s Ha Hok Hn current.
  destruct (opened author db Hok) as (id & db1 & m & Eo & Hok1 & Hid & Hm & Hrid & Hrows & Hother & Hrl & _).
  exists id, db1. split_and!; try done. unfold ingestHistoryFrame, mbind, M_mbind, mlift, mget, on_fst. rewrite Henv.
  cbv beta iota. rewrite Hsig. cbn [wrap]. cbv zeta. fold author s. rewrite bool_decide_eq_false_2 by done. cbn [fst snd]. rewrite Eo. cbn [fst snd].
  unfold Seq. rewrite Hrid, (max_seq_contiguous n) by done.
  assert (default (-1) (if decide (n = 0%nat) then None else Some (Z.of_nat n)) = current) as ->.
  { unfold current. by destruct (decide (n = 0%nat)). }
  cbn [wrap]. destruct (decide (s <= current)); [by rewrite bool_decide_eq_true_2|]. rewrite (bool_decide_eq_false_2 (s <= current)) by done.
  assert (bool_decide (current >= 0) && negb (bool_decide (s = current + 1)) = bool_decide (n ≠ 0%nat ∧ s ≠ current + 1)) as ->.
  { unfold current. destruct (decide (n = 0%nat)); repeat case_bool_decide; naive_solver lia. }
  destruct (decide (n ≠ 0%nat ∧ s ≠ current + 1)); [by rewrite bool_decide_eq_true_2|by rewrite bool_decide_eq_false_2].
Qed.

(** A message that is appended: its row in the log of the author, whatever comes
    after, and the result. *)
Lemma append_history_row env sig author id n db calls : db_ok db → feed_id author (feeds db) = Some id → contiguous n (rows_of id db) →
  let content := trim (v_Content (env_Value env)) in
  let md := normalizeMetadata content (Some (history_metadata env author sig)) false in
  ∃ r db' calls', append_history row_hash sigVerifier now env sig author id (db, calls) = (r, (db', calls')) ∧ db_ok db' ∧
    feed_rows author db' = <[Z.of_nat n + 1 := new_row row_hash (content, metadataForValueJSON md) now md]> (rows_of id db) ∧
    (∀ a, a ≠ author → feed_rows a db' = feed_rows a db).
Proof.
  intros Hok Hid Hn content md.
  destruct (append_spec row_hash id n content (Some (history_metadata env author sig)) now db Hok Hn (feed_id_bound _ _ _ Hok Hid))
    as (db2 & Ea & Hok2 & Hf2 & Hr2 & Hrow2 & Hother2).
  assert (∀ db', db_ok db' → feeds db' = feeds db2 → messages db' = messages db2 → db_ok db' ∧
    feed_rows author db' = <[Z.of_nat n + 1 := new_row row_hash (content, metadataForValueJSON md) now md]> (rows_of id db) ∧
    (∀ a, a ≠ author → feed_rows a db' = feed_rows a db)) as Hdone.
  { intros db' Hok' Hf Hm. split_and!; [done| |].
    - unfold feed_rows. rewrite Hf, Hf2, Hid. unfold rows_of. rewrite Hm. exact Hrow2.
    - intros a Ha. unfold feed_rows. rewrite Hf, Hf2. destruct (feed_id a (feeds db)) as [id'|] eqn:E; [|done].
      unfold rows_of at 1. rewrite Hm. apply Hother2. intros ->. by apply Ha, (feed_id_inj _ _ id _ Hok). }
  unfold append_history, mbind, M_mbind, mlift, mwrap, on_fst. fold content. cbn [fst snd]. rewrite Ea. cbn [wrap fst snd].
  destruct (wrap _ (roomHistoryRawSignedMessage env sig)) as [raw|e|]; [|by eexists _, db2, calls; split; [reflexivity|apply Hdone]..].
  destruct (derive_hash author raw (history_metadata env author sig)) as [md'|e|];
    [|by eexists _, db2, calls; split; [reflexivity|apply Hdone]..].
  destruct (receive_append_spec row_hash sigVerifier raw md' now db2 Hok2) as (db3 & Er & Hok3 & Hf3 & Hm3). cbn [fst snd]. rewrite Er.
  destruct (receive_check _ _ _) as [u|e|]; cbn [wrap fst snd]; [|by eexists _, db3, calls; split; [reflexivity|apply Hdone]..].
  destruct (ParseFeedRef author); (eexists _, db3, _; split; [reflexivity|by apply Hdone]).
Qed.
End Ingested.

(** ** Properties *)
Section Properties.
Context {js : JSON} {ed : Ed25519} {sh : Sha256} (hj : HistoryJSON).
Context (row_hash : bytes * Metadata → string) (sigVerifier : option (bytes → Metadata → result unit)) (now : Z).
#[local] Notation ingest := (ingestHistoryFrame hj row_hash sigVerifier now).

Lemma next_free n rows : contiguous n rows → rows !! (Z.of_nat n + 1) = None.
Proof. intros Hn. apply eq_None_not_Some. rewrite (Hn _). lia. Qed.
(** What one frame adds. *)
Lemma frame_step payload db calls r db' calls' : db_ok db → ingest payload (db, calls) = (r, (db', calls')) →
  db_ok db' ∧ ∀ a, feed_rows a db' = feed_rows a db ∨
    ∃ env n row, decodeRoomHistoryEnvelope hj payload = Ok env ∧ a = TrimSpace (v_Author (env_Value env)) ∧
      contiguous n (feed_rows a db) ∧ feed_rows a db' = <[Z.of_nat n + 1 := row]> (feed_rows a db) ∧
      (n ≠ 0%nat → v_Sequence (env_Value env) = Z.of_nat n + 1) ∧ md_Sequence (row_value row).2 = v_Sequence (env_Value env).
Proof.
  intros Hok Hi.
  destruct (decodeRoomHistoryEnvelope hj payload) as [env|e|] eqn:Henv.
  2,3: unfold ingestHistoryFrame, mbind, M_mbind, mlift in Hi; rewrite Henv in Hi; injection Hi as _ <- _; split; [done|by left].
  destruct (ParseSignatureString (TrimSpace (v_Signature (env_Value env)))) as [sig|e|] eqn:Hsig.
  2,3: unfold ingestHistoryFrame, mbind, M_mbind, mlift in Hi; rewrite Henv in Hi; cbv beta iota in Hi; rewrite Hsig in Hi;
    injection Hi as _ <- _; split; [done|by left].
  set (author := TrimSpace (v_Author (env_Value env))).
  destruct (decide (author = "")) as [Ha|Ha].
  { unfold ingestHistoryFrame, mbind, M_mbind, mlift in Hi. rewrite Henv in Hi. cbv beta iota in Hi. rewrite Hsig in Hi. cbn [wrap] in Hi.
    cbv zeta in Hi. fold author in Hi. rewrite bool_decide_eq_true_2 in Hi by done. injection Hi as _ <- _. split; [done|by left]. }
  destruct (opened author db Hok) as (id0 & ? & n & _ & _ & _ & Hn & _).
  destruct (ingest_cases hj row_hash sigVerifier now payload env sig n db calls Henv Hsig Ha Hok Hn)
    as (id & db1 & Hok1 & Hid & Hrid & _ & Hother & Hr). rewrite Hr in Hi. clear Hr.
  assert (∀ a, feed_rows a db1 = feed_rows a db) as Hrows1.
  { intros a. destruct (decide (a = author)) as [->|]; [|by apply Hother]. fold author in Hid, Hrid. unfold feed_rows at 1. by rewrite Hid. }
  destruct (decide (v_Sequence _ <= _)); [injection Hi as _ <- _; split; [done|by left]|].
  destruct (decide (n ≠ 0%nat ∧ _)) as [|Hgap]; [injection Hi as _ <- _; split; [done|by left]|].
  fold author in Hi, Hid, Hrid. rewrite <-Hrid in Hn.
  destruct (append_history_row row_hash sigVerifier now env sig author id n db1 calls Hok1 Hid Hn) as (r2 & db2 & calls2 & Ha2 & Hok2 & Hrow & Hoth).
  rewrite Ha2 in Hi. injection Hi as _ <- _. split; [done|]. intros a. destruct (decide (a = author)) as [->|Hne].
  - right. rewrite Hrid in Hn, Hrow. eexists env, n, _. split_and!; try done. intros Hn0. revert Hgap. rewrite decide_False by done.
    destruct (decide (v_Sequence (env_Value env) = Z.of_nat n + 1)); [done|]. intros []. done.
  - left. by rewrite Hoth, Hrows1.
Qed.
(** A frame that is out of turn adds nothing: an old one is passed over, one from the
    future is an error. *)
Lemma frame_out_of_turn payload env sig n db calls :
  decodeRoomHistoryEnvelope hj payload = Ok env → ParseSignatureString (TrimSpace (v_Signature (env_Value env))) = Ok sig →
  let author := TrimSpace (v_Author (env_Value env)) in let s := v_Sequence (env_Value env) in
  author ≠ "" → db_ok db → contiguous n (feed_rows author db) → n ≠ 0%nat → s ≠ Z.of_nat n + 1 →
  ∃ db', ingest payload (db, calls) =
      (if decide (s <= Z.of_nat n) then Ok tt
       else Err ("history sequence gap for " +:+ author +:+ ": have=" +:+ itoa (Z.of_nat n) +:+ " got=" +:+ itoa s), (db', calls)) ∧
    ∀ a, feed_rows a db' = feed_rows a db.
Proof.
  intros Henv Hsig author s Ha Hok Hn Hn0 Hs.
  destruct (ingest_cases hj row_hash sigVerifier now payload env sig n db calls Henv Hsig Ha Hok Hn)
    as (id & db1 & Hok1 & Hid & Hrid & _ & Hother & ->). rewrite (decide_False (P := n = 0%nat)) by done.
  exists db1. split; [by destruct (decide _); [|rewrite decide_True by done]|].
  intros a. destruct (decide (a = author)) as [->|]; [|by apply Hother]. fold author in Hid, Hrid. unfold feed_rows at 1. by rewrite Hid.
Qed.

(** From the second row on, the row of a log is the number its message claims. *)
Definition numbered (db : DB) : Prop :=
  ∀ a k row, feed_rows a db !! k = Some row → k ≠ 1 → md_Sequence (row_value row).2 = k.
Definition extends (db db' : DB) : Prop := db_ok db' ∧ numbered db' ∧ ∀ a, feed_rows a db ⊆ feed_rows a db'.
Lemma step_extends payload db calls : db_ok db → numbered db → extends db (ingest payload (db, calls)).2.1.
Proof.
  intros Hok Hnum. destruct (ingest payload (db, calls)) as [r [db' calls']] eqn:Hi.
  apply frame_step in Hi as [Hok' Hrows]; [|done]. split; [done|]. cbn [fst snd].
  assert (∀ a, feed_rows a db ⊆ feed_rows a db' ∧ ∀ k row, feed_rows a db' !! k = Some row → k ≠ 1 → md_Sequence (row_value row).2 = k) as Hall.
  { intros a. destruct (Hrows a) as [->|(env & n & row & _ & _ & Hn & -> & Hs & Hrow)]; [by split; [|apply Hnum]|].
    split; [apply insert_subseteq, (next_free n), Hn|]. intros k row' [[<- <-]|[_ Hk]]%lookup_insert_Some Hne; [|by eapply Hnum].
    rewrite Hrow. apply Hs. lia. }
  split; [intros a|intros a]; apply Hall.
Qed.

Lemma ingest_frames_extends target frames db calls : db_ok db → numbered db →
  extends db (ingest_frames hj row_hash sigVerifier now target frames (db, calls)).2.1.
Proof.
  revert db calls. induction frames as [|payload frames IH]; intros db calls Hok Hnum; [done|]. cbn [ingest_frames].
  pose proof (step_extends payload db calls Hok Hnum) as (Hok1 & Hnum1 & Hsub1).
  unfold mbind, M_mbind, mtry. destruct (ingest payload (db, calls)) as [r [db1 calls1]]. cbn [fst snd] in *.
  destruct (IH db1 calls1 Hok1 Hnum1) as (Hok2 & Hnum2 & Hsub2).
  assert (extends db (ingest_frames hj row_hash sigVerifier now target frames (db1, calls1)).2.1) as Hext.
  { split_and!; [done|done|]. intros a. etrans; [apply Hsub1|apply Hsub2]. }
  destruct r as [[]|e|]; [done| |done]. by destruct (bool_decide _).
Qed.

(** C18. Whatever a peer sends over one or many history streams, the logs stay numbered:
    a message is added only as the row of its own number - with one exception, the
    first row of a log, which takes a message of any number - and the rows that are there
    stay. In a log with messages, a frame with another number than the next adds nothing:
    an old number is passed over and the stream goes on, a later one is an error. *)
Theorem ingest_keeps_logs streams db calls : db_ok db → numbered db →
  let db' := (foldl (λ w s, (ingest_frames hj row_hash sigVerifier now s.1 s.2 w).2) (db, calls) streams).1 in
  db_ok db' ∧ numbered db' ∧ (∀ a, feed_rows a db ⊆ feed_rows a db') ∧
  ∀ payload env sig n calls', decodeRoomHistoryEnvelope hj payload = Ok env →
    ParseSignatureString (TrimSpace (v_Signature (env_Value env))) = Ok sig →
    let author := TrimSpace (v_Author (env_Value env)) in let s := v_Sequence (env_Value env) in
    author ≠ "" → contiguous n (feed_rows author db') → n ≠ 0%nat → s ≠ Z.of_nat n + 1 →
    ∃ db'', ingest payload (db', calls') =
        (if decide (s <= Z.of_nat n) then Ok tt
         else Err ("history sequence gap for " +:+ author +:+ ": have=" +:+ itoa (Z.of_nat n) +:+ " got=" +:+ itoa s), (db'', calls')) ∧
      ∀ a, feed_rows a db'' = feed_rows a db'.
Proof.
  intros Hok Hnum db'. assert (extends db db') as (Hok' & Hnum' & Hsub).
  { unfold db'. clear db'. revert db calls Hok Hnum. induction streams as [|[target frames] streams IH]; intros db calls Hok Hnum; [done|].
    cbn [foldl fst snd]. destruct (ingest_frames_extends target frames db calls Hok Hnum) as (Hok1 & Hnum1 & Hsub1).
    destruct (ingest_frames hj row_hash sigVerifier now target frames (db, calls)) as [r [db1 calls1]]. cbn [snd fst] in *.
    destruct (IH db1 calls1 Hok1 Hnum1) as (? & ? & Hsub2). split_and!; [done|done|]. intros a. etrans; [apply Hsub1|apply Hsub2]. }
  split_and!; [done..|]. intros payload env sig n calls' Henv Hsig author s Ha Hn Hn0 Hs. by apply (frame_out_of_turn payload env sig n).
Qed.

(** C2. A peer of the room can post as anyone. It sends a message in the name of any
    feed, with any signature of the right length, under a key that names another
    message format: the signature is never verified, the message is in the receive
    log, and the reverse sync takes it for a message of that feed. *)
Theorem forged_history_is_accepted payload env sig raw f n db calls :
  let author := TrimSpace (v_Author (env_Value env)) in let key := TrimSpace (env_Key env) in
  decodeRoomHistoryEnvelope hj payload = Ok env → ParseSignatureString (TrimSpace (v_Signature (env_Value env))) = Ok sig →
  ParseFeedRef author = Ok f → roomHistoryRawSignedMessage env sig = Ok raw →
  blank (MessageFromString key) = false → MessageFromString key ≠ MessageSHA256 →
  db_ok db → contiguous n (feed_rows author db) → v_Sequence (env_Value env) = Z.of_nat n + 1 →
  let k := next_seq (receive_log db) in
  ∃ db' msg, ingest payload (db, calls) = (Ok tt, (db', calls ++ [(f, Z.of_nat n + 1)])) ∧ receive_Get k db' = Ok msg ∧
    stored_source k msg = {| src_ReceiveLogSeq := k; src_Ref := key; src_Author := author; src_Seq := Some (Z.of_nat n + 1); src_Raw := raw |}.
Proof.
  intros author key Henv Hsig Hf Hraw Hb Hne Hok Hn Hs k.
  assert (author ≠ "") as Ha by (intros Ha; by rewrite Ha in Hf).
  destruct (ingest_cases hj row_hash sigVerifier now payload env sig n db calls Henv Hsig Ha Hok Hn)
    as (id & db1 & Hok1 & Hid & Hrid & Hrl & Hother & Hr). rewrite Hr. clear Hr.
  rewrite decide_False by (rewrite Hs; destruct (decide (n = 0%nat)); lia).
  rewrite decide_False by (rewrite Hs; destruct (decide (n = 0%nat)); lia). fold author. fold author in Hid, Hrid. rewrite <-Hrid in Hn.
  set (md := history_metadata env author sig).
  destruct (append_spec row_hash id n (trim (v_Content (env_Value env))) (Some md) now db1 Hok1 Hn (feed_id_bound _ _ _ Hok1 Hid))
    as (db2 & Ea & Hok2 & Hf2 & Hr2 & _).
  assert (key ≠ "") as Hk by (intros Hk; by rewrite Hk in Hb).
  assert (blank key = false) as Hbk by (unfold blank; rewrite bool_decide_eq_false; unfold key; by rewrite TrimSpace_idemp).
  unfold append_history, mbind, M_mbind, mlift, mwrap, on_fst. fold md. cbn [fst snd]. rewrite Ea. cbn [wrap fst snd]. rewrite Hraw. cbn [wrap].
  unfold derive_hash. rewrite bool_decide_eq_false_2 by done. cbn [mret result_mret].
  unfold receive_Append. rewrite foreign_unverified by done. cbn [wrap fst snd]. rewrite Hf, Hs.
  eexists _, _. split; [reflexivity|]. unfold receive_Get. cbn [fst receive_log]. rewrite Hr2, Hrl. fold k.
  rewrite lookup_insert_eq. split; [reflexivity|]. rewrite source_of_row by done. unfold md. cbn [history_metadata md_Hash md_Author md_Sequence].
  fold key. fold author. unfold key, author. rewrite !TrimSpace_idemp, Hs. unfold int64Ptr. by rewrite bool_decide_eq_false_2 by lia.
Qed.

(** The first message of a log may have any number; it becomes the first row. *)
Theorem first_message_any_number payload env sig db calls :
  let author := TrimSpace (v_Author (env_Value env)) in
  decodeRoomHistoryEnvelope hj payload = Ok env → ParseSignatureString (TrimSpace (v_Signature (env_Value env))) = Ok sig →
  author ≠ "" → db_ok db → feed_rows author db = ∅ → 0 <= v_Sequence (env_Value env) →
  ∃ r db' calls' row, ingest payload (db, calls) = (r, (db', calls')) ∧ feed_rows author db' = {[1 := row]} ∧
    md_Sequence (row_value row).2 = v_Sequence (env_Value env).
Proof.
  intros author Henv Hsig Ha Hok Hempty Hs. assert (contiguous 0 (feed_rows author db)) as Hn by by apply contiguous_zero.
  destruct (ingest_cases hj row_hash sigVerifier now payload env sig 0 db calls Henv Hsig Ha Hok Hn)
    as (id & db1 & Hok1 & Hid & Hrid & _ & _ & Hr). rewrite Hr. clear Hr. rewrite decide_False by (simpl; lia).
  rewrite decide_False by naive_solver. fold author. fold author in Hid, Hrid. rewrite <-Hrid in Hn.
  destruct (append_history_row row_hash sigVerifier now env sig author id 0 db1 calls Hok1 Hid Hn) as (r & db2 & calls2 & Ha2 & _ & Hrow & _).
  eexists r, db2, calls2, _. split; [done|]. split; [rewrite Hrow, Hrid, Hempty; reflexivity|done].
Qed.
End Properties.
