(* ===== verification/ReverseProofs.v ===== *)
(** * Properties of the reverse sync

    What reaches the account's server, what is recorded about it, and how the
    batches advance. *)
From S2P Require Import Prelude GoStr GoBytes Refs Crypto Legacy Feedlog MessageDB ReverseText ReverseDB ReverseSync.
#[local] Open Scope string_scope.
#[local] Open Scope list_scope.
#[local] Open Scope Z_scope.

(** What the mapping of a feed permits. The profile of the account is behind no
    permission: an active mapping is enough. *)
Definition permitted (m : ReverseIdentityMapping) (r : record) : bool :=
  match r with
  | RPost p => match Reply p with Some _ => AllowReplies m | None => AllowPosts m end
  | RRepost _ _ | RLike _ _ => AllowPosts m
  | RFollow _ _ => AllowFollows m
  | RProfile _ => true
  end.
Definition collection_of (r : record) : string :=
  match r with RPost _ => RecordTypePost | RRepost _ _ => RecordTypeRepost | RLike _ _ => RecordTypeLike
  | RProfile _ => RecordTypeProfile | RFollow _ _ => RecordTypeFollow end.
Definition call_permitted (m : ReverseIdentityMapping) (c : pds_call) : Prop :=
  let did := TrimSpace (map_ATDID m) in
  match c with
  | CNewSession cred => cred_DID cred = did
  | CUploadBlob d _ _ => d = did
  | CCreateRecord d collection r => d = did ∧ collection = collection_of r ∧ permitted m r = true
  | CDeleteRecord d _ => d = did ∧ AllowFollows m = true
  end.
(** A row of the event table. *)
Record row_ok (ref : string) (e : ReverseEvent) : Prop := {
  row_ref : SourceSSBMsgRef e = ref;
  row_action : blank (Action e) = false;
  row_state : EventState e ∈ [ReverseEventStatePending; ReverseEventStatePublished; ReverseEventStateFailed;
    ReverseEventStateDeferred; ReverseEventStateSkipped];
  row_published : EventState e = ReverseEventStatePublished → is_Some (ev_PublishedAt e) ∧ ErrorText e = "" ∧ 1 <= Attempts e;
  row_reason : EventState e ∈ [ReverseEventStateDeferred; ReverseEventStateSkipped] → ev_DeferReason e ≠ "";
  row_attempts : 0 <= Attempts e
}.
Definition rows_ok (t : ReverseTables) : Prop := map_Forall row_ok (events t).

(** ** The cursor as a decimal *)
Lemma digit_small c : is_digit c = true → ws1 c = false ∧ ord c < 128.
Proof. unfold is_digit, ws1. intros Hc%bool_decide_eq_true. split; [apply bool_decide_eq_false_2; lia|lia]. Qed.
Lemma digits_no_space l : Forall (λ c, is_digit c = true) l → starts_ws l = false ∧ starts_ws_rev l = false.
Proof.
  intros [|c l' Hc _]; [done|]. apply digit_small in Hc as [Hw Ho]. cbn [starts_ws starts_ws_rev]. rewrite Hw.
  destruct l' as [|b [|d l']]; [done|..]; by rewrite !ws2_false, ?ws3_false by lia.
Qed.
Lemma leading_digits_all l : Forall (λ c, is_digit c = true) l → leading_digits l = l.
Proof. induction 1 as [|c l Hc _ IH]; [done|]. cbn [leading_digits]. by rewrite Hc, IH. Qed.
Lemma Sscanf_itoa n : 0 <= n < 2 ^ 63 → blank (itoa n) = false ∧ Sscanf_d (TrimSpace (itoa n)) = Some n.
Proof.
  intros Hn. assert (itoa n = itoaN (Z.to_N n)) as Ei by (unfold itoa; by rewrite bool_decide_eq_false_2 by lia).
  pose proof (itoaN_digits (Z.to_N n)) as Hd. pose proof (itoaN_cons (Z.to_N n)) as (c & s & Ec & Hc). rewrite <-Ei in *.
  assert (TrimSpace (itoa n) = itoa n) as Et by (apply TrimSpace_id; [by apply digits_no_space|by apply digits_no_space, Forall_rev]).
  split; [unfold blank; rewrite Et, Ec; by apply bool_decide_eq_false_2|]. rewrite Et. rewrite <-(ParseInt_itoa n) by lia.
  unfold Sscanf_d. rewrite <-(of_to_l (itoa n)) at 2. rewrite <-(leading_digits_all _ Hd) at 2. apply digit_not_sign in Hc as [??].
  rewrite Ec. cbn [String.list_ascii_of_string]. by destruct c as [[] [] [] [] [] [] [] []].
Qed.

Section Facts.
Context {js : JSON} {ed : Ed25519} {sh : Sha256} `{Float64} `{UnicodeCase}.
Context (content_value : Content → json) (unmarshal_object : bytes → result (gmap string json)).
Context (env : ReverseEnv).
Implicit Types w : ReverseWorld.

(** ** An invariant of the mappings, the rows and the calls

    The mappings are [maps], the calls after [base] are allowed, the rows of messages
    that are not [own] are those of [others], and, where [rows] says so, the rows are
    well formed; the state is [kept] and the logs are [lg]. *)
Section Invariant.
Context (rows : bool) (own : string → Prop) (others : gmap string ReverseEvent) (maps : gmap string ReverseIdentityMapping) (base : list pds_call) (allowed : pds_call → Prop) (kept : gmap string string → Prop) (lg : DB).
Definition kept_rows (t : ReverseTables) : Prop :=
  (rows = true → rows_ok t) ∧ ∀ k, ¬ own k → events t !! k = others !! k.
Definition inv (w : ReverseWorld) : Prop :=
  mappings (tables w) = maps ∧ (∃ calls, pds w = base ++ calls ∧ Forall allowed calls) ∧
  kept_rows (tables w) ∧ kept (state w) ∧ logs w = lg.

Lemma inv_statement {A} (m : M ReverseWorld A) Q : hoare inv m Q → hoare inv (statement env m) Q.
Proof.
  intros Hm w Hw. unfold statement. destruct (env_db_err env (db_calls w)); [by split; [|done]|]. by apply Hm.
Qed.
Lemma inv_query {A} (f : ReverseWorld → A) Q : (∀ w, inv w → Q (f w)) → hoare inv (query env f) Q.
Proof. intros HQ. apply inv_statement. intros w Hw. split; [done|]. intros a [= <-]. by apply HQ. Qed.
Lemma inv_now : hoare inv (now env) (λ _, True).
Proof. by intros w Hw. Qed.
Lemma inv_add_message m : hoare inv (db_AddMessage env m) (λ _, True).
Proof. eapply hoare_bind; [apply inv_now|]. intros t _. by apply inv_statement; intros w Hw. Qed.

(** The calls. *)
Lemma inv_call w c : inv w → allowed c → inv (set_pds c w).
Proof.
  intros (Hm & (calls & Hc & Ha) & Hr) Hall. split; [done|]. split; [|done]. exists (calls ++ [c]). cbn [pds set_pds].
  rewrite Hc, (assoc_L (++)). split; [done|]. apply Forall_app; auto.
Qed.
Lemma inv_session cred : allowed (CNewSession cred) → hoare inv (pds_NewSession env cred) (λ _, True).
Proof. intros Ha w Hw. unfold pds_NewSession. cbn. split; [by apply inv_call|done]. Qed.
Lemma inv_upload did data mime : allowed (CUploadBlob did data mime) → hoare inv (pds_UploadBlob env did data mime) (λ _, True).
Proof. intros Ha w Hw. unfold pds_UploadBlob. cbn. split; [by apply inv_call|done]. Qed.
Lemma inv_create did c r : allowed (CCreateRecord did c r) → hoare inv (pds_CreateRecord env did c r) (λ _, True).
Proof. intros Ha w Hw. unfold pds_CreateRecord. cbn. split; [by apply inv_call|done]. Qed.
Lemma inv_delete did u : allowed (CDeleteRecord did u) → hoare inv (pds_DeleteRecord env did u) (λ _, True).
Proof. intros Ha w Hw. unfold pds_DeleteRecord. cbn. split; [by apply inv_call|done]. Qed.

(** An event that may be stored. *)
Definition event_ok (e : ReverseEvent) : Prop :=
  blank (Action e) = false → row_ok (SourceSSBMsgRef e) e.
Lemma stored_ok old now e : row_ok (SourceSSBMsgRef e) e → (∀ o, old = Some o → row_ok (SourceSSBMsgRef e) o) →
  row_ok (SourceSSBMsgRef e) (stored_event old now e).
Proof.
  intros [Hr Ha Hs Hp Hd Hn] Hold.
  assert (blank (EventState e) = false) as Hb by (repeat (apply elem_of_cons in Hs as [->|Hs]; [reflexivity|]); by apply elem_of_nil in Hs).
  assert (EventState (stored_event old now e) = EventState e) as Es by (unfold stored_event; cbn; by rewrite Hb).
  assert (Attempts e <= Attempts (stored_event old now e)) as Hle.
  { unfold stored_event. cbn. destruct old as [o|]; [|lia]. pose proof (row_attempts _ _ (Hold o eq_refl)). lia. }
  split; [exact Hr|exact Ha|by rewrite Es| |rewrite Es; exact Hd|lia].
  rewrite Es. intros Hpub. destruct (Hp Hpub) as (? & ? & ?). split_and!; [done|done|lia].
Qed.
Lemma inv_persist e : own (SourceSSBMsgRef e) → event_ok e → hoare inv (persistReverseEvent env e) (λ _, True).
Proof.
  intros Hown He. eapply hoare_bind; [apply inv_now|]. intros t _. apply inv_statement. intros w (Hm & Hc & [Hr Hoth] & Hk & Hl).
  unfold AddReverseEvent. destruct (blank (SourceSSBMsgRef e)); [by split_and!|]. destruct (blank (SourceSSBAuthor e)); [by split_and!|].
  destruct (blank (ev_ATDID e)); [by split_and!|]. destruct (blank (Action e)) eqn:Ea; [by split_and!|].
  split; [|done]. split_and!; [done|done| |done|done]. split.
  - intros Hrows. specialize (Hr Hrows). apply map_Forall_insert_2; [|done].
    apply stored_ok; [by apply He|]. intros o Ho. by apply (Hr _ _ Ho).
  - intros k Hk'. cbn. rewrite lookup_insert_ne; [by apply Hoth|]. by intros <-.
Qed.
(** ** Plans *)

(** Reading never touches the invariant. *)
Lemma inv_query_any {A} (f : ReverseWorld → A) : hoare inv (query env f) (λ _, True).
Proof. by apply inv_query. Qed.
Lemma inv_createdAt : hoare inv (reverseCreatedAt env) (λ _, True).
Proof. eapply hoare_bind; [apply inv_now|]. intros t _. by apply hoare_ret. Qed.
Lemma inv_lookup what ref : hoare inv (lookup_message env what ref) (λ _, True).
Proof. apply hoare_wrap, inv_query_any. Qed.

(** What [buildReverseEvent] promises about a plan: an event of the message that is
    pending, with a permitted record or a permitted unfollow, or that is settled
    with a reason. *)
Definition settled (e : ReverseEvent) : Prop :=
  EventState e ∈ [ReverseEventStateDeferred; ReverseEventStateSkipped] ∧ ev_DeferReason e ≠ "".
Definition pending (m : ReverseIdentityMapping) (e : ReverseEvent) (r : option record) : Prop :=
  EventState e = ReverseEventStatePending ∧
  match r with
  | Some r => Action e ≠ ReverseActionUnfollow ∧ permitted m r = true ∧ ResultCollection e = collection_of r
  | None => Action e = ReverseActionUnfollow ∧ AllowFollows m = true
  end.
Definition event_of (src : source) (m : ReverseIdentityMapping) (e : ReverseEvent) : Prop :=
  SourceSSBMsgRef e = src_Ref src ∧ ev_ATDID e = map_ATDID m ∧ Attempts e = 0 ∧ ErrorText e = "" ∧ blank (Action e) = false.
Definition plan_ok (src : source) (m : ReverseIdentityMapping) (p : option plan) : Prop :=
  match p with Some (e, r, _) => event_of src m e ∧ (pending m e r ∨ settled e) | None => True end.

Lemma event_of_base src m action f : blank action = false → (∀ e, SourceSSBMsgRef (f e) = SourceSSBMsgRef e ∧
  ev_ATDID (f e) = ev_ATDID e ∧ Attempts (f e) = Attempts e ∧ ErrorText (f e) = ErrorText e ∧ Action (f e) = Action e) →
  event_of src m (f (baseReverseEvent src (map_ATDID m) action)).
Proof. intros Ha Hf. destruct (Hf (baseReverseEvent src (map_ATDID m) action)) as (E1 & E2 & E3 & E4 & E5). unfold event_of. by rewrite E1, E2, E3, E4, E5. Qed.

Lemma inv_settled src m state reason e : state ∈ [ReverseEventStateDeferred; ReverseEventStateSkipped] → reason ≠ "" → event_of src m e →
  hoare inv (only_event (ev_with_state state reason "" e)) (plan_ok src m).
Proof.
  intros Hs Hr (? & ? & ? & ? & ?). apply hoare_ret. split; [by split_and!|right; by split].
Qed.
Lemma inv_skipped src m reason e : reason ≠ "" → event_of src m e → hoare inv (only_event (skipped reason e)) (plan_ok src m).
Proof. apply inv_settled. right. left. Qed.
Lemma inv_deferred src m reason e : reason ≠ "" → event_of src m e → hoare inv (only_event (deferred reason e)) (plan_ok src m).
Proof. apply inv_settled. left. Qed.
Lemma inv_pending src m e r uri : event_of src m e → pending m e r → hoare inv (mret (Some (e, r, uri))) (plan_ok src m).
Proof. intros He Hp. apply hoare_ret. split; [done|by left]. Qed.

Lemma inv_reply_targets root parent :
  hoare inv (resolveReplyTargets env root parent) (λ t, match t with inl reason => reason ≠ "" | inr _ => True end).
Proof.
  unfold resolveReplyTargets. destruct (_ || _); [by apply hoare_ret|]. eapply hoare_bind; [apply inv_lookup|]. intros r _.
  destruct (bridged r); [|by apply hoare_ret]. eapply hoare_bind; [apply inv_lookup|]. intros p _.
  destruct (bridged p); by apply hoare_ret.
Qed.

#[local] Ltac plan_step :=
  first [ apply inv_skipped; [done|] | apply inv_deferred; [done|] | apply inv_pending
        | eapply hoare_bind; [first [apply inv_createdAt | apply inv_lookup | apply hoare_wrap, inv_query_any | apply inv_query_any]|]; intros ? _
        | by apply (event_of_base _ _ _ (λ e, _)) ].

Lemma inv_build_post src m content : hoare inv (build_post env src m content) (plan_ok src m).
Proof.
  unfold build_post. destruct (extractReplyRefs content) as [root parent]. destruct (negb (_ && _)).
  - destruct (AllowReplies m) eqn:Ea; cbn [negb]; [|by repeat plan_step].
    eapply hoare_bind; [apply inv_reply_targets|]. intros [reason|[rootMsg parentMsg]]; cbn; intros Hr.
    + by apply inv_deferred.
    + plan_step. plan_step; [done|]. by split_and!.
  - destruct (AllowPosts m) eqn:Ea; cbn [negb]; [|by repeat plan_step]. plan_step. plan_step; [done|]. by split_and!.
Qed.
Lemma inv_build_subject src m action collection what disabled ref mk :
  blank action = false → action ≠ ReverseActionUnfollow → what ≠ "" → disabled ≠ "" →
  (∀ s c, collection_of (mk s c) = collection ∧ permitted m (mk s c) = AllowPosts m) →
  hoare inv (build_subject env src m action collection what disabled ref mk) (plan_ok src m).
Proof.
  intros Ha Hu Hw Hd Hmk. unfold build_subject. case_bool_decide; [by repeat plan_step|].
  destruct (AllowPosts m) eqn:Ep; cbn [negb]; [|by repeat plan_step]. plan_step. destruct (bridged _) as [t|].
  - plan_step. destruct (Hmk (strong_ref t) a0) as [E1 E2]. plan_step; [done|]. by split_and!.
  - apply inv_deferred; [by destruct what|done].
Qed.
Lemma inv_build_about src m content : hoare inv (build_about src m content) (plan_ok src m).
Proof. unfold build_about. destruct (_ || _); plan_step; [done..|]. by split_and!. Qed.
Lemma inv_build_contact src m content : hoare inv (build_contact env src m content) (plan_ok src m).
Proof.
  unfold build_contact. case_bool_decide; [by plan_step|]. destruct (boolValue (at_key content "blocking")); [by plan_step|].
  plan_step. set (f := boolValue (at_key content "following")).
  destruct (AllowFollows m) eqn:Ea; cbn [negb]; [|by plan_step; destruct f].
  destruct (blank (default "" a)); [by plan_step; destruct f|]. destruct f.
  - plan_step. plan_step; [done|]. by split_and!.
  - plan_step. destruct a0 as [fe|]; [|by plan_step]. destruct (blank (ResultATURI fe)); by plan_step.
Qed.
Lemma inv_buildReverseEvent src m content : hoare inv (buildReverseEvent env src m content) (plan_ok src m).
Proof.
  unfold buildReverseEvent. case_bool_decide; [apply inv_build_post|]. destruct (_ || _); [by apply inv_build_subject|].
  case_bool_decide.
  - destruct (at_key content "vote"); try by apply hoare_ret. destruct (positiveValue _); [|by apply hoare_ret]. by apply inv_build_subject.
  - case_bool_decide; [apply inv_build_about|]. case_bool_decide; [apply inv_build_contact|by apply hoare_ret].
Qed.
(** ** Uploads *)
Section Uploads.
Context (m : ReverseIdentityMapping) (did : string) (Hup : ∀ data mime, allowed (CUploadBlob did data mime)).
Definition reasoned {A} (r : string + A) : Prop := match r with inl reason => reason ≠ "" | inr _ => True end.

Lemma inv_read_blob Get feed hash : hoare inv (read_blob env Get feed hash) (λ _, True).
Proof. intros w Hw. unfold read_blob. by repeat case_match. Qed.
Lemma inv_upload_blob Get feed link mime : hoare inv (upload env Get did feed link mime) reasoned.
Proof.
  unfold upload. destruct (ParseBlobRef link) as [b|e|]; [|by apply hoare_ret|by apply hoare_lift].
  eapply hoare_bind; [apply inv_read_blob|]. intros [data|] _; [|by apply hoare_ret].
  eapply hoare_bind; [by apply inv_upload|]. intros [[u|]|] _; [..|by apply hoare_ret];
    (destruct (env_close_err env (b_hash b)); [by apply hoare_fail|by apply hoare_ret]).
Qed.
Lemma inv_embed_mention Get feed st mention : hoare inv (embed_mention env Get did feed st mention) reasoned.
Proof.
  unfold embed_mention. destruct st as [[images seen] refs]. destruct (negb (is_blob _)); [by apply hoare_ret|].
  destruct (seen !! _); [destruct (mismatch _ _); by apply hoare_ret|].
  eapply hoare_bind; [apply hoare_wrap, inv_query_any|]. intros meta _.
  repeat (match goal with |- hoare _ (if ?b then _ else _) _ => destruct b; [by apply hoare_ret|] end).
  eapply hoare_bind; [apply inv_upload_blob|]. intros [reason|b] Hr; [by apply hoare_ret|].
  destruct (negb _); [by apply hoare_ret|]. destruct (mismatch _ _); by apply hoare_ret.
Qed.
Lemma inv_embed_mentions Get feed st mentions : hoare inv (embed_mentions env Get did feed st mentions) reasoned.
Proof.
  revert st. induction mentions as [|x l IH]; intros st; [by apply hoare_ret|]. cbn [embed_mentions].
  eapply hoare_bind; [apply inv_embed_mention|]. intros [reason|st'] Hr; [by apply hoare_ret|apply IH].
Qed.
Lemma inv_embeds feed mentions : hoare inv (buildReverseImageEmbeds env did feed mentions) reasoned.
Proof.
  unfold buildReverseImageEmbeds. destruct (env_blob_store env); [|by apply hoare_ret; destruct (existsb _ _)].
  eapply hoare_bind; [apply inv_embed_mentions|]. intros [reason|[[images seen] refs]] Hr; by apply hoare_ret.
Qed.
Lemma inv_mention_facets text refs st mentions :
  hoare inv (mention_facets (db_ResolveATDIDBySSBFeed env) text refs st mentions) (λ _, True).
Proof.
  revert st. induction mentions as [|x l IH]; intros st; [by apply hoare_ret|]. cbn [mention_facets].
  eapply (hoare_bind _ _ _ (λ _, True)); [|intros st' _; apply IH]. unfold mention_facet.
  repeat (match goal with |- hoare _ (if ?b then _ else _) _ => destruct b; [first [by apply hoare_ret|by apply hoare_fail|idtac]|] end);
    try by apply hoare_ret.
  eapply hoare_bind; [apply hoare_wrap, inv_query_any|]. intros [d|] _; [destruct (blank d)|]; by apply hoare_ret.
Qed.
Definition same_record (r : record) (x : string + record) : Prop :=
  match x with
  | inl reason => reason ≠ ""
  | inr r' =>
      match r, r' with
      | RPost p, RPost p' => Reply p' = Reply p ∧ ∃ refs, Text p' = stripEmbeddedBlobMarkdown (Text p) refs
      | RProfile p, RProfile p' => DisplayName p' = DisplayName p ∧ Description p' = Description p
      | RPost _, _ | RProfile _, _ => False
      | _, _ => r' = r
      end
  end.
Lemma same_permitted r r' : same_record r (inr r') → permitted m r' = permitted m r ∧ collection_of r' = collection_of r.
Proof. destruct r, r'; cbn; try done; try (by intros [= -> ->]); try (by intros [= ->]). by intros [-> _]. Qed.
Lemma inv_enrich e content r : hoare inv (enrich env did e content r) (same_record r).
Proof.
  destruct r as [post|s c|s c|profile|s c]; try by apply hoare_ret.
  - eapply (hoare_bind _ _ _ (λ x, match x with inl reason => reason ≠ ""
      | inr p => Reply p = Reply post ∧ ∃ refs, Text p = stripEmbeddedBlobMarkdown (Text post) refs end)).
    + unfold enrichReversePostRecord. eapply hoare_bind; [apply inv_embeds|]. intros [reason|[images refs]] Hr; [by apply hoare_ret|].
      eapply (hoare_bind _ _ _ (λ _, True)); [|intros facets _; apply hoare_ret; split; [done|by eexists]]. unfold buildReverseFacets.
      destruct (_ && _); [by apply hoare_ret|]. eapply hoare_bind; [apply inv_mention_facets|]. intros st _. by apply hoare_ret.
    + intros [reason|p] Hp; apply hoare_ret; exact Hp.
  - eapply (hoare_bind _ _ _ (λ x, match x with inl reason => reason ≠ ""
      | inr p => DisplayName p = DisplayName profile ∧ Description p = Description profile end)).
    + unfold enrichReverseProfileRecord. destruct (negb _); [by apply hoare_ret|]. destruct (env_blob_store env); [|by apply hoare_ret].
      eapply hoare_bind; [apply hoare_wrap, inv_query_any|]. intros meta _. destruct (negb _); [by apply hoare_ret|].
      eapply hoare_bind; [apply inv_upload_blob|]. intros [reason|b] Hr; by apply hoare_ret.
    + intros [reason|p] Hp; apply hoare_ret; exact Hp.
Qed.

End Uploads.

(** ** Publishing *)
Section Publish.
Context (m : ReverseIdentityMapping).
#[local] Abbreviation did := (TrimSpace (map_ATDID m)).
Context (Hsession : ∀ cred, cred_DID cred = did → allowed (CNewSession cred))
  (Hup : ∀ data mime, allowed (CUploadBlob did data mime)).
(** The creation or the deletion a plan may come to. *)
Definition plan_allowed (r : option record) (uri : string) : Prop :=
  match r with
  | Some r => ∀ r', same_record r (inr r') → allowed (CCreateRecord did (collection_of r') r')
  | None => allowed (CDeleteRecord did uri)
  end.

Lemma not_settled (state : string) : state = ReverseEventStateFailed ∨ state = ReverseEventStatePublished ∨ state = ReverseEventStatePending →
  state ∉ [ReverseEventStateDeferred; ReverseEventStateSkipped].
Proof. rewrite !not_elem_of_cons. intros [->|[->| ->]]; (split_and!; [done..|apply not_elem_of_nil]). Qed.
Lemma failed_ok err e : blank (Action e) = false → 0 <= Attempts e → event_ok (failed err e).
Proof. intros Ha Hn _. split; [done|done|by do 2 right; left|done| |done]. cbn. intros Hs. by apply not_settled in Hs; [|left]. Qed.
Lemma settled_row e : settled e → blank (Action e) = false → 0 <= Attempts e → event_ok e.
Proof.
  intros [Hs Hr] Ha Hn _. split; [done|done| | |done|done].
  - do 3 (apply elem_of_cons; right). done.
  - intros E. rewrite E in Hs. by apply not_settled in Hs; [|right; left].
Qed.
Lemma deferred_ok reason e : reason ≠ "" → blank (Action e) = false → 0 <= Attempts e → event_ok (deferred reason e).
Proof. intros Hr. apply (settled_row (deferred reason e)). split; [left|done]. Qed.
Lemma result_ok t uri cid json e : blank (Action e) = false → ErrorText e = "" → 1 <= Attempts e → event_ok (ev_with_result t uri cid json e).
Proof.
  intros Ha He Hn _. split; cbn; [done|done|by right; left|intros _; split_and!; eauto| |lia].
  intros Hs. by apply not_settled in Hs; [|right; left].
Qed.

Lemma inv_publish_delete uri e : own (SourceSSBMsgRef e) → plan_allowed None uri → blank (Action e) = false → ErrorText e = "" → Attempts e = 1 →
  hoare inv (publish_delete env did uri e) (λ _, True).
Proof.
  intros Hown Hf Ha He Hn. eapply hoare_bind; [by apply hoare_try, inv_delete|]. intros [u|err|] _; [| |by apply hoare_lift].
  - eapply hoare_bind; [apply inv_now|]. intros t _. apply inv_persist; [done|]. apply result_ok; [done..|lia].
  - apply inv_persist; [done|]. apply failed_ok; [done|lia].
Qed.
Lemma inv_correlation e r : hoare inv (persistForwardCorrelation env e r) (λ _, True).
Proof. unfold persistForwardCorrelation. destruct (blank (ResultATURI e)); [by apply hoare_ret|apply inv_add_message]. Qed.
Lemma inv_publish_create content r uri e : own (SourceSSBMsgRef e) → plan_allowed (Some r) uri →
  ResultCollection e = collection_of r → blank (Action e) = false →
  ErrorText e = "" → Attempts e = 1 → hoare inv (publish_create env did content r e) (λ _, True).
Proof.
  intros Hown Hp Hc Ha He Hn. eapply hoare_bind; [by apply hoare_try, inv_enrich|].
  intros [[reason|r']|err|] Hr; [..|by apply hoare_lift].
  - apply inv_persist; [done|]. apply deferred_ok; [by apply (Hr _ eq_refl)|done|lia].
  - specialize (Hr _ eq_refl). destruct (same_permitted m _ _ Hr) as [_ Hc'].
    eapply hoare_bind; [apply hoare_try, inv_create; rewrite Hc, <-Hc'; by apply Hp|].
    intros [c|err|] _; [| |by apply hoare_lift]; [|apply inv_persist; [done|]; apply failed_ok; [done|lia]].
    eapply hoare_bind; [apply inv_now|]. intros t _. eapply hoare_bind.
    + apply hoare_wrap, inv_correlation.
    + intros _ _. apply inv_persist; [done|]. apply result_ok; [done..|cbn; lia].
  - apply inv_persist; [done|]. apply failed_ok; [done|lia].
Qed.
Lemma credential_did cred : resolveCredential env (map_ATDID m) = inr cred → cred_DID cred = did.
Proof. unfold resolveCredential. intros Hc. repeat case_match; simplify_eq; done. Qed.
Lemma credential_reason reason : resolveCredential env (map_ATDID m) = inl reason → reason ≠ "".
Proof. unfold resolveCredential, CredentialStatus. intros Hc. repeat case_match; simplify_eq; cbn in *; simplify_eq; done. Qed.
Lemma inv_publish src content e r uri : own (src_Ref src) → event_of src m e → pending m e r → plan_allowed r uri →
  hoare inv (publish env content (e, r, uri)) (λ _, True).
Proof.
  intros Hown (Er & Ed & En & Ee & Ea) [Es Hr] Hp. rewrite <-Er in Hown. unfold publish. rewrite Ed.
  destruct (resolveCredential env (map_ATDID m)) as [reason|cred] eqn:Hc.
  - apply inv_persist; [done|]. apply deferred_ok; [done|done|lia].
  - apply credential_did in Hc. eapply hoare_bind; [apply inv_now|]. intros t _.
    eapply hoare_bind; [apply hoare_try, inv_session, Hsession, Hc|].
    intros [u|err|] _; [|apply inv_persist; [done|]; apply failed_ok; [done|cbn; lia]|by apply hoare_lift].
    cbn [Action ev_with_attempt]. rewrite Hc. destruct r as [r|]; destruct Hr as [Hact Hr].
    + rewrite bool_decide_eq_false_2 by done. destruct Hr as [_ Hcol]. by apply (inv_publish_create content r uri).
    + rewrite bool_decide_eq_true_2 by done. by apply inv_publish_delete.
Qed.
(** A plan in hand, and a message whose every plan is allowed. *)
Definition carry_out (content : gmap string json) (p : option plan) : M ReverseWorld unit :=
  match p with
  | None => mret tt
  | Some (e, r, uri) =>
      if bool_decide (EventState e = ReverseEventStateDeferred) || bool_decide (EventState e = ReverseEventStateSkipped)
      then persistReverseEvent env e else publish env content (e, r, uri)
  end.
Lemma inv_carry_out src content p : own (src_Ref src) → plan_ok src m p →
  (∀ e r uri, p = Some (e, r, uri) → pending m e r → plan_allowed r uri) → hoare inv (carry_out content p) (λ _, True).
Proof.
  intros Hown Hok Hp. destruct p as [[[e r] uri]|]; [|by apply hoare_ret]. destruct Hok as [He [Hpe|[Hs Hr]]]; cbn [carry_out].
  - destruct (Hpe) as [-> _]. cbn. eapply inv_publish; [done..|]. by eapply Hp.
  - destruct He as (Er & ? & ? & ? & ?). replace (_ || _) with true.
    + apply inv_persist; [by rewrite Er|]. apply settled_row; [done|done|lia].
    + symmetry. by apply elem_of_cons in Hs as [->|[->|?%elem_of_nil]%elem_of_cons].
Qed.
Lemma inv_mirror src content : own (src_Ref src) → (∀ e r uri, pending m e r → plan_allowed r uri) →
  hoare inv (mirror env src m content) (λ _, True).
Proof.
  intros Hown Hp. eapply hoare_bind; [apply inv_buildReverseEvent|]. intros p Hok. apply (inv_carry_out src content p); [done|done|]. intros. by eapply Hp.
Qed.
End Publish.
(** ** Messages *)
Section Messages.
Context (Hall : ∀ feed m c, maps !! feed = Some m → Active m = true → call_permitted m c → allowed c).

Lemma inv_process src force : own (TrimSpace (src_Ref src)) →
  hoare inv (processDecodedMessage content_value unmarshal_object env src force) (λ _, True).
Proof.
  intros Hown. unfold processDecodedMessage. destruct (_ || _); [by apply hoare_ret|].
  eapply (hoare_bind _ _ _ (λ _, True)).
  { destruct force; [by apply hoare_ret|]. eapply hoare_bind; [apply hoare_wrap, inv_query_any|]. intros e _. by apply hoare_ret. }
  intros [] _; [by apply hoare_ret|].
  eapply (hoare_bind _ _ _ (λ m, m = maps !! TrimSpace (TrimSpace (src_Author src)))).
  { apply hoare_wrap, inv_query. intros w (Hm & _). unfold GetReverseIdentityMapping. by rewrite Hm. }
  intros [m|] Hm; [|by apply hoare_ret]. destruct (Active m) eqn:Hact; [|by apply hoare_ret]. cbn [negb].
  assert (Hc : ∀ c, call_permitted m c → allowed c) by (intros c; by apply (Hall _ m c (eq_sym Hm))).
  destruct (decodeSSBContent _ _ _); [| |by apply hoare_lift].
  - apply inv_mirror; [intros cred Hcred; by apply Hc|intros data mime; by apply Hc|done|].
    intros e [r|] uri [_ Hr]; cbn.
    + intros r' Hr'. destruct (same_permitted m _ _ Hr') as [Hp' _]. apply Hc. split_and!; [done|done|]. rewrite Hp'. apply Hr.
    + apply Hc. split; [done|apply Hr].
  - apply hoare_wrap, inv_persist; [done|]. intros Ha. by cbn in Ha.
Qed.
Lemma inv_reset ref : own (TrimSpace ref) → hoare inv (db_ResetReverseEventForRetry env ref) (λ _, True).
Proof.
  intros Hown. eapply hoare_bind; [apply inv_now|]. intros t _.
  apply inv_statement. intros w (Hm & Hc & [Hr Hoth] & Hk & Hl). split; [|done]. split_and!; [done|done| |done|done]. split.
  - intros Hrows k e He. specialize (Hr Hrows). cbn in He. apply lookup_alter_Some in He as [(<- & e0 & He & ->)|[_ He]]; [|by apply (Hr _ _ He)].
    destruct (Hr _ _ He) as [H1 H2 H3 H4 H5 H6]. split; [done|done|by left|done| |done]. cbn. intros Hs. by apply not_settled in Hs; [|auto].
  - intros k Hk'. cbn. rewrite lookup_alter_ne; [by apply Hoth|]. by intros <-.
Qed.
(** A retry processes the message of its row: the one it was asked for, when the rows
    are well formed. *)
Lemma inv_retry ref : own (TrimSpace ref) → (rows = true ∨ ∀ k, own k) →
  hoare inv (RetryEvent content_value unmarshal_object env ref) (λ _, True).
Proof.
  intros Hown Hall_own. unfold RetryEvent. case_bool_decide; [by apply hoare_fail|].
  eapply (hoare_bind _ _ _ (λ r, ∀ e, r = Some e → own (TrimSpace (SourceSSBMsgRef e)))).
  { apply inv_query. intros w (_ & _ & [Hr _] & _) e He. destruct Hall_own as [Hrows|Ho]; [|apply Ho].
    unfold GetReverseEvent in He. rewrite (row_ref _ _ (Hr Hrows _ _ He)). by rewrite !TrimSpace_idemp. }
  intros [e|] He; [|by apply hoare_fail].
  destruct (_ || _); [by apply hoare_fail|]. eapply hoare_bind; [apply inv_reset; by rewrite TrimSpace_idemp|]. intros _ _. by apply inv_process, He.
Qed.
End Messages.
Context (Hkept : ∀ s k v, kept s → kept (<[k := v]> s)).
Lemma inv_state k v : hoare inv (db_SetBridgeState env k v) (λ _, True).
Proof. apply inv_statement. intros w (? & ? & ? & ? & ?). split; [|done]. split_and!; try done. by apply Hkept. Qed.
End Invariant.

(** ** Batches

    What every message and the bookkeeping keep, the loops keep. *)
Section Batches.
Context (I : ReverseWorld → Prop) (Hprocess : ∀ src, hoare I (processDecodedMessage content_value unmarshal_object env src false) (λ _, True))
  (Hstate : ∀ k v, hoare I (db_SetBridgeState env k v) (λ _, True)) (Hnow : hoare I (now env) (λ _, True))
  (Hquery : ∀ A (f : ReverseWorld → A), hoare I (query env f) (λ _, True)).
Lemma keeps_process_seq seq : hoare I (process_seq content_value unmarshal_object env seq) (λ _, True).
Proof.
  eapply (hoare_bind _ _ _ (λ _, True)); [by apply hoare_wrap; intros w Hw|]. intros msg _.
  eapply hoare_bind; [apply Hprocess|]. intros _ _. apply hoare_wrap, Hstate.
Qed.
Lemma keeps_process_seqs n seq currentSeq processed :
  hoare I (process_seqs content_value unmarshal_object env n seq currentSeq processed) (λ _, True).
Proof.
  revert seq processed. induction n as [|n IH]; intros seq processed; cbn [process_seqs]; [by apply hoare_ret|].
  case_bool_decide; [|by apply hoare_ret]. eapply hoare_bind; [apply hoare_try, keeps_process_seq|].
  intros [u|e|] _; [apply IH|by apply hoare_ret|by apply hoare_lift].
Qed.
Lemma keeps_batch n : hoare I (ProcessBatch content_value unmarshal_object env n) (λ _, True).
Proof.
  unfold ProcessBatch. eapply (hoare_bind _ _ _ (λ _, True)); [by intros w Hw|]. intros w _.
  destruct (receive_Seq _); [|by apply hoare_ret|by apply hoare_lift]. case_bool_decide; [by apply hoare_ret|].
  eapply (hoare_bind _ _ _ (λ _, True)); [|intros [seq|e|] _; [apply keeps_process_seqs|by apply hoare_ret|by apply hoare_lift]].
  eapply hoare_weaken; [apply hoare_try|done]. instantiate (1 := λ _, True).
  eapply hoare_bind; [apply hoare_wrap, Hquery|]. intros [v|] _; [|by apply hoare_ret]. destruct (blank v); [by apply hoare_ret|].
  destruct (Sscanf_d _); [by apply hoare_ret|by apply hoare_fail].
Qed.
Lemma keeps_runOnce n : hoare I (runOnce content_value unmarshal_object env n) (λ _, True).
Proof.
  eapply hoare_bind; [apply keeps_batch|]. intros p _. eapply hoare_bind; [apply Hnow|]. intros t _.
  do 2 (eapply hoare_bind; [apply hoare_try, Hstate|]; intros ? _). by apply hoare_ret.
Qed.
End Batches.

(** The public operations of the processor. *)
Inductive operation := ORunOnce (batchSize : Z) | OProcessBatch (batchSize : Z) | ORetryEvent (ref : string).
Definition run_operation (o : operation) (w : ReverseWorld) : ReverseWorld :=
  match o with
  | ORunOnce n => (runOnce content_value unmarshal_object env n w).2
  | OProcessBatch n => (ProcessBatch content_value unmarshal_object env n w).2
  | ORetryEvent ref => (RetryEvent content_value unmarshal_object env ref w).2
  end.
Definition anyone (k : string) : Prop := True.
Lemma inv_operations rows others maps base allowed lg ops w :
  (∀ feed m c, maps !! feed = Some m → Active m = true → call_permitted m c → allowed c) →
  inv rows anyone others maps base allowed (λ _, True) lg w →
  inv rows anyone others maps base allowed (λ _, True) lg (foldl (λ w o, run_operation o w) w ops).
Proof.
  intros Hall. revert w. induction ops as [|o ops IH]; intros w Hw; [done|]. cbn [foldl]. apply IH.
  set (I := inv rows anyone others maps base allowed (λ _, True) lg) in *.
  assert (Hp : ∀ src, hoare I (processDecodedMessage content_value unmarshal_object env src false) (λ _, True)) by (intros src; by apply inv_process).
  assert (Hs : ∀ k v, hoare I (db_SetBridgeState env k v) (λ _, True)) by (intros k v; by apply inv_state).
  assert (Hn : hoare I (now env) (λ _, True)) by apply inv_now.
  assert (Hq : ∀ A (f : ReverseWorld → A), hoare I (query env f) (λ _, True)) by (intros A f; apply inv_query_any).
  assert (Hr : ∀ ref, hoare I (RetryEvent content_value unmarshal_object env ref) (λ _, True)) by (intros ref; apply inv_retry; [done|done|by right]).
  destruct o as [n|n|ref]; cbn [run_operation]; [by eapply keeps_runOnce|by eapply keeps_batch|by apply Hr].
Qed.
Lemma inv_start rows own allowed kept w : (rows = true → rows_ok (tables w)) → kept (state w) →
  inv rows own (events (tables w)) (mappings (tables w)) (pds w) allowed kept (logs w) w.
Proof. intros Hr Hk. split_and!; [done| |by split|done..]. exists []. by rewrite app_nil_r. Qed.
Lemma operations_from rows allowed ops w :
  (∀ feed m c, mappings (tables w) !! feed = Some m → Active m = true → call_permitted m c → allowed c) →
  (rows = true → rows_ok (tables w)) →
  inv rows anyone (events (tables w)) (mappings (tables w)) (pds w) allowed (λ _, True) (logs w) (foldl (λ w o, run_operation o w) w ops).
Proof. intros Hall Hr. apply inv_operations; [done|]. by apply inv_start. Qed.

(** Whatever the messages, the batches and the retries, and wherever the database or
    the server fails: every call is made for the DID of an active mapping and is one that
    mapping permits. What a single message may lead to is in ReverseCalls. *)
Theorem calls_of_operations ops w :
  ∃ calls, pds (foldl (λ w o, run_operation o w) w ops) = pds w ++ calls ∧
    Forall (λ c, ∃ feed m, mappings (tables w) !! feed = Some m ∧ Active m = true ∧ call_permitted m c) calls.
Proof.
  destruct (operations_from false (λ c, ∃ feed m, mappings (tables w) !! feed = Some m ∧ Active m = true ∧ call_permitted m c) ops w)
    as (_ & Hc & _); [by eauto|done|done].
Qed.

(** The event table stays well formed under every operation: a row is stored
    under the reference of its message, names an action, is in one of the five
    states, has a time and an attempt and no error text when it is published, and
    carries its reason when it is deferred or skipped. *)
Theorem event_rows_ok ops w : rows_ok (tables w) → rows_ok (tables (foldl (λ w o, run_operation o w) w ops)).
Proof.
  intros Hr. destruct (operations_from true (λ _, True) ops w) as (_ & _ & [Hrows _] & _); [done|done|by apply Hrows].
Qed.

(** ** Outcomes *)
#[local] Abbreviation process := (processDecodedMessage content_value unmarshal_object env).
Definition ends_final (ref : string) (w : ReverseWorld) : Prop := is_final (events (tables w) !! ref) = true.
(** A run without an error leaves a final row. *)
Definition lands (ref : string) (m : M ReverseWorld unit) : Prop := ∀ w w', m w = (Ok tt, w') → ends_final ref w'.
Lemma lands_bind {A} ref (m : M ReverseWorld A) k : (∀ a, lands ref (k a)) → lands ref (mbind k m).
Proof. intros Hk w w' (a & w1 & _ & Hr)%mbind_ok. by eapply Hk. Qed.
Lemma lands_panic ref : lands ref (mlift Panic).
Proof. by intros w w'. Qed.

Lemma persist_spec e w r w' : persistReverseEvent env e w = (r, w') →
  pds w' = pds w ∧ messages w' = messages w ∧ state w' = state w ∧ logs w' = logs w ∧ mappings (tables w') = mappings (tables w) ∧
  match r with
  | Ok _ => blank (Action e) = false ∧
      ∃ t, events (tables w') = <[SourceSSBMsgRef e := stored_event (events (tables w) !! SourceSSBMsgRef e) t e]> (events (tables w))
  | Err _ => tables w' = tables w
  | Panic => False
  end.
Proof.
  unfold persistReverseEvent, db_AddReverseEvent, mbind, M_mbind, now, statement, AddReverseEvent. cbn.
  destruct (env_db_err env (db_calls w)); [by intros [= <- <-]|].
  repeat match goal with |- (let '(_, _) := (if ?b then _ else _) _ in _) = _ → _ => destruct b eqn:?; [by intros [= <- <-]|] end.
  intros [= <- <-]. cbn. split_and!; try done. by eexists.
Qed.
Lemma persist_lands e : EventState e ∈ [ReverseEventStatePublished; ReverseEventStateFailed; ReverseEventStateDeferred; ReverseEventStateSkipped] →
  lands (SourceSSBMsgRef e) (persistReverseEvent env e).
Proof.
  intros Hs w w' (_ & _ & _ & _ & _ & _ & t & Ht)%persist_spec. unfold ends_final. rewrite Ht, lookup_insert_eq. cbn.
  by repeat (apply elem_of_cons in Hs as [->|Hs]; [reflexivity|]); apply elem_of_nil in Hs.
Qed.
Lemma publish_delete_lands did uri e : lands (SourceSSBMsgRef e) (publish_delete env did uri e).
Proof.
  apply lands_bind. intros [u|err|]; [| |apply lands_panic].
  - apply lands_bind. intros t. apply (persist_lands (ev_with_result _ _ _ _ e)). left.
  - apply (persist_lands (failed err e)). right. left.
Qed.
Lemma publish_create_lands did content r e : lands (SourceSSBMsgRef e) (publish_create env did content r e).
Proof.
  apply lands_bind. intros [[reason|r']|err|]; [..|apply lands_panic].
  - apply (persist_lands (deferred reason e)). do 2 right. left.
  - apply lands_bind. intros [c|err|]; [| |apply lands_panic].
    + apply lands_bind. intros t. apply lands_bind. intros _. apply (persist_lands (ev_with_result _ _ _ _ e)). left.
    + apply (persist_lands (failed err e)). right. left.
  - apply (persist_lands (failed err e)). right. left.
Qed.
Lemma publish_lands content e r uri : lands (SourceSSBMsgRef e) (publish env content (e, r, uri)).
Proof.
  unfold publish. destruct (resolveCredential env (ev_ATDID e)) as [reason|cred].
  - apply (persist_lands (deferred _ e)). do 2 right. left.
  - apply lands_bind. intros t. apply lands_bind. intros [u|err|]; [| |apply lands_panic].
    + destruct (bool_decide _); [apply (publish_delete_lands _ _ (ev_with_attempt 1 (Some t) e))|].
      destruct r; [apply (publish_create_lands _ _ _ (ev_with_attempt 1 (Some t) e))|apply lands_panic].
    + apply (persist_lands (failed err (ev_with_attempt 1 (Some t) e))). right. left.
Qed.

(** Building a plan only reads. *)
Lemma plan_spec src m content w p w' : buildReverseEvent env src m content w = (Ok p, w') → pds w' = pds w ∧ plan_ok src m p.
Proof.
  intros Hb. destruct (inv_buildReverseEvent false anyone (events (tables w)) (mappings (tables w)) (pds w) (λ _, False) (λ _, True) (logs w) src m content w) as [Hi Hq];
    [by apply inv_start|]. rewrite Hb in Hi, Hq. split; [|by apply Hq]. destruct Hi as (_ & (calls & Hc & Hf) & _).
  cbn in Hc. rewrite Hc. destruct calls as [|c calls]; [by rewrite app_nil_r|]. by inversion Hf.
Qed.
Lemma mirror_spec src m content w w' : mirror env src m content w = (Ok tt, w') → pds w' = pds w ∨ ends_final (src_Ref src) w'.
Proof.
  intros (p & w1 & Hb & Hw)%mbind_ok. apply plan_spec in Hb as [Hp Hok]. destruct p as [[[e r] uri]|]; [|left; by injection Hw as <-].
  destruct Hok as ((Eref & _) & Hok). right. rewrite <-Eref. destruct Hok as [[Hs _]|[Hs _]].
  - rewrite Hs in Hw. exact (publish_lands content e r uri w1 w' Hw).
  - revert Hw. replace (_ || _) with true; [|symmetry; by apply elem_of_cons in Hs as [->|[->|?%elem_of_nil]%elem_of_cons]].
    apply persist_lands. by do 2 right.
Qed.

(** A query fails or answers; it only counts as a statement. *)
Lemma query_spec {A} ctx (f : ReverseWorld → A) w r w' : mwrap ctx (query env f) w = (r, w') →
  w' = count_call w ∧ (r = Ok (f (count_call w)) ∨ ∃ e, r = Err e).
Proof. unfold mwrap, query, statement. destruct (env_db_err env _); intros [= <- <-]; eauto. Qed.
Lemma load_spec ctx ref w r w' :
  (existing ← mwrap ctx (query env (λ w, GetReverseEvent ref (tables w))); mret (is_final existing)) w = (r, w') →
  w' = count_call w ∧ (r = Ok (is_final (GetReverseEvent ref (tables w))) ∨ ∃ e, r = Err e).
Proof.
  intros [(e & w1 & Hq & [= <- <-])|[(e & Hq & ->)|(Hq & ->)]]%mbind_inv; apply query_spec in Hq as [-> [Hq|[e' Hq]]]; simplify_eq; eauto.
Qed.
Definition trimmed (src : source) : source :=
  {| src_ReceiveLogSeq := src_ReceiveLogSeq src; src_Ref := TrimSpace (src_Ref src); src_Author := TrimSpace (src_Author src);
     src_Seq := src_Seq src; src_Raw := src_Raw src |}.
(** A run without an error either never got to [mirror], and called nobody, or was one of [mirror]. *)
Lemma process_ok src force w w' : process src force w = (Ok tt, w') →
  pds w' = pds w ∨ ∃ m content w1, pds w1 = pds w ∧ messages w1 = messages w ∧ mirror env (trimmed src) m content w1 = (Ok tt, w').
Proof.
  unfold processDecodedMessage. fold (trimmed src). destruct (_ || _); [intros [= <-]; by left|]. intros (b & w1 & Hb & Hw)%mbind_ok.
  assert (pds w1 = pds w ∧ messages w1 = messages w) as [Ep Em].
  { destruct force; [by injection Hb as <- <-|]. by apply load_spec in Hb as [-> _]. }
  rewrite <-Ep, <-Em. destruct b; [left; by injection Hw as <-|].
  apply mbind_ok in Hw as (m & w2 & Hm & Hw). apply query_spec in Hm as [-> _]. destruct m as [m|]; [|left; by injection Hw as <-].
  destruct (negb (Active m)); [left; by injection Hw as <-|]. destruct (decodeSSBContent _ _ _) as [content|e|]; [|left|done].
  - right. by exists m, content, (count_call w1).
  - apply mwrap_ok, persist_spec in Hw as [-> _]. done.
Qed.
Lemma process_final src w r w' : ends_final (TrimSpace (src_Ref src)) w → process src false w = (r, w') →
  pds w' = pds w ∧ tables w' = tables w ∧ messages w' = messages w ∧ state w' = state w ∧ logs w' = logs w.
Proof.
  unfold processDecodedMessage, ends_final. intros Hf. destruct (_ || _); [by intros [= <- <-]|]. fold (trimmed src).
  intros [(b & w1 & Hb & Hw)|[(e & Hb & ->)|(Hb & ->)]]%mbind_inv.
  - apply load_spec in Hb as [-> [[= ->]|[? [=]]]]. cbn [src_Ref trimmed] in Hw. unfold GetReverseEvent in Hw. rewrite TrimSpace_idemp, Hf in Hw.
    by injection Hw as <- <-.
  - by apply load_spec in Hb as [-> _].
  - by apply load_spec in Hb as [-> _].
Qed.

(** A final row stays as it is under every operation but a retry of its own message,
    and under that as well once it is published or skipped. *)
Definition holds (ref : string) (e : ReverseEvent) (w : ReverseWorld) : Prop := events (tables w) !! ref = Some e ∧ rows_ok (tables w).
Lemma holds_frame ref e w w' : tables w' = tables w → holds ref e w → holds ref e w'.
Proof. unfold holds. by intros ->. Qed.
Lemma holds_query {A} ref e (f : ReverseWorld → A) : hoare (holds ref e) (query env f) (λ _, True).
Proof. intros w Hw. unfold query, statement. by destruct (env_db_err env (db_calls w)). Qed.
Lemma holds_other ref e w w' : holds ref e w →
  inv true (λ k, k ≠ ref) (events (tables w)) (mappings (tables w)) (pds w) (λ _, True) (λ _, True) (logs w) w' → holds ref e w'.
Proof. intros [He _] (_ & _ & [Hr Ho] & _). split; [|by apply Hr]. rewrite Ho; [done|]. intros Hne. by apply Hne. Qed.
Lemma holds_start ref e w : holds ref e w →
  inv true (λ k, k ≠ ref) (events (tables w)) (mappings (tables w)) (pds w) (λ _, True) (λ _, True) (logs w) w.
Proof. intros [_ Hr]. by apply inv_start. Qed.
Lemma holds_process ref e src : is_final (Some e) = true → hoare (holds ref e) (process src false) (λ _, True).
Proof.
  intros Hf w Hw. split; [|done]. destruct (decide (TrimSpace (src_Ref src) = ref)) as [Hr|Hr].
  - destruct (process src false w) as [r w'] eqn:Hp. eapply holds_frame, Hw. apply process_final in Hp as (_ & ? & _); [done|].
    unfold ends_final. rewrite Hr. by destruct Hw as [-> _].
  - eapply holds_other; [exact Hw|]. by apply inv_process, holds_start with (e := e).
Qed.
Lemma retry_refused ref e w : GetReverseEvent ref (tables w) = Some e →
  EventState e ∈ [ReverseEventStatePublished; ReverseEventStateSkipped] →
  let w' := (RetryEvent content_value unmarshal_object env ref w).2 in tables w' = tables w ∧ pds w' = pds w.
Proof.
  intros He Hs. unfold RetryEvent. case_bool_decide; [done|]. unfold mbind, M_mbind, query, statement.
  destruct (env_db_err env (db_calls w)); [done|]. cbn [tables count_call].
  assert (GetReverseEvent (TrimSpace ref) (tables w) = Some e) as -> by (rewrite <-He; unfold GetReverseEvent; by rewrite TrimSpace_idemp).
  replace (_ || _) with true; [done|]. symmetry. by apply elem_of_cons in Hs as [->|[->|?%elem_of_nil]%elem_of_cons].
Qed.
Lemma holds_retry ref e ref' w : holds ref e w →
  (TrimSpace ref' = ref → EventState e ∈ [ReverseEventStatePublished; ReverseEventStateSkipped]) →
  holds ref e (RetryEvent content_value unmarshal_object env ref' w).2.
Proof.
  intros Hw Hst. destruct (decide (TrimSpace ref' = ref)) as [Hr|Hr].
  - eapply holds_frame, Hw. apply (retry_refused ref' e); [|by apply Hst]. unfold GetReverseEvent. rewrite Hr. apply Hw.
  - eapply holds_other; [exact Hw|]. apply inv_retry; [done|done|by left|by apply holds_start with (e := e)].
Qed.
Lemma holds_operations ref e ops w : is_final (Some e) = true → holds ref e w →
  (∀ ref', ORetryEvent ref' ∈ ops → TrimSpace ref' = ref → EventState e ∈ [ReverseEventStatePublished; ReverseEventStateSkipped]) →
  holds ref e (foldl (λ w o, run_operation o w) w ops).
Proof.
  intros Hf. revert w. induction ops as [|o ops IH]; intros w Hw Hops; [done|]. cbn [foldl].
  apply IH; [|intros ref' Hin; apply Hops; by right].
  assert (Hp : ∀ src, hoare (holds ref e) (process src false) (λ _, True)) by (intros src; by apply holds_process).
  assert (Hs : ∀ k v, hoare (holds ref e) (db_SetBridgeState env k v) (λ _, True)).
  { intros k v w0 Hw0. unfold db_SetBridgeState, statement. by destruct (env_db_err env (db_calls w0)). }
  assert (Hn : hoare (holds ref e) (now env) (λ _, True)) by by intros w0 Hw0.
  assert (Hq : ∀ A (f : ReverseWorld → A), hoare (holds ref e) (query env f) (λ _, True)) by (intros A f; apply holds_query).
  destruct o as [n|n|ref']; cbn [run_operation]; [by eapply keeps_runOnce|by eapply keeps_batch|].
  apply holds_retry; [done|]. apply Hops. left.
Qed.
Lemma process_rows src force w : rows_ok (tables w) → rows_ok (tables (process src force w).2).
Proof.
  intros Hr. destruct (inv_process true anyone (events (tables w)) (mappings (tables w)) (pds w) (λ _, True) (λ _, True) (logs w)
    ltac:(done) src force I w) as [(_ & _ & [Hrows _] & _) _]; [by apply inv_start|by apply Hrows].
Qed.

(** C29. A message is mirrored at most once. When processing it has called the server
    and returned without an error, its row is final. Whatever is processed afterwards -
    any batches over the receive log, any retries of other messages, with any failures
    - the row stays as it is, and processing the message again calls nobody. When the
    row is published, or skipped, retries of the message itself are among what may
    happen in between, and do not call the server either; a failed or deferred message
    is called for again only by its own retry. *)
Theorem mirrored_at_most_once src w w1 : rows_ok (tables w) →
  process src false w = (Ok tt, w1) → pds w1 ≠ pds w →
  ∃ e, GetReverseEvent (src_Ref src) (tables w1) = Some e ∧ EventState e ≠ ReverseEventStatePending ∧
  ∀ ops, (∀ ref, ORetryEvent ref ∈ ops → TrimSpace ref = TrimSpace (src_Ref src) →
            EventState e ∈ [ReverseEventStatePublished; ReverseEventStateSkipped]) →
  let w2 := foldl (λ w o, run_operation o w) w1 ops in
  GetReverseEvent (src_Ref src) (tables w2) = Some e ∧
  (∀ r w3, process src false w2 = (r, w3) → pds w3 = pds w2 ∧ tables w3 = tables w2) ∧
  (EventState e ∈ [ReverseEventStatePublished; ReverseEventStateSkipped] →
     pds (RetryEvent content_value unmarshal_object env (src_Ref src) w2).2 = pds w2).
Proof.
  intros Hrows Hp Hne. pose proof (process_rows src false w Hrows) as Hrows1. rewrite Hp in Hrows1.
  apply process_ok in Hp as [?|(m & content & w0 & Ep & _ & Hm)]; [done|].
  apply mirror_spec in Hm as [E|Hf]; [by rewrite E, Ep in Hne|]. unfold ends_final in Hf. cbn [src_Ref trimmed] in Hf.
  destruct (events (tables w1) !! TrimSpace (src_Ref src)) as [e|] eqn:He; [|done]. exists e. split; [exact He|].
  split; [intros E; cbn in Hf; by rewrite E in Hf|]. intros ops Hops w2.
  destruct (holds_operations (TrimSpace (src_Ref src)) e ops w1 Hf (conj He Hrows1) Hops) as [He2 _]. fold w2 in He2.
  split_and!; [exact He2| |intros Hs; by apply (retry_refused _ e)].
  intros r w3 Hp3. apply process_final in Hp3 as (? & ? & _); [done|]. unfold ends_final. by rewrite He2.
Qed.

(** Retrying is for open events only: a retry that reaches the server is of an
    event in the table that is neither published nor skipped. *)
Theorem retry_only_open_events ref w :
  pds (RetryEvent content_value unmarshal_object env ref w).2 ≠ pds w →
  ∃ e, GetReverseEvent ref (tables w) = Some e ∧ EventState e ∉ [ReverseEventStatePublished; ReverseEventStateSkipped].
Proof.
  unfold RetryEvent. case_bool_decide; [done|]. unfold mbind at 1, M_mbind at 1, query, statement.
  destruct (env_db_err env (db_calls w)); [done|]. cbn [tables count_call].
  assert (GetReverseEvent (TrimSpace ref) (tables w) = GetReverseEvent ref (tables w)) as -> by (unfold GetReverseEvent; by rewrite TrimSpace_idemp).
  destruct (GetReverseEvent ref (tables w)) as [e|]; [|done]. destruct (_ || _) eqn:Es; [done|]. intros _. exists e. split; [done|].
  apply orb_false_iff in Es as [E1%bool_decide_eq_false E2%bool_decide_eq_false]. rewrite !not_elem_of_cons. split_and!; [done..|apply not_elem_of_nil].
Qed.

(** ** Batches *)
#[local] Abbreviation batch := (ProcessBatch content_value unmarshal_object env).
#[local] Abbreviation seqs := (process_seqs content_value unmarshal_object env).
(** The cursor: [n] messages of the receive log are done. *)
Definition cursor (n : Z) (s : gmap string string) : Prop :=
  s !! reverseReceiveLogSeqKey = Some (itoa n) ∨ n = 0 ∧ s !! reverseReceiveLogSeqKey = None.

Lemma process_frame src force w r w' : process src force w = (r, w') →
  state w' = state w ∧ logs w' = logs w ∧ mappings (tables w') = mappings (tables w).
Proof.
  intros Hp. destruct (inv_process false anyone (events (tables w)) (mappings (tables w)) (pds w) (λ _, True) (eq (state w)) (logs w)
    ltac:(done) src force I w) as [Hi _]; [by apply inv_start|]. rewrite Hp in Hi. destruct Hi as (? & _ & _ & ? & ?). done.
Qed.
Lemma read_cursor n w r w' : 0 <= n < 2 ^ 63 → cursor n (state w) → readLastProcessedSeq env w = (r, w') →
  w' = count_call w ∧ (r = Ok n ∨ ∃ e, env_db_err env (db_calls w) = Some e ∧ r = Err ("get reverse receive log seq: " +:+ e)).
Proof.
  intros Hn Hc. unfold readLastProcessedSeq, mbind, M_mbind, mwrap, query, statement.
  destruct (env_db_err env (db_calls w)) as [e|]; [intros [= <- <-]; split; [done|right; by exists e]|].
  destruct (Sscanf_itoa n Hn) as [Hb Hs]. cbn [count_call state]. destruct Hc as [->|[-> ->]]; cbn; [rewrite Hb, Hs|]; intros [= <- <-]; auto.
Qed.
Lemma process_seq_spec seq w r w' : process_seq content_value unmarshal_object env seq w = (r, w') →
  logs w' = logs w ∧ mappings (tables w') = mappings (tables w) ∧
  (r = Ok tt ∧ state w' = <[reverseReceiveLogSeqKey := itoa seq]> (state w) ∨ is_ok r = false ∧ state w' = state w).
Proof.
  unfold process_seq. intros [(msg & w1 & Hm & Hw)|[(e & Hm & ->)|(Hm & ->)]]%mbind_inv.
  - apply mwrap_ok in Hm. injection Hm as Hm <-. apply mbind_inv in Hw as [(u & w2 & Hp & Hw)|[(e & Hp & ->)|(Hp & ->)]].
    + apply process_frame in Hp as (Es & El & Em). rewrite <-Es, <-El, <-Em. revert Hw.
      unfold mwrap, db_SetBridgeState, statement. destruct (env_db_err env _); intros [= <- <-]; split_and!; auto.
    + apply process_frame in Hp as (-> & -> & ->). split_and!; auto.
    + apply process_frame in Hp as (-> & -> & ->). split_and!; auto.
  - unfold mwrap in Hm. injection Hm as _ <-. split_and!; auto.
  - unfold mwrap in Hm. injection Hm as _ <-. split_and!; auto.
Qed.
Lemma process_seqs_spec n seq currentSeq processed w k e w' :
  1 <= seq → currentSeq < 2 ^ 63 - 1 → cursor (seq - 1) (state w) → seqs n seq currentSeq processed w = (Ok (k, e), w') →
  let m := k - processed in
  0 <= m <= Z.of_nat n ∧ m <= Z.max 0 (currentSeq - (seq - 1)) ∧ cursor (seq - 1 + m) (state w') ∧ logs w' = logs w ∧
  (e = None → m = Z.min (Z.of_nat n) (Z.max 0 (currentSeq - (seq - 1)))).
Proof.
  intros Hseq Hcur Hc Hrun. cbn zeta. revert seq processed w Hseq Hc Hrun. induction n as [|n IH]; intros seq processed w Hseq Hc; cbn [process_seqs].
  { intros [= <- <- <-]. rewrite Z.sub_diag, Z.add_0_r. split_and!; [lia..|done|done|lia]. }
  case_bool_decide as Hle; [|intros [= <- <- <-]; rewrite Z.sub_diag, Z.add_0_r; split_and!; [lia..|done|done|lia]].
  intros (r & w1 & Ht & Hw)%mbind_ok. unfold mtry in Ht. destruct (process_seq _ _ _ _ _) as [r0 w0] eqn:Hp.
  apply process_seq_spec in Hp as (El & _ & Hs). destruct r0 as [[]|err|]; simplify_eq; [|destruct Hs as [[? _]|[_ Es]]; [done|]].
  - destruct Hs as [[_ Es]|[? _]]; [|done]. rewrite int64_id in Hw by lia. apply (IH (seq + 1)) in Hw as (Hk1 & Hk2 & Hk3 & Hk4 & Hk5).
    + rewrite <-El, <-Hk4. replace (seq - 1 + (k - processed)) with (seq + 1 - 1 + (k - (processed + 1))) by lia.
      split_and!; [lia..|done|done|intros ->; specialize (Hk5 eq_refl); lia].
    + lia.
    + left. rewrite Es, lookup_insert_eq. repeat f_equal. lia.
  - injection Hw as <- <- <-. rewrite Z.sub_diag, Z.add_0_r, Es. split_and!; [lia..|done|done|done].
Qed.
Definition batch_size (n : Z) : Z := if bool_decide (n <= 0) then defaultReverseScanLimit else n.
Lemma batch_inv n w k e w' cur : receive_Seq (logs w) = Ok cur → batch n w = (Ok (k, e), w') →
  (cur < 1 ∧ k = 0 ∧ e = None ∧ w' = w) ∨
  1 <= cur ∧ ∃ r w1, readLastProcessedSeq env w = (r, w1) ∧
    match r with
    | Ok last => seqs (Z.to_nat (batch_size n)) (int64 (last + 1)) cur 0 w1 = (Ok (k, e), w')
    | Err err => k = 0 ∧ e = Some err ∧ w' = w1
    | Panic => False
    end.
Proof.
  intros Hcur. unfold ProcessBatch. intros (w0 & w1 & [= <- <-] & Hw)%mbind_ok. rewrite Hcur in Hw.
  case_bool_decide; [left; by injection Hw as <- <- <-|]. right. split; [lia|]. apply mbind_ok in Hw as (r & w1 & Ht & Hw).
  unfold mtry in Ht. destruct (readLastProcessedSeq env w) as [r0 w2]. exists r0, w2. split; [done|].
  destruct r0; simplify_eq; [exact Hw|]. by injection Hw as <- <- <-.
Qed.

(** The batches work through the receive log in order and skip nothing: from a
    cursor after message [last], a batch that reports [k] messages leaves the cursor
    after message [last + k], [k] is at most the batch size and never passes the end
    of the log, and without an error [k] is all that the size and the log allow. *)
Theorem batch_progress n w last cur k e w' :
  0 <= last < 2 ^ 63 - 1 → cursor last (state w) → receive_Seq (logs w) = Ok cur → cur < 2 ^ 63 - 1 →
  batch n w = (Ok (k, e), w') →
  0 <= k <= Z.min (batch_size n) (Z.max 0 (cur - last)) ∧ cursor (last + k) (state w') ∧ logs w' = logs w ∧
  (e = None → k = Z.min (batch_size n) (Z.max 0 (cur - last))).
Proof.
  intros Hl Hc Hcur Hmax Hb. assert (0 < batch_size n) by (unfold batch_size, defaultReverseScanLimit; case_bool_decide; lia).
  apply (batch_inv _ _ _ _ _ _ Hcur) in Hb as [(? & -> & -> & ->)|(Hpos & r & w1 & Hread & Hb)].
  - rewrite Z.add_0_r. split_and!; [lia..|done|done|lia].
  - apply (read_cursor last) in Hread as [-> [->|(err & _ & ->)]]; [..|lia|done].
    + rewrite int64_id in Hb by lia. apply process_seqs_spec in Hb as (Hk1 & Hk2 & Hk3 & Hk4 & Hk5);
        [|lia|done|by replace (last + 1 - 1) with last by lia].
      rewrite Z.sub_0_r in *. replace (last + 1 - 1) with last in * by lia. split_and!; [lia..|done|done|]. intros He. specialize (Hk5 He). lia.
    + destruct Hb as (-> & -> & ->). rewrite Z.add_0_r. split_and!; [lia..|done|done|done].
Qed.

(** ** Messages that cannot be decoded *)

(** The next message of the log is from a mapped author, has no final row, and its
    content does not decode to an object. *)
Record wedged (last : Z) (w : ReverseWorld) : Prop := {
  wedged_last : 0 <= last < 2 ^ 63 - 1;
  wedged_cursor : cursor last (state w);
  wedged_log : ∃ cur, receive_Seq (logs w) = Ok cur ∧ last < cur;
  wedged_message : ∃ msg m e, receive_Get (last + 1) (logs w) = Ok msg ∧
    let src := stored_source (last + 1) msg in
    src_Ref src ≠ "" ∧ src_Author src ≠ "" ∧ is_final (GetReverseEvent (src_Ref src) (tables w)) = false ∧
    GetReverseIdentityMapping (src_Author src) (tables w) = Some m ∧ Active m = true ∧
    decodeSSBContent content_value unmarshal_object (src_Raw src) = Err e
}.
Lemma process_undecodable src w m e r w' : TrimSpace (src_Ref src) ≠ "" → TrimSpace (src_Author src) ≠ "" →
  is_final (GetReverseEvent (TrimSpace (src_Ref src)) (tables w)) = false →
  GetReverseIdentityMapping (TrimSpace (src_Author src)) (tables w) = Some m → Active m = true →
  decodeSSBContent content_value unmarshal_object (src_Raw src) = Err e →
  process src false w = (r, w') → (∃ err, r = Err err) ∧ tables w' = tables w ∧ pds w' = pds w.
Proof.
  intros Hr Ha Hf Hm Hact Hd. unfold processDecodedMessage. rewrite !bool_decide_eq_false_2 by done. cbn [orb].
  intros [(b & w1 & Hb & Hw)|[(e' & Hb & ->)|(Hb & ->)]]%mbind_inv; apply load_spec in Hb as [-> Hb]; [|by eauto|by destruct Hb as [|[? [=]]]].
  destruct Hb as [[= ->]|[? [=]]]. cbn [src_Ref src_Author src_Raw] in Hw. rewrite Hf in Hw.
  apply mbind_inv in Hw as [(o & w1 & Ho & Hw)|[(e' & Ho & ->)|(Ho & ->)]]; apply query_spec in Ho as [-> Ho].
  - destruct Ho as [[= ->]|[? [=]]]. cbn [tables count_call] in Hw. rewrite Hm, Hact, Hd in Hw. cbn [negb] in Hw.
    unfold mwrap in Hw. destruct (persistReverseEvent _ _ _) as [r1 w1] eqn:Hp. apply persist_spec in Hp as (Ep & _ & _ & _ & _ & Hrow).
    destruct r1 as [u|err|]; [by destruct Hrow| |done]. injection Hw as <- <-. by split_and!; eauto.
  - by eauto.
  - by destruct Ho as [|[? [=]]].
Qed.
#[local] Abbreviation run_once := (runOnce content_value unmarshal_object env).
Lemma wedged_seqs n last cur w r w' : (0 < n)%nat → wedged last w → last < cur → seqs n (last + 1) cur 0 w = (r, w') →
  (∃ e, r = Ok (0, Some e)) ∧ tables w' = tables w ∧ pds w' = pds w ∧ state w' = state w ∧ logs w' = logs w.
Proof.
  intros Hn [Hl Hc _ (msg & m & e & Hmsg & Hr & Ha & Hf & Hm & Hact & Hd)] Hcur. destruct n as [|n]; [lia|]. cbn [process_seqs].
  rewrite bool_decide_eq_true_2 by lia. unfold mbind at 1, M_mbind at 1, mtry. unfold process_seq, mbind at 1, M_mbind at 1, mwrap at 1. rewrite Hmsg.
  cbn [wrap]. destruct ((processStoredMessage _ _ _ _ _ _ ≫= _) w) as [r1 w1] eqn:Hp.
  assert (TrimSpace (src_Ref (stored_source (last + 1) msg)) = src_Ref (stored_source (last + 1) msg)) as Er
    by (cbn; destruct (blank _); apply TrimSpace_idemp).
  assert (TrimSpace (src_Author (stored_source (last + 1) msg)) = src_Author (stored_source (last + 1) msg)) as Ea by apply TrimSpace_idemp.
  unfold processStoredMessage in Hp.
  assert ((∃ err, r1 = Err err) ∧ tables w1 = tables w ∧ pds w1 = pds w ∧ state w1 = state w ∧ logs w1 = logs w) as ((err & ->) & Ht & Ep & Es & El).
  { apply mbind_inv in Hp as [(u & w2 & Hp & _)|[(err & Hp & ->)|(Hp & ->)]]; pose proof (process_frame _ _ _ _ _ Hp) as (? & ? & _);
      apply (process_undecodable _ _ m e) in Hp as ((err' & Herr) & ? & ?); try done; try (by rewrite ?Er, ?Ea).
    split_and!; eauto. }
  intros [= <- <-]. by split_and!; eauto.
Qed.
Lemma wedged_batch n last w : wedged last w → ∃ e w', batch n w = (Ok (0, Some e), w') ∧ tables w' = tables w ∧ pds w' = pds w ∧
  state w' = state w ∧ logs w' = logs w.
Proof.
  intros Hw. pose proof Hw as [Hl Hc (cur & Hcur & Hlt) _].
  assert (0 < batch_size n) by (unfold batch_size, defaultReverseScanLimit; case_bool_decide; lia).
  unfold ProcessBatch, mbind, M_mbind, mget. rewrite Hcur, bool_decide_eq_false_2 by lia. unfold mtry.
  destruct (readLastProcessedSeq env w) as [r w1] eqn:Hread. apply (read_cursor last) in Hread as [-> [->|(err & _ & ->)]]; [..|lia|done].
  - rewrite int64_id by lia. fold (batch_size n).
    destruct (seqs (Z.to_nat (batch_size n)) (last + 1) cur 0 (count_call w)) as [r1 w1] eqn:Hs.
    apply wedged_seqs in Hs as ((e & ->) & Ht & Ep & Es & El); [|lia|by destruct Hw|done].
    exists e, w1. by rewrite Ht, Ep, Es, El.
  - by eexists _, _.
Qed.
Lemma wedged_bookkeeping last k v w : wedged last w → k ≠ reverseReceiveLogSeqKey →
  ∃ x w', mtry (db_SetBridgeState env k v) w = (Ok x, w') ∧ wedged last w' ∧ tables w' = tables w ∧ pds w' = pds w.
Proof.
  intros [Ha Hb Hc Hd] Hk. unfold mtry, db_SetBridgeState, statement. destruct (env_db_err env (db_calls w)); eexists _, _; (split; [done|]);
    (split; [|done]); (split; [done| |done..]); unfold cursor; cbn; by rewrite ?lookup_insert_ne.
Qed.
Lemma wedged_once n last w : wedged last w → let w' := (run_once n w).2 in wedged last w' ∧ tables w' = tables w ∧ pds w' = pds w.
Proof.
  intros Hw. cbn zeta. destruct (run_once n w) as [r w'] eqn:E. cbn [snd]. revert E. unfold runOnce, mbind at 1, M_mbind at 1.
  destruct (wedged_batch (if bool_decide (n <= 0) then defaultReverseScanLimit else n) last w Hw) as (e & w1 & -> & Ht & Ep & Es & El).
  assert (wedged last w1) as Hw1 by (destruct Hw; split; rewrite ?Ht, ?Ep, ?Es, ?El; done). rewrite <-Ht, <-Ep.
  unfold mbind, M_mbind, now. set (w2 := Build_ReverseWorld _ _ _ _ _ _ _ _). assert (wedged last w2) as Hw2 by (by destruct Hw1; split).
  destruct (wedged_bookkeeping last reverseLastScanAtKey (env_RFC3339 env (env_now env (clock w1))) w2 Hw2) as (x & w3 & -> & Hw3 & Ht3 & Ep3); [done|].
  destruct (wedged_bookkeeping last reverseLastErrorKey (default "" (0, Some e).2) w3 Hw3) as (y & w4 & -> & Hw4 & Ht4 & Ep4); [done|].
  intros [= <- <-]. split_and!; [exact Hw4|exact (eq_trans Ht4 Ht3)|exact (eq_trans Ep4 Ep3)].
Qed.

(** A message that does not decode stops the reverse sync for good. The event
    for it is built with an empty action, which the event table rejects, so the
    batch fails before the cursor moves: however often [runOnce] scans the log, and
    whatever the database does, the cursor stays, no later message is looked at and
    the server is never called again. *)
Theorem undecodable_message_wedges sizes last w :
  wedged last w →
  let w' := foldl (λ w n, (run_once n w).2) w sizes in
  cursor last (state w') ∧ tables w' = tables w ∧ pds w' = pds w.
Proof.
  revert w. induction sizes as [|n sizes IH]; intros w Hw; cbn [foldl].
  - by split; [apply Hw|].
  - destruct (wedged_once n last w Hw) as (Hw1 & Ht & Ep). destruct (IH _ Hw1) as (Hk & Ht' & Ep'). by rewrite Ht', Ep'.
Qed.

(** ** The row of a created record *)
Definition no_create (calls : list pds_call) : Prop := ∀ d c r, list.last calls ≠ Some (CCreateRecord d c r).
Definition mirrored (ref : string) (w : ReverseWorld) : Prop :=
  no_create (pds w) ∨ ∀ c, env_create env (pds w) = inr c → blank (URI c) = false →
    ∃ msg, messages w !! URI c = Some msg ∧ SSBMsgRef msg = ref ∧ ATCID msg = CID c ∧ MessageState msg = MessageStatePublished.
Lemma mirrored_frame ref w w' : pds w' = pds w → messages w' = messages w → mirrored ref w → mirrored ref w'.
Proof. unfold mirrored. by intros -> ->. Qed.
Lemma persist_mirrored ref e w w' : mirrored ref w → persistReverseEvent env e w = (Ok tt, w') → mirrored ref w'.
Proof. intros Hm (Ep & Em & _)%persist_spec. by eapply mirrored_frame. Qed.

Lemma enrich_calls (m : ReverseIdentityMapping) did e content r w x w' : enrich env did e content r w = (x, w') →
  ∃ calls, pds w' = pds w ++ calls ∧ Forall (λ c, ∃ d data mime, c = CUploadBlob d data mime) calls.
Proof.
  intros He. destruct (inv_enrich false anyone (events (tables w)) (mappings (tables w)) (pds w) (λ c, ∃ d data mime, c = CUploadBlob d data mime) (λ _, True) (logs w)
    did ltac:(intros data mime; by exists did, data, mime) e content r w) as [Hi _]; [by apply inv_start|]. rewrite He in Hi. apply Hi.
Qed.
Lemma no_create_uploads l calls : no_create l → Forall (λ c, ∃ d data mime, c = CUploadBlob d data mime) calls → no_create (l ++ calls).
Proof.
  intros Hl Hc. destruct calls as [|c calls] using rev_ind; [by rewrite app_nil_r|]. apply Forall_app in Hc as [_ Hc].
  apply Forall_singleton in Hc as (d & data & mime & ->). intros d' c' r'. by rewrite (assoc_L (++)), last_snoc.
Qed.
Lemma add_message_spec m w w' : db_AddMessage env m w = (Ok tt, w') →
  pds w' = pds w ∧ ∃ t, messages w' = table_AddMessage t m (messages w).
Proof.
  unfold db_AddMessage. intros (t & w1 & [= <- <-] & Hw)%mbind_ok. unfold statement in Hw. destruct (env_db_err env _); [done|].
  injection Hw as <-. split; [done|]. by eexists.
Qed.
Lemma correlation_fields e r : ATURI (correlation e r) = ResultATURI e ∧ SSBMsgRef (correlation e r) = SourceSSBMsgRef e ∧
  ATCID (correlation e r) = ResultATCID e ∧ MessageState (correlation e r) = MessageStatePublished.
Proof. unfold correlation. destruct r; try done. by destruct (Reply p) as [[]|]. Qed.
Lemma add_fields t m tbl : MessageState m = MessageStatePublished → ∃ row, table_AddMessage t m tbl !! ATURI m = Some row ∧
  SSBMsgRef row = SSBMsgRef m ∧ ATCID row = ATCID m ∧ MessageState row = MessageState m.
Proof.
  intros Hs. unfold table_AddMessage. rewrite normalize_uri, lookup_insert_eq. eexists. split; [done|].
  unfold normalize_message. rewrite Hs. by destruct (tbl !! ATURI m).
Qed.
Lemma publish_create_mirrored (m : ReverseIdentityMapping) did content r e w w' : no_create (pds w) → publish_create env did content r e w = (Ok tt, w') →
  mirrored (SourceSSBMsgRef e) w'.
Proof.
  intros Hn (x & w1 & Hx & Hw)%mbind_ok. unfold mtry in Hx. destruct (enrich env did e content r w) as [x0 w0] eqn:He.
  apply (enrich_calls m) in He as (calls & Ec & Hc). pose proof (no_create_uploads _ _ Hn Hc) as Hn0. rewrite <-Ec in Hn0.
  assert (w0 = w1) as -> by (by destruct x0; injection Hx as _ ->).
  destruct x as [[reason|r']|err|]; [..|done]; [by eapply persist_mirrored; [left|]| |by eapply persist_mirrored; [left|]].
  apply mbind_ok in Hw as (y & w2 & Hy & Hw). unfold mtry, pds_CreateRecord in Hy.
  destruct (env_create env (pds (set_pds (CCreateRecord did (ResultCollection e) r') w1))) as [err|c] eqn:Hcr; injection Hy as <- <-.
  - eapply persist_mirrored, Hw. right. intros c. by rewrite Hcr.
  - apply mbind_ok in Hw as (t & w3 & [= <- <-] & Hw). apply mbind_ok in Hw as (u & w4 & Hadd & Hw).
    eapply persist_mirrored, Hw. right. intros c' Hc' Hb. apply mwrap_ok in Hadd. unfold persistForwardCorrelation in Hadd. cbn [ResultATURI ev_with_result] in Hadd.
    destruct (blank (URI c)) eqn:Hbc.
    + injection Hadd as <- <-. pose proof (eq_trans (eq_sym Hcr) Hc') as [= <-]. by rewrite Hbc in Hb.
    + destruct u. apply add_message_spec in Hadd as [Ep [t' Et]]. rewrite Ep in Hc'. pose proof (eq_trans (eq_sym Hcr) Hc') as [= <-].
      destruct (correlation_fields (ev_with_result (env_now env (clock (set_pds (CCreateRecord did (ResultCollection e) r') w1)))
        (URI c) (CID c) (RawRecordJSON c) e) r') as (Eu & Es & Eid & Est). destruct (add_fields t' _ (messages w1) Est) as (msg & Hmsg & Hs & Hid & Hst).
      exists msg. rewrite Et, Hs, Hid, Hst, Es, Eid, Est. split_and!; [|done..]. rewrite Eu in Hmsg. exact Hmsg.
Qed.
Lemma no_create_snoc l c : (∀ d k r, c ≠ CCreateRecord d k r) → no_create (l ++ [c]).
Proof. intros Hc d k r. rewrite last_snoc. intros [= ->]. by apply (Hc d k r). Qed.
Lemma publish_delete_mirrored did uri e w w' : publish_delete env did uri e w = (Ok tt, w') → mirrored (SourceSSBMsgRef e) w'.
Proof.
  intros (y & w1 & Hy & Hw)%mbind_ok. unfold mtry, pds_DeleteRecord in Hy.
  destruct (env_delete env _); injection Hy as <- <-; [|apply mbind_ok in Hw as (t & w2 & [= <- <-] & Hw)];
    (eapply persist_mirrored, Hw; left; by apply no_create_snoc).
Qed.
Lemma publish_mirrored (m : ReverseIdentityMapping) content e r uri w w' : publish env content (e, r, uri) w = (Ok tt, w') →
  pds w' = pds w ∨ mirrored (SourceSSBMsgRef e) w'.
Proof.
  unfold publish. destruct (resolveCredential env (ev_ATDID e)) as [reason|cred]; [by intros [Ep _]%persist_spec; left|].
  intros (t & w1 & [= <- <-] & Hw)%mbind_ok. right. apply mbind_ok in Hw as (y & w2 & Hy & Hw). unfold mtry, pds_NewSession in Hy.
  assert (no_create (pds w2)) as Hn by (destruct (env_new_session env _); injection Hy as _ <-; by apply no_create_snoc).
  destruct y as [u|err|]; [|by eapply persist_mirrored, Hw; left|done]. set (e1 := ev_with_attempt 1 _ e) in Hw.
  change (SourceSSBMsgRef e) with (SourceSSBMsgRef e1). destruct (bool_decide _); [by eapply publish_delete_mirrored|].
  destruct r as [r|]; [by eapply (publish_create_mirrored m)|done].
Qed.
(** The row of the other direction for a record that a run created last. *)
Lemma created_row src force w w1 d coll r c :
  process src force w = (Ok tt, w1) → pds w1 ≠ pds w → list.last (pds w1) = Some (CCreateRecord d coll r) →
  env_create env (pds w1) = inr c → blank (URI c) = false →
  ∃ msg, messages w1 !! URI c = Some msg ∧ SSBMsgRef msg = TrimSpace (src_Ref src) ∧ ATCID msg = CID c ∧
    MessageState msg = MessageStatePublished.
Proof.
  intros Hp Hne Hlast Hc Hb. apply process_ok in Hp as [?|(m & content & w0 & Ep & _ & Hm)]; [done|].
  apply mbind_ok in Hm as (p & w2 & Hbuild & Hm). apply plan_spec in Hbuild as [Ep2 Hok]. rewrite <-Ep, <-Ep2 in Hne.
  destruct p as [[[e r0] uri]|]; [|by injection Hm as <-]. destruct Hok as ((Eref & _) & _).
  assert (pds w1 = pds w2 ∨ mirrored (SourceSSBMsgRef e) w1) as [?|[Hn|Hrow]].
  { destruct (_ || _); [left; by apply persist_spec in Hm as [? _]|by eapply publish_mirrored]. }
  - done.
  - by apply Hn in Hlast.
  - rewrite Eref in Hrow. by apply Hrow.
Qed.

(** ** Enriching a post *)
Section Enriching.
Context (Hdb : ∀ n, env_db_err env n = None) (Hclose : ∀ h, env_close_err env h = None).
(** A run always returns, with a result that satisfies [Q]. *)
Definition returns {A} (m : M ReverseWorld A) (Q : A → Prop) : Prop := ∀ w, ∃ a w', m w = (Ok a, w') ∧ Q a.
Lemma returns_ret {A} (a : A) (Q : A → Prop) : Q a → returns (mret a) Q.
Proof. intros Ha w. by exists a, w. Qed.
Lemma returns_bind {A B} (m : M ReverseWorld A) (k : A → M ReverseWorld B) Q R :
  returns m Q → (∀ a, Q a → returns (k a) R) → returns (mbind k m) R.
Proof. intros Hm Hk w. destruct (Hm w) as (a & w1 & E & Ha). unfold mbind, M_mbind. rewrite E. by apply Hk. Qed.
Lemma returns_query {A} ctx (f : ReverseWorld → A) : returns (mwrap ctx (query env f)) (λ _, True).
Proof. intros w. unfold mwrap, query, statement. rewrite Hdb. by eexists _, _. Qed.

Lemma returns_upload Get did feed link mime : returns (upload env Get did feed link mime) (λ _, True).
Proof.
  unfold upload. destruct (ParseBlobRef link) as [b|e|] eqn:Hb; [|by apply returns_ret|].
  - apply (returns_bind _ _ (λ _, True)).
    { intros w. unfold read_blob. repeat case_match; by eexists _, _. }
    intros [data|] _; [|by apply returns_ret]. apply (returns_bind _ _ (λ _, True)); [intros w; by eexists _, _|].
    intros [u|] _; [rewrite Hclose|]; by apply returns_ret.
  - exfalso. revert Hb. unfold ParseBlobRef, decode_blob, NewBlobRef. by repeat case_match.
Qed.
(** What a state of the embeds owes to the mentions seen. *)
Definition embeds_ok (seen : list (gmap string json)) (refs : gset string) (images : list Image) : Prop :=
  (length images <= maxReverseImageEmbeds)%nat ∧ ∀ m, m ∈ seen → is_blob (link_of m) = true → link_of m ∈ refs.
Lemma returns_embed_mention Get did feed seen st mention : embeds_ok seen st.2 st.1.1 →
  returns (embed_mention env Get did feed st mention)
    (λ x, match x with inl _ => True | inr st' => embeds_ok (seen ++ [mention]) st'.2 st'.1.1 end).
Proof.
  destruct st as [[images seenRefs] refs]. intros [Hn Hin]. unfold embed_mention.
  assert (∀ images', (length images' <= maxReverseImageEmbeds)%nat → embeds_ok (seen ++ [mention]) ({[link_of mention]} ∪ refs) images') as Hadd.
  { intros images' Hn'. split; [done|]. intros m [Hm| ->%list_elem_of_singleton]%elem_of_app Hb; [|set_solver]. specialize (Hin m Hm Hb). set_solver. }
  destruct (negb (is_blob _)) eqn:Eb.
  { apply returns_ret. split; [done|]. intros m [Hm| ->%list_elem_of_singleton]%elem_of_app Hb; [by apply Hin|]. by rewrite Hb in Eb. }
  destruct (seenRefs !! _); [destruct (mismatch _ _); apply returns_ret; [done|by apply Hadd]|].
  eapply returns_bind; [apply returns_query|]. intros meta _.
  repeat (match goal with |- returns (if ?b then _ else _) _ => destruct b eqn:?; [by apply returns_ret|] end).
  eapply returns_bind; [apply returns_upload|]. intros [reason|b] _; [by apply returns_ret|].
  repeat (match goal with |- returns (if ?b then _ else _) _ => destruct b; [by apply returns_ret|] end). apply returns_ret, Hadd.
  cbn. rewrite length_app. cbn. match goal with H : bool_decide (maxReverseImageEmbeds <= _)%nat = false |- _ => apply bool_decide_eq_false in H end. lia.
Qed.
Lemma returns_embed_mentions Get did feed seen st mentions : embeds_ok seen st.2 st.1.1 →
  returns (embed_mentions env Get did feed st mentions)
    (λ x, match x with inl _ => True | inr st' => embeds_ok (seen ++ mentions) st'.2 st'.1.1 end).
Proof.
  revert seen st. induction mentions as [|m mentions IH]; intros seen st Hok; cbn [embed_mentions].
  - apply returns_ret. by rewrite app_nil_r.
  - eapply returns_bind; [by apply returns_embed_mention|]. intros [reason|st'] Hst; [by apply returns_ret|].
    change (m :: mentions) with ([m] ++ mentions). rewrite (assoc_L (++)). by apply IH.
Qed.
Lemma returns_embeds did feed mentions : returns (buildReverseImageEmbeds env did feed mentions)
  (λ x, match x with inl _ => True | inr (images, refs) => embeds_ok mentions refs images end).
Proof.
  unfold buildReverseImageEmbeds. destruct (env_blob_store env) as [Get|].
  - eapply returns_bind; [apply (returns_embed_mentions Get did feed [] ([], ∅, ∅) mentions)|].
    + split; [cbn; unfold maxReverseImageEmbeds; lia|]. by intros m ?%elem_of_nil.
    + intros [reason|[[images seenRefs] refs]] Hx; by apply returns_ret.
  - apply returns_ret. destruct (existsb _ _) eqn:Ex; [done|]. split; [cbn; unfold maxReverseImageEmbeds; lia|].
    intros m Hm Hb. exfalso. apply not_true_iff_false in Ex. apply Ex, existsb_exists. exists m. split; [by apply list_elem_of_In|done].
Qed.
Lemma returns_mention_facets text refs st mentions : (∀ m, m ∈ mentions → is_blob (link_of m) = true → link_of m ∈ refs) →
  returns (mention_facets (db_ResolveATDIDBySSBFeed env) text refs st mentions) (λ _, True).
Proof.
  revert st. induction mentions as [|m mentions IH]; intros st Hin; cbn [mention_facets]; [by apply returns_ret|].
  apply (returns_bind _ _ (λ _, True)); [|intros st' _; apply IH; intros m' Hm'; apply Hin; by right].
  specialize (Hin m ltac:(left)). unfold mention_facet. fold (link_of m). destruct (_ || _) eqn:E1; [by apply returns_ret|].
  destruct (HasPrefix (link_of m) "&") eqn:E2.
  { apply orb_false_iff in E1 as [_ E1%bool_decide_eq_false]. exfalso. by apply E1, Hin. }
  repeat (match goal with |- returns (if ?b then _ else _) _ => destruct b; [try by apply returns_ret|] end); try by apply returns_ret.
  eapply returns_bind; [apply returns_query|]. intros [d|] _; [destruct (blank d)|]; by apply returns_ret.
Qed.

(** Enriching a post never fails by itself: while the database and the blob
    reader work, it either names a reason to defer the post or returns the post, the
    same reply, with at most four images and with its facets; a mention of a blob,
    which the facets would reject, has become an image before. *)
Theorem enrich_post_returns did feed content post w :
  ∃ x w', enrichReversePostRecord env did feed content post w = (Ok x, w') ∧
    match x with inl _ => True | inr p => (length (Images p) <= 4)%nat ∧ Reply p = Reply post end.
Proof.
  revert w. apply (returns_bind _ _ _ _ (returns_embeds did feed _)). intros [reason|[images refs]] Hx; [by apply returns_ret|].
  destruct Hx as [Hn Hin]. apply (returns_bind _ _ (λ _, True)); [|intros facets _; by apply returns_ret].
  unfold buildReverseFacets. destruct (_ && _); [by apply returns_ret|].
  eapply returns_bind; [by apply returns_mention_facets|]. intros st _. by apply returns_ret.
Qed.
End Enriching.
End Facts.
