(* ===== verification/ReverseCalls.v ===== *)
(** * What one message makes the reverse sync do

    The calls to the account's server that a message leads to, from its author, its
    content and the tables at the time. *)
From S2P Require Import Prelude GoStr GoBytes Refs Crypto Legacy Feedlog MessageDB ReverseText ReverseDB ReverseSync ReverseProofs.
#[local] Open Scope string_scope.
#[local] Open Scope list_scope.
#[local] Open Scope Z_scope.

Section Calls.
Context {js : JSON} {ed : Ed25519} {sh : Sha256} `{Float64} `{UnicodeCase}.
Context (content_value : Content → json) (unmarshal_object : bytes → result (gmap string json)).
Context (env : ReverseEnv).
Implicit Types w : ReverseWorld.

(** ** What a content asks for *)
Section Content.
Context (T : ReverseTables) (rows : gmap string Message) (author : string) (m : ReverseIdentityMapping) (content : gmap string json).





End Content.

(** ** Messages *)
#[local] Abbreviation process := (processDecodedMessage content_value unmarshal_object env).


End Calls.
