(* ===== verification/ReverseEcho.v ===== *)
(** * The two directions together

    A record that the reverse sync creates comes back on the firehose of the
    account's server. The row written with it makes the forward direction pass it
    over, so a message is not bridged back to where it came from. *)
From S2P Require Import Prelude GoStr GoBytes Refs Crypto Mapper MessageDB Lifecycle Processor Legacy Feedlog ReverseText ReverseDB ReverseSync ReverseProofs.
#[local] Open Scope string_scope.
#[local] Open Scope list_scope.
#[local] Open Scope Z_scope.

Section Echo.
Context {js : JSON} {ed : Ed25519} {sh : Sha256} `{Float64} `{UnicodeCase} `{RecordDecoder}.
Context (content_value : Content → json) (unmarshal_object : bytes → result (gmap string json)) (env : ReverseEnv).
(** The forward processor on the same message table. *)
Context (penv : Lifecycle.Env) (resolver : option (ctx → string → M (Lifecycle.World MessageDB.table) unit)).
Implicit Types w : ReverseWorld.

(** C28. No echo: when a run of the reverse sync ends with the creation of a record
    that the server answered with an address and a hash, the forward processor, run
    on the same table, succeeds on that record without publishing anything and
    without changing the table. *)
Theorem created_record_not_echoed src force w w1 d coll r c :
  processDecodedMessage content_value unmarshal_object env src force w = (Ok tt, w1) →
  pds w1 ≠ pds w → list.last (pds w1) = Some (CCreateRecord d coll r) →
  env_create env (pds w1) = inr c → blank (URI c) = false → blank (CID c) = false → blank (src_Ref src) = false →
  ∀ pc did collection json (pw pw' : Lifecycle.World MessageDB.table) out,
    w_store pw = messages w1 → env_get_err penv (URI c) = None →
    ProcessRecord penv resolver pc did (URI c) (CID c) collection json pw = (out, pw') →
    out = Ok tt ∧ w_store pw' = w_store pw ∧ w_published pw' = w_published pw.
Proof.
  intros Hp Hne Hlast Hc Hu Hi Hr pc did collection json pw pw' out Hpw Hget Hrun.
  destruct (created_row content_value unmarshal_object env src force w w1 d coll r c) as (msg & Hmsg & Href & Hid & _); [done..|].
  assert (is_duplicate (GetMessage (URI c) (w_store pw)) (CID c) = true) as Hdup.
  { rewrite Hpw. change (GetMessage (URI c) (messages w1)) with (messages w1 !! URI c). rewrite Hmsg. unfold is_duplicate.
    rewrite Href, Hid, Hi. unfold blank in *. rewrite TrimSpace_idemp, Hr. by rewrite bool_decide_eq_true_2. }
  assert (out = Ok tt) as ->.
  { revert Hrun. unfold ProcessRecord, mbind, M_mbind, mwrap, db_GetMessage. 
    destruct (ensureDependencyContext pc (URI c) pw) as [rc pw1] eqn:Ec.
    assert (∃ c2, rc = Ok c2) as [c2 ->] by (destruct pc; simpl in Ec; naive_solver).
    apply context_frame in Ec as (Es & Ep & _). rewrite Hget. cbn. cbn in Hdup. rewrite Es, Hdup. by intros [= <- _]. }
  split; [done|]. apply process_record_ok in Hrun as [_ Hrun]. by rewrite Hdup in Hrun.
Qed.
End Echo.

(** The row the reverse sync writes for a created record claims no attempt, which the
    rows of the forward processor always do. *)
Lemma correlation_breaks_rows e r : ¬ Lifecycle.row_ok (correlation e r).
Proof.
  intros (_ & _ & _ & _ & Hp). unfold correlation in Hp. destruct r as [p| | | |]; [destruct (Reply p) as [[]|]|..]; by specialize (Hp eq_refl).
Qed.
