(* ===== verification/Scenarios.v ===== *)
(** * Concrete runs

    A small instance of the bridge's collaborators, and runs of the processor on
    it: behaviours that need a particular sequence of events to show. *)
From S2P Require Import Prelude GoStr Mapper MessageDB Lifecycle RateLimit Processor.
From S2P Require Import Dependencies Deferred Bridge.
#[local] Open Scope string_scope.
#[local] Open Scope list_scope.
#[local] Open Scope Z_scope.

(** ** Collaborators *)

(** The posts of the thread A, B, C: A is the root, B replies to A, C replies to
    B; anything else decodes to a plain post. *)
Definition uri_A := "at://did:plc:x/app.bsky.feed.post/a".
Definition uri_B := "at://did:plc:x/app.bsky.feed.post/b".
Definition uri_C := "at://did:plc:x/app.bsky.feed.post/c".

Definition reply_to (root parent : string) : FeedPost_ReplyRef :=
  {| Root := Some {| Uri := root |}; Parent := Some {| Uri := parent |} |}.
Definition demo_post (raw : string) : FeedPost := {|
  Text := "text"; Facets := []; Tags := [];
  Reply := if bool_decide (raw = "B") then Some (reply_to uri_A uri_A)
           else if bool_decide (raw = "C") then Some (reply_to uri_A uri_B)
           else None;
  Embed := None |}.

#[local] Instance demo_decoder : RecordDecoder := {|
  decodePost raw := Ok (demo_post raw);
  decodeSubject raw := Ok (if bool_decide (raw = "") then None else Some {| Uri := raw |});
  decodeGraphSubject raw := Ok raw;
  decodeProfile raw := Err "not a profile";
  decodeList raw := Err "not a list";
  decodeListItem raw := Err "not a list item";
  decodeThreadgate raw := Err "not a threadgate"
|}.

(** The payload a stored JSON text decodes to: the unresolved vote, or nothing. *)
Definition stale_vote : msg :=
  <["_atproto_subject" := VStr uri_A]> (<["type" := VStr "vote"]> ∅).

Definition demo_env : Env := {|
  env_publish := Some (λ calls did content, inl ("%ref" +:+ itoa (Z.of_nat (length calls))));
  env_blob := None;
  env_account did := Ok (Some {| acc_SSBFeedID := "@feed"; acc_Active := true |});
  env_feedResolver := None;
  env_get_err uri := None;
  env_add_err k := None;
  env_now k := 10 ^ 18;
  env_quote s := quoted s;
  env_marshal m := Ok "payload";
  env_unmarshal s := if bool_decide (s = "stale") then Ok stale_vote else Err "bad json"
|}.

Definition rest : ResolverState := Build_ResolverState [] [] ∅.
Definition demo_world (l : list Message) : World table :=
  Build_World (foldr (λ m t, <[ATURI m := m]> t) ∅ l) 0 0 [] ∅ rest.

Definition deferred_row (uri collection rawAT rawSSB reason : string) (last : Z) : Message :=
  with_defer reason 1 (Some last)
    (new_message uri "cid" "did:plc:x" collection MessageStateDeferred rawAT rawSSB).

(** ** A reply thread is not collapsed in one pass *)

(** A waits for nothing any more; C was last tried before B. *)
Definition thread : World table := demo_world
  [ deferred_row uri_A RecordTypePost "A" "" "_atproto_contact=did:plc:y" 1;
    deferred_row uri_B RecordTypePost "B" ""
      ("_atproto_reply_root=" +:+ uri_A +:+ ";_atproto_reply_parent=" +:+ uri_A) 3;
    deferred_row uri_C RecordTypePost "C" ""
      ("_atproto_reply_root=" +:+ uri_A +:+ ";_atproto_reply_parent=" +:+ uri_B) 2 ].

Definition state_of (uri : string) (w : World table) : string :=
  match GetMessage uri (w_store w) with Some m => MessageState m | None => "" end.

(** The cascade does not collapse a reply thread in one pass: of the thread
    A, B, C, with C listed before B, C is tried when A has been published and B
    has not, and is not tried again once B is, so C stays deferred although
    everything it waits for is published. *)
Theorem thread_needs_second_pass :
  let r := ResolveDeferredMessages demo_env None None 0 thread in
  r.1 = Ok (Build_DeferredResolveResult 3 3 2 1 0) ∧
  state_of uri_A r.2 = MessageStatePublished ∧
  state_of uri_B r.2 = MessageStatePublished ∧
  state_of uri_C r.2 = MessageStateDeferred ∧
  (ResolveDeferredMessages demo_env None None 0 r.2).1 =
    Ok (Build_DeferredResolveResult 1 1 1 0 0).
Proof. by vm_compute. Qed.

(** ** An expired message is retried with its placeholders *)
Definition stale_row : Message :=
  deferred_row uri_B RecordTypeLike "B" "stale" ("_atproto_subject=" +:+ uri_A) 1.
Definition stale : World table := demo_world [stale_row].

Definition leaks (p : msg) : bool := bool_decide (is_Some (p !! "_atproto_subject")).

(** Sanitizing is skipped on the retry path: a deferred like that expires is
    then retried with the payload it was stored with, and the payload published
    carries the internal [_atproto_subject] field, which [SanitizeForPublish]
    says must never be published. *)
Theorem retry_publishes_placeholders :
  let w1 := (ExpireDeferredMessages demo_env None 1 0 stale).2 in
  let r := RetryFailedMessages demo_env None (Build_RetryConfig 0 "" 0 0) w1 in
  state_of uri_B w1 = MessageStateFailed ∧
  r.1 = Ok (Build_RetryResult 1 1 1 0 0) ∧
  (leaks ∘ snd) <$> w_published r.2 = [true] ∧
  internal_key "_atproto_subject" = true.
Proof. by vm_compute. Qed.

(** ** Witnesses: the properties at concrete inputs *)
Definition got {A} (d : A) (r : result A) : A := match r with Ok a => a | _ => d end.

Definition like_raw := "at://did:plc:y/app.bsky.feed.post/1".
Definition like_msg : msg := got ∅ (MapRecord RecordTypeLike "did:plc:x" like_raw).

Lemma resolved_record_publishable_witness :
  MapRecord RecordTypeLike "did:plc:x" like_raw = Ok like_msg ∧
  let m' := ReplaceATProtoRefs like_msg (λ _, "%ref") (λ _, "@feed") in
  UnresolvedATProtoRefs m' = [] ∧ ReadyForPublish (SanitizeForPublish m') = true.
Proof.
  split; [reflexivity|].
  apply (resolved_record_publishable RecordTypeLike "did:plc:x" like_raw); [reflexivity|..];
    intros; reflexivity.
Defined.

Lemma unresolved_reports_witness :
  UnresolvedATProtoRefs (ReplaceATProtoRefs like_msg (λ _, "") (λ _, "@feed")) =
    omap (left_unresolved (λ _, "") (λ _, "@feed") like_msg) unresolved_keys.
Proof.
  apply (unresolved_reports_failed_lookups RecordTypeLike "did:plc:x" like_raw). reflexivity.
Defined.

Lemma rich_text_preserved_witness :
  (rewriteRichText "hello" [None] ["tag"]).1 = "hello".
Proof.
  apply (rich_text_preserved "hello" [None] ["tag"]).
  intros f Hf. exfalso. apply list_elem_of_singleton in Hf. discriminate Hf.
Defined.

Lemma map_record_panics_witness :
  MapRecord RecordTypeRepost "did:plc:x" "" = Panic ↔
    (RecordTypeRepost = RecordTypeLike ∨ RecordTypeRepost = RecordTypeRepost) ∧
    decodeSubject "" = Ok None.
Proof. apply (map_record_panics_iff RecordTypeRepost "did:plc:x" ""); discriminate. Defined.

(** Two limiters, one of them idle. *)
#[local] Instance unit_limiter : RateLimiter unit := {| NewLimiter _ _ := tt; Allow _ _ := (true, tt) |}.
Definition two_limiters : RateLimiters unit :=
  (allow 300 90 "did:b" (allow 300 0 "did:a" (Build_RateLimiters ∅ ∅)).2).2.
Lemma two_limiters_ok : limiters_ok two_limiters.
Proof. apply allow_ok, allow_ok. done. Qed.

Lemma cleanup_exact_witness :
  limiters_ok (cleanupStaleRateLimiters 100 50 two_limiters) ∧
  (rateLimiters (cleanupStaleRateLimiters 100 50 two_limiters) !! "did:a" =
     if idle 100 50 two_limiters "did:a" then None else rateLimiters two_limiters !! "did:a").
Proof. apply (cleanup_exact two_limiters 100 50 "did:a"), two_limiters_ok. Defined.

(** A record event on the empty bridge. *)
Definition world0 : World table := demo_world [].
Definition after_A : M (World table) unit :=
  ProcessRecord demo_env None None "did:plc:x" uri_A "cid" RecordTypePost "A".
Definition world_A : World table := (after_A world0).2.
Definition row_A : Message := default (new_message "" "" "" "" "" "" "") (GetMessage uri_A (w_store world_A)).

Lemma process_record_replay_witness :
  blank (SSBMsgRef row_A) = false ∧
  ∃ w2, ProcessRecord demo_env None None "did:plc:x" uri_A "cid" RecordTypePost "A" world_A
          = (Ok tt, w2) ∧
        w_store w2 = w_store world_A ∧ w_published w2 = w_published world_A.
Proof.
  split; [by vm_compute|].
  apply (process_record_replay demo_env None None "did:plc:x" uri_A "cid" RecordTypePost "A"
    world0 world_A row_A); vm_compute; reflexivity.
Defined.

(** A delete of a repost that was seen before, and of the post A. *)
Definition repost_row : Message :=
  new_message uri_B "cid" "did:plc:x" RecordTypeRepost MessageStatePublished uri_A "{}".
Definition world_repost : World table := demo_world [repost_row].

Lemma delete_without_reversal_witness :
  let r := ProcessDeletedRecord demo_env None None "did:plc:x" uri_B "" RecordTypeRepost "" 7
             world_repost in
  r.1 ≠ Ok tt ∧ w_store r.2 = w_store world_repost ∧
  w_published r.2 = w_published world_repost.
Proof.
  apply (delete_without_reversal demo_env None None "did:plc:x" uri_B "" RecordTypeRepost "" 7
    world_repost); by vm_compute.
Defined.

Lemma delete_marks_row_witness :
  let r := ProcessDeletedRecord demo_env None None "did:plc:x" uri_A "" RecordTypePost "" 7
             world_A in
  let old := GetMessage uri_A (w_store world_A) in
  r.1 = Ok tt ∧ w_published r.2 = w_published world_A ∧
  ∃ m, GetMessage uri_A (w_store r.2) = Some m ∧ MessageState m = MessageStateDeleted ∧
    DeletedSeq m = Some 7 ∧ SSBMsgRef m = "" ∧ ATDID m = "did:plc:x" ∧
    ATCID m = deleted_cid old "" 7 ∧
    PublishAttempts m = default 0 (PublishAttempts <$> old).
Proof.
  apply (delete_marks_row demo_env None None "did:plc:x" uri_A "" RecordTypePost "" 7 world_A);
    by vm_compute.
Defined.

Lemma process_record_effects_witness :
  (w_published world_A = w_published world0 ∨
     ∃ p, w_published world_A = w_published world0 ++ [("did:plc:x", p)] ∧ payload_ok p) ∧
  (Ok tt ≠ Ok tt → w_store world_A = w_store world0) ∧
  (Ok tt ≠ Ok tt → w_published world_A ≠ w_published world0 →
     ∃ k e, env_add_err demo_env k = Some e).
Proof.
  apply (process_record_effects demo_env None "did:plc:x" uri_A "cid" RecordTypePost "A").
  vm_compute; reflexivity.
Defined.

(** A commit with one post, and one whose parsing fails. *)
Definition demo_commit (repo : string) : Commit := {|
  evt_Repo := repo; evt_Seq := 42;
  evt_Ops := [{| Action := "create"; Path := "app.bsky.feed.post/a"; Cid := Some "cid" |}] |}.
Definition demo_parse (c : Commit) : result unit :=
  if bool_decide (evt_Repo c = "did:bad") then Err "bad car" else Ok tt.
Definition demo_commit_run (c : Commit) : result unit * (World table * RateLimiters unit) :=
  HandleCommit demo_env None 300 (λ _ _, Ok (Some "A")) (λ s, Ok s) (λ _, None) demo_parse None
    (Some c) (world0, Build_RateLimiters ∅ ∅).

Lemma handle_commit_errors_witness :
  (demo_commit_run (demo_commit "did:bad")).1 = Err "parse commit: bad car" ∧
  ((∃ e0, env_account demo_env "did:bad" = Err e0 ∧
      "parse commit: bad car" = ("lookup bridged account " +:+ "did:bad" +:+ ": ") +:+ e0) ∨
   (∃ e0, demo_parse (demo_commit "did:bad") = Err e0 ∧
      "parse commit: bad car" = "parse commit: " +:+ e0)).
Proof.
  split; [by vm_compute|].
  apply (handle_commit_errors demo_env None 300 (λ _ _, Ok (Some "A")) (λ s, Ok s) (λ _, None)
    demo_parse None (demo_commit "did:bad") (world0, Build_RateLimiters ∅ ∅)
    (demo_commit_run (demo_commit "did:bad")).2).
  by vm_compute.
Defined.

Lemma world0_inv (P : msg → Prop) (J : ResolverState → gmap string string → Prop) :
  J rest ∅ → bridge_inv P J world0.
Proof.
  intros HJ. unfold bridge_inv. split; [|split; [|split]].
  - intros uri m Hm. change (@lookup _ _ (gmap string Message) _ uri ∅ = Some m) in Hm.
    by rewrite lookup_empty in Hm.
  - intros uri m Hm. change (@lookup _ _ (gmap string Message) _ uri ∅ = Some m) in Hm.
    by rewrite lookup_empty in Hm.
  - by apply Forall_nil.
  - exact HJ.
Qed.

Lemma handle_commit_cursor_witness :
  let w' := (demo_commit_run (demo_commit "did:plc:x")).2 in
  w_state w'.1 = <["firehose_seq" := itoa 42]> (w_state world0) ∧
  ParseInt (itoa 42) = Some 42.
Proof.
  apply (handle_commit_cursor demo_env None 300 (λ _ _, Ok (Some "A")) (λ s, Ok s) (λ _, None)
    demo_parse None (demo_commit "did:plc:x") {| acc_SSBFeedID := "@feed"; acc_Active := true |}
    (world0, Build_RateLimiters ∅ ∅)).
  - discriminate.
  - by apply world0_inv.
  - discriminate.
  - reflexivity.
  - reflexivity.
  - reflexivity.
  - by vm_compute.
  - reflexivity.
  - vm_compute; reflexivity.
Defined.

(** Two records that refer to each other, fetched on demand. *)
Definition demo_fetch (_ : list (nat * string)) (uri : string) : result FetchedRecord :=
  Ok {| rec_ATDID := "did:plc:x"; rec_ATURI := uri; rec_ATCID := "cid";
        rec_Collection := RecordTypeLike;
        rec_RecordJSON := if bool_decide (uri = uri_A) then uri_B else uri_A |}.
Definition no_wait (_ : string) : M (World table) unit := mfail "blocked".
Definition no_bottom (_ : ctx) (_ : string) : M (World table) unit := mfail "too deep".
Definition panics (_ : ctx) (_ : string) : M (World table) unit := mlift Panic.

Lemma rest_ok st : at_rest rest st.
Proof. split; [|done]. split; [done|]. intros p Hp. by apply elem_of_nil in Hp. Qed.

Lemma ensure_record_terminates_witness :
  ensure demo_env demo_fetch no_wait no_bottom 17 None uri_A world0 =
  ensure demo_env demo_fetch no_wait panics 40 None uri_A world0.
Proof.
  apply (ensure_record_terminates demo_env demo_fetch no_wait no_wait no_bottom panics 17 40);
    [apply world0_inv, rest_ok|unfold resolver_fuel, MaxDependencyDepth; lia..].
Defined.

Lemma resolve_deferred_terminates_witness :
  resolve_candidates demo_env None (λ _, mlift Panic) 4 [row_A; repost_row] world_A =
  resolve_candidates demo_env None (λ _, mret tt) 9 [row_A; repost_row] world_A.
Proof.
  apply (resolve_deferred_terminates demo_env None [row_A; repost_row]
    (λ _, mlift Panic) (λ _, mret tt) 4 9 world_A); simpl; lia.
Defined.

Lemma defer_reason_roundtrip_witness :
  parseDeferReasonURIs (Join (UnresolvedATProtoRefs stale_vote) ";") =
    omap (unresolved_uri stale_vote) unresolved_keys.
Proof.
  apply (defer_reason_roundtrip stale_vote). intros k raw Hk Hraw.
  unfold unresolved_keys in Hk. rewrite !elem_of_cons, elem_of_nil in Hk.
  destruct_or? Hk; subst; vm_compute in Hraw; try discriminate Hraw; try done.
  injection Hraw as <-. split; [reflexivity|left; reflexivity].
Defined.

Lemma retry_backoff_witness :
  retryBackoff (5 * second) 40 =
    (if bool_decide (40 <= 1) then 5 * second
     else Z.min (5 * second * 2 ^ (40 - 1)) (10 * minute)) ∧
  0 < retryBackoff (5 * second) 40 < 2 ^ 63.
Proof. apply (retry_backoff_closed_form (5 * second) 40). unfold second. lia. Defined.

Lemma stale_ok : table_ok (w_store stale).
Proof.
  intros uri m Hm.
  change (w_store stale) with (<[uri_B := stale_row]> (∅ : gmap string Message)) in Hm.
  destruct (decide (uri = uri_B)) as [->|Hu].
  - rewrite lookup_insert_eq in Hm. injection Hm as <-. reflexivity.
  - rewrite lookup_insert_ne in Hm by done. by rewrite lookup_empty in Hm.
Qed.

Lemma expire_fails_candidates_witness :
  let candidates := GetExpiredDeferredMessages (10 ^ 18 - 1) 500 (w_store stale) in
  ∃ w', ExpireDeferredMessages demo_env None 1 0 stale =
      (Ok (Build_ExpireResult (Z.of_nat (length candidates)) (Z.of_nat (length candidates)) 0),
       w') ∧
    (∀ m, m ∈ candidates → expired_row m (w_store w')) ∧
    (∀ uri, uri ∉ ATURI <$> candidates →
       GetMessage uri (w_store w') = GetMessage uri (w_store stale)).
Proof.
  apply (expire_fails_candidates demo_env 1 0 stale); [apply stale_ok|reflexivity].
Defined.

Definition expired_world : World table := (ExpireDeferredMessages demo_env None 1 0 stale).2.
Definition retry_cfg : RetryConfig := Build_RetryConfig 0 "" 0 0.
Definition retried : World table := (RetryFailedMessages demo_env None retry_cfg expired_world).2.

Lemma retry_accounts_witness :
  let candidates := GetRetryCandidates 100 "" 8 (w_store expired_world) in
  1 = Z.of_nat (length candidates) ∧
  1 = Z.of_nat (length (filter (due (10 ^ 18) (5 * second)) candidates)) ∧
  1 + 0 = 1 ∧ 1 + 0 = 1.
Proof.
  apply (retry_accounts demo_env retry_cfg expired_world retried (Build_RetryResult 1 1 1 0 0)).
  vm_compute; reflexivity.
Defined.

(** The whole bridge on a like whose subject is fetched, and its deferral. *)
Definition event_like : ATProtoRecordEvent := {|
  ev_DID := "did:plc:x"; ev_ATURI := uri_C; ev_ATCID := "cid"; ev_Collection := RecordTypeLike;
  ev_Action := "create"; ev_RecordJSON := uri_A; ev_Seq := Some 3 |}.
Definition event_post : ATProtoRecordEvent := {|
  ev_DID := "did:plc:x"; ev_ATURI := uri_C; ev_ATCID := "cid"; ev_Collection := RecordTypePost;
  ev_Action := "create"; ev_RecordJSON := "A"; ev_Seq := Some 4 |}.
Definition demo_run (ks : list call) : World table * RateLimiters unit :=
  run demo_env demo_fetch no_wait no_bottom None 300 (λ _ _, Ok (Some "A")) (λ s, Ok s)
    (λ _, None) demo_parse ks empty_bridge.
Definition history : list call := [CallRecord event_post; CallRecord event_like; CallResolve 0].
Definition first_published : string * msg := default ("", ∅) (head (w_published (demo_run history).1)).

Lemma log_is_clean_witness : payload_ok first_published.2.
Proof.
  apply (log_is_clean (Repo := unit) (L := unit) demo_env demo_fetch no_wait no_bottom None 300
    (λ _ _, Ok (Some "A")) (λ s, Ok s) (λ _, None) demo_parse history).
  - repeat constructor.
  - unfold first_published. apply head_Some_elem_of. vm_compute; reflexivity.
Defined.

Definition row_C : Message :=
  default (new_message "" "" "" "" "" "" "") (w_store (demo_run history).1 !! uri_C).
Lemma rows_well_formed_witness : table_well_formed ∅ ∧ w_store (demo_run history).1 !! uri_C = Some row_C ∧ row_ok row_C.
Proof.
  assert (w_store (demo_run history).1 !! uri_C = Some row_C) as Hrow by (vm_compute; reflexivity).
  split; [exact (map_Forall_empty _)|]. split; [exact Hrow|].
  exact (proj2 (rows_stay_well_formed (Repo := unit) (L := unit) demo_env demo_fetch no_wait no_bottom
    None 300 (λ _ _, Ok (Some "A")) (λ s, Ok s) (λ _, None) demo_parse history ∅ (map_Forall_empty _) uri_C row_C Hrow)).
Defined.

Lemma fetches_bounded_witness :
  let r := w_res (demo_run history).1 in
  inflight r = ∅ ∧
  Z.of_nat (length (fetches_of 0 r)) <= 256 ∧ NoDup (fetches_of 0 r).
Proof.
  pose proof (dependency_fetches_bounded (Repo := unit) (L := unit) demo_env demo_fetch no_wait
    no_bottom None 300 (λ _ _, Ok (Some "A")) (λ s, Ok s) (λ _, None) demo_parse history 0
    (default (fresh_scope "") (scopes (w_res (demo_run history).1) !! 0%nat))) as [H1 H2].
  split; [exact H1|]. apply H2. vm_compute; reflexivity.
Defined.
