(* ===== verification/ProtocolScenarios.v ===== *)
(** * Concrete runs of the protocol components

    The theorems of the codecs, identifiers, streams, the room and the replication
    handler applied at concrete inputs, with the parameters of the models replaced
    by concrete functions. *)
From stdpp Require Import relations.
From Stdlib Require Import Sorted.
From S2P Require Import Prelude GoStr GoBytes Base64 Refs Bfe Codec Boxstream Tid PublishQueue Tangle Roomstate Ebt.
#[local] Open Scope string_scope.
#[local] Open Scope list_scope.

(** ** A box that shows its nonce

    The last byte of the nonce, sixteen times, then the message in the clear. *)
Definition mark (n : bytes) : bytes := replicate 16 (default (chr 0) (head (rev n))).
#[local] Instance clear_box : SecretBox := {
  Boxstream.Seal m n k := mark n ++ m;
  Boxstream.Open box n k :=
    if decide (take 16 box = mark n) then Some (drop 16 box) else None }.
#[local] Instance clear_box_laws : SecretBoxLaws clear_box.
Proof.
  split.
  - intros m n k. cbv [Boxstream.Seal clear_box]. by rewrite length_app.
  - intros m n k. cbv [Boxstream.Open Boxstream.Seal clear_box].
    rewrite decide_True; [by rewrite drop_app_exact|by rewrite take_app_exact].
Qed.

Lemma clear_box_rejects k : next_nonce_rejects k.
Proof.
  intros m n Hn. cbv [Boxstream.Open Boxstream.Seal clear_box]. rewrite decide_False; [done|]. rewrite take_app_exact by done. unfold mark.
  intros E. assert (default (chr 0) (head (rev n)) = default (chr 0) (head (rev (incrementNonce n)))) as E'.
  { apply (f_equal head) in E. simpl in E. by injection E. }
  revert E'. unfold incrementNonce. rewrite rev_involutive.
  unfold nonce_wf in Hn. rewrite <-(length_rev n) in Hn. destruct (rev n) as [|x l]; [done|]. cbn [increment_from_last head default].
  pose proof (ord_bound x). case_bool_decide as Hx; cbn [negb head default id]; intros E'.
  - rewrite E' in Hx. vm_compute in Hx. discriminate.
  - apply (f_equal ord) in E'. rewrite ord_chr in E' by lia. lia.
Qed.

Definition zero_nonce : bytes := replicate 24 (chr 0).
Definition zero_key : bytes := replicate 32 (chr 0).
Lemma zero_nonce_wf : nonce_wf zero_nonce.
Proof. done. Qed.

Lemma whole_frames_witness :
  ∃ chunks, (encrypt_groups [[to_l "one"; to_l "two"]; [to_l "three"]] (NewBoxerEngine zero_nonce zero_key)).1 = Ok chunks ∧
    read_all 4 (NewUnboxer chunks zero_nonce zero_key) = ([to_l "one"; to_l "two"; to_l "three"], "EOF").
Proof.
  apply (whole_frames_received [[to_l "one"; to_l "two"]; [to_l "three"]] zero_nonce zero_key);
    [|apply zero_nonce_wf].
  apply (bool_decide_unpack _). vm_compute. exact I.
Defined.

(** The two frames "one" and "two", cut inside the body of the second. *)
Definition cut_chunks : list bytes :=
  let w := wire zero_key zero_nonce [to_l "one"; to_l "two"] in [take 72 w; drop 72 w].
Lemma reader_refines_sizes_witness :
  read_all 3 (NewUnboxer cut_chunks zero_nonce zero_key) =
    expected [to_l "one"; to_l "two"] 0 (length <$> cut_chunks) ∧
  expected [to_l "one"; to_l "two"] 0 (length <$> cut_chunks) = ([to_l "one"], "invalid header").
Proof.
  split; [|vm_compute; reflexivity].
  apply (reader_refines_sizes [to_l "one"; to_l "two"] zero_nonce zero_key cut_chunks).
  - apply (bool_decide_unpack _). vm_compute. exact I.
  - apply zero_nonce_wf.
  - apply clear_box_rejects.
  - vm_compute. reflexivity.
Defined.

Lemma long_write_witness :
  let p := replicate 5000 (chr 7) in
  let '(written, res, (out, _)) := Write append_writer p ([], NewBoxerEngine zero_nonce zero_key) in
  written = 5000 ∧ res = Ok tt ∧
  (ReadMessage (NewUnboxer [take 4096 out; drop 4096 out] zero_nonce zero_key)).1 = Err "invalid header".
Proof.
  pose proof (long_write_never_received (replicate 5000 (chr 7)) zero_nonce zero_key) as H.
  cbv zeta. destruct (Write _ _ _) as [[written res] [out e]] eqn:E.
  destruct (H [take 4096 out; drop 4096 out]) as (Hw & Hr & Hread).
  - rewrite length_replicate. vm_compute. lia.
  - apply zero_nonce_wf.
  - apply clear_box_rejects.
  - split_and!; [by rewrite Hw, length_replicate|done|]. apply Hread.
    + simpl. by rewrite app_nil_r, take_drop.
    + assert (length out = 5068) as Hlen.
      { apply (f_equal (λ x, length x.2.1)) in E. cbn in E. rewrite <-E. vm_compute. reflexivity. }
      constructor; [|constructor; [|constructor]];
        rewrite ?length_take, ?length_drop, ?Hlen; apply (bool_decide_unpack _); vm_compute; exact I.
Defined.

(** ** Codec *)
Definition demo_packet : Packet := {| Flag := 2; Req := -7; Body := to_l "{}" |}.
Lemma demo_sendable : Forall sendable [demo_packet].
Proof. repeat constructor; vm_compute; intuition congruence. Qed.
Lemma codec_roundtrip_witness :
  (receive [take 5 (enc demo_packet ++ Codec.goodbye); drop 5 (enc demo_packet ++ Codec.goodbye)] []).1 =
    ([demo_packet], Codec.Ended).
Proof.
  destruct (codec_roundtrip_chunked [demo_packet] demo_sendable) as (_ & written & Ew & H).
  assert (E : write_packets [demo_packet] [] = (Ok tt, enc demo_packet ++ Codec.goodbye)) by (vm_compute; reflexivity).
  rewrite E in Ew. injection Ew as <-. apply H; [apply take_drop|vm_compute; reflexivity].
Defined.

(** A header that announces a body of 2^32 - 1 bytes. *)
Definition huge_header : bytes := be_enc 1 1 ++ be_enc 4 (2 ^ 32 - 1) ++ be_enc 4 1.
Lemma next_packet_panics_witness : (NextPacket huge_header).1 = Panic.
Proof.
  apply next_packet_panics_iff; [vm_compute; reflexivity|]. split; vm_compute; [lia|discriminate].
Defined.
Lemma reader_agrees_witness : ReadPacket (enc demo_packet) = (Ok demo_packet, []).
Proof.
  apply reader_agrees; [vm_compute; reflexivity|vm_compute; reflexivity|vm_compute; reflexivity].
Defined.

(** ** Identifiers *)
Lemma tid_integer_witness :
  Integer (NewTIDFromInteger 5) = 5%Z ∧ ParseTID (NewTIDFromInteger 5) = Ok (NewTIDFromInteger 5) ∧
  string_lt (NewTIDFromInteger 5) (NewTIDFromInteger 77).
Proof.
  destruct (tid_integer_roundtrip 5 77) as (H1 & H2 & H3); [lia|lia|].
  split_and!; [exact H1|exact H2|]. apply H3. lia.
Defined.
Lemma clock_monotonic_witness :
  Sorted string_lt (NewTID 0 3 :: issue [10; 10; 4]%Z (NewTIDClock 3)) ∧
  Forall (λ t, ClockID t = 3%Z) (issue [10; 10; 4]%Z (NewTIDClock 3)).
Proof.
  apply (clock_monotonic [10; 10; 4]%Z (NewTIDClock 3)); [simpl; lia|simpl; lia|simpl; lia|].
  repeat constructor; simpl; lia.
Defined.

(** ** Publish queue *)
Definition demo_request (n : nat) : publishRequest := {| req_call := n; req_did := "did:plc:alice" |}.
Definition demo_lane : nat := laneIndex 2 "did:plc:alice".
Definition sent (r : option (result Queue)) : Queue := match r with Some (Ok q) => q | _ => New 2 end.
Definition queue1 : Queue := sent (enqueue 2 (demo_request 0) (New 2)).
Definition queue2 : Queue := sent (enqueue 2 (demo_request 1) queue1).
Definition queue3 : Queue := default (New 2) (start demo_lane queue2).
Definition demo_queue : Queue := default (New 2) (finish demo_lane queue3).
Lemma demo_queue_reachable : PublishQueue.reachable 2 demo_queue.
Proof.
  assert (E1 : enqueue 2 (demo_request 0) (New 2) = Some (Ok queue1)) by (vm_compute; reflexivity).
  assert (E2 : enqueue 2 (demo_request 1) queue1 = Some (Ok queue2)) by (vm_compute; reflexivity).
  assert (E3 : start demo_lane queue2 = Some queue3) by (vm_compute; reflexivity).
  assert (E4 : finish demo_lane queue3 = Some demo_queue) by (vm_compute; reflexivity).
  exact (rtc_l _ _ _ _ (StepEnqueue _ _ _ _ E1) (rtc_l _ _ _ _ (StepEnqueue _ _ _ _ E2)
    (rtc_l _ _ _ _ (StepStart _ _ _ _ E3) (rtc_l _ _ _ _ (StepFinish _ _ _ _ E4) (rtc_refl _ _))))).
Qed.
Lemma publish_order_witness :
  ∃ waiting, of_did "did:plc:alice" (accepted demo_queue) = of_did "did:plc:alice" (started demo_queue) ++ waiting.
Proof.
  destruct (publish_order 2 demo_queue "did:plc:alice") as [H _]; [lia|apply demo_queue_reachable|exact H].
Defined.
Lemma publish_drains_witness : Forall (λ lane, length lane ≤ lane_capacity)%nat (lanes demo_queue).
Proof. destruct (publish_drains 2 demo_queue) as [H _]; [lia|apply demo_queue_reachable|exact H]. Defined.

(** ** References and binary encodings *)
Definition demo_feed : FeedRef := nth_feed 1.
Lemma feed_ref_witness : ParseFeedRef (feed_string demo_feed) = Ok demo_feed.
Proof. apply feed_ref_roundtrip; [reflexivity|left]. Defined.
Lemma blob_ref_witness :
  ParseBlobRef (print_ref SigilBlob zero_key "md5") = Ok {| b_hash := zero_key |}.
Proof. apply (blob_ref_any_suffix {| b_hash := zero_key |}); vm_compute; reflexivity. Defined.
Lemma feed_bfe_witness :
  DecodeFeed (EncodeFeed "bamboo" zero_key) = Ok ("bamboo", zero_key) ∧
  DecodeFeed (EncodeFeed "unknown" zero_key) = Ok ("ed25519", zero_key).
Proof.
  split; [apply feed_bfe_roundtrip; [reflexivity|by eexists]|].
  apply (feed_bfe_roundtrip "unknown" zero_key); reflexivity.
Defined.

(** ** Tangles *)
Definition tangle_message (key : string) (parents : list string) : MessageWithTangles :=
  {| Key := key; TangleName := "post"; Root := "a"; Parents := parents; Content := "" |}.
Definition demo_tangle : list MessageWithTangles :=
  [tangle_message "c" ["b"; "a"]; tangle_message "b" ["a"]; tangle_message "a" []].
Lemma sort_correct_witness :
  let '(sorted, err) := Tangle.Sort (λ l, l) (λ l, l) (inr demo_tangle) in
  err = None ∧ sorted ≡ₚ demo_tangle.
Proof.
  pose proof (sort_correct (λ l, l) (λ l, l) (λ l, Permutation_refl l) (λ l, Permutation_refl l) demo_tangle) as H.
  assert (E0 : (Tangle.Sort (λ l, l) (λ l, l) (inr demo_tangle)).2 = None) by (vm_compute; reflexivity).
  destruct (Tangle.Sort _ _ _) as [sorted err]. cbn in E0. subst err.
  destruct H as (_ & _ & _ & _ & H); [apply (bool_decide_unpack _); vm_compute; exact I|]. split; [done|by apply H].
Defined.
Lemma depth_bounded_witness :
  (GetMessageDepth "x" [tangle_message "x" ["y"]; tangle_message "y" ["x"]] ≤ 2)%nat.
Proof.
  apply (depth_bounded "x" [tangle_message "x" ["y"]; tangle_message "y" ["x"]] 3). simpl. lia.
Defined.

(** ** The room: a subscription, a join, its delivery *)
Definition room1 : Manager := (SubscribeAttendants NewManager).2.
Definition room2 : Manager :=
  match AddAttendant demo_feed "addr" 0 room1 with Ok m => m | _ => room1 end.
Definition joined_event : AttendantEvent := {| Type_ := AttendantEventJoined; EventID := demo_feed |}.
Definition room_world : World :=
  {| manager := set_achans (subscribers room2)
       (<[0%nat := {| buf := []; Roomstate.closed := false |}]> (achans room2)) room2;
     Roomstate.streams := <[0%nat := on_event "" joined_event (Roomstate.start_stream "" [])]>
       (<[0%nat := Roomstate.start_stream "" []]> ∅) |}.
Lemma room_world_reachable : Roomstate.reachable "" room_world.
Proof.
  eapply Roomstate.reachable_step.
  - eapply Roomstate.reachable_step; [eapply Roomstate.reachable_step; [apply Roomstate.reachable_init|]|].
    + apply (Roomstate.step_subscribe "" [] 0 room1). vm_compute. reflexivity.
    + apply (Roomstate.step_manager "" (AddAttendant demo_feed "addr" 0) room2); [vm_compute; reflexivity|].
      right. right. left. by eexists _, _, _.
  - apply (Roomstate.step_receive "" 0 (Roomstate.start_stream "" []) joined_event []
      {| buf := [joined_event]; Roomstate.closed := false |}); vm_compute; reflexivity.
Qed.
Lemma attendants_converge_witness :
  view (on_event "" joined_event (Roomstate.start_stream "" [])) =
  dom (attendants (manager room_world)) ∖ {[""]}.
Proof.
  apply (attendants_converge "" room_world 0 _ {| buf := []; Roomstate.closed := false |});
    [apply room_world_reachable|vm_compute; reflexivity|vm_compute; reflexivity|reflexivity|reflexivity].
Defined.
Lemma room_never_panics_witness : is_ok (RemoveAttendant demo_feed (manager room_world)) = true.
Proof. apply (room_never_panics "" room_world demo_feed "" 0 room_world_reachable). Defined.

(** ** Replication *)
Definition real_note (s : Z) : Note := {| Seq := s; Replicate := true; Receive := true; TangleRootSeq := 0 |}.
Lemma note_roundtrip_witness : note_of (note_MarshalJSON (real_note 12)) = real_note 12.
Proof. apply note_roundtrip; [simpl; lia|]. split; [reflexivity|left; split; [reflexivity|discriminate]]. Defined.
Lemma earlier_waiter_witness :
  let '(first, s1) := WaitFor "peer" NewSessions in
  let '(second, s2) := WaitFor "peer" s1 in
  let '(_, s3) := Started "peer" s2 in
  ∃ ch1 ch2, first = Some ch1 ∧ second = Some ch2 ∧ ch1 ≠ ch2 ∧ ch1 ∉ woken s3 ∧ ch2 ∈ woken s3.
Proof.
  apply (earlier_waiter_lost "peer" NewSessions); [vm_compute; reflexivity|].
  intros ch H. by apply elem_of_empty in H.
Defined.

Definition alice : FeedRef := nth_feed 1.
Definition bob : FeedRef := nth_feed 2.
Definition carol_feed : string := feed_string (nth_feed 3).
(** A node [me] that has [s] messages of carol. *)
Definition node (me : FeedRef) (s : Z) : @Duplex unit :=
  {| matrix := {| self := feed_string me;
       frontiers := Some {[feed_string me := {[carol_feed := real_note s]}]};
       tangleFrontiers := ∅; updateCh := false |};
     sess := NewSessions; store := tt; Ebt.streams := []; written := [] |}.
Definition carol_update (s : Z) : NetworkFrontier := {[carol_feed := real_note s]}.
Definition after_update : @Duplex unit :=
  match on_frontier alice (Some bob) 0 (carol_update 2) (node alice 5) with Ok d => d | _ => node alice 5 end.
Lemma duplex_streams_witness :
  ∃ new, (Ebt.streams after_update).*2 = [] ++ new ∧
    {| hist_ID := nth_feed 3; hist_Seq := 3; Limit := -1; Live := true |} ∈ new.
Proof.
  destruct (duplex_streams_exact alice 0 bob (carol_update 2) (node alice 5) after_update) as (new & E & H);
    [vm_compute; reflexivity|]. exists new. split; [exact E|]. apply H.
  exists carol_feed, (real_note 2), (real_note 5). split_and!; try reflexivity; vm_compute; reflexivity.
Defined.
Lemma reply_iff_differs_witness : written after_update ≠ [].
Proof.
  assert (E0 : on_frontier alice (Some bob) 0 (carol_update 2) (node alice 5) = Ok after_update)
    by (vm_compute; reflexivity).
  assert (E1 : frontier_of (feed_string alice) (matrix after_update) !! carol_feed = Some (real_note 5))
    by (vm_compute; reflexivity).
  assert (E2 : frontier_of (feed_string bob) (matrix after_update) !! carol_feed = Some (real_note 2))
    by (vm_compute; reflexivity).
  intros E. destruct (proj1 (reply_iff_differs alice 0 bob _ _ _ E0) E _ _ E1) as (their & Ht & Hd).
  rewrite E2 in Ht. injection Ht as <-. discriminate Hd.
Defined.
Lemma never_settles_witness :
  ∃ answer, ping_pong 1000 alice bob (node alice 5) (node bob 2) (frontier_MarshalJSON (carol_update 2)) =
    Ok (Some answer) ∧ is_Some (answer !! carol_feed).
Proof.
  apply (replication_never_settles 1000 alice bob carol_feed (real_note 5) (real_note 2)).
  - apply (bool_decide_unpack _). vm_compute. exact I.
  - vm_compute. reflexivity.
  - split; [by eexists|vm_compute; reflexivity].
  - split; [by eexists|vm_compute; reflexivity].
  - vm_compute. reflexivity.
  - vm_compute. reflexivity.
  - vm_compute. discriminate.
  - vm_compute. reflexivity.
Defined.

(** A store with the feed [log], seen by a stream at any time. *)
Definition log_env (log : list bytes) : HistEnv :=
  {| GetMessage _ _ s :=
       match (if bool_decide (1 <= s)%Z then log !! Z.to_nat (s - 1) else None) with
       | Some m => Found m | None => NotFound end;
     GetFeedSeq _ _ := Ok (Z.of_nat (length log)); ctx_done _ := false; tx_Write _ := None;
     elapses _ := 0%Z |}.
Definition live_args (s : Z) : CreateHistArgs := {| hist_ID := alice; hist_Seq := s; Limit := -1; Live := true |}.
Lemma history_gives_up_witness :
  ∃ err, createStreamHistory 24 (log_env []) (live_args 1) 0 = ([], Some err) ∧
    (err = None ∨ err = Some "context canceled").
Proof.
  destruct (history_gives_up (log_env []) (live_args 1) 0 24) as (err & E & Herr & _);
    [reflexivity|reflexivity|intros t; reflexivity|intros t; reflexivity|lia|].
  exists err. exact (conj E Herr).
Defined.
Lemma history_delivers_witness :
  createStreamHistory 27 (log_env [to_l "a"; to_l "b"; to_l "c"]) (live_args 2) 0 =
    ([to_l "b"; to_l "c"], Some None).
Proof.
  apply (history_delivers (log_env [to_l "a"; to_l "b"; to_l "c"]) (live_args 2) [to_l "a"; to_l "b"; to_l "c"]);
    [|reflexivity|simpl; lia|simpl; lia].
  split_and!; intros; reflexivity.
Defined.
