(* ===== verification/StorageScenarios.v ===== *)
(** * Concrete runs of the message formats and the feed logs

    The theorems of bencode, BendyButt, classic messages and the feed manager
    and of the publisher and the runtime above them applied at concrete messages, the cryptography and the JSON library replaced by
    functions that can be evaluated. *)
From S2P Require Import Prelude GoStr GoBytes Base64 Refs Bfe Crypto Formats Legacy Feedlog FeedManager Publisher Runtime.
From S2P Require Bencode Bendy Ebt.
#[local] Open Scope string_scope.
#[local] Open Scope list_scope.
#[local] Open Scope Z_scope.

(** ** Signatures that show their key and the start of what they sign *)
Definition toy_sign (k : ascii) (m : bytes) : bytes := k :: take 63 (m ++ replicate 63 (chr 0)).
#[local] Instance toy_ed : Ed25519 := {
  KeyPair := ascii; Public k := replicate 32 k; ed_Sign := toy_sign;
  ed_Verify pk m s := match pk with k :: _ => bool_decide (s = toy_sign k m) | [] => false end }.
#[local] Instance toy_ed_laws : Ed25519Laws toy_ed.
Proof.
  split.
  - intros k. apply length_replicate.
  - intros k m. cbn [ed_Sign toy_ed toy_sign length]. rewrite length_take, length_app, length_replicate. lia.
  - intros k m. cbn [ed_Verify ed_Sign Public toy_ed replicate]. by apply bool_decide_eq_true_2.
Qed.
#[local] Instance toy_sha : Sha256 := { sha256 b := take 32 (b ++ replicate 32 (chr 0)) }.
#[local] Instance toy_sha_laws : Sha256Laws toy_sha.
Proof. split. intros b. cbn [sha256 toy_sha]. rewrite length_take, length_app, length_replicate. lia. Qed.

(** ** A JSON library of one author

    Every document is the first message of the author, its signature the last
    quoted string of the text. *)
Definition key : @KeyPair toy_ed := "k"%char.
Definition writer : FeedRef := {| f_algo := RefAlgoFeedSSB1; f_id := @Public toy_ed key |}.
#[local] Instance toy_json : JSON := {
  Content := bytes; content_of_string b := b; json_Unmarshal b := Some b; json_Marshal c := Ok c;
  object_fields _ := None; object_keys _ := []; array_elems _ := None;
  parseSignedMessageJSONRaw b :=
    '(_, sig) ← ExtractSignature b;
    Ok {| raw_Previous := None; raw_Author := writer; raw_Sequence := 1; raw_Timestamp := 5; raw_Hash := HashAlgorithm;
          raw_Content := to_l "7"; raw_Signature := EncodeToString StdEncoding sig +:+ signatureSuffix |} }.

Definition hello : Message :=
  {| Previous := None; Author := writer; Sequence := 1; Timestamp := 5; Hash := HashAlgorithm; content := to_l "7" : @Content toy_json |}.
Definition wire_of (sig : bytes) : bytes := match marshalWithSignature hello sig with Ok b => b | _ => [] end.
Definition genuine_sig : bytes := match Sign key hello with Ok (_, sig, _) => sig | _ => [] end.
Definition genuine : bytes := wire_of genuine_sig.
Definition forged : bytes := wire_of (replicate 64 (chr 1)).

Definition when_ok {A} (d : A) (r : result A) : A := match r with Ok a => a | _ => d end.
Definition signed_hello : MessageRef * bytes * Message :=
  when_ok ({| m_hash := []; m_algo := "" |}, [], hello) (Sign key hello).

(** Evaluates one side of an equation to the other. *)
Ltac evaluate := lazymatch goal with |- ?a = _ => vm_cast_no_check (eq_refl a) end.

Lemma sign_extract_verify_witness : ∃ signed, ExtractSignature genuine = Ok (signed, genuine_sig) ∧
  signature_Verify genuine_sig signed (Author signed_hello.2) = Ok tt.
Proof.
  assert (Ha : Author hello = {| f_algo := RefAlgoFeedSSB1; f_id := Public key |}) by exact eq_refl.
  assert (Hs : Sign key hello = Ok (signed_hello.1.1, genuine_sig, signed_hello.2)) by evaluate.
  assert (Hw : marshalWithSignature signed_hello.2 genuine_sig = Ok genuine) by evaluate.
  destruct (sign_extract_verify _ _ _ _ _ _ Ha Hs Hw) as (signed & _ & He & Hv & _). exists signed. exact (conj He Hv).
Defined.

(** ** A forged and a genuine message *)
Definition value_hash (v : bytes * Metadata) : string := of_l v.1.
Definition no_json (v : Bencode.Value) : option bytes := None.
Definition replicate_in (db : DB) (raw : bytes) : result (FeedRef * Z) * DB :=
  AppendReplicatedMessage value_hash no_json (Some default_Verify) 7 raw db.
Definition parsed (raw : bytes) : SignedMessage * bytes :=
  when_ok ({| message := hello; Signature := [] |}, []) (ParseSignedMessageJSON raw).
Definition ref_of (raw : bytes) : MessageRef := when_ok {| m_algo := ""; m_hash := [] |} (SignedMessageRefFromJSON raw).
Definition extracted (raw : bytes) : bytes * bytes := when_ok ([], []) (ExtractSignature raw).

Lemma replication_keeps_tables_witness :
  db_ok (foldl (λ db raw, (replicate_in db raw).2) empty_db [forged; genuine; to_l "junk"]).
Proof. exact (replication_keeps_tables value_hash no_json 7 (Some default_Verify) _ empty_db empty_db_ok). Defined.

Definition with_genuine : DB := (replicate_in empty_db genuine).2.
Lemma accepted_message_served_witness :
  feed_rows "other" with_genuine = feed_rows "other" empty_db ∧
  ∃ n, contiguous n (feed_rows (feed_string writer) empty_db).
Proof.
  assert (E : replicate_in empty_db genuine = (Ok (writer, 1), with_genuine)) by evaluate.
  assert (H : bool_decide (genuine = []) = false) by evaluate.
  destruct (accepted_message_served value_hash no_json 7 _ genuine empty_db writer 1 with_genuine empty_db_ok
    (proj1 (bool_decide_eq_false _) H) E) as [Hother (n & Hn & _)].
  split; [apply Hother; discriminate|exists n; exact Hn].
Defined.

Lemma forged_message_sticks_witness : ∃ e db',
  replicate_in empty_db forged = (Err e, db') ∧ GetMessage writer 1 db' = Ok forged ∧
  ∃ db'', replicate_in db' genuine = (Ok (writer, 1), db'').
Proof.
  assert (Hp : ParseSignedMessageJSON forged = Ok ((parsed forged).1, (parsed forged).2)) by evaluate.
  assert (Hr : SignedMessageRefFromJSON forged = Ok (ref_of forged)) by evaluate.
  assert (He : ExtractSignature forged = Ok ((extracted forged).1, (extracted forged).2)) by evaluate.
  assert (Hn : contiguous 0 (feed_rows (feed_string (Author (message (parsed forged).1))) empty_db))
    by exact (proj2 (contiguous_zero _) eq_refl).
  assert (Ha : Author (message (parsed forged).1) = writer) by evaluate.
  assert (Hv : ed_Verify (f_id (Author (message (parsed forged).1))) (extracted forged).1 (extracted forged).2 = false) by evaluate.
  destruct (forged_message_sticks value_hash no_json 7 _ _ _ _ _ _ _ _ empty_db_ok Hn Hp Hr eq_refl He Hv)
    as (e & db' & E & Hg & _ & Hlater). rewrite Ha in Hg, Hlater. exists e, db'. split; [exact E|]. split; [exact Hg|].
  assert (Hp' : ParseSignedMessageJSON genuine = Ok ((parsed genuine).1, (parsed genuine).2)) by evaluate.
  assert (Hr' : SignedMessageRefFromJSON genuine = Ok (ref_of genuine)) by evaluate.
  assert (Ha' : Author (message (parsed genuine).1) = writer) by evaluate.
  assert (Hs' : Sequence (message (parsed genuine).1) = 1) by evaluate.
  destruct (Hlater _ _ _ _ Hp' Hr' Ha' Hs') as (db'' & E' & _). exists db''. exact E'.
Defined.

(** ** Bencode and BendyButt *)
Definition sample : Bencode.Value :=
  Bencode.Dict [(to_l "b", Bencode.List [Bencode.Int (-3); Bencode.Nil]); (to_l "a", Bencode.Bytes (to_l "xyz"))].
Lemma sample_encodable : Bencode.encodable sample.
Proof.
  constructor; [apply (bool_decide_unpack _); vm_compute; exact I|].
  repeat constructor; by apply (bool_decide_unpack _).
Qed.
Definition encoded_sample : bytes := when_ok [] (Bencode.Encode sample).
Lemma bencode_roundtrip_witness :
  ∃ b, Bencode.Encode sample = Ok b ∧ ∀ junk, Bencode.DecodeBytes (b ++ junk) = Ok (Bencode.plain sample).
Proof. exact (Bencode.bencode_roundtrip sample sample_encodable). Defined.
Lemma decode_terminates_witness : Bencode.decodeValue 1000 encoded_sample ≠ Err "out of fuel".
Proof.
  refine (proj2 (Bencode.decode_terminates encoded_sample 1000 _)). apply Nat.leb_le. vm_compute. reflexivity.
Defined.
Lemma announced_length_panics_witness : Bencode.DecodeBytes (to_l "281474976710657:") = Panic.
Proof. exact (Bencode.announced_length_panics 281474976710657 [] ltac:(unfold Bencode.max_alloc; lia)). Defined.

Definition bendy_author : bytes := EncodeFeed "bendybutt-v1" (Public key).
Definition announcement : Bendy.Message :=
  when_ok {| Bendy.Author := []; Bendy.Sequence := 0; Bendy.Previous := []; Bendy.Timestamp := 0; Bendy.ContentSection := [];
             Bendy.Signature := [] |}
    (Bendy.CreateMessage bendy_author 1 [] 9 [(to_l "type", Bencode.Str (to_l "metafeed/announce"))] key).
Lemma announcement_storable : Bendy.storable announcement.
Proof.
  unfold Bendy.storable. remember (Bendy.ToBencode announcement) as v eqn:E. vm_compute in E. subst v.
  repeat constructor; try (vm_compute; discriminate). apply not_elem_of_nil.
Qed.
Lemma created_message_verifies_witness : ∃ m',
  Bendy.FromStoredMessage (when_ok [] (Bendy.message_Encode announcement) ++ to_l "junk") = Ok m' ∧ Bendy.Verify m' = Ok tt.
Proof.
  assert (Hc : Bendy.CreateMessage bendy_author 1 [] 9 [(to_l "type", Bencode.Str (to_l "metafeed/announce"))] key =
    Ok announcement) by evaluate.
  assert (He : Bendy.message_Encode announcement = Ok (when_ok [] (Bendy.message_Encode announcement))) by evaluate.
  destruct (proj2 (Bendy.created_message_verifies _ _ _ _ _ _ _ _ eq_refl Hc announcement_storable He) (to_l "junk"))
    as (m' & Hf & Hv & _). exists m'. exact (conj Hf Hv).
Defined.

(** ** Publishing *)
Definition own : Publisher := when_ok {| feed := writer; keyPair := key; Publisher.log := 0; receiveLog := true |} (New no_faults key true empty_db).1.
Definition own_db : DB := (New no_faults key true empty_db).2.
Lemma own_db_ok : db_ok own_db ∧ publisher_ok own own_db ∧ chain (feed own) 0 None (feed_rows (feed_string (feed own)) own_db).
Proof.
  destruct (new_publisher no_faults key true empty_db eq_refl empty_db_ok) as (p & db & E & Hok & _ & Hp & Hrows & _).
  assert (own = p) as -> by (unfold own; by rewrite E). assert (own_db = db) as -> by (unfold own_db; by rewrite E).
  split_and!; try done. rewrite Hrows. apply chain_empty.
Qed.
Definition publish_own (c : bytes) (timestamp : Z) (w : DB * unit) : result MessageRef * (DB * unit) :=
  Publish value_hash (Some default_Verify) None no_faults own c timestamp 7 w.
Definition published_own : result MessageRef * (DB * unit) := publish_own (to_l "7") 5 (own_db, tt).
Definition own_ref : MessageRef := when_ok {| m_algo := ""; m_hash := [] |} published_own.1.
Lemma published_message_served_witness : ∃ raw, GetMessage (feed own) 1 published_own.2.1 = Ok raw ∧
  NewMessageRef (HashMessage raw) = Ok own_ref.
Proof.
  destruct own_db_ok as (Hok & Hp & Hc).
  assert (E : published_own = (Ok own_ref, (published_own.2.1, tt))) by evaluate.
  destruct (published_message_served value_hash (Some default_Verify) None no_faults own 0 None (to_l "7") 5 7 own_db tt own_ref
    published_own.2.1 tt eq_refl Hok Hp Hc E) as (_ & m & sig & raw & Hg & _ & _ & _ & _ & _ & Hr).
  exists raw. exact (conj Hg Hr).
Defined.

Definition signed_own (c : bytes) : Message * bytes * MessageRef * bytes :=
  when_ok (hello, [], {| m_algo := ""; m_hash := [] |}, []) (sign_next no_faults own c 5 own_db).
Lemma concurrent_publish_forks_witness : ∃ db r1 r2 ref1 ref2,
  feed_rows (feed_string (feed own)) db !! 1 = Some r1 ∧ feed_rows (feed_string (feed own)) db !! 2 = Some r2 ∧
  published (feed own) 1 None r1 ref1 ∧ published (feed own) 1 None r2 ref2.
Proof.
  destruct own_db_ok as (Hok & Hp & Hc).
  assert (E1 : sign_next no_faults own (to_l "7") 5 own_db = Ok (signed_own (to_l "7"))) by evaluate.
  assert (E2 : sign_next no_faults own (to_l "8") 5 own_db = Ok (signed_own (to_l "8"))) by evaluate.
  destruct (concurrent_publish_forks value_hash (Some default_Verify) None own 0 None _ _ 5 5 7 7 own_db tt _ _ Hok Hp Hc E1 E2)
    as (r1 & r2 & ref1 & ref2 & H). eexists _, r1, r2, ref1, ref2. exact H.
Defined.

(** The log holds the message 1, and its row cannot be read. *)
Definition unreadable : Faults :=
  {| open_fails := None; seq_fails := None; get_fails := Some "database is locked"; append_fails := None; receive_fails := None;
     reread_fails := None |}.
Definition first_row : DB := published_own.2.1.
Definition signed_unread : MessageRef * bytes * Message :=
  when_ok ({| m_algo := ""; m_hash := [] |}, [], hello) (Sign key (unsigned own None 1 6 (to_l "8"))).
Definition raw_unread : bytes := when_ok [] (marshalWithSignature signed_unread.2 signed_unread.1.2).
Lemma first_row_ok : db_ok first_row ∧ publisher_ok own first_row ∧ contiguous 1 (feed_rows (feed_string (feed own)) first_row).
Proof.
  destruct own_db_ok as (Hok & Hp & Hc).
  destruct (publish_spec value_hash (Some default_Verify) None no_faults own 0 None (to_l "7") 5 7 own_db tt eq_refl Hok Hp Hc)
    as (res & db' & v' & E & Hok' & Hf & _ & H).
  assert (published_own = (res, (db', v'))) as E' by exact E. unfold first_row. rewrite E'. cbn [fst snd].
  split; [done|]. split; [destruct Hp; split; congruence|].
  destruct H as [(_ & _ & Hres)|(ref & r & _ & -> & _)].
  - assert (is_ok published_own.1 = true) as Hres' by evaluate. rewrite E' in Hres'. cbn [fst] in Hres'. congruence.
  - apply (contiguous_insert 0). by apply chain_contiguous in Hc.
Qed.
Lemma unread_row_restarts_feed_witness : ∃ r1 r2 ref2 db,
  (Publish value_hash (Some default_Verify) None unreadable own (to_l "8") 6 7 (first_row, tt)).2 = (db, tt) ∧
  feed_rows (feed_string (feed own)) first_row !! 1 = Some r1 ∧
  feed_rows (feed_string (feed own)) db !! 2 = Some r2 ∧ published (feed own) 1 None r2 ref2.
Proof.
  destruct first_row_ok as (Hok & Hp & Hn). pose proof (proj2 (Hn 1) ltac:(lia)) as [r1 Hr1].
  assert (E : Sign (keyPair own) (unsigned own None 1 6 (to_l "8")) = Ok (signed_unread.1.1, signed_unread.1.2, signed_unread.2)) by evaluate.
  assert (W : marshalWithSignature signed_unread.2 signed_unread.1.2 = Ok raw_unread) by evaluate.
  destruct (unread_row_restarts_feed value_hash (Some default_Verify) None unreadable own 1 (to_l "8") 6 7 first_row tt
    "database is locked" _ _ _ _ eq_refl eq_refl eq_refl Hok Hp Hn E W) as (res & db' & [] & r & Ep & Hrows & Hpub & _).
  exists r1, r, signed_unread.1.1, db'. split; [|split; [exact Hr1|split; [|exact Hpub]]].
  - exact (f_equal snd Ep).
  - rewrite Hrows. exact (lookup_insert_eq _ _ _).
Defined.

Lemma forged_message_hijacks_witness : ∃ db, next_message no_faults own db = Ok (Some (ref_of forged), 2).
Proof.
  destruct own_db_ok as (Hok & Hp & Hc).
  assert (Hm : ParseSignedMessageJSON forged = Ok ((parsed forged).1, (parsed forged).2)) by evaluate.
  assert (Hr : SignedMessageRefFromJSON forged = Ok (ref_of forged)) by evaluate.
  assert (He : ExtractSignature forged = Ok ((extracted forged).1, (extracted forged).2)) by evaluate.
  assert (Ha : Author (message (parsed forged).1) = feed own) by evaluate.
  assert (Hs : Sequence (message (parsed forged).1) = 1) by evaluate.
  assert (Hv : ed_Verify (f_id (feed own)) (extracted forged).1 (extracted forged).2 = false) by evaluate.
  destruct (forged_message_hijacks_feed value_hash no_json 7 forged _ _ _ _ _ own_db 0 own Hok Hp Ha
    (chain_contiguous _ _ _ _ Hc) Hm Hr Hs He Hv) as (e & db & _ & H). exists db. exact H.
Defined.

(** ** The runtime *)
Definition derive_first (did : string) : @KeyPair toy_ed := default key (head (to_l did)).
Definition node_feed : FeedRef := {| f_algo := RefAlgoFeedSSB1; f_id := replicate 32 "n"%char |}.
Definition fresh_node : @Runtime toy_ed :=
  {| manager := NewManager; tables := empty_db; followedFeeds := ∅; node_state := Some (Ebt.NewStateMatrix (Some node_feed)) |}.
Lemma fresh_node_ok : runtime_ok derive_first fresh_node.
Proof. apply runtime_start. reflexivity. Qed.
Definition runtime_publish (did : string) (c : string) (rt : Runtime) : result string * Runtime :=
  runtime_Publish derive_first value_hash (Some default_Verify) no_faults did (Some (to_l c)) 5 7 rt.

Definition receive_refused : Faults :=
  {| open_fails := None; seq_fails := None; get_fails := None; append_fails := None; receive_fails := Some "disk is full"; reread_fails := None |}.
Definition calls : list (Faults * string * option bytes * Z * Z) :=
  [(no_faults, "k", Some (to_l "7"), 5, 7); (receive_refused, "did", Some (to_l "7"), 5, 7);
   (no_faults, "", Some (to_l "7"), 5, 7); (no_faults, "k", None, 5, 7)].
Lemma calls_readable : Forall (λ '(f, _, _, _, _), get_fails f = None) calls.
Proof. repeat constructor. Qed.
Definition after_calls : Runtime :=
  foldl (λ rt '(f, did, content, timestamp, now),
    (runtime_Publish derive_first value_hash (Some default_Verify) f did content timestamp now rt).2) fresh_node calls.
Lemma bridged_feeds_witness : ∃ n last,
  chain (did_feed derive_first "k") n last (feed_rows (did_addr derive_first "k") (tables after_calls)).
Proof.
  pose proof (bridged_feeds_are_chains derive_first value_hash (Some default_Verify) calls fresh_node fresh_node_ok calls_readable) as H.
  exact (proj1 H "k").
Defined.
Definition after_publish : result string * Runtime := runtime_publish "k" "7" fresh_node.
Lemma publish_serves_witness : ∃ n raw, GetFeedSeq (did_feed derive_first "k") (tables after_publish.2) = Ok n ∧
  GetMessage (did_feed derive_first "k") n (tables after_publish.2) = Ok raw.
Proof.
  assert (E : after_publish = (Ok (when_ok "" after_publish.1), after_publish.2)) by evaluate.
  destruct (publish_serves_and_announces derive_first value_hash (Some default_Verify) no_faults "k" (Some (to_l "7")) 5 7 fresh_node
    _ _ eq_refl eq_refl fresh_node_ok E) as (n & ref & raw & _ & Hs & Hg & _). exists n, raw. exact (conj Hs Hg).
Defined.
