(* ===== verification/ReverseScenarios.v ===== *)
(** * Concrete runs of the reverse sync

    Two messages in the receive log of a mapped author, one that decodes and one
    that does not, and the theorems of the reverse sync applied to them. *)
From S2P Require Import Prelude GoStr GoBytes Refs Crypto MessageDB Lifecycle Processor Legacy Feedlog ReverseText ReverseDB ReverseSync ReverseProofs ReverseEcho.
From S2P Require Scenarios.
#[local] Open Scope string_scope.
#[local] Open Scope list_scope.
#[local] Open Scope Z_scope.
#[local] Existing Instance Scenarios.demo_decoder.

(** ** Collaborators *)
#[local] Instance toy_ed : Ed25519 := {
  KeyPair := ascii; Public k := replicate 32 k; ed_Sign k m := m; ed_Verify pk m s := true }.
#[local] Instance toy_sha : Sha256 := { sha256 b := take 32 (b ++ replicate 32 (chr 0)) }.
(** No document is a signed classic message. *)
#[local] Instance toy_json : JSON := {
  Content := bytes; content_of_string b := b; json_Unmarshal b := Some b; json_Marshal c := Ok c;
  object_fields _ := None; object_keys _ := []; array_elems _ := None; parseSignedMessageJSONRaw b := Err "unsigned" }.
#[local] Instance toy_float : Float64 := { float64 := Z; float_positive x := bool_decide (0 < x); float_Sprint := itoa }.
#[local] Instance toy_case : UnicodeCase := { ToLower s := s; EqualFold a b := bool_decide (a = b); Quote s := quoted s }.

Definition post_content : gmap string json :=
  <["type" := JString "post"]> (<["text" := JString "see https://example.org."]>
    {["mentions" := JArray [JObject {["link" := JString "#ssb"]}]]}).
(** The document [post] holds a post, every other one an encrypted string. *)
Definition toy_unmarshal (b : bytes) : result (gmap string json) :=
  Ok {["content" := if bool_decide (b = to_l "post") then JObject post_content else JString "c2VjcmV0.box"]}.
Definition toy_content (c : @Content toy_json) : json := JNull.

Definition created : ReverseCreatedRecord := {| URI := "at://did:plc:a/app.bsky.feed.post/1"; CID := "bafy1"; RawRecordJSON := "{}" |}.
(** The statements listed fail. *)
Definition toy_env (failing : list nat) : ReverseEnv := {|
  env_db_err n := if bool_decide (n ∈ failing) then Some "database is locked" else None;
  env_now n := Z.of_nat n; env_RFC3339 t := itoa t; env_Quote s := quoted s;
  env_blob_mime _ := None; env_blob_store := None; env_blob_fetch := None; env_close_err _ := None;
  env_credentials := {["did:plc:a" := {| Identifier := "alice"; PDSHost := "https://pds.example"; PasswordEnv := "ALICE" |}]};
  env_getenv _ := "secret"; env_host := None; env_new_session _ := None; env_upload _ := Some None;
  env_create _ := inr created; env_delete _ := None |}.
Definition env := toy_env [].

Definition alice : ReverseIdentityMapping := {| map_SSBFeedID := "@alice"; map_ATDID := "did:plc:a"; Active := true;
  AllowPosts := true; AllowReplies := false; AllowFollows := false; map_UpdatedAt := 0 |}.
Definition metadata (hash : string) : Metadata := {| md_Author := "@alice"; md_Sequence := 1; md_Previous := ""; md_Timestamp := 0;
  md_Sig := []; md_Hash := hash; md_TangleName := ""; md_Root := ""; md_Parents := []; md_FeedFormat := "";
  md_MessageFormat := ""; md_RawValue := []; md_CanonicalRef := ""; md_ValidationStatus := "" |}.
Definition log_of (msgs : list (string * string)) : DB :=
  foldl (λ db m, (receive_Append (λ _, "key") None (to_l m.2) (Some (metadata m.1)) 0 db).2) empty_db msgs.
Definition world_of (msgs : list (string * string)) : ReverseWorld := {|
  tables := {| mappings := {["@alice" := alice]}; events := ∅; bridged_accounts := [] |};
  messages := ∅; state := ∅; logs := log_of msgs; db_calls := 0; clock := 0; pds := []; fetched := [] |}.
Definition start : ReverseWorld := world_of [("%one", "post"); ("%two", "secret"); ("%three", "post")].
Definition one : source := {| src_ReceiveLogSeq := 1; src_Ref := "%one"; src_Author := "@alice"; src_Seq := Some 1; src_Raw := to_l "post" |}.
Definition process := processDecodedMessage toy_content toy_unmarshal env.
Definition after_one : ReverseWorld := (process one false start).2.

#[local] Ltac evaluate := lazymatch goal with |- ?a = _ => vm_cast_no_check (eq_refl a) end.
Lemma run_ends {W A} (m : M W A) w r : (m w).1 = r → m w = (r, (m w).2).
Proof. intros <-. apply surjective_pairing. Qed.
Lemma one_runs : process one false start = (Ok tt, after_one).
Proof. refine (run_ends (process one false) start (Ok tt) _). evaluate. Qed.
Lemma one_called : pds after_one ≠ pds start.
Proof.
  intros E. assert (length (pds after_one) = 2%nat) as Ha by evaluate. assert (length (pds start) = 0%nat) as Hs by evaluate.
  rewrite E, Hs in Ha. discriminate.
Qed.

(** ** The theorems at these runs *)
Lemma event_rows_ok_witness : rows_ok (tables start) ∧
  rows_ok (tables (foldl (λ w o, run_operation toy_content toy_unmarshal env o w) start [ORunOnce 10; ORetryEvent "%one"])).
Proof.
  assert (rows_ok (tables start)) as Hr by exact (map_Forall_empty row_ok).
  split; [exact Hr|]. exact (event_rows_ok toy_content toy_unmarshal env [ORunOnce 10; ORetryEvent "%one"] start Hr).
Defined.
(** The post is mirrored; then a batch that goes on with the other messages, a tick and
    a retry of the post itself change nothing about it. *)
Definition later : list operation := [OProcessBatch 1; ORunOnce 10; ORetryEvent "%one"].
Definition after_later : ReverseWorld := foldl (λ w o, run_operation toy_content toy_unmarshal env o w) after_one later.
Lemma mirrored_at_most_once_witness : ∃ e w3,
  process one false start = (Ok tt, after_one) ∧ pds after_one ≠ pds start ∧
  process one false after_later = (Ok tt, w3) ∧ GetReverseEvent "%one" (tables after_later) = Some e ∧
  pds w3 = pds after_later ∧ tables w3 = tables after_later.
Proof.
  assert (process one false after_later = (Ok tt, (process one false after_later).2)) as H2
    by (refine (run_ends (process one false) after_later (Ok tt) _); evaluate).
  assert (rows_ok (tables start)) as Hr by exact (map_Forall_empty row_ok).
  assert (EventState <$> GetReverseEvent "%one" (tables after_one) = Some ReverseEventStatePublished) as Hst by evaluate.
  destruct (mirrored_at_most_once toy_content toy_unmarshal env one start after_one Hr one_runs one_called) as (e & He & _ & Hlater).
  change (src_Ref one) with "%one" in *. rewrite He in Hst. injection Hst as Hst.
  destruct (Hlater later) as (He2 & Hp & _); [intros ref _ _; rewrite Hst; left|].
  exists e, (process one false after_later).2. split; [exact one_runs|]. split; [exact one_called|]. split; [exact H2|].
  split; [exact He2|]. exact (Hp _ _ H2).
Defined.

(** A failed event: the server refused the session. *)
Definition refused_env : ReverseEnv := {|
  env_db_err _ := None; env_now n := Z.of_nat n; env_RFC3339 t := itoa t; env_Quote s := quoted s;
  env_blob_mime _ := None; env_blob_store := None; env_blob_fetch := None; env_close_err _ := None;
  env_credentials := env_credentials env; env_getenv _ := "secret"; env_host := None; env_new_session _ := Some "AuthFactorTokenRequired";
  env_upload _ := Some None; env_create _ := inr created; env_delete _ := None |}.
Definition refused : ReverseWorld := (processDecodedMessage toy_content toy_unmarshal refused_env one false start).2.
Lemma retry_only_open_events_witness :
  pds (RetryEvent toy_content toy_unmarshal env "%one" refused).2 ≠ pds refused ∧
  ∃ e, GetReverseEvent "%one" (tables refused) = Some e ∧ EventState e ∉ [ReverseEventStatePublished; ReverseEventStateSkipped].
Proof.
  assert (pds (RetryEvent toy_content toy_unmarshal env "%one" refused).2 ≠ pds refused) as Hne.
  { intros E. assert (length (pds (RetryEvent toy_content toy_unmarshal env "%one" refused).2) = 3%nat) as Ha by evaluate.
    assert (length (pds refused) = 1%nat) as Hs by evaluate. rewrite E, Hs in Ha. discriminate. }
  split; [exact Hne|]. exact (retry_only_open_events toy_content toy_unmarshal env "%one" refused Hne).
Defined.

Definition first_batch : ReverseWorld := (ProcessBatch toy_content toy_unmarshal env 1 start).2.
Lemma first_batch_runs : ProcessBatch toy_content toy_unmarshal env 1 start = (Ok (1, None), first_batch).
Proof. refine (run_ends (ProcessBatch toy_content toy_unmarshal env 1) start (Ok (1, None)) _). evaluate. Qed.
Lemma start_log : receive_Seq (logs start) = Ok 3.
Proof. evaluate. Qed.
Lemma batch_progress_witness : ProcessBatch toy_content toy_unmarshal env 1 start = (Ok (1, None), first_batch) ∧ cursor (0 + 1) (state first_batch).
Proof.
  split; [exact first_batch_runs|].
  destruct (batch_progress toy_content toy_unmarshal env 1 start 0 3 1 None first_batch) as (_ & Hc & _).
  - lia.
  - right. split; reflexivity.
  - exact start_log.
  - lia.
  - exact first_batch_runs.
  - exact Hc.
Defined.

Lemma first_batch_wedged : wedged toy_content toy_unmarshal 1 first_batch.
Proof.
  split.
  - lia.
  - left. evaluate.
  - exists 3. split; [evaluate|lia].
  - exists (match receive_Get 2 (logs first_batch) with Ok m => m | _ => Build_StoredMessage "" [] zero_metadata 0 "" "" [] "" "" end).
    exists alice, "json: cannot unmarshal string into Go value of type map[string]interface {}".
    split; [evaluate|]. cbv zeta. split; [vm_compute; discriminate|]. split; [vm_compute; discriminate|].
    split; [evaluate|]. split; [evaluate|]. split; evaluate.
Qed.
(** The second message stops the scan; the third, a post, is never mirrored. *)
Lemma undecodable_message_wedges_witness : wedged toy_content toy_unmarshal 1 first_batch ∧
  pds (foldl (λ w n, (runOnce toy_content toy_unmarshal env n w).2) first_batch [100; 100; 100]) = pds first_batch.
Proof.
  split; [exact first_batch_wedged|].
  destruct (undecodable_message_wedges toy_content toy_unmarshal env [100; 100; 100] 1 first_batch first_batch_wedged) as (_ & _ & Hp). exact Hp.
Defined.

Definition forward : Lifecycle.World MessageDB.table := Build_World (messages after_one) 0 0 [] ∅ Scenarios.rest.
Definition echoed := ProcessRecord Scenarios.demo_env None None "did:plc:a" (URI created) (CID created) RecordTypePost "{}" forward.
Lemma created_record_not_echoed_witness :
  process one false start = (Ok tt, after_one) ∧ echoed.1 = Ok tt ∧ w_published echoed.2 = [].
Proof.
  split; [exact one_runs|].
  assert (∃ d coll r, list.last (pds after_one) = Some (CCreateRecord d coll r)) as (d & coll & r & Hl).
  { eexists _, _, _. vm_compute. reflexivity. }
  destruct (created_record_not_echoed toy_content toy_unmarshal env Scenarios.demo_env None one false start after_one d coll r created)
    with (pc := None : Processor.ctx) (did := "did:plc:a") (collection := RecordTypePost) (json := "{}") (pw := forward) (pw' := echoed.2) (out := echoed.1)
    as (Ho & _ & Hp).
  - exact one_runs.
  - exact one_called.
  - exact Hl.
  - reflexivity.
  - vm_compute. reflexivity.
  - vm_compute. reflexivity.
  - vm_compute. reflexivity.
  - reflexivity.
  - reflexivity.
  - exact (surjective_pairing echoed).
  - split; [exact Ho|]. rewrite Hp. reflexivity.
Defined.

Definition tag_mention : gmap string json := {["link" := JString "#ssb"]}.
Definition some_text : bytes := to_l "the #ssb at https://example.org.".
Definition resolve_none (feed : string) : M unit (option string) := mret None.
Definition some_facets : list facet := match (buildReverseFacets resolve_none some_text [tag_mention] ∅ tt).1 with Ok l => l | _ => [] end.
Lemma facets_well_placed_witness : length some_facets = 2%nat ∧
  Forall (λ f, (ByteStart f < ByteEnd f ∧ ByteEnd f <= length some_text)%nat) some_facets.
Proof.
  assert (buildReverseFacets resolve_none some_text [tag_mention] ∅ tt = (Ok some_facets, tt)) as Hb by evaluate.
  split; [vm_compute; reflexivity|]. exact (proj1 (facets_well_placed resolve_none some_text [tag_mention] ∅ some_facets tt tt Hb)).
Defined.
Lemma enrich_post_returns_witness : (∀ n, env_db_err env n = None) ∧ ∃ x w', 
  enrichReversePostRecord env "did:plc:a" "@alice" post_content {| Text := some_text; post_CreatedAt := ""; Reply := None; Facets := []; Images := [] |} start = (Ok x, w').
Proof.
  assert (∀ n, env_db_err env n = None) as Hdb by (intros n; reflexivity). split; [exact Hdb|].
  destruct (enrich_post_returns env Hdb (λ h, eq_refl) "did:plc:a" "@alice" post_content
    {| Text := some_text; post_CreatedAt := ""; Reply := None; Facets := []; Images := [] |} start) as (x & w' & E & _). by exists x, w'.
Defined.

(** The failure the code does not expect: the row of the other direction cannot be
    written after the record was created. The batch stops with an error, the next
    one finds no event and creates the record again. *)
Definition flaky := toy_env [3%nat].
Definition creations (w : ReverseWorld) : list (list ascii) :=
  omap (λ c, match c with CCreateRecord _ _ (RPost p) => Some (Text p) | _ => None end) (pds w).
Theorem record_created_twice :
  let w1 := (ProcessBatch toy_content toy_unmarshal flaky 1 start).2 in
  let w2 := (ProcessBatch toy_content toy_unmarshal flaky 1 w1).2 in
  creations w1 = [to_l "see https://example.org."] ∧ state w1 !! reverseReceiveLogSeqKey = None ∧
  creations w2 = [to_l "see https://example.org."; to_l "see https://example.org."].
Proof. vm_compute. auto. Qed.
