(* ===== verification/AtScenarios.v ===== *)
(** * Concrete runs of the repository index

    A repository of one record, fetched once, then followed by commits, and the
    theorems of the identifiers, the trees, the index and the subscriptions
    applied to it. *)
From stdpp Require Import relations.
From S2P Require Import Prelude GoStr Regex Dependencies AtSyntax RecordFetch RepoTree AtIndexDB AtIndex AtIndexProofs AtSubscribe.
#[local] Open Scope string_scope.
#[local] Open Scope list_scope.
#[local] Open Scope Z_scope.

#[local] Ltac evaluate := lazymatch goal with |- ?a = _ => vm_cast_no_check (eq_refl a) end.
Lemma run_result {W A} (m : M W A) w r : (m w).1 = r → m w = (r, (m w).2).
Proof. intros <-. apply surjective_pairing. Qed.

(** ** Collaborators *)
#[local] Instance toy_case : UnicodeCase := { ToLower s := s; EqualFold a b := bool_decide (a = b); Quote s := quoted s }.
(** A file is the revision of its commit; every repository holds the same tree. *)
Definition path_a : string := "app.bsky.feed.post/a".
Definition toy_node : NodeData :=
  {| Left := None; Entries := [{| PrefixLen := 0; KeySuffix := path_a; Val := "cid-a"; Tree := None |};
                               {| PrefixLen := 19; KeySuffix := "b"; Val := "cid-b"; Tree := None |}] |}.
#[local] Instance toy_car : CarCbor := {
  NewCarReader r := Ok {| Roots := ("root", []); Blocks := [("root", r); ("node", "NODE"); ("cid-a", "one"); ("cid-b", "two")]; ReadErr := None |};
  decode_commit b := Ok {| Did := "did:plc:a"; Version := 3; Prev := None; Data := "node"; Sig := ""; Rev := b |};
  decode_node b := if bool_decide (b = "NODE") then Ok toy_node
    else if bool_decide (b = "NEG") then Ok {| Left := None; Entries := [{| PrefixLen := -1; KeySuffix := "k"; Val := "v"; Tree := None |}] |}
    else Err "not a node" }.

Definition did : string := "did:plc:a".
Definition delete_a : RepoOp := {| op_Action := "delete"; op_Path := path_a; op_Prev := None |}.
Definition commit_of (rev since : string) (seq : Z) (ops : list (option RepoOp)) : Commit :=
  {| c_Blocks := rev; c_Commit := "commit-" +:+ rev; c_Ops := ops; c_Repo := did; c_Rev := rev; c_Seq := seq; c_Since := Some since |}.
Definition commit2 : Commit := commit_of "r2" "r1" 2 [Some delete_a].
Definition commit3 : Commit := commit_of "r3" "r2" 3 [].
Definition commit9 : Commit := commit_of "r9" "r8" 9 [Some delete_a].
(** The JSON of a commit is its revision. *)
Definition env : IndexEnv := {|
  env_now := Z.of_nat; env_db_err _ := None; env_account _ _ := Some true; env_relayURL := "wss://relay";
  env_resolver := Some (λ _ _, Ok "https://pds"); env_fetcher := Some (λ _ _ _, Ok "r1"); env_record_json b := Ok b;
  env_marshal c := Ok (c_Rev c);
  env_unmarshal s := if bool_decide (s = "r9") then Ok commit9 else if bool_decide (s = "r2") then Ok commit2 else if bool_decide (s = "r3") then Ok commit3 else Err "not a commit";
  env_pointer _ := "0xc000"; env_full _ := None |}.

(** The repository is followed; the worker reads its row, the commit [r2] arrives
    and is buffered, and the worker finishes with the snapshot at [r1]. *)
Definition row : ATProtoRepo := with_error "" (with_sync StateBackfilling (new_repo did "test")).
Definition before : IndexWorld := run env [OTrack did "test"; OStart did; OCommit (Some commit2)] new_world.
Definition snapshot : Repo :=
  match ReadRepoFromCar "r1" with Ok r => r | _ => {| commit := Build_SignedCommit "" 0 None "" "" ""; bs := ∅; root := "" |} end.
Definition finished : IndexWorld := (backfill_snapshot env row snapshot before).2.
Lemma finished_runs : backfill_snapshot env row snapshot before = (Ok tt, finished).
Proof. refine (run_result (backfill_snapshot env row snapshot) before (Ok tt) _). evaluate. Qed.

(** ** Identifiers and fetches *)
Definition uri : ATURI := {| Authority := did; Collection := "app.bsky.feed.post"; RecordKey := "a" |}.
Lemma aturi_roundtrip_witness :
  ParseATURI " at://did:plc:a/app.bsky.feed.post/a#frag" = Ok uri ∧ ParseATURI (ATURI_String (Normalize uri)) = Ok uri.
Proof.
  assert (ParseATURI " at://did:plc:a/app.bsky.feed.post/a#frag" = Ok uri) as Hu by evaluate.
  split; [exact Hu|]. apply (aturi_roundtrip " at://did:plc:a/app.bsky.feed.post/a#frag" uri Hu). evaluate.
Defined.

(** White space that stays in an authority does not survive. *)
Lemma authority_space_is_lost :
  ParseATURI "at://did:plc:a ?x" = Ok {| Authority := "did:plc:a "; Collection := ""; RecordKey := "" |} ∧
  ParseATURI (ATURI_String {| Authority := "did:plc:a "; Collection := ""; RecordKey := "" |}) =
    Ok {| Authority := "did:plc:a"; Collection := ""; RecordKey := "" |}.
Proof. split; evaluate. Qed.

(** The server of one repository answers with the URI of another one. *)
Definition victim : ATURI := {| Authority := "did:plc:victim"; Collection := "app.bsky.feed.post"; RecordKey := "forged" |}.
Definition answer : RepoGetRecord_Output (Value := string) :=
  {| out_Cid := Some "cid"; out_Uri := ATURI_String victim; out_Value := Some "payload" |}.
Definition toy_do : LexClient → string → string → string → result (RepoGetRecord_Output (Value := string)) := λ _ _ _ _, Ok answer.
Lemma victim_valid : valid victim.
Proof.
  split; [discriminate|]. split.
  - assert (forallb (λ c, negb (one_of "/?#" c)) (to_l (Authority victim)) = true) as Hc by evaluate.
    rewrite forallb_forall in Hc. intros c Hin. apply negb_true_iff, Hc. by apply list_elem_of_In.
  - split; [evaluate|]. right. split; [evaluate|]. right. evaluate.
Qed.
Lemma fetched_identity_is_the_answers_witness :
  PDSAware_FetchRecord (Ok (A := string)) toy_do None "at://did:plc:a/app.bsky.feed.post/a" =
    Ok (Build_FetchedRecord "did:plc:victim" (ATURI_String victim) "cid" "app.bsky.feed.post" "payload").
Proof.
  refine (fetched_identity_is_the_answers (Ok (A := string)) toy_do None "at://did:plc:a/app.bsky.feed.post/a" uri victim "payload" "payload"
    (Some "cid") answer _ _ _ _ _ _ victim_valid _ _).
  1: evaluate. 1,2: discriminate. 1,2,3: reflexivity. 1: evaluate. vm_compute. discriminate.
Defined.

(** ** Trees *)
Lemma snapshot_contents : contents (tree_fuel (bs snapshot)) (bs snapshot) (root snapshot) =
  Ok [(path_a, "cid-a"); ("app.bsky.feed.post/b", "cid-b")].
Proof. evaluate. Qed.
Lemma repo_reads_agree_witness :
  GetRecordBytes snapshot "app.bsky.feed.post/b" = Ok ("cid-b", "two") ∧ is_ok (GetRecordBytes snapshot "app.bsky.feed.post/c") = false.
Proof.
  destruct (repo_reads_agree snapshot _ snapshot_contents) as [_ Hget].
  split; rewrite Hget; evaluate.
Defined.

(** The tree has one node. *)
Definition toy_rank (id : string) : nat := 0.
Lemma toy_childless p c : ¬ child (bs snapshot) p c.
Proof.
  intros (n & Hn & Hc). unfold ensureLoaded in Hn. destruct (Get (bs snapshot) p) as [b| |]; [|discriminate..]. simpl in Hn.
  destruct (bool_decide (b = "NODE")) eqn:E1.
  - injection Hn as <-. destruct Hc as [Hc|(e & He & Hc)]; [discriminate|]. simpl in He.
    repeat apply elem_of_cons in He as [->|He]; try discriminate. by apply not_elem_of_nil in He.
  - destruct (bool_decide (b = "NEG")); discriminate.
Qed.
Lemma repo_reads_terminate_witness :
  (∀ p c, child (bs snapshot) p c → (toy_rank c < toy_rank p)%nat) ∧
  findRecordCID 100 (bs snapshot) "node" path_a = findRecordCID (tree_fuel (bs snapshot)) (bs snapshot) "node" path_a.
Proof.
  assert (∀ p c, child (bs snapshot) p c → (toy_rank c < toy_rank p)%nat) as Hr by (intros p c Hc; by apply toy_childless in Hc).
  split; [exact Hr|]. refine (proj2 (repo_reads_terminate (bs snapshot) toy_rank 100 "node" Hr _) path_a).
  assert ((tree_fuel (bs snapshot) <=? 100)%nat = true) as Hf by evaluate. exact (proj1 (Nat.leb_le _ _) Hf).
Defined.
Lemma negative_prefix_panics_witness : ensureLoaded {["x" := "NEG"]} "x" = Panic.
Proof.
  refine (negative_prefix_panics {["x" := "NEG"]} "x" "NEG"
    {| Left := None; Entries := [{| PrefixLen := -1; KeySuffix := "k"; Val := "v"; Tree := None |}] |} []
    {| PrefixLen := -1; KeySuffix := "k"; Val := "v"; Tree := None |} [] _ _ _ _ _).
  1,2,3: reflexivity. 1: constructor. vm_compute. reflexivity.
Defined.

(** ** The index *)
(** The database refuses the call with number seven, the append of the first event. *)
Definition refused_call : nat := 7.
Definition torn_env : IndexEnv := {|
  env_now := Z.of_nat; env_db_err n := if bool_decide (n = refused_call) then Some "database is locked" else None;
  env_account _ _ := Some true; env_relayURL := "wss://relay";
  env_resolver := Some (λ _ _, Ok "https://pds"); env_fetcher := Some (λ _ _ _, Ok "r1"); env_record_json b := Ok b;
  env_marshal c := Ok (c_Rev c); env_unmarshal s := Err "not a commit"; env_pointer _ := "0xc000"; env_full _ := None |}.
Lemma log_is_history_witness :
  (let d := db (run env [OTrack did "test"; OWorker; OCommit (Some commit2)] new_world) in
   record_view <$> records d = replay (event_log d) ∧ length (event_log d) = 3%nat) ∧
  let w := run torn_env [OTrack did "test"; OWorker] new_world in
  (size (torn (records (db w)) (event_log (db w))) ≤ failures torn_env (calls w))%nat ∧
  size (torn (records (db w)) (event_log (db w))) = 1%nat ∧ failures torn_env (calls w) = 1%nat.
Proof.
  split.
  - split; [|evaluate].
    refine (proj2 (proj2 (log_is_history env [OTrack did "test"; OWorker; OCommit (Some commit2)] _)) _); [discriminate|reflexivity].
  - split; [|split; evaluate].
    refine (proj1 (log_is_history torn_env [OTrack did "test"; OWorker] _)). discriminate.
Defined.

(** After the backfill, the successor of the snapshot is applied. *)
Definition synced : IndexWorld := run env [OTrack did "test"; OWorker] new_world.
Lemma synced_row : GetATProtoRepo did (db synced) = repos (db synced) !! did ∧
  (λ r, (SyncState r, CurrentRev r)) <$> repos (db synced) !! did = Some (StateSynced, "r1").
Proof. split; [reflexivity|evaluate]. Qed.
Lemma synced_keyed : keyed (db synced).
Proof.
  assert (forallb (λ kr : string * ATProtoRepo, bool_decide (DID kr.2 = kr.1)) (map_to_list (repos (db synced))) = true) as Hf by evaluate.
  rewrite forallb_forall in Hf. intros k r Hr. apply elem_of_map_to_list, list_elem_of_In, Hf, bool_decide_eq_true in Hr. exact Hr.
Qed.
Lemma env_waits w w' : env_full env w = Some w' → db w' = db w.
Proof. discriminate. Qed.
Lemma commits_apply_in_step_witness :
  length (event_log (db (HandleCommit env (Some commit2) synced).2)) = 3%nat ∧
  ∃ r, repos (db synced) !! did = Some r ∧ SyncState r = StateSynced ∧
    (CurrentRev r = "" ∨ follows r commit2 = true ∧ already_applied r commit2 = false).
Proof.
  assert (length (event_log (db (HandleCommit env (Some commit2) synced).2)) = 3%nat) as H3 by evaluate.
  split; [exact H3|]. destruct (commits_apply_in_step env env_waits (OCommit (Some commit2)) synced synced_keyed) as [(evt & r & [= <-] & Hr)|[[r Hr]|Hr]].
  - right. intros E. assert (length (event_log (db synced)) = 2%nat) as H2 by evaluate.
    change (event_log (db (HandleCommit env (Some commit2) synced).2) = event_log (db synced)) in E. rewrite E, H2 in H3. discriminate H3.
  - exists r. exact Hr.
  - discriminate Hr.
  - discriminate Hr.
Defined.

(** A commit whose predecessor the repository never saw, buffered during the backfill:
    the drain applies it. *)
Definition with_gap : IndexWorld := run env [OTrack did "test"; OStart did; OCommit (Some commit9)] new_world.
Lemma gap_is_drained :
  let w := (backfill_snapshot env row snapshot with_gap).2 in
  follows (with_snapshot "r1" "node" row) commit9 = false ∧
  ((λ e, (ev_ATURI e, ev_Action e, ev_Rev e)) <$> list.last (event_log (db w))) = Some (at_uri did path_a, "delete", "r9").
Proof. split; evaluate. Qed.

(** The commit [r2], buffered during the backfill, was applied; [r3] follows it, and
    desynchronises the repository. *)
Lemma drained_is_applied : length (event_log (db finished)) = 3%nat ∧ length (buffer (db finished)) = 0%nat.
Proof. split; evaluate. Qed.
Lemma snapshot_forgets_buffer_witness :
  ∃ w2 r, HandleCommit env (Some commit3) finished = (Ok tt, w2) ∧ repos (db w2) !! did = Some r ∧ SyncState r = StateDesynchronized ∧
    did ∈ queued w2 ∧ event_log (db w2) = event_log (db finished).
Proof.
  assert (∃ w2 r, HandleCommit env (Some commit3) finished = (Ok tt, w2) ∧ repos (db w2) !! DID row = Some r ∧
    SyncState r = StateDesynchronized ∧ Generation r = Generation row + 1 ∧ CurrentRev r = Rev (commit snapshot) ∧
    DID row ∈ queued w2 ∧ records (db w2) = records (db finished) ∧ event_log (db w2) = event_log (db finished)) as
    (w2 & r & Hrun & Hr & Hs & _ & _ & Hq & _ & Hlog); [|exists w2, r; split_and!; assumption].
  assert (Rev (commit snapshot) = "r1") as Hrev by evaluate.
  refine (snapshot_forgets_buffer env _ row snapshot commit3 "r3" "r2" before finished finished_runs _ _ _ _ _ _ _ _ _ _).
  1,2: reflexivity. 1: vm_compute; discriminate. 1: rewrite Hrev; discriminate. 1,2,3: reflexivity.
  - assert ((length (queue finished) <? queue_capacity)%nat = true) as Hf by evaluate. exact (proj1 (Nat.ltb_lt _ _) Hf).
  - reflexivity.
  - rewrite Hrev. discriminate.
  - rewrite Hrev. discriminate.
Defined.

(** The account is taken down while its repository is downloaded. *)
Definition taken_down : IndexWorld := run env [OTrack did "test"; OStart did;
  OAccount (Some {| a_Active := false; a_Did := did; a_Seq := 9; a_Status := Some "takendown"; a_Time := "" |})] new_world.
Definition overwritten : IndexWorld := (backfill_finish env row taken_down).2.
Lemma backfill_overwrites_row_witness :
  (λ r, (SyncState r, AccountStatus r)) <$> repos (db taken_down) !! did = Some (StateTakendown, "takendown") ∧
  ∃ r, repos (db overwritten) !! did = Some r ∧ SyncState r = StateSynced ∧ AccountStatus r = "".
Proof.
  split; [evaluate|].
  assert (backfill_finish env row taken_down = (Ok tt, overwritten)) as Hrun
    by (refine (run_result (backfill_finish env row) taken_down (Ok tt) _); evaluate).
  destruct (backfill_overwrites_row env row taken_down overwritten Hrun) as (r & Hr & Hs & _ & _ & _ & _ & Ha).
  exists r. split; [exact Hr|]. split; [exact Hs|exact Ha].
Defined.

(** ** Subscriptions *)
Lemma subscriber_sees_log_witness : ∃ s, rtc (step 1) (start 0 [ev 1] [ev 1]) s ∧ records_of (sent (sub s)) = after 0 [ev 1].
Proof.
  assert (cursors_ok [ev 1]) as Hl.
  { intros [|i] e Hi; [by injection Hi as <-|discriminate]. }
  eexists. assert (∀ s, rtc (step 1) (start 0 [ev 1] [ev 1]) s → at_phase (sub s) = Following → pending (live (sub s)) = [] →
    closed (live (sub s)) = false → unsent s = [] → records_of (sent (sub s)) = after 0 (log s)) as Hall.
  { intros s Hs. refine (proj2 (subscriber_sees_log 0 [ev 1] [ev 1] s Hl _ Hs)). right. by exists [], (ev 1). }
  assert (Hrun : rtc (step 1) (start 0 [ev 1] [ev 1]) {| log := [ev 1]; unsent := [];
    sub := {| at_phase := Following; live := {| pending := []; closed := false |}; nextCursor := 1; sent := [NRecord 1 (ev 1)]; taken := 0 |} |}).
  { eapply rtc_l; [eapply (StepGoroutine 1); reflexivity|].
    eapply rtc_l; [eapply (StepGoroutine 1); reflexivity|].
    eapply rtc_l; [apply (StepBroadcast 1 (ev 1) [] []); reflexivity|].
    eapply rtc_l; [eapply (StepGoroutine 1); reflexivity|].
    eapply rtc_l; [eapply (StepGoroutine 1); reflexivity|]. apply rtc_refl. }
  split; [exact Hrun|]. exact (Hall _ Hrun eq_refl eq_refl eq_refl eq_refl).
Defined.

Definition long_log : list ATProtoRecordEvent := map (λ i, ev (Z.of_nat i + 1)) (List.seq 0 257).
Lemma long_log_ok : cursors_ok long_log.
Proof.
  intros i e He. unfold long_log in He. rewrite list_lookup_fmap in He. apply fmap_Some in He as (j & Hj & ->).
  by apply lookup_seq in Hj as [-> _].
Qed.
Lemma long_replay_ends_witness : at_phase (iterate 259 long_log (AtSubscribe.Subscribe 0)) = Done.
Proof.
  refine (proj1 (long_replay_ends 0 long_log long_log_ok _)).
  assert ((256 <? length (after 0 long_log))%nat = true) as Hf by evaluate. exact (proj1 (Nat.ltb_lt _ _) Hf).
Defined.

(** The processor refuses the first event and accepts the second. *)
Definition picky (e : ATProtoRecordEvent) : M nat unit := λ n, if bool_decide (Cursor e = 1) then (Err "refused", n) else (Ok tt, S n).
Lemma refused_events_are_lost_witness :
  ∃ w3, consume picky (λ _, true) [NRecord 1 (ev 1); NRecord 2 (ev 2)] (0%nat, ∅) = (Ok tt, w3) ∧
    readATProtoEventCursor w3.2 = Ok 2 ∧ ev 1 ∉ after 2 [ev 1; ev 2].
Proof.
  refine (refused_events_are_lost picky (λ _, true) [NRecord 1 (ev 1)] 2 (ev 2) (0%nat, ∅) (0%nat, ∅) 1%nat [ev 1; ev 2] (ev 1) _ _ _ _ _).
  1,2,3: reflexivity. 1: lia. vm_compute. discriminate.
Defined.
