(* ===== verification/PipelineScenarios.v ===== *)
(** * Concrete runs of the ways in and out

    The follower tracker, the firehose client, backfills, identities and the ingest
    of room members at concrete inputs, and a forged message that ends as a record
    of its victim. *)
From stdpp Require Import relations.
From S2P Require Import Prelude GoStr GoBytes Regex AtSyntax Base64 Refs Identity.
From S2P Require FollowerTracker AtIndexDB AtIndex AtIndexProofs Firehose RepoTree Backfill AtScenarios Crypto Legacy Feedlog ReverseText ReverseDB ReverseSync ReverseScenarios MemberIngest.
#[local] Open Scope string_scope.
#[local] Open Scope list_scope.
#[local] Open Scope Z_scope.

#[local] Ltac evaluate := lazymatch goal with |- ?a = _ => vm_cast_no_check (eq_refl a) end.
Lemma run_gives {W A} (m : M W A) w r : (m w).1 = r → m w = (r, (m w).2).
Proof. intros <-. apply surjective_pairing. Qed.
#[local] Instance toy_case : UnicodeCase := { ToLower s := s; EqualFold a b := bool_decide (a = b); Quote s := quoted s }.

Definition peer : FeedRef := {| f_algo := RefAlgoFeedSSB1; f_id := replicate 32 "p"%char |}.

(** ** A follower *)
Module Follower.
Import FollowerTracker.
Definition tracker : FollowerTracker := NewFollowerTracker
  {| cfg_client := true; cfg_BotDID := "did:plc:bot"; cfg_BotSSBFeed := "@bot"; DebounceDelay := 0; RateLimitDur := 0; MaxFollowsPer := 1 |}.
(** A server that resolves anything, and one that resolves handles only. *)
Definition generous : TrackerEnv :=
  {| env_db_err _ := None; env_resolve _ _ := Ok "did:plc:peer"; env_create _ _ := Ok tt; env_RFC3339 t := itoa t |}.
Definition strict : TrackerEnv :=
  {| env_db_err _ := None; env_resolve _ _ := Err "InvalidRequest"; env_create _ _ := Ok tt; env_RFC3339 t := itoa t |}.
Definition k : string := feed_string peer.
Definition taken : TrackerWorld := take tracker peer [] (Announce peer (Start tracker 0 ∅)).
Definition batched : TrackerWorld := fire [k] (advance (5 * second) taken).
Definition admitted_by (env : TrackerEnv) : TrackerWorld := admit_next tracker env k [] batched.
Definition settled_by (env : TrackerEnv) : TrackerWorld := settle k [] (sync_follow tracker env peer (admitted_by env)).2.
Lemma taken_run env : reachable tracker env 0 ∅ taken.
Proof.
  eapply rtc_l; [exact (SAnnounce tracker env _ peer)|]. eapply rtc_l; [apply STake; reflexivity|]. apply rtc_refl.
Qed.
Lemma batched_run env : reachable tracker env 0 ∅ batched.
Proof.
  refine (rtc_r _ (advance (5 * second) taken) _ _ _).
  - refine (rtc_r _ taken _ (taken_run env) _). apply SWait. unfold second. lia.
  - refine (SFire tracker env _ (5 * second) [k] _ _ _ _ _); [reflexivity|reflexivity|reflexivity|vm_compute; discriminate|].
    assert (elements (dom (pending (shared (advance (5 * second) taken)))) = [k]) as -> by evaluate. reflexivity.
Qed.
Lemma settled_run env : running (loop (admitted_by env)) = true → batch (loop (admitted_by env)) = [k] →
  admitted (loop (admitted_by env)) = Some peer → reachable tracker env 0 ∅ (settled_by env).
Proof.
  intros Hr Hb Ha. refine (rtc_r _ (admitted_by env) _ _ (SFollow tracker env (admitted_by env) k [] peer Hr Hb Ha)).
  refine (rtc_r _ batched _ (batched_run env) (SAdmit tracker env batched k [] _ _ _)); reflexivity.
Qed.
Lemma generous_run : reachable tracker generous 0 ∅ (settled_by generous).
Proof. apply settled_run; evaluate. Qed.
Lemma follows_are_rate_limited_witness : windows (trace (outside (settled_by generous))) = [1%nat] ∧
  Forall (λ n, Z.of_nat n <= Z.max 0 (maxPerWindow tracker) + 1) (windows (trace (outside (settled_by generous)))).
Proof. split; [evaluate|]. exact (follows_are_rate_limited tracker generous 0 ∅ (settled_by generous) generous_run). Defined.
Lemma followed_once_witness : occurs (is_followed k) (trace (outside (settled_by generous))) = 1%nat ∧
  (occurs (is_followed k) (trace (outside (settled_by generous))) ≤ 0 + 1)%nat.
Proof.
  split; [evaluate|]. assert (occurs (is_record_failed k) (trace (outside (settled_by generous))) = O) as <- by evaluate.
  exact (proj1 (followed_once tracker generous 0 ∅ (settled_by generous) k generous_run)).
Defined.
Lemma no_announcement_forgotten_witness : unsettled k (trace (outside taken)) = true ∧
  accepted (trace (outside taken)) = [k] ++ [] ∧ (k ∈ dom (pending (shared taken)) ∨ k ∈ batch (loop taken)).
Proof.
  assert (unsettled k (trace (outside taken)) = true) as Hu by evaluate. split; [exact Hu|].
  destruct (no_announcement_forgotten tracker generous 0 ∅ taken ltac:(vm_compute; discriminate) (taken_run generous)) as (H1 & _ & H2 & _).
  split; [exact H1|exact (H2 k Hu)].
Defined.
Lemma strict_contract : resolves_handles strict.
Proof. intros n c h d _ _ Hr. discriminate Hr. Qed.
Lemma nobody_is_followed_witness : resolves_handles strict ∧ reachable tracker strict 0 ∅ (settled_by strict) ∧
  occurs is_create (trace (outside (settled_by strict))) = O.
Proof.
  assert (reachable tracker strict 0 ∅ (settled_by strict)) as Hr by (apply settled_run; evaluate).
  split; [exact strict_contract|]. split; [exact Hr|]. exact (nobody_is_followed tracker strict 0 ∅ (settled_by strict) strict_contract Hr).
Defined.
(** A feed that finds the window full is settled, without a follow. *)
Definition full : TrackerWorld := on_shared (set_count 1 0) batched.
Lemma limited_follow_is_dropped : trace (outside (admit_next tracker generous k [] full)) = [ESettled k; ELimited k; ETaken k; EAccepted k] ∧
  batch (loop (admit_next tracker generous k [] full)) = [].
Proof. split; evaluate. Qed.
(** What is posted to the server is the record alone: the repository and the
    collection are in the query. *)
Lemma follow_body_is_bare did t : lex_bodyData (follow_call tracker did t) =
  Some [("$type", "app.bsky.graph.follow"); ("subject", did); ("createdAt", t)].
Proof. reflexivity. Qed.
End Follower.

(** ** A firehose *)
Module Stream.
Import AtIndexDB AtIndex Firehose.
#[local] Existing Instance AtScenarios.toy_car.
(** A message is its type, and the sequence number of a commit of one repository. *)
Definition wire (seq : Z) : commitWire :=
  {| wire_Blocks := ""; wire_Commit := "c"; wire_Ops := [None]; wire_Repo := AtScenarios.did; wire_Rev := "r"; wire_Seq := seq; wire_Since := None |}.
#[local] Instance toy_frames : FrameCbor := {
  decode_header m := inr ({| hdr_Op := 1; MsgType := "#commit" |}, m); decode_error_frame _ := inl (new_err "no");
  decode_wire m := match ParseInt m with Some n => inr (wire n) | None => inl (new_err "no number") end;
  decode_sync _ := inl (new_err "no"); decode_identity _ := inl (new_err "no"); decode_account _ := inl (new_err "no"); decode_info _ := inl (new_err "no") }.
(** A handler that counts the commits and refuses them all. *)
Definition refusing : Handler nat := {| HandleCommit _ n := (Ok (Some (new_err "refused")), S n); HandleIdentity := None; HandleAccount := None |}.
Definition client : Client nat := NewClient "wss://relay" refusing (Some 7).
Definition query (url key value : string) : GoErr + string := inr (url +:+ "?" +:+ key +:+ "=" +:+ value).
Lemma starts_at_cursor : streamURL client query = inr "wss://relay?cursor=7".
Proof. reflexivity. Qed.
Lemma every_commit_is_handled_witness : stream_loop client [IBinary "1"; IBinary "2"; IDone (new_err "canceled")] 0%nat =
  (Ok (Returned (Some (new_err "canceled"))), 2%nat).
Proof.
  assert (Forall2 (λ m evt, commit_of m = Some evt) ["1"; "2"] [convertCommitWire (wire 1); convertCommitWire (wire 2)]) as Hm.
  { repeat constructor. }
  pose proof (every_commit_is_handled client ["1"; "2"] _ [IDone (new_err "canceled")] 0%nat Hm) as Hl. exact Hl.
Defined.

(** The network is down. *)
Definition down (i : nat) (url : string) : Dialed := DialFailed None (new_err "connection refused").
Definition no_config : ReconnectConfig := {| InitialBackoff := 0; MaxBackoff := 5 * second; Jitter := 0 |}.
Definition attempts := RunWithReconnect client query no_config down (λ _ _, 0) (λ _, None) 4 0%nat.
Lemma attempts_made : ∃ h, attempts = (Ok (h, LRunning), 0%nat) ∧ map snd h = [1250 * millisecond; 3250 * millisecond; 4250 * millisecond; 4250 * millisecond].
Proof. eexists. split; [vm_compute; reflexivity|evaluate]. Qed.
Definition waited : history := match attempts.1 with Ok (h, _) => h | _ => [] end.
Lemma attempts_run : attempts = (Ok (waited, LRunning), 0%nat).
Proof. evaluate. Qed.
Lemma waits_are_bounded_witness : 250 * millisecond <= 4250 * millisecond <= 5 * second + 750 * millisecond.
Proof.
  assert (sane (with_defaults no_config)) as Hs by (vm_compute; intuition congruence).
  assert (∀ (i : nat) n, 0 < n → 0 <= (λ _ _, 0) i n < n) as Hr by (intros; lia).
  assert (waited !! 2%nat = Some (wrap_err "failed to dial: " (new_err "connection refused"), 4250 * millisecond)) as Hk by evaluate.
  pose proof (waits_are_bounded client query no_config down (λ _ _, 0) (λ _, None) 4 0%nat waited LRunning 0%nat Hs Hr attempts_run 2%nat _ _ Hk) as Hw.
  cbv zeta in Hw. assert (base (with_defaults no_config) 2 = 5 * second) as Hb by evaluate. rewrite Hb in Hw.
  assert (Jitter (with_defaults no_config) = 750 * millisecond) as Hj by evaluate. rewrite Hj in Hw. unfold second, millisecond in *. lia.
Defined.
Lemma client_gives_up_for_a_reason_witness : attempts = (Ok (waited, LRunning), 0%nat) ∧ length waited = 4%nat.
Proof.
  split; [exact attempts_run|].
  exact (proj2 (client_gives_up_for_a_reason client query no_config down (λ _ _, 0) (λ _, None) 4 0%nat waited LRunning 0%nat attempts_run)).
Defined.
(** A relay that refuses the credentials ends the client at once. *)
Lemma unauthorized_is_fatal : RunWithReconnect client query no_config (λ _ _, DialFailed (Some 401) (new_err "bad handshake")) (λ _ _, 0) (λ _, None) 4 0%nat =
  (Ok ([], LReturned (Some (wrap_err "failed to dial (status=401): " (new_err "bad handshake")))), 0%nat).
Proof. evaluate. Qed.

(** The database is locked when the first commit arrives. *)
Definition locked : IndexEnv := {|
  env_now := Z.of_nat; env_db_err n := if bool_decide (n = 0%nat) then Some "database is locked" else None; env_account _ _ := None;
  env_relayURL := "wss://relay"; env_resolver := None; env_fetcher := None; env_record_json b := Ok b; env_marshal c := Ok (c_Rev c);
  env_unmarshal s := Err "not a commit"; env_pointer _ := "0xc000"; env_full _ := None |}.
Definition index_client : Client IndexWorld := NewClient "wss://relay" (index_handler locked new_err) None.
Definition after_refused : IndexWorld := (AtIndex.HandleCommit locked (Some (convertCommitWire (wire 1))) AtIndexProofs.new_world).2.
Definition after_later : IndexWorld := (AtIndex.HandleCommit locked (Some (convertCommitWire (wire 2))) after_refused).2.
Lemma refused_commit_is_passed_witness : stream_loop index_client [IBinary "1"; IBinary "2"] AtIndexProofs.new_world = (Ok Open, after_later) ∧
  readFirehoseCursor (Ok (GetATProtoSource sourceKey (db after_later))) (Ok None) = Ok (Some 2).
Proof.
  refine (refused_commit_is_passed locked new_err index_client (convertCommitWire (wire 1)) (convertCommitWire (wire 2)) "1" "2"
    AtIndexProofs.new_world after_refused after_later "database is locked" (Ok None) eq_refl eq_refl eq_refl _ _ _ _).
  - refine (run_gives (AtIndex.HandleCommit locked (Some (convertCommitWire (wire 1)))) _ (Err "database is locked") _). evaluate.
  - refine (run_gives (AtIndex.HandleCommit locked (Some (convertCommitWire (wire 2)))) _ (Ok tt) _). evaluate.
  - reflexivity.
  - reflexivity.
Defined.
End Stream.

(** ** A backfill of two records, of which the processor refuses one *)
Module Repository.
Import RepoTree Backfill.
#[local] Existing Instance AtScenarios.toy_car.
Definition clock : Clockwork := {| time_Parse _ s := ParseInt s; createdAt _ := Some "5" |}.
Definition processor (did uri cid collection json : string) : M (list string) unit := λ w,
  if bool_decide (json = "two") then (Err "refused", w) else (Ok tt, w ++ [uri]).
Definition everything : SinceFilter := {| since_Raw := ""; Timestamp := None; Sequence := None; SequenceNotice := "" |}.
Definition backfilled := processRepoCAR clock (Ok (A := string)) processor "r1" AtScenarios.did everything ([], no_stats).
Definition outcome : list string * Stats := (["at://did:plc:a/app.bsky.feed.post/a"], {| Processed := 1; Skipped := 0; Errors := 1 |}).
Lemma backfilled_is : backfilled = (Ok tt, outcome).
Proof. evaluate. Qed.
Lemma backfill_is_its_plan_witness : backfilled = (Ok tt, outcome) ∧ Processed outcome.2 + Skipped outcome.2 + Errors outcome.2 = 2.
Proof.
  assert (ReadRepoFromCar "r1" = Ok AtScenarios.snapshot) as Hr by evaluate.
  split; [exact backfilled_is|].
  exact (proj2 (backfill_is_its_plan clock (Ok (A := string)) processor "r1" AtScenarios.did everything AtScenarios.snapshot _ ([] : list string)
    Hr AtScenarios.snapshot_contents) outcome backfilled_is).
Defined.
(** Records of before a given time are skipped. *)
Lemma since_skips : processRepoCAR clock (Ok (A := string)) processor "r1" AtScenarios.did
  {| since_Raw := "6"; Timestamp := Some 6; Sequence := None; SequenceNotice := "" |} ([], no_stats) =
  (Ok tt, ([], {| Processed := 0; Skipped := 2; Errors := 0 |})).
Proof. evaluate. Qed.
(** Lists, list items, reposts and threadgates, which the mapper knows, are not
    backfilled. *)
Lemma collections_left_out : map isSupportedCollection [Mapper.RecordTypeRepost; Mapper.RecordTypeList; Mapper.RecordTypeListItem; Mapper.RecordTypeThreadgate] =
  [false; false; false; false].
Proof. reflexivity. Qed.
End Repository.

(** ** Identities *)
Module Names.
Definition alice_did : string := "did:plc:alice".
Definition document : DIDDocument :=
  {| doc_ID := alice_did; AlsoKnownAs := ["at://alice.test"];
     Service := [{| svc_ID := "#labeler"; svc_Type := ""; ServiceEndpoint := "https://l" |};
                 {| svc_ID := "#atproto_pds"; svc_Type := ""; ServiceEndpoint := "https://pds.example/" |}] |}.
Definition net : Network :=
  {| http_read url := if bool_decide (url = "https://alice.test/.well-known/atproto-did") then inr (alice_did, 200)
       else if bool_decide (url = "https://plc.directory/did:plc:alice") then inr ("doc", 200) else inr ("", 404);
     decode_document _ := Some document; LookupTXT _ := inl (plain_err "no such host") |}.
Definition resolved : ResolvedIdentity :=
  {| id_DID := alice_did; id_Handle := "alice.test"; Document := Some document; id_PDSURL := "https://pds.example" |}.
Lemma handle_is_verified_witness : ResolveIdentity net "" "alice.test" = inr resolved ∧ TrimSpace (doc_ID document) = alice_did.
Proof.
  assert (ResolveIdentity net "" "alice.test" = inr resolved) as Hr by evaluate. split; [exact Hr|].
  destruct (handle_is_verified net "" "alice.test" resolved eq_refl Hr) as (_ & doc & Hd & _ & Hid & _).
  injection Hd as <-. exact Hid.
Defined.
Lemma endpoints_agree_witness : service_endpoint (Service document) = inr "https://pds.example/" ∧
  first_endpoint (Service document) = "https://pds.example".
Proof.
  assert (service_endpoint (Service document) = inr "https://pds.example/") as He by reflexivity. split; [exact He|].
  refine (endpoints_agree (Service document) "https://pds.example/" _ He).
  constructor; [|constructor; [|constructor]]; (split; [reflexivity|right]).
  - exists "", "labeler". repeat split.
  - exists "", "atproto_pds". repeat split.
Defined.
Definition outage : Network := {| http_read _ := inr ("", 503); decode_document _ := None; LookupTXT _ := inr [] |}.
Lemma outage_is_blamed_on_the_account_witness : ∃ e, DIDPDSResolver (λ _, inl (plain_err "")) outage "" alice_did = inl e ∧
  classifyDIDResult (Some e) = StatusMalformedDIDDoc.
Proof.
  refine (outage_is_blamed_on_the_account outage "" (λ _, inl (plain_err "")) alice_did alice_did "" 503 _ _ _ _ _).
  - evaluate.
  - reflexivity.
  - discriminate.
  - discriminate.
  - reflexivity.
Defined.
(** The two searches differ where a document has a service without an endpoint. *)
Lemma endpoints_disagree : let l := [{| svc_ID := "#atproto_pds"; svc_Type := ""; ServiceEndpoint := "" |};
                                     {| svc_ID := "x#atproto_pds"; svc_Type := ""; ServiceEndpoint := "https://pds" |}] in
  first_endpoint l = "https://pds" ∧ service_endpoint l = inl (kind_err ErrMissingPDSEndpoint "missing atproto_pds service endpoint: empty endpoint").
Proof. split; reflexivity. Qed.
(** The port of a did:web is kept in its encoded form. *)
Lemma web_port_kept : didWebURL "did:web:localhost%3A3000" = "https://localhost%3A3000/.well-known/did.json".
Proof. reflexivity. Qed.
End Names.

(** ** A room member *)
Module Member.
Import Crypto Legacy Feedlog ReverseText ReverseDB ReverseSync MemberIngest.
(** No signature verifies. *)
#[local] Instance no_ed : Ed25519 := { KeyPair := ascii; Public k := replicate 32 k; ed_Sign k m := m; ed_Verify pk m s := false }.
#[local] Instance toy_sha : Sha256 := { sha256 b := take 32 (b ++ replicate 32 (chr 0)) }.
#[local] Instance toy_json : JSON := {
  Content := bytes; content_of_string b := b; json_Unmarshal b := Some b; json_Marshal c := Ok c;
  object_fields _ := None; object_keys _ := []; array_elems _ := None; parseSignedMessageJSONRaw b := Err "unsigned" }.
#[local] Existing Instance ReverseScenarios.toy_float.

Definition victim : string := feed_string peer.
Definition foreign_key : string := message_string {| m_algo := "bendybutt-v1"; m_hash := replicate 32 "h"%char |}.
Definition classic_key : string := message_string {| m_algo := "sha256"; m_hash := replicate 32 "h"%char |}.
Definition junk : bytes := replicate 64 "s"%char.
Definition frame (key : string) (seq : Z) : roomHistoryEnvelope :=
  {| env_Key := key; env_Value := {| v_Previous := None; v_Author := victim; v_Sequence := seq; v_Timestamp := 1; v_Hash := "sha256";
       v_Content := to_l "7"; v_Signature := EncodeToString StdEncoding junk +:+ signatureSuffix |} |}.
Definition json_of (env : roomHistoryEnvelope) : HistoryJSON := {| decode_envelope _ := Ok env; decode_direct _ := Err "no" |}.
Definition ingest (env : roomHistoryEnvelope) := ingestHistoryFrame (json_of env) (λ _, "row") (Some default_Verify) 0 [].
Definition forged : bytes := match roomHistoryRawSignedMessage (frame foreign_key 1) junk with Ok b => b | _ => [] end.
Lemma no_rows a : contiguous 0 (feed_rows a empty_db).
Proof. apply contiguous_zero. reflexivity. Qed.
Lemma forged_history_is_accepted_witness : ∃ db' msg, ingest (frame foreign_key 1) (empty_db, []) = (Ok tt, (db', [(peer, 1)])) ∧
  receive_Get 1 db' = Ok msg ∧ src_Author (stored_source 1 msg) = victim ∧ src_Raw (stored_source 1 msg) = forged.
Proof.
  destruct (forged_history_is_accepted (json_of (frame foreign_key 1)) (λ _, "row") (Some default_Verify) 0 [] (frame foreign_key 1) junk forged peer 0 empty_db [])
    as (db' & msg & Hi & Hg & Hs).
  1-5: evaluate.
  - assert (Formats.MessageFromString foreign_key = "bendybutt-v1") as Hk by evaluate. intros Hne.
    assert (Formats.MessageFromString foreign_key = Formats.MessageSHA256) as Hk' by exact Hne. rewrite Hk in Hk'. discriminate.
  - exact empty_db_ok.
  - exact (no_rows _).
  - reflexivity.
  - exists db', msg. split; [exact Hi|]. split; [exact Hg|].
    assert (stored_source 1 msg = {| src_ReceiveLogSeq := 1; src_Ref := foreign_key; src_Author := victim; src_Seq := Some 1; src_Raw := forged |}) as ->.
    { assert (TrimSpace foreign_key = foreign_key) as Hk by evaluate. assert (TrimSpace victim = victim) as Hv by evaluate.
      cbv zeta in Hs. change (TrimSpace (env_Key (frame foreign_key 1))) with (TrimSpace foreign_key) in Hs.
      change (TrimSpace (v_Author (env_Value (frame foreign_key 1)))) with (TrimSpace victim) in Hs. rewrite Hk, Hv in Hs. exact Hs. }
    split; reflexivity.
Defined.
(** Under a key of the classic format the forgery is refused by the receive log, but
    stays in the log of the victim, whose own first message is then taken for a
    duplicate. *)
Definition refused : IngestWorld := (ingest (frame classic_key 1) (empty_db, [])).2.
Lemma classic_forgery_sticks : is_ok (ingest (frame classic_key 1) (empty_db, [])).1 = false ∧
  receive_Seq refused.1 = Ok (-1) ∧ lastKnownSeq victim refused.1 = Ok 1 ∧ (ingest (frame classic_key 1) refused).1 = Ok tt.
Proof. split_and!; evaluate. Qed.
Lemma empty_db_numbered : numbered empty_db.
Proof. intros a k row Hk. change (feed_rows a empty_db) with (∅ : gmap Z Row) in Hk. by rewrite lookup_empty in Hk. Qed.
(** A frame of the victim is sent again and again, over two streams. *)
Definition streams : list (string * list bytes) := [("a", [[]; []]); ("b", [[]])].
Lemma ingest_keeps_logs_witness : db_ok empty_db ∧ numbered empty_db ∧
  let db' := (foldl (λ w s, (ingest_frames (json_of (frame foreign_key 1)) (λ _, "row") (Some default_Verify) 0 s.1 s.2 w).2) (empty_db, []) streams).1 in
  db_ok db' ∧ numbered db'.
Proof.
  split; [exact empty_db_ok|]. split; [exact empty_db_numbered|].
  destruct (ingest_keeps_logs (json_of (frame foreign_key 1)) (λ _, "row") (Some default_Verify) 0 streams empty_db [] empty_db_ok empty_db_numbered)
    as (H1 & H2 & _).
  exact (conj H1 H2).
Defined.

(** *** The forgery becomes a record of the victim *)
Definition post_content : gmap string json := <["type" := JString "post"]> {["text" := JString "I never wrote this"]}.
Definition any_post (b : bytes) : result (gmap string json) := Ok {["content" := JObject post_content]}.
Definition mapping : ReverseIdentityMapping := {| map_SSBFeedID := victim; map_ATDID := "did:plc:a"; ReverseDB.Active := true;
  AllowPosts := true; AllowReplies := false; AllowFollows := false; map_UpdatedAt := 0 |}.
Definition bridge : ReverseWorld := {|
  tables := {| mappings := {[victim := mapping]}; events := ∅; bridged_accounts := [] |};
  ReverseSync.messages := ∅; state := ∅; logs := (ingest (frame foreign_key 1) (empty_db, [])).2.1; db_calls := 0; ReverseSync.clock := 0; pds := []; fetched := [] |}.
Definition posted : list (string * bytes) :=
  omap (λ c, match c with CCreateRecord d _ (RPost p) => Some (d, Text p) | _ => None end)
    (pds (ProcessBatch (λ _ : @Content toy_json, JNull) any_post ReverseScenarios.env 10 bridge).2).
Theorem room_member_posts_as_victim : posted = [("did:plc:a", to_l "I never wrote this")].
Proof. evaluate. Qed.
End Member.
