(* ===== verification/SessionScenarios.v ===== *)
(** * Concrete MuxRPC sessions

    Two sessions over a small JSON decoder: calls that are answered, calls whose
    answers are lost, and two peers that call each other at once. *)
From stdpp Require Import gmap.
From S2P Require Import Prelude GoStr GoBytes JsonText Codec Stream Mux Session SessionProofs SessionCalls.
#[local] Open Scope string_scope.
#[local] Open Scope list_scope.
#[local] Open Scope Z_scope.

#[local] Ltac evaluate := lazymatch goal with |- ?a = _ => vm_cast_no_check (eq_refl a) end.

(** ** JSON of requests and errors, without escapes *)
Fixpoint strip (p l : bytes) : option bytes :=
  match p, l with
  | [], _ => Some l
  | a :: p, b :: l => if Ascii.eqb a b then strip p l else None
  | _, [] => None
  end.
Fixpoint until (c : ascii) (l : bytes) : bytes * bytes :=
  match l with
  | [] => ([], [])
  | a :: l => if Ascii.eqb a c then ([], l) else let r := until c l in (a :: r.1, r.2)
  end.
(** The text before the first occurrence of [sub], and after it. *)
Fixpoint cut (sub l : bytes) : option (bytes * bytes) :=
  match strip sub l with
  | Some rest => Some ([], rest)
  | None => match l with [] => None | a :: l => r ← cut sub l; Some (a :: r.1, r.2) end
  end.
Definition dq : ascii := "034"%char.
Definition q (s : string) : bytes := [dq] ++ to_l s ++ [dq].
Definition names (m : list string) : bytes := mjoin (imap (λ i s, (if bool_decide (i = O) then [] else to_l ",") ++ q s) m).
Fixpoint parse_names (fuel : nat) (l : bytes) : list string :=
  match fuel, l with
  | S fuel, c :: l =>
      if Ascii.eqb c dq then let r := until dq l in of_l r.1 :: parse_names fuel r.2 else parse_names fuel l
  | _, _ => []
  end.

Definition write_request (m : list string) (a : option bytes) (t : string) : bytes :=
  to_l "{" ++ q "name" ++ to_l ":[" ++ names m ++ to_l "]," ++ q "args" ++ to_l ":" ++ default (to_l "null") a ++ to_l "," ++
  q "type" ++ to_l ":" ++ q t ++ to_l "}".
Definition read_request (l : bytes) : option (list string * option bytes * string) :=
  l ← strip (to_l "{" ++ q "name" ++ to_l ":[") l;
  '(ms, l) ← cut (to_l "]," ++ q "args" ++ to_l ":") l;
  '(a, l) ← cut (to_l "," ++ q "type" ++ to_l ":" ++ [dq]) l;
  let '(t, l) := until dq l in
  if bool_decide (l = to_l "}") then Some (parse_names (length ms) ms, Some a, of_l t) else None.
Definition read_error (l : bytes) : option (string * string) :=
  l ← strip (to_l "{" ++ q "name" ++ to_l ":" ++ [dq]) l;
  let '(name, l) := until dq l in
  l ← strip (to_l "," ++ q "message" ++ to_l ":" ++ [dq]) l;
  let '(message, l) := until dq l in
  if bool_decide (l = to_l "}") then Some (of_l name, of_l message) else None.
#[local] Instance small_json : RpcJSON := {
  marshal_request m a t := Ok (write_request m a t);
  unmarshal_request l fields :=
    match read_request l with Some f => (Ok tt, f) | None => (Err "invalid character", fields) end;
  unmarshal_error l := if json_valid l then read_error l else None;
  marshal_manifest t := Ok (names (map_to_list t).*1);
  unmarshal_value _ := Ok tt }.


(** ** Two sessions *)
Definition client : rpc := NewRPC.
Definition server : rpc := NewRPC.
Definition whoami : list string := ["tunnel"; "isRoom"].
Definition args : option bytes := Some (to_l "[]").
Definition body : bytes := write_request whoami args "async".

Lemma empty_wf : wf NewRPC.
Proof. intros n rid Hn. simpl in Hn. by rewrite lookup_empty in Hn. Qed.
Lemma body_decodes : decodes body whoami args "async".
Proof.
  assert (E : read_request body = Some (whoami, args, "async")) by evaluate.
  intros fields. unfold unmarshal_request, small_json. by rewrite E.
Qed.
Lemma small_exchange tipe : exchange "async" tipe whoami args args client server body.
Proof. by split. Qed.


Definition refusal : string := "not allowed".
Lemma handler_error_reaches_caller_witness : read_error (error_envelope refusal) = Some ("Error", refusal) ∧
  ∃ rid c1 p, doCall "async" TypeString whoami args client = (Ok rid, c1) ∧ out c1 = [] ++ [p] ∧
  let s1 := (HandlePacket true None p server).2 in
  ∃ s2 p', CloseWithError (Some refusal) 0 s1 = (Ok tt, s2) ∧ sent s2 = [] ++ [p'] ∧
  let c2 := (HandlePacket true None p' c1).2 in
  ∀ ret, call_answer TypeString ret rid c2 = Some (Err (RemoteError_Error ("Error", refusal))).
Proof.
  split; [evaluate|].
  exact (handler_error_reaches_caller None "async" TypeString whoami args args client server body refusal
    (small_exchange TypeString) ltac:(done) ltac:(vm_compute; discriminate) ltac:(evaluate)).
Defined.


Lemma empty_answer_is_an_error_witness :
  ∃ rid c1 p, doCall "async" TypeString whoami args client = (Ok rid, c1) ∧ out c1 = [] ++ [p] ∧
  let s1 := (HandlePacket true None p server).2 in
  ∃ s2 p', Return 0 (VString []) s1 = (Ok tt, s2) ∧ sent s2 = [] ++ [p'] ∧
  let c2 := (HandlePacket true None p' c1).2 in
  ∀ ret, call_answer TypeString ret rid c2 =
    Some (Err ("muxrpc: termination frame for " +:+ Method_String whoami +:+ " should have body type set to JSON")).
Proof.
  exact (empty_answer_is_an_error None "async" TypeString whoami args args client server body (VString [])
    (small_exchange TypeString) ltac:(by left)).
Defined.

(** ** Both peers call at once *)
Definition history : list string := ["createHistoryStream"].
Definition body2 : bytes := write_request history args "source".
Lemma simultaneous_calls_witness : ∃ rid1 rid2 c1 s1 p1 p2,
  doCall "async" TypeJSON whoami args client = (Ok rid1, c1) ∧ out c1 = [] ++ [p1] ∧
  doCall "source" TypeJSON history args server = (Ok rid2, s1) ∧ out s1 = [] ++ [p2] ∧
  let c2 := (HandlePacket true None p2 c1).2 in let s2 := (HandlePacket true None p1 s1).2 in
  calls c2 = [] ∧ calls s2 = [] ∧ length (heap c2) = 1%nat ∧ length (heap s2) = 1%nat ∧
  call_answer TypeJSON RetOther rid1 c2 = Some (decode_answer TypeJSON RetOther (Ok body2)) ∧
  call_answer TypeJSON RetNil rid2 s2 = Some (decode_answer TypeJSON RetNil (Ok body)).
Proof.
  exact (simultaneous_calls_answer_each_other None 1 "async" "source" TypeJSON TypeJSON RetOther RetNil whoami history args args
    body body2 client server empty_wf empty_wf ltac:(done) eq_refl eq_refl eq_refl eq_refl
    ltac:(done) ltac:(done) ltac:(vm_compute; reflexivity) ltac:(vm_compute; reflexivity)).
Defined.
(** The caller takes the request of the other side for its answer, and is content. *)
Example the_request_is_the_answer : decode_answer TypeJSON RetOther (Ok body2) = Ok (AJSON body2).
Proof. evaluate. Qed.

(** ** Frames and histories *)
Definition called : rpc := match doCall "source" TypeJSON history args client with (_, r) => r end.
Definition frame (n flag : Z) (b : string) : Packet := {| Flag := flag; Req := n; Body := to_l b |}.
Definition traffic : list Packet :=
  [frame (-1) FlagStream "a"; frame 7 FlagStream "x"; frame (-1) FlagStream ""; frame (-1) FlagStream "b";
   frame (-1) (Z.lor FlagStream (Z.lor FlagJSON FlagEndErr)) ""; frame (-1) FlagStream "late"].
Lemma called_registered : wf called ∧ streams called !! 1 = Some 0%nat ∧
  heap called !! 0%nat = Some (call_request "source" TypeJSON 1 history args).
Proof.
  split_and!; [|reflexivity|reflexivity]. intros n rid. unfold called. simpl.
  intros [[<- <-]|[_ Hn]]%lookup_insert_Some; [by eexists|]. by rewrite lookup_empty in Hn.
Qed.
Lemma frames_are_demultiplexed_witness : deliveries 1 traffic =
    ([to_l "a"; to_l "b"], Some (frame (-1) (Z.lor FlagStream (Z.lor FlagJSON FlagEndErr)) "")) ∧
  ∃ q', heap (handle_all true None traffic called) !! 0%nat = Some q' ∧
    req_sink q' = req_sink (call_request "source" TypeJSON 1 history args) ∧
    stands_for (req_source q') (after (call_request "source" TypeJSON 1 history args) empty_queue (deliveries 1 traffic)).
Proof.
  split; [evaluate|].
  exact (frames_are_demultiplexed true None traffic called 1 0 (call_request "source" TypeJSON 1 history args) empty_queue
    (proj1 called_registered) (proj1 (proj2 called_registered)) (proj2 (proj2 called_registered)) new_stands_for eq_refl
    ltac:(repeat constructor) ltac:(reflexivity)).
Defined.

Definition uses : list source_op :=
  [OpBytes; OpWrite (to_l "a"); OpBytesWake WMore; OpWrite []; OpCancel None; OpWrite (to_l "b"); OpBytes; OpBytes; OpErr].
Lemma source_is_a_queue_witness : (run_ops run_op uses NewByteSource).1 = (run_ops spec_op uses empty_queue).1.
Proof. exact (source_is_a_queue uses ltac:(repeat constructor) ltac:(reflexivity)). Defined.

(** A call queued and registered, then the end of the connection, then another call. *)
Definition no_handlers : gmap string unit := ∅.
Definition one_call : list Request := [call_request "source" TypeJSON 1 history args].
Definition hung_up : rpc := (serve_turn false None (RError true) called).2.
Lemma called_run : ∃ ls, steps false None no_handlers ls (NewRPC, []) (called, []).
Proof.
  exists [None; None]. eapply steps_cons.
  - exact (step_start false None no_handlers "source" TypeJSON history args NewRPC [] _ _ eq_refl).
  - eapply steps_cons; [|apply steps_nil]. exact (step_register false None no_handlers _ _ [] []).
Qed.
Lemma streams_stay_well_formed_witness : wf called.
Proof. destruct called_run as [ls Hs]. exact (streams_stay_well_formed false None no_handlers ls (called, []) Hs). Defined.

Lemma hung_up_run : steps false None no_handlers [None] (hung_up, []) (Produce hung_up, []).
Proof. eapply steps_cons; [|apply steps_nil]. by apply step_produce. Qed.
Lemma disconnect_leaves_calls_waiting_witness :
  heap (Produce hung_up) !! 0%nat = Some (call_request "source" TypeJSON 1 history args) ∧
  call_answer TypeJSON RetNil 0 (Produce hung_up) = None ∧
  Next_now (req_source (call_request "source" TypeJSON 1 history args)) = None ∧
  (∀ w, fires w (req_source (call_request "source" TypeJSON 1 history args)) = true → ∃ e, w = WStream e ∨ w = WCtx e).
Proof.
  exact (disconnect_leaves_calls_waiting false None no_handlers (RError true) called [] [None] (Produce hung_up, []) 0
    (call_request "source" TypeJSON 1 history args) TypeJSON RetNil eq_refl eq_refl eq_refl eq_refl eq_refl hung_up_run
    ltac:(set_solver)).
Defined.

(** ** An answer between the queue and the map

    The packet of a call is queued before its request is registered. An answer that
    comes in between is for nobody, and the call waits for ever. *)
Definition started : rpc := (call_start "async" TypeString whoami args client).2.
Definition early : rpc := (HandlePacket false None (frame (-1) (Z.lor FlagString FlagEndErr) "yes") started).2.
Definition too_late : rpc := (call_register (call_request "async" TypeString 1 whoami args) early).2.
Example early_answer_is_lost :
  steps false None no_handlers [None; None; None] (client, []) (too_late, []) ∧ call_answer TypeString RetString 0 too_late = None.
Proof.
  split; [|reflexivity]. eapply steps_cons.
  - exact (step_start false None no_handlers "async" TypeString whoami args client [] _ _ eq_refl).
  - eapply steps_cons.
    + exact (step_read false None no_handlers (RPacket (frame (-1) (Z.lor FlagString FlagEndErr) "yes")) started
        [call_request "async" TypeString 1 whoami args] eq_refl).
    + eapply steps_cons; [|apply steps_nil]. exact (step_register false None no_handlers _ _ [] []).
Qed.

(** ** An end for a stream that is gone

    The callee ends a stream and forgets it; the end with which the caller answers is
    then a new call, of the method [unknown], refused with an error. *)
Definition late_end : Packet := frame 1 (Z.lor FlagStream (Z.lor FlagJSON FlagEndErr)) "true".
Definition refused : rpc := (HandleCall no_handlers 0 (HandlePacket true None late_end server).2).2.
Example late_end_is_a_call : Method <$> heap refused = [["unknown"]] ∧ RawArgs <$> heap refused = [Some (to_l "true")] ∧
  Body <$> sent refused = [error_envelope "no such method: unknown"].
Proof. split_and!; evaluate. Qed.

(** ** Too large *)
Definition huge : bytes := replicate (Z.to_nat (maxBufferSize + 1)) "x"%char.
Lemma huge_length : maxBufferSize < Z.of_nat (length huge).
Proof. unfold huge, maxBufferSize. rewrite length_replicate. lia. Qed.
Example huge_answer_is_lost n rid r : fresh n rid r →
  ∃ r1, Return rid (VString huge) r = (Ok tt, r1) ∧ sent r1 = sent r ∧ streams r1 = delete n (streams r).
Proof. intros Hf. by apply (oversized_answer_is_lost n rid (VString huge) huge), huge_length. Qed.

(** ** A manifest *)
Definition registered : Manifest :=
  RegisterSync "manifest" (RegisterDuplex "ebt.replicate" (RegisterSource "createHistoryStream" (RegisterAsync "room.metadata" NewManifest))).
Definition order : orders := {| o_async := ["room.metadata"]; o_source := ["createHistoryStream"]; o_sink := [];
  o_duplex := ["ebt.replicate"]; o_sync := ["manifest"] |}.
Lemma all_registered n : n ∈ all_names registered → n = "room.metadata" ∨ n = "createHistoryStream" ∨ n = "ebt.replicate" ∨ n = "manifest".
Proof. unfold all_names, registered. simpl. set_solver. Qed.
Lemma registered_flat : flat registered.
Proof.
  assert (Hne : ∀ x y p r, x ≠ y → apart (x :: p) (y :: r)).
  { intros x y p r Hxy. split; intros Hp; apply prefix_cons_inv_1 in Hp; congruence. }
  intros n Hn%all_registered. split.
  - destruct Hn as [->|[->|[->| ->]]]; (split; [done|]); repeat constructor; done.
  - intros n' Hn'%all_registered Hne'.
    destruct Hn as [->|[->|[->| ->]]], Hn' as [->|[->|[->| ->]]]; try done; apply Hne; done.
Qed.
Lemma order_walks : walks order registered.
Proof. unfold walks, registered, order. simpl. split_and!; reflexivity. Qed.
Lemma manifest_is_what_is_registered_witness : lookup_parts ["ebt"; "replicate"] (ToWireMap order) = Some "duplex" ∧
  ∃ name, name ∈ all_names registered ∧ ParseMethod name = ["ebt"; "replicate"] ∧ wire_type registered name = Some "duplex".
Proof.
  split; [evaluate|].
  exact (proj1 (manifest_is_what_is_registered registered order ["ebt"; "replicate"] "duplex" registered_flat order_walks) eq_refl).
Defined.
