(* ===== verification/RoomScenarios.v ===== *)
(** * Concrete runs of a room

    The theorems of the room applied at a small room, and the behaviours they do not
    promise, computed. *)
From stdpp Require Import gmap.
From S2P Require Import Prelude GoStr GoBytes Refs Crypto Legacy Mux Stream Session Roomstate RoomDB RoomDBProofs RoomDBSpec RoomHandlers RoomAuth RoomConn.
#[local] Open Scope string_scope.
#[local] Open Scope list_scope.
#[local] Open Scope Z_scope.
#[local] Ltac evaluate := lazymatch goal with |- ?a = _ => vm_cast_no_check (eq_refl a) end.

(** ** Libraries that can be evaluated *)
#[local] Instance toy_sha : Sha256 := { sha256 b := take 32 (b ++ replicate 32 (chr 0)) }.
#[local] Instance toy_bcrypt : Bcrypt := {
  GenerateFromPassword salt p := if bool_decide (String.length p <= 72)%nat then Ok (salt ++ to_l p) else Err "bcrypt: password length exceeds 72 bytes";
  CompareHashAndPassword h p := bool_decide (drop 1 h = to_l p) }.
#[local] Instance toy_ed : Ed25519 := {
  KeyPair := ascii; Public k := replicate 32 k; ed_Sign k m := k :: take 63 (m ++ replicate 63 (chr 0));
  ed_Verify pk m s := match pk with k :: _ => bool_decide (s = k :: take 63 (m ++ replicate 63 (chr 0))) | [] => false end }.
Definition lower (c : ascii) : ascii := if bool_decide (65 <= ord c <= 90) then chr (ord c + 32) else c.
#[local] Instance toy_case : UnicodeCase := {
  ToLower s := of_l (lower <$> to_l s); EqualFold a b := bool_decide (lower <$> to_l a = lower <$> to_l b); Quote s := quoted s }.
Lemma lower_twice c : lower (lower c) = lower c.
Proof. destruct c as [[] [] [] [] [] [] [] []]; reflexivity. Qed.
#[local] Instance toy_lower : LowerLaws toy_case.
Proof.
  split. intros s. simpl. rewrite to_of_l, <-list_fmap_compose. f_equal. apply list_fmap_ext. intros _ c _. apply lower_twice.
Qed.
(** Arguments as lines; an object has no token, and a tunnel names its target. *)
#[local] Instance toy_json : RoomJSON := {
  unmarshal_list raw := Ok (to_l <$> Split (of_l raw) newline);
  unmarshal_string raw := Ok (of_l raw); unmarshal_bytes raw := Ok raw; unmarshal_strings raw := Ok (Split (of_l raw) newline);
  unmarshal_token raw := Err "not an object";
  unmarshal_connect raw := Ok (zero_feed, zero_feed, {| f_algo := RefAlgoFeedSSB1; f_id := raw |});
  unmarshal_id _ := "" }.
#[local] Instance toy_net : GoNet := { SplitHostPort _ := None; IsLoopback _ := false }.

(** ** A room with an admin, a moderator and a guest *)
Definition no_error : string → option string := λ _, None.
Definition feed_of (k : ascii) : FeedRef := {| f_algo := RefAlgoFeedSSB1; f_id := replicate 32 k |}.
Definition room_key : FeedRef := feed_of "r".
Definition admin : FeedRef := feed_of "a".
Definition moderator : FeedRef := feed_of "m".
Definition guest : FeedRef := feed_of "g".
Definition founding : list ((string → option string) * operation) := [
  (no_error, op_mode ModeOpen); (no_error, op_add_member admin RoleAdmin); (no_error, op_add_member moderator RoleModerator)].
Definition setup : DB := run_all founding empty_db.
Lemma setup_ok : db_ok setup.
Proof. eapply (statements_ok (λ _, True)); [by apply run_all_performs|apply empty_ok]. Qed.
Definition token : string := "5-x".
Definition invited : DB := run no_error (op_create_invite 5 "x" 1) setup.
Lemma invited_ok : db_ok invited.
Proof. eapply (statements_ok (λ _, True)); [by apply run_performs|apply setup_ok]. Qed.
Definition consumed : Invite := {| inv_ID := 1; inv_UsedBy := Some guest; inv_UsedAt := 7; inv_CreatedAt := 0; inv_Active := false |}.
Definition admitted_guest : DB := (Invites_Consume no_error 7000000000 token guest invited).2.

Lemma invite_makes_a_plain_member_witness : ∃ token d1, Invites_Create (λ _, None) 5 "x" 1 setup = (Ok token, d1).
Proof.
  assert (H : is_member_id 1 setup = true) by evaluate.
  assert (Hn : find_row (has_hash (hashToken (itoa 5 +:+ "-" +:+ "x"))) (invites setup) = None) by evaluate.
  destruct (invite_makes_a_plain_member setup 5 "x" 1 setup_ok H Hn) as (t & d1 & E & _). by exists t, d1.
Defined.
Lemma invite_is_used_once_witness :
  ∃ e, Invites_Consume no_error 9 token moderator (run_all [(no_error, op_create_invite 6 "y" 1)] admitted_guest) =
    (Err e, run_all [(no_error, op_create_invite 6 "y" 1)] admitted_guest).
Proof.
  assert (H : Invites_Consume no_error 7000000000 token guest invited = (Ok consumed, admitted_guest)).
  { rewrite (surjective_pairing (Invites_Consume _ _ _ _ _)). f_equal. }
  assert (Ho : ∀ o, o ∈ [op_create_invite 6 "y" 1] → makes o ≠ Some (hashToken token)).
  { intros o ->%list_elem_of_singleton. apply (bool_decide_unpack (makes (op_create_invite 6 "y" 1) ≠ Some (hashToken token))).
    by vm_compute. }
  exact (invite_is_used_once no_error 7000000000 token guest consumed invited admitted_guest [(no_error, op_create_invite 6 "y" 1)]
    invited_ok H Ho no_error 9 moderator).
Defined.
Lemma tokens_are_a_map_witness : token_of "t" (CreateToken no_error 5 "t" 2 setup).2 = Some (2, 0).
Proof.
  assert (H : CreateToken no_error 5 "t" 2 setup = (Ok "t", (CreateToken no_error 5 "t" 2 setup).2)).
  { rewrite (surjective_pairing (CreateToken _ _ _ _ _)) at 1. f_equal. }
  destruct (tokens_are_a_map no_error setup 5 "t" "" 2 setup_ok) as [Hc _].
  destruct (Hc _ _ H) as (_ & _ & Ht). rewrite Ht. reflexivity.
Defined.

(** ** Calls *)
Definition call (method : list string) (type : string) (args : bytes) : Request := {|
  Method := method; RawArgs := Some args; CallType := type; req_sink := NewByteSink false; req_source := NewByteSource; req_id := -1 |}.
Definition from (f : FeedRef) : RemoteAddr := ShsAddr (f_id f).
Definition dial : nat → FeedRef * FeedRef * FeedRef → result unit := λ _ _, Ok tt.
Definition serve (f : FeedRef) (q : Request) : M RoomWorld answer :=
  HandleCall no_error 5 "y" (Some room_key) "room.example" true None None dial (from f) q.
Definition connect (f : FeedRef) (srv : nat) : M RoomWorld (FeedRef * bool) :=
  conn_open no_error 5 (Some room_key) true None (f_id f) "1.2.3.4" srv.
Definition room0 : RoomWorld := {| rw_db := setup; rw_state := NewManager; rw_conns := ∅ |}.
Definition in_mode (mode : Z) : RoomWorld := {| rw_db := run no_error (op_mode mode) setup; rw_state := NewManager; rw_conns := ∅ |}.
Definition sign_alias (f : FeedRef) (k : ascii) (alias : string) : bytes := @ed_Sign toy_ed k (aliasRegistrationMessage room_key f alias).
Definition register (alias : string) (signature : bytes) : Request :=
  call ["room"; "registerAlias"] "async" (to_l alias ++ [newline] ++ signature).
Definition registered : RoomWorld := (serve moderator (register " Mod" (sign_alias moderator "m" "mod")) room0).2.

Lemma room_calls_are_authorized_witness :
  owner_of "mod" (rw_db registered) = Some (feed_string moderator) ∧
  ∃ caller, getCallerFeed (from moderator) = Ok caller ∧ is_Some (role_of caller setup).
Proof.
  assert (H1 : owner_of "mod" (rw_db registered) = Some (feed_string moderator)) by evaluate.
  assert (H0 : owner_of "mod" setup = None) by evaluate. split; [exact H1|].
  destruct (room_calls_are_authorized no_error 5 "y" (Some room_key) "room.example" true None None dial (from moderator)
    (register " Mod" (sign_alias moderator "m" "mod")) room0 setup_ok) as [Ha _ _ _ _ _ _].
  destruct (Ha "mod") as (caller & Hc & Hr & _).
  { change (owner_of "mod" (rw_db registered) ≠ owner_of "mod" setup). rewrite H1, H0. discriminate. }
  exists caller. split; [exact Hc|exact Hr].
Defined.

(** A forged signature, a name that is no label, a guest, and a room in restricted mode are refused. *)
Example alias_refusals :
  (serve moderator (register "mod" (sign_alias moderator "g" "mod")) room0).1 =
    Err ("room.registerAlias: invalid signature: " +:+ ErrInvalidSignature) ∧
  (serve moderator (register "-mod" (sign_alias moderator "m" "-mod")) room0).1 = Err "room.registerAlias: invalid signature: invalid alias" ∧
  (serve guest (register "mod" (sign_alias guest "g" "mod")) room0).1 = Err "room.registerAlias: membership required" ∧
  (serve moderator (register "mod" (sign_alias moderator "m" "mod")) (in_mode ModeRestricted)).1 = Err "room.registerAlias: alias feature disabled" ∧
  (serve moderator (register "mod" (sign_alias moderator "m" "mod")) registered).1 =
    Err ("room.registerAlias: register: " +:+ unique_error "aliases.name").
Proof. split_and!; evaluate. Qed.
(** Only its owner revokes an alias. *)
Example alias_revoked :
  (serve admin (call ["room"; "revokeAlias"] "async" (to_l "MOD")) registered).1 = Err "room.revokeAlias: not owner" ∧
  owner_of "mod" (rw_db (serve moderator (call ["room"; "revokeAlias"] "async" (to_l "MOD")) registered).2) = None.
Proof. split; evaluate. Qed.

(** ** Connections *)
Definition start : Live := {| lw := {| rw_db := empty_db; rw_state := NewManager; rw_conns := ∅ |}; live := ∅ |}.
Definition db_step (l : Live) (o : operation) : Live :=
  {| lw := {| rw_db := run no_error o (rw_db (lw l)); rw_state := rw_state (lw l); rw_conns := rw_conns (lw l) |}; live := live l |}.
Definition founded : Live := db_step (db_step start (op_mode ModeOpen)) (op_add_member admin RoleAdmin).
Definition connected : Live := {| lw := (connect admin 1 (lw founded)).2; live := <[1%nat := (admin, true)]> (live founded) |}.

Lemma connected_reachable : room_reachable (Some room_key) "room.example" true None None dial connected.
Proof.
  eapply rr_step; [eapply rr_step; [eapply rr_step; [apply rr_start|exact (r_db _ _ _ _ _ _ start no_error (op_mode ModeOpen))]|
    exact (r_db _ _ _ _ _ _ _ no_error (op_add_member admin RoleAdmin))]|].
  eapply (r_open _ _ _ _ _ _ founded no_error 5 (f_id admin) "1.2.3.4" 1 admin true); [done|by intros srv f b|].
  rewrite (surjective_pairing (conn_open _ _ _ _ _ _ _ _ _)). f_equal.
Qed.
(** The connected member is removed, and stays an attendant. *)
Definition removed : Live := db_step connected (op_remove_feed admin).
Lemma attendants_connected_as_members_witness :
  is_Some (attendants (rw_state (lw removed)) !! feed_string admin) ∧ role_of admin (rw_db (lw removed)) = None.
Proof.
  split; [|evaluate]. destruct (attendants_connected_as_members (Some room_key) "room.example" true None None dial removed) as [Ha _].
  - eapply rr_step; [exact connected_reachable|exact (r_db _ _ _ _ _ _ connected no_error (op_remove_feed admin))].
  - apply Ha. exists 1%nat, admin. split; reflexivity.
Defined.
Lemma admission_and_departure_witness : is_Some (role_of admin (rw_db (lw founded))).
Proof.
  assert (H : conn_open no_error 5 (Some room_key) true None (f_id admin) "1.2.3.4" 1 (lw founded) =
    (Ok (admin, true), (connect admin 1 (lw founded)).2)).
  { rewrite (surjective_pairing (conn_open _ _ _ _ _ _ _ _ _)). f_equal. }
  destruct (admission_and_departure no_error (Some room_key) true None 5 (f_id admin) "1.2.3.4" 1 (lw founded) admin true _ H)
    as [(_ & _ & Hm & _) _]. apply Hm. reflexivity.
Defined.

(** ** What is not promised *)
(** A moderator who consumes an invite is a moderator no more. *)
Example moderator_is_demoted :
  role_of moderator invited = Some RoleModerator ∧
  role_of moderator (Invites_Consume no_error 7000000000 token moderator invited).2 = Some RoleMember.
Proof. split; evaluate. Qed.
(** Two peers that consume one invite at the same time are both let in: each finds it
    active before the other has used it. *)
Definition both : DB :=
  let d1 := (consume_select no_error token invited).2 in
  let d2 := (consume_select no_error token d1).2 in
  let d3 := (consume_member no_error guest d2).2 in
  let d4 := (consume_member no_error room_key d3).2 in
  (consume_finish no_error 7 room_key 4 consumed (consume_finish no_error 7 guest 3 consumed d4).2).2.
Example one_invite_two_members :
  is_ok (consume_select no_error token (consume_select no_error token invited).2).1 = true ∧
  role_of guest both = Some RoleMember ∧ role_of room_key both = Some RoleMember.
Proof. split_and!; evaluate. Qed.
(** A token that logs a member in also sets the member's password. *)
Definition with_password : DB :=
  run no_error (op_create_token 5 "session" 1) (run no_error (op_set_password [chr 0] 1 "old") setup).
Example login_token_sets_the_password :
  (Fallback_Check no_error "member-1" "new" with_password).1 = Err "invalid credentials" ∧
  (Fallback_Check no_error "member-1" "new" (run no_error (op_reset [chr 1] "session" "new") with_password)).1 = Ok 1.
Proof. split; evaluate. Qed.
(** A reset for a member that has no password succeeds, uses the token up, and sets none. *)
Definition without_password : DB := run no_error (op_reset_token 5 "reset" 1 2) setup.
Example reset_sets_nothing :
  (SetPasswordWithToken no_error [chr 1] "reset" "new" without_password).1 = Ok tt ∧
  token_of "reset" (run no_error (op_reset [chr 1] "reset" "new") without_password) = None ∧
  (Fallback_Check no_error "member-2" "new" (run no_error (op_reset [chr 1] "reset" "new") without_password)).1 =
    Err ("auth fallback check: " +:+ ErrNoRows).
Proof. split_and!; evaluate. Qed.
(** A denied peer is not denied while the table cannot be read. *)
Example denial_fails_open :
  let d := run no_error (op_deny 5 guest "spam") setup in
  HasFeed no_error guest d = true ∧ HasFeed (λ _, Some "database is locked") guest d = false.
Proof. split; evaluate. Qed.
(** In restricted mode nobody creates an invite with a call, and nobody from outside connects to use one. *)
Example restricted_room_is_closed :
  (serve admin (call ["room"; "createInvite"] "async" []) (in_mode ModeRestricted)).1 =
    Err "room.createInvite: invite creation disabled in restricted mode" ∧
  (connect guest 1 (in_mode ModeRestricted)).1 = Err "room: rejected restricted-mode external peer" ∧
  (connect moderator 1 (in_mode ModeRestricted)).1 = Ok (moderator, true).
Proof. split_and!; evaluate. Qed.
(** A guest of a community room may not see the attendants, but lists the announced
    peers and the members, and opens tunnels. *)
Definition community : RoomWorld := (connect guest 2 (connect admin 1 (in_mode ModeCommunity)).2).2.
Example guest_opens_tunnels :
  (serve guest (call ["room"; "attendants"] "source" []) community).1 = Err "room.attendants: membership required" ∧
  (serve guest (call ["tunnel"; "connect"] "duplex" (f_id admin)) community).1 = Ok (A_tunnel 1 guest room_key admin) ∧
  is_ok (serve guest (call ["tunnel"; "endpoints"] "source" []) community).1 = true ∧
  (serve guest (call ["room"; "members"] "source" []) community).1 =
    Ok (A_members [(1, feed_string admin, "admin"); (2, feed_string moderator, "moderator")]).
Proof. split_and!; evaluate. Qed.
(** A guest that announced itself in an open room stays announced, and its session
    registered, after it is gone. *)
Definition announced : RoomWorld := (serve guest (call ["tunnel"; "announce"] "sync" []) (connect guest 1 room0).2).2.
Definition left : RoomWorld := (conn_close no_error 6 guest false announced).2.
Example guest_never_leaves :
  (connect guest 1 room0).1 = Ok (guest, false) ∧ HasPeer guest (rw_state left) = true ∧
  Registry_Get guest (rw_conns left) = Some 1%nat.
Proof. split_and!; evaluate. Qed.
(** A member that connects twice is gone when the first connection ends. *)
Definition twice : RoomWorld := (connect admin 2 (connect admin 1 room0).2).2.
Definition first_ends : RoomWorld := (conn_close no_error 6 admin true twice).2.
Example second_connection_is_forgotten :
  Registry_Get admin (rw_conns twice) = Some 2%nat ∧ Registry_Get admin (rw_conns first_ends) = None ∧
  attendants (rw_state first_ends) !! feed_string admin = None.
Proof. split_and!; evaluate. Qed.
(** A guest of an open room makes an invite in the name of the room, joins with it, and
    is a member but no attendant until it connects again; the room's key is an admin now. *)
Definition joined : RoomWorld :=
  (serve guest (call ["room"; "join"] "async" (to_l "5-y")) (serve guest (call ["room"; "createInvite"] "async" []) (connect guest 1 room0).2).2).2.
Example guest_joins_unattended :
  role_of guest (rw_db joined) = Some RoleMember ∧ role_of room_key (rw_db joined) = Some RoleAdmin ∧
  attendants (rw_state joined) !! feed_string guest = None ∧
  attendants (rw_state (connect guest 2 joined).2) !! feed_string guest ≠ None.
Proof. split_and!; [evaluate..|]. apply (bool_decide_unpack (attendants (rw_state (connect guest 2 joined).2) !! feed_string guest ≠ None)). by vm_compute. Qed.
(** The room runtime gives [httpAuth] no key to sign with. *)
Example no_solutions :
  (serve admin (call ["httpAuth"; "requestSolution"] "async" (to_l "sc" ++ [newline] ++ to_l "cc")) room0).1 =
    Err "httpAuth.requestSolution: no keypair configured".
Proof. evaluate. Qed.
(** The bot never writes the privacy mode its room reads: a fresh room refuses every
    registration. *)
Example bot_room_has_no_mode :
  let fresh := {| rw_db := run no_error (op_add_member admin RoleAdmin) empty_db; rw_state := NewManager; rw_conns := ∅ |} in
  (AliasHandler_HandleCall no_error (Some room_key) "" (from admin) (register "adm" (sign_alias admin "a" "adm")) fresh).1 =
    Err ("room.registerAlias: get mode: room config get privacy mode: " +:+ ErrNoRows).
Proof. cbv zeta. evaluate. Qed.
(** The base of an alias. *)
Example alias_urls :
  buildAliasURL "room.example/" "mod" = "https://room.example/mod" ∧ buildAliasURL "localhost" "mod" = "http://localhost/mod" ∧
  buildAliasURL "" "a b/c" = "/a%20b%2Fc" ∧ buildAliasURL " http://x// " "mod" = "http://x/mod".
Proof. split_and!; evaluate. Qed.
